(* ===== verification/_CoqProject ===== *)
-Q . S2P
Prelude.v
Effects.v
Wp.v
RustStd.v
Sys.v
Scenario.v
Mac.v
Ch.v
NetUtil.v
Fork.v
FdLogic.v
NetSetup.v
StartVmm.v
Processes.v
NetKernel.v
NetSim.v
NetTests.v
Topology.v
Concurrent.v
Schema.v
RunSpectrumVm.v
HostSys.v
HostScenario.v
HostProto.v
Guest.v
Conversation.v
Documents.v
FileChooser.v
HostMain.v
Deployment.v
HostSystem.v
Sharing.v
Lseek.v
Tests.v
