(* ===== verification/Prelude.v ===== *)
(** * Spectrum: verification of the VM launcher and of the file-chooser portal

    Spectrum is an operating system in which applications run in virtual
    machines.  Its own programs, as opposed to its packaging, are these:

    - [host/start-vmm] (Rust, with C for the network and for forking) starts one
      VM.  It reads the VM's configuration directory, creates the API socket,
      connects the VM to a router VM with tap devices and a bridge, forks a
      process that creates the VM by running [ch-remote], and replaces itself
      with [cloud-hypervisor].
    - [tools/xdg-desktop-portal-spectrum-host] (Rust) gives the applications of
      a VM access to files the user selects on the host.  Its peer
      [tools/xdg-desktop-portal-spectrum] (C) runs in the guest, connects to it
      over vsock and announces the port of the guest's D-Bus and the directory
      where the guest sees shared files.  The host connects back through Cloud
      Hypervisor's vsock socket, serves a file chooser on the guest's bus,
      forwards requests to the host's file chooser, shares the selected files
      through the document portal and translates their URIs.
    - [scripts/run-spectrum-vm.c] runs one VM for development in a temporary root
      directory, and [tools/lseek] moves a file offset for another program.

    ** Method

    Code that does not talk to the outside is a function.  Code that does is a
    program of the free monad [prog] of [Effects]: a tree of calls, each waiting
    for an answer.  [exec p tr o] says that [p], exchanging exactly the calls and
    answers [tr], ends in [o]: it returns, panics, exits or is replaced by
    [exec].  Nothing is assumed of the answers unless a theorem says so
    ([kernel_ok], [reads_ok]), so the theorems hold for every behaviour of the
    kernel, of other processes and of peers, on every error path.  [fork] is a
    call whose answer decides which of the processes the trace is of.  [run]
    evaluates programs against a concrete handler ([Scenario], [HostScenario]);
    [exec_run] makes its runs executions, on which the theorems are instantiated.

    ** Files

    - [Prelude]: bytes, decimal and hexadecimal rendering, splitting.
    - [Effects]: [result], [prog], [exec], [run] and their lemmas.
    - [Wp]: weakest preconditions of a [prog] over a ghost state, for an
      interface [EventSpec] that says what each call requires and changes; and
      partial executions [after].
    - [RustStd]: [std::path], UTF-8 validation, [io::Error].
    - [Sys], [Scenario]: the calls of [start-vmm], its monad [M] (which threads
      [errno]), readers of traces, and a concrete kernel.
    - [Mac]: [net.rs], [MacAddress].
    - [Ch]: [ch.rs], the configuration structures with miniserde's [Serialize] as
      a class, the [ch-remote] commands, and the C entry points.
    - [NetUtil]: [net-util.c], network interfaces and bridges.
    - [Fork]: [fork.c], [fork.rs], [unix.c], [unix.rs].
    - [FdLogic]: a small logic for which descriptors a function keeps.
    - [NetSetup]: [net.c], connecting a VM to its router.
    - [StartVmm]: [lib.rs], [s6.rs], [start-vmm.rs], the program.
    - [Processes]: the tree of processes that the program makes, with the pipe
      of [double_fork], exits and adoption, as a step relation.
    - [NetKernel]: the kernel's network devices, as a relation between states
      around each call, and a program logic for it; [NetSim]: an executable
      kernel, shown to satisfy that relation.
    - [Topology]: [net.c] run on those devices: the network that [net_setup]
      makes, and its removal by the exit listener.
    - [Concurrent]: the networks of several VMs, made and removed at the same time
      by processes whose calls are interleaved on one kernel.
    - [NetTests]: the C tests of [net-util.c] ([tests/]), on those devices.
    - [Schema]: the types of [ch.rs] as a grammar of miniserde fragments, with a
      class [Typed] of the types whose serialisation conforms.
    - [Tests]: the Rust tests of [host/start-vmm] ([tests/], [lib.rs], [net.rs]).
    - [RunSpectrumVm]: [scripts/run-spectrum-vm.c].
    - [HostSys], [HostScenario]: the calls of the portal host, and a concrete
      outside.  D-Bus values and errors are the class [Zbus].
    - [HostProto]: [main.rs] up to [run_guest_connection], one guest's connection.
    - [Guest]: [xdg-desktop-portal-spectrum.c], the other end of it.
    - [Conversation]: the two programs, [Guest] and [HostProto], run against each
      other over a pair of byte streams, as a step relation.
    - [Documents]: [documents.rs], sharing a file.
    - [FileChooser]: [file_chooser.rs], with the classes [Crates] and [CratesLaws]
      for what is used and relied on of [zvariant], [percent_encoding] and [url].
    - [HostMain]: the rest of [main.rs], finding the socket and accepting guests.
    - [HostSystem]: all tasks of the host, interleaved over the [OnceLock]s, as a
      labelled step relation and an executable scheduler for it.
    - [Sharing]: an abstract vault of files and consents, which the interleaved
      host refines.
    - [Deployment]: the service scripts of [host/rootfs] and [img/app] that the
      programs meet at, and which file of the host a path in the guest is.
    - [Lseek]: [tools/lseek/lseek.c].

    ** What is shown

    Starting a VM: readiness is reported only after every command succeeded
    (C1); the hypervisor is handed the API socket it should have (C6); the
    commands and their order, on every failure (C7); that what is sent is well
    typed (C12); which disks, and that the endpoints of VMs do not collide (C22,
    C23); the repository's tests pass, in C and in Rust (C31, C32).

    Forking and networking: which of the processes becomes the hypervisor, which
    one reports readiness, and whom a signal can reach (C13); the two halves of
    [double_fork] agree (C20).  What [net_setup] makes of the host's network on
    every path (C14), that the exit listener undoes it if the kernel does what it
    can (C15), and that any number of VMs can do both at once, each with a network
    of its own (C16); no descriptors are leaked (C21); addresses do not clash
    (C29).  C35 to C37 are about errors that are lost and a device that is left
    behind.

    The portal's protocol: a guest is told the truth about its connection (C2);
    every conversation of the two programs ends, without deadlock, in agreement
    (C4); they agree on what is said (C8, C34); exactly the response line is taken
    from the vsock stream, within a bounded loop (C9, C28); the socket's path is
    inferred (C27).  C39 and C40 are about the guest accepting numbers that are
    not ports, and not noticing the end of input.

    The file chooser: every interleaved run of the host is a run of the vault
    (C3); what a guest gets for a request (C10), that it gets write access only
    with consent (C11), that its URIs stay in the share (C24), and when a
    request can panic (C30); that a request is forwarded once and as it is, and
    that nothing else is called but the document portal (C17).

    The host process: accepting guests (C26), and, by induction on interleaved
    steps, that no [OnceLock] is read too early or set twice (C5).

    All together: the services of a VM, [start-vmm] and the two portals use the
    same sockets, port and bus (C18), and the path that a guest is given for a
    file leads to that file (C19).

    The other programs: what [run-spectrum-vm] has done before it becomes another
    program (C25), and that it does not name the VM (C38); what [lseek] does (C33).

    ** Bounds

    Loops that the sources do not bound take fuel, and running out of it is the
    outcome [NoFuel], never a result.  [double_fork]'s loops need four turns when
    its pipe operations make progress (C20).  The loop of [connect_to_guest] is
    given 14 turns, one per byte of its buffer, and C28 shows they are enough.
    [write_all] in [Guest] gets one turn per byte and one more.  [poll] loops, the
    accept loop and the message loop run for as long as the outside wants: their
    theorems hold for every fuel.  In [Conversation], too, the host's message loop
    may reach its bound, but only after the guest has been answered.

    Process ids are below 10^9 where interface names are made from them (C14
    to C16; Linux gives out at most 2^22), so that the names fit.  In [Processes]
    a write to [double_fork]'s pipe is whole or fails, and reads may be cut up or
    fail; C13 is about the runs in which no read has failed, and what a failing
    read does is in C35.  In [NetKernel] nobody else changes the devices while a
    program runs, except that the router may let go of its tap when it is told to;
    in [Concurrent] other processes of [start-vmm] do, by any of their calls.
    There a listener goes on with the descriptors of the process that has left it
    behind.  The two parameters [refuses] and [declines] say whether the kernel
    may refuse calls that it could carry out, and whether commands may fail; C14
    and C16 hold for any, C15 and C31, and of C16 what it says of listeners, for a
    kernel that refuses nothing.  [NetSim] satisfies the relation in every state,
    so that it is not empty.

    ** What is not modelled

    The contents of JSON text (miniserde), D-Bus marshalling and authentication
    (zbus) and Cloud Hypervisor itself, which appear only through the calls made
    to them.  Of the kernel, network devices, processes and byte streams are
    modelled where theorems need them; packets, address configuration and file
    systems are not.  Values that Rust drops implicitly are not traced;
    [drop(conn)] and the tests' [TempDir] are.  Of the service scripts,
    [Deployment] has what they say about paths, addresses and mounts, for the time
    when everything is up; in which order s6 starts and supervises services is not
    modelled, since that is the meaning of s6 and execline, which are not part of
    the repository.  For the same reason the dispatch of D-Bus messages to the
    methods of the file chooser, which [zbus] generates, is not modelled: the
    methods are.  The Nix packaging, the boot scripts and the documentation are
    configuration and text, not code of these programs. *)

From stdpp Require Export base option list numbers sets.
From stdpp Require Export strings gmap.
From Stdlib Require Export ZArith Lia.
From Stdlib Require Import Strings.Byte.

Global Open Scope Z_scope.
Global Set Default Proof Using "Type".

(** ** Bytes and byte strings

    Paths, [OsString]s, UTF-8 [String]s and everything that travels on a
    socket are byte lists. *)

Abbreviation byte := Byte.byte.
Abbreviation bytes := (list Byte.byte).

(** [B "text"] is the byte string of an ASCII literal.  [lit] is opaque to
    simplification, so that messages stay readable in goals. *)
Definition lit (s : string) : bytes := String.list_byte_of_string s.
Global Opaque lit.
Abbreviation B s := (lit s%string).

Global Instance byte_eq_dec : EqDecision byte := Byte.byte_eq_dec.

(** The value of a [u8]. *)
Definition u8_val (b : byte) : Z := Z.of_N (Byte.to_N b).

(** The [u8] with the low eight bits of [z]. *)
Definition u8_of (z : Z) : byte :=
  match Byte.of_N (Z.to_N (z mod 256)) with Some b => b | None => Byte.x00 end.

Lemma u8_val_range b : 0 <= u8_val b < 256.
Proof.
  unfold u8_val. pose proof (Byte.to_N_bounded b). lia.
Qed.

Lemma u8_val_of z : u8_val (u8_of z) = z mod 256.
Proof.
  unfold u8_of, u8_val. pose proof (Z.mod_pos_bound z 256 ltac:(lia)) as Hr.
  destruct (Byte.of_N (Z.to_N (z mod 256))) as [b|] eqn:E.
  - apply Byte.to_of_N in E. lia.
  - apply Byte.of_N_None_iff in E. lia.
Qed.

Lemma u8_val_inj a b : u8_val a = u8_val b -> a = b.
Proof.
  unfold u8_val. intros H. apply N2Z.inj in H.
  pose proof (Byte.of_to_N a) as Ha. pose proof (Byte.of_to_N b) as Hb.
  rewrite H in Ha. congruence.
Qed.

Lemma u8_of_val b : u8_of (u8_val b) = b.
Proof.
  apply u8_val_inj. rewrite u8_val_of. apply Z.mod_small, u8_val_range.
Qed.

(** Byte strings as the keys of maps. *)
Definition byte_to_nat (b : byte) : nat := Z.to_nat (u8_val b).
Definition byte_of_nat (n : nat) : byte := u8_of (Z.of_nat n).

Global Program Instance byte_countable : Countable byte :=
  inj_countable' byte_to_nat byte_of_nat _.
Next Obligation.
  intros b. unfold byte_to_nat, byte_of_nat. pose proof (u8_val_range b).
  rewrite Z2Nat.id by lia. apply u8_of_val.
Qed.

Lemma u8_of_inj x y :
  0 <= x < 256 -> 0 <= y < 256 -> u8_of x = u8_of y -> x = y.
Proof.
  intros Hx Hy H. apply (f_equal u8_val) in H.
  rewrite !u8_val_of, !Z.mod_small in H; lia.
Qed.

(** Bytes the sources name as characters. *)
Definition NUL : byte := Byte.x00.
Definition NL : byte := Byte.x0a.
Definition SLASH : byte := Byte.x2f.
Definition DOT : byte := Byte.x2e.
Definition COMMA : byte := Byte.x2c.
Definition COLON : byte := Byte.x3a.
Definition PERCENT : byte := Byte.x25.
Definition UNDERSCORE : byte := Byte.x5f.

(** [contains] of a byte: [str::contains(char)] for an ASCII [char]. *)
Definition has_byte (c : byte) (s : bytes) : bool := bool_decide (c ∈ s).

(** [slice::starts_with] and [str::strip_prefix]. *)
Fixpoint strip_prefix (p s : bytes) : option bytes :=
  match p, s with
  | [], _ => Some s
  | _, [] => None
  | x :: p', y :: s' => if decide (x = y) then strip_prefix p' s' else None
  end.

Definition starts_with (p s : bytes) : bool :=
  match strip_prefix p s with Some _ => true | None => false end.

Lemma strip_prefix_Some p s r : strip_prefix p s = Some r <-> s = p ++ r.
Proof.
  revert s. induction p as [|x p IH]; intros [|y s]; simpl; split; intros H;
    simplify_eq; try done.
  - case_decide; simplify_eq. f_equal. by apply IH.
  - case_decide; [by apply IH | done].
Qed.

Lemma starts_with_app p s : starts_with p (p ++ s) = true.
Proof.
  unfold starts_with. destruct (strip_prefix p (p ++ s)) eqn:E; [done|].
  assert (strip_prefix p (p ++ s) = Some s) by by apply strip_prefix_Some.
  congruence.
Qed.

Lemma starts_with_true p s : starts_with p s = true <-> p `prefix_of` s.
Proof.
  unfold starts_with. split.
  - destruct (strip_prefix p s) as [r|] eqn:E; [|done]. apply strip_prefix_Some in E as ->.
    by eexists.
  - intros [r ->]. apply starts_with_app.
Qed.

Lemma starts_with_long p s t :
  (length p <= length s)%nat -> starts_with p (s ++ t) = starts_with p s.
Proof.
  intros Hl. apply eq_bool_prop_intro. rewrite !Is_true_true, !starts_with_true. split.
  - intros H. destruct (prefix_weak_total p s _ H ltac:(by eexists)) as [Hp|Hp]; [done|].
    apply prefix_length_eq in Hp; [|done]. by subst.
  - intros [r ->]. exists (r ++ t). by rewrite app_assoc.
Qed.

Lemma sandwich_inj (p q m1 m2 : bytes) : p ++ m1 ++ q = p ++ m2 ++ q -> m1 = m2.
Proof. intros H. by apply app_inv_head, app_inv_tail in H. Qed.

(** ** Splitting and joining on a separator *)

(** [split(|b| b == c)]: always at least one segment. *)
Fixpoint split_on (c : byte) (s : bytes) : list bytes :=
  match s with
  | [] => [[]]
  | x :: s' =>
      if decide (x = c) then [] :: split_on c s'
      else match split_on c s' with
           | [] => [[x]]
           | seg :: segs => (x :: seg) :: segs
           end
  end.

Fixpoint join_with (c : byte) (segs : list bytes) : bytes :=
  match segs with
  | [] => []
  | [s] => s
  | s :: rest => s ++ c :: join_with c rest
  end.

Lemma split_on_nonempty c s : split_on c s <> [].
Proof.
  induction s as [|x s IH]; simpl; [done|].
  case_decide; [done|]. by destruct (split_on c s).
Qed.

Lemma split_on_none c s : c ∉ s -> split_on c s = [s].
Proof.
  induction s as [|x s IH]; simpl; [done|]. intros H.
  apply not_elem_of_cons in H as [Hx Hs].
  rewrite decide_False by congruence. by rewrite IH.
Qed.

Lemma split_on_app_sep c s t :
  split_on c (s ++ c :: t) = split_on c s ++ split_on c t.
Proof.
  induction s as [|x s IH]; simpl.
  - by rewrite decide_True by done.
  - rewrite IH. case_decide; [done|].
    pose proof (split_on_nonempty c s). by destruct (split_on c s).
Qed.

Lemma split_on_no_sep c s seg : seg ∈ split_on c s -> c ∉ seg.
Proof.
  revert seg. induction s as [|x s IH]; simpl; intros seg H.
  - apply list_elem_of_singleton in H as ->. apply not_elem_of_nil.
  - destruct (decide (x = c)) as [->|Hx].
    + apply elem_of_cons in H as [->|H]; [apply not_elem_of_nil|by apply IH].
    + destruct (split_on c s) as [|seg0 segs]; apply elem_of_cons in H as [->|H].
      * apply not_elem_of_cons. split; [done|apply not_elem_of_nil].
      * by apply not_elem_of_nil in H.
      * apply not_elem_of_cons. split; [done|]. apply IH, elem_of_cons. by left.
      * apply IH, elem_of_cons. by right.
Qed.

Lemma join_split c s : join_with c (split_on c s) = s.
Proof.
  induction s as [|x s IH]; simpl; [done|].
  pose proof (split_on_nonempty c s) as Hne.
  case_decide as Hc.
  - subst. destruct (split_on c s) as [|seg segs]; [done|]. simpl in *. by rewrite IH.
  - destruct (split_on c s) as [|seg [|seg' segs]]; simpl in *; [done|by rewrite IH..].
Qed.

(** ** Decimal and hexadecimal rendering *)

Definition digit (d : Z) : byte := u8_of (48 + d).

Definition is_digit (b : byte) : bool :=
  (48 <=? u8_val b) && (u8_val b <=? 57).

Fixpoint dec_digits (fuel : nat) (n : Z) : bytes :=
  match fuel with
  | O => []
  | S f => if n <? 10 then [digit n]
           else dec_digits f (n / 10) ++ [digit (n mod 10)]
  end.

(** [{}] of an integer.  [S (log2 n)] digits are always enough. *)
Definition dec (z : Z) : bytes :=
  if z <? 0 then Byte.x2d :: dec_digits (S (Z.to_nat (Z.log2 (- z)))) (- z)
  else dec_digits (S (Z.to_nat (Z.log2 z))) z.

(** [{:X}] of a number below 16 and [{:02X}] of a [u8]. *)
Definition hex_digit (d : Z) : byte :=
  if d <? 10 then u8_of (48 + d) else u8_of (55 + d).

Definition hex2 (b : byte) : bytes :=
  [hex_digit (u8_val b / 16); hex_digit (u8_val b mod 16)].

Lemma is_digit_digit d : 0 <= d < 10 -> is_digit (digit d) = true.
Proof.
  intros H. unfold is_digit, digit. rewrite u8_val_of, Z.mod_small by lia.
  apply andb_true_intro. split; apply Z.leb_le; lia.
Qed.

Lemma dec_digits_all fuel n :
  0 <= n -> Forall (fun b => is_digit b = true) (dec_digits fuel n).
Proof.
  revert n. induction fuel as [|f IH]; intros n Hn; simpl; [done|].
  destruct (Z.ltb_spec n 10).
  - constructor; [by apply is_digit_digit; lia | done].
  - apply Forall_app. split.
    + apply IH, Z.div_pos; lia.
    + constructor; [|done]. apply is_digit_digit.
      pose proof (Z.mod_pos_bound n 10). lia.
Qed.

Lemma dec_digits_length_le fuel n k :
  0 <= n < 10 ^ Z.of_nat k -> (0 < k)%nat -> (length (dec_digits fuel n) <= k)%nat.
Proof.
  revert n k. induction fuel as [|f IH]; intros n k Hn Hk; simpl; [lia|].
  destruct (Z.ltb_spec n 10); simpl; [lia|].
  destruct k as [|[|k]]; [lia|change (10 ^ Z.of_nat 1) with 10 in Hn; lia|].
  rewrite length_app; simpl. rewrite Nat.add_1_r. apply le_n_S, IH; [|lia].
  split; [apply Z.div_pos; lia|].
  apply Z.div_lt_upper_bound; [lia|].
  rewrite (Nat2Z.inj_succ (S k)), Z.pow_succ_r in Hn by lia. lia.
Qed.

(** The number a digit string denotes. *)
Definition dec_value (s : bytes) : Z :=
  fold_left (fun acc b => 10 * acc + (u8_val b - 48)) s 0.

Lemma dec_value_snoc s b : dec_value (s ++ [b]) = 10 * dec_value s + (u8_val b - 48).
Proof. unfold dec_value. by rewrite fold_left_app. Qed.

Lemma u8_val_digit d : 0 <= d < 10 -> u8_val (digit d) - 48 = d.
Proof. intros H. unfold digit. rewrite u8_val_of, Z.mod_small; lia. Qed.

Lemma dec_digits_value fuel n :
  0 <= n < 2 ^ Z.of_nat fuel -> dec_value (dec_digits fuel n) = n.
Proof.
  revert n. induction fuel as [|f IH]; intros n Hn; simpl.
  - change (2 ^ Z.of_nat 0) with 1 in Hn. unfold dec_value; simpl. lia.
  - destruct (Z.ltb_spec n 10).
    + unfold dec_value; simpl. rewrite u8_val_digit; lia.
    + rewrite Nat2Z.inj_succ, Z.pow_succ_r in Hn by lia.
      pose proof (Z.div_mod n 10 ltac:(lia)) as Hdm.
      pose proof (Z.mod_pos_bound n 10 ltac:(lia)).
      rewrite dec_value_snoc, u8_val_digit by lia.
      rewrite IH; lia.
Qed.

Lemma dec_nonneg n : 0 <= n -> dec n = dec_digits (S (Z.to_nat (Z.log2 n))) n.
Proof. intros H. unfold dec. by destruct (Z.ltb_spec n 0); [lia|]. Qed.

Lemma log2_fuel n : 0 <= n -> n < 2 ^ Z.of_nat (S (Z.to_nat (Z.log2 n))).
Proof.
  intros H. rewrite Nat2Z.inj_succ, Z2Nat.id by apply Z.log2_nonneg.
  destruct (Z.eq_dec n 0) as [->|]; [done|]. apply Z.log2_spec. lia.
Qed.

Lemma dec_value_dec n : 0 <= n -> dec_value (dec n) = n.
Proof.
  intros H. rewrite dec_nonneg by done. apply dec_digits_value.
  split; [done|by apply log2_fuel].
Qed.

Lemma dec_inj m n : 0 <= m -> 0 <= n -> dec m = dec n -> m = n.
Proof.
  intros Hm Hn H. apply (f_equal dec_value) in H. by rewrite !dec_value_dec in H.
Qed.

Lemma dec_all_digits n : 0 <= n -> Forall (fun b => is_digit b = true) (dec n).
Proof. intros H. rewrite dec_nonneg by done. by apply dec_digits_all. Qed.

Lemma dec_length_le n k :
  0 <= n < 10 ^ Z.of_nat k -> (0 < k)%nat -> (length (dec n) <= k)%nat.
Proof. intros H Hk. rewrite dec_nonneg by lia. by apply dec_digits_length_le. Qed.

Lemma dec_nonempty n : 0 <= n -> dec n <> [].
Proof.
  intros H. rewrite dec_nonneg by done. simpl. case_match; [done|].
  by intros []%app_eq_nil.
Qed.

Lemma digit_not_in c s :
  is_digit c = false -> Forall (fun b => is_digit b = true) s -> c ∉ s.
Proof.
  intros Hc Hs Hin. rewrite Forall_forall in Hs. specialize (Hs c Hin). congruence.
Qed.

Lemma not_in_dec c z : is_digit c = false -> c <> Byte.x2d -> c ∉ dec z.
Proof.
  intros Hc Hm. unfold dec. destruct (Z.ltb_spec z 0).
  - rewrite elem_of_cons. intros [->|Hin]; [done|]. revert Hin.
    apply digit_not_in; [done|]. apply dec_digits_all. lia.
  - apply digit_not_in; [done|]. by apply dec_digits_all.
Qed.

(** Decide a closed proposition about literals by evaluation. *)
Ltac by_eval := refine (bool_decide_unpack _ _); vm_compute; exact I.
