(* ===== verification/Effects.v ===== *)
(** * Effects: results, programs that call the outside, and their traces

    Code that talks to the kernel, to other processes or to third-party
    libraries is a [prog]: a tree of calls to the outside, each waiting for an
    answer.  Nothing is fixed about the answers.  [exec p tr o] says that
    [p], having exchanged exactly the calls and answers of [tr], ends in [o];
    a statement about every [tr] with [exec p tr o] holds whatever the outside
    does.  [run] executes a [prog] against a given handler and is how concrete
    scenarios are evaluated; [exec_run] connects the two. *)

From S2P Require Import Prelude.

(** ** Rust's [Result] *)

Inductive result (A E : Type) : Type :=
| Ok (a : A)
| Err (e : E).
Arguments Ok {A E} _.
Arguments Err {A E} _.

Global Instance result_eq_dec {A E} `{EqDecision A, EqDecision E} :
  EqDecision (result A E).
Proof. solve_decision. Defined.

Definition is_ok {A E} (r : result A E) : bool :=
  match r with Ok _ => true | Err _ => false end.

Definition is_err {A E} (r : result A E) : bool := negb (is_ok r).

Definition result_map_err {A E F} (f : E -> F) (r : result A E) : result A F :=
  match r with Ok a => Ok a | Err e => Err (f e) end.

(** [iter.collect::<Result<Vec<_>, _>>()]: the first error wins. *)
Fixpoint collect {A E} (rs : list (result A E)) : result (list A) E :=
  match rs with
  | [] => Ok []
  | Err e :: _ => Err e
  | Ok a :: rs' => match collect rs' with Ok l => Ok (a :: l) | Err e => Err e end
  end.

Lemma collect_Ok {A E} (rs : list (result A E)) l :
  collect rs = Ok l <-> rs = Ok <$> l.
Proof.
  revert l. induction rs as [|[a|e] rs IH]; intros l; simpl.
  - destruct l; split; intros; simplify_eq; done.
  - destruct (collect rs) as [l'|e'] eqn:E'.
    + split; intros H.
      * simplify_eq. simpl. f_equal. by apply IH.
      * destruct l as [|b l]; simplify_eq/=. f_equal.
        assert (Ok l' = Ok l :> result _ E) by by apply IH. congruence.
    + split; intros H; [done|]. destruct l as [|b l]; simplify_eq/=.
      assert (Err e' = Ok l :> result (list A) E) by by apply IH. done.
  - split; intros H; [done|]. by destruct l.
Qed.

Lemma collect_Err {A E} (rs : list (result A E)) e :
  collect rs = Err e <-> exists l rs', rs = (Ok <$> l) ++ Err e :: rs'.
Proof.
  induction rs as [|[a|e0] rs IH]; simpl.
  - split; [done|]. intros (l & rs' & H). by destruct l.
  - destruct (collect rs) as [l'|e'] eqn:E'.
    + split; [done|]. intros (l & rs' & H). destruct l as [|b l]; simplify_eq/=.
      assert (Ok l' = Err e :> result (list A) E) by (apply IH; eauto). done.
    + split.
      * intros H. simplify_eq. destruct (proj1 IH eq_refl) as (l & rs' & ->).
        by exists (a :: l), rs'.
      * intros (l & rs' & H). destruct l as [|b l]; simplify_eq/=.
        assert (Err e' = Err e :> result (list A) E) by (apply IH; eauto). congruence.
  - split.
    + intros H. simplify_eq. by exists [], rs.
    + intros (l & rs' & H). destruct l as [|b l]; by simplify_eq/=.
Qed.

(** ** Programs *)

(** Ways in which a process stops other than by returning. *)
Inductive stop : Type :=
| Panic                (** an [unwrap] or a bounds check failed *)
| Exit (code : Z)      (** [exit(code)] *)
| Replaced             (** a successful [exec] *)
| NoFuel.              (** the bound given to a loop was too small *)

Global Instance stop_eq_dec : EqDecision stop.
Proof. solve_decision. Defined.

Inductive prog (E : Type -> Type) (A : Type) : Type :=
| Ret (a : A)
| Halt (s : stop)
| Vis {X : Type} (e : E X) (k : X -> prog E A).
Arguments Ret {E A} _.
Arguments Halt {E A} _.
Arguments Vis {E A X} _ _.

(** One call, with its answer as the result. *)
Definition call {E : Type -> Type} {X} (e : E X) : prog E X := Vis e Ret.

Fixpoint prog_bind {E A C} (k : A -> prog E C) (p : prog E A) : prog E C :=
  match p with
  | Ret a => k a
  | Halt s => Halt s
  | Vis e c => Vis e (fun x => prog_bind k (c x))
  end.

Global Instance prog_ret {E} : MRet (prog E) := @Ret E.
Global Instance prog_mbind {E} : MBind (prog E) := @prog_bind E.

Inductive outcome (A : Type) : Type :=
| Done (a : A)
| Stopped (s : stop).
Arguments Done {A} _.
Arguments Stopped {A} _.

(** A call together with the answer it got. *)
Inductive event (E : Type -> Type) : Type :=
| Event {X : Type} (e : E X) (x : X).
Arguments Event {E X} _ _.

(** [exec p tr o]: [p] can exchange the calls and answers [tr] with the
    outside and end in [o]. *)
Fixpoint exec {E A} (p : prog E A) (tr : list (event E)) (o : outcome A) : Prop :=
  match p with
  | Ret a => tr = [] /\ o = Done a
  | Halt s => tr = [] /\ o = Stopped s
  | Vis e k => exists x tr', tr = Event e x :: tr' /\ exec (k x) tr' o
  end.

Lemma exec_bind {E A C} (p : prog E A) (k : A -> prog E C) tr o :
  exec (p ≫= k) tr o <->
  (exists a tr1 tr2, tr = tr1 ++ tr2 /\ exec p tr1 (Done a) /\ exec (k a) tr2 o) \/
  (exists s, exec p tr (Stopped s) /\ o = Stopped s).
Proof.
  unfold mbind, prog_mbind. revert tr.
  induction p as [a|s|X e c IH]; intros tr; simpl.
  - split.
    + intros H. left. by exists a, [], tr.
    + naive_solver.
  - split.
    + intros [-> ->]. right. by exists s.
    + naive_solver.
  - split.
    + intros (x & tr' & -> & H). apply IH in H as
        [(a & tr1 & tr2 & -> & H1 & H2)|(s & H1 & ->)].
      * left. exists a, (Event e x :: tr1), tr2. naive_solver.
      * right. naive_solver.
    + intros [(a & tr1 & tr2 & -> & (x & tr' & -> & H1) & H2)
             |(s & (x & tr' & -> & H1) & ->)].
      * exists x, (tr' ++ tr2). split; [done|]. apply IH. naive_solver.
      * exists x, tr'. split; [done|]. apply IH. naive_solver.
Qed.

Lemma exec_call {E : Type -> Type} {X} (e : E X) tr o :
  exec (call e) tr o <-> exists x, tr = [Event e x] /\ o = Done x.
Proof. simpl. naive_solver. Qed.

(** ** Running against a handler *)

Fixpoint run {E W A} (h : forall X, E X -> W -> X * W) (p : prog E A) (w : W)
  : outcome A * list (event E) * W :=
  match p with
  | Ret a => (Done a, [], w)
  | Halt s => (Stopped s, [], w)
  | Vis e k =>
      let '(x, w1) := h _ e w in
      let '(o, tr, w2) := run h (k x) w1 in
      (o, Event e x :: tr, w2)
  end.

(** Every run is an execution: what is proved of all executions holds of it. *)
Lemma exec_run {E W A} h (p : prog E A) (w : W) :
  exec p (run h p w).1.2 (run h p w).1.1.
Proof.
  revert w. induction p as [a|s|X e k IH]; intros w; simpl; [done..|].
  destruct (h X e w) as [x w1]. specialize (IH x w1).
  destruct (run h (k x) w1) as [[o tr] w2]. simpl in *. eauto.
Qed.

Lemma run_bind {E W A C} h (p : prog E A) (k : A -> prog E C) (w : W) :
  run h (p ≫= k) w =
  match run h p w with
  | (Done a, tr1, w1) =>
      let '(o, tr2, w2) := run h (k a) w1 in (o, tr1 ++ tr2, w2)
  | (Stopped s, tr1, w1) => (Stopped s, tr1, w1)
  end.
Proof.
  unfold mbind, prog_mbind. revert w.
  induction p as [a|s|X e c IH]; intros w; simpl; [by repeat case_match|done|].
  destruct (h X e w) as [x w1]. rewrite IH.
  destruct (run h (c x) w1) as [[[a|s] tr1] w2]; [|done].
  by destruct (run h (k a) w2) as [[o tr2] w3].
Qed.

(** ** Notation *)

Declare Scope effect_scope.
Delimit Scope effect_scope with effect.
Global Open Scope effect_scope.

Notation "'let*' x := p 'in' k" := (mbind (fun x => k) p)
  (at level 10, x name, p at level 200, k at level 200,
   format "'[v' 'let*'  x  :=  p  'in' '/' k ']'") : effect_scope.
Notation "'let*' ' pat := p 'in' k" := (mbind (fun x => match x with pat => k end) p)
  (at level 10, pat pattern, p at level 200, k at level 200) : effect_scope.
(** Rust's [?]: an [Err] is returned to the caller. *)
Notation "'let?' x := p 'in' k" :=
  (mbind (fun r => match r with Ok x => k | Err e => mret (Err e) end) p)
  (at level 10, x name, p at level 200, k at level 200) : effect_scope.
Notation "p ;;* k" := (mbind (fun _ => k) p)
  (at level 199, right associativity) : effect_scope.

(** [unwrap]: a panic on [None] or [Err]. *)
Definition unwrap_opt {E A} (o : option A) : prog E A :=
  match o with Some a => Ret a | None => Halt Panic end.

(** ** Tactics *)

(** Take apart a hypothesis [exec p tr o] until the calls are exposed. *)
Ltac exec_step :=
  match goal with
  | H : exec (_ ≫= _) _ _ |- _ => apply exec_bind in H
  | H : exec (Ret _) _ _ |- _ => destruct H as [-> ->]
  | H : exec (Halt _) _ _ |- _ => destruct H as [-> ->]
  | H : exec (call _) _ _ |- _ => apply exec_call in H
  | H : exec (Vis _ _) _ _ |- _ => destruct H as (? & ? & -> & H)
  | H : exists _, _ |- _ => destruct H
  | H : _ /\ _ |- _ => destruct H
  | H : _ \/ _ |- _ => destruct H
  | H : Done _ = Done _ |- _ => injection H as H
  | H : Done _ = Stopped _ |- _ => discriminate H
  | H : Stopped _ = Done _ |- _ => discriminate H
  | H : Stopped _ = Stopped _ |- _ => injection H as H
  end.

(** Check a concrete execution step by step. *)
Ltac exec_trace :=
  repeat (hnf; lazymatch goal with
               | |- exists _ _, _ /\ _ => do 2 eexists; split; [reflexivity|]
               end);
  split; reflexivity.
