(* ===== verification/Wp.v ===== *)
(** * Wp: a program logic for [prog], and partial executions

    An [EventSpec] says what each call needs of a ghost state and which ghost
    states it may lead to.  [wp p s Q] is the weakest precondition of [p] for
    that reading of the calls: no call of [p] is made in a ghost state that does
    not allow it, and [p] returns in a state that satisfies [Q].  The logics for
    the statics of the portal host and for its conversation with a guest are
    instances.  [after p tr p'] says that [p] has become [p'] by exchanging
    [tr]. *)

From S2P Require Import Prelude Effects.

Class EventSpec (E : Type -> Type) (S : Type) := {
  ev : forall X, E X -> S -> (X -> S -> Prop) -> Prop;
  (** the ghost states in which a process may stop *)
  halted : stop -> S -> Prop;
  ev_mono : forall X (e : E X) s (K K' : X -> S -> Prop),
    (forall x s', K x s' -> K' x s') -> ev X e s K -> ev X e s K';
}.
Arguments ev {E S _ X} _ _ _.

Section Logic.
Context {E : Type -> Type} {S : Type} {SPEC : EventSpec E S}.

Fixpoint wp {A} (p : prog E A) (s : S) (Q : A -> S -> Prop) : Prop :=
  match p with
  | Ret a => Q a s
  | Halt st => halted st s
  | Vis e k => ev e s (fun x s' => wp (k x) s' Q)
  end.

Lemma wp_mono {A} (p : prog E A) s (Q Q' : A -> S -> Prop) :
  (forall a s', Q a s' -> Q' a s') -> wp p s Q -> wp p s Q'.
Proof.
  intros H. revert s. induction p as [a|st|X e k IH]; intros s; simpl; [by auto|done|].
  apply ev_mono. intros x s'. apply IH.
Qed.

Lemma wp_bind {A C} (p : prog E A) (k : A -> prog E C) s Q :
  wp p s (fun a s' => wp (k a) s' Q) -> wp (p ≫= k) s Q.
Proof.
  revert s. induction p as [a|st|X e c IH]; intros s; simpl; [done..|].
  apply ev_mono. intros x s'. apply IH.
Qed.

Lemma wp_call {X} (e : E X) s Q : ev e s Q -> wp (call e) s Q.
Proof. done. Qed.

Lemma wp_ret {A} (a : A) s (Q : A -> S -> Prop) : Q a s -> wp (Ret a) s Q.
Proof. done. Qed.

End Logic.

(** ** Partial executions *)

Inductive after {E : Type -> Type} {A} : prog E A -> list (event E) -> prog E A -> Prop :=
| after_nil p : after p [] p
| after_cons {X} (e : E X) k x tr p' :
    after (k x) tr p' -> after (Vis e k) (Event e x :: tr) p'.

Section Partial.
Context {E : Type -> Type} {A : Type}.
Implicit Types p : prog E A.

Lemma after_app p tr p' tr' p'' : after p tr p' -> after p' tr' p'' -> after p (tr ++ tr') p''.
Proof. induction 1; simpl; [done|]. intros. constructor. auto. Qed.

Lemma after_snoc p tr X (e : E X) k x :
  after p tr (Vis e k) -> after p (tr ++ [Event e x]) (k x).
Proof. intros H. eapply after_app; [exact H|]. repeat constructor. Qed.

(** What is left of a program continues its executions. *)
Lemma after_exec p tr p' tr' o : after p tr p' -> exec p' tr' o -> exec p (tr ++ tr') o.
Proof. induction 1; simpl; [done|]. intros. eauto. Qed.

(** If every call has some answer, every partial execution can be completed. *)
Lemma exec_total p : (forall X, E X -> inhabited X) -> exists tr o, exec p tr o.
Proof.
  intros Hx. induction p as [a|s|X e k IH]; [by eexists _, _|by eexists _, _|].
  destruct (Hx X e) as [x]. destruct (IH x) as (tr & o & H). exists (Event e x :: tr), o. by exists x, tr.
Qed.

Lemma after_completes p tr p' :
  (forall X, E X -> inhabited X) -> after p tr p' -> exists tr' o, exec p (tr ++ tr') o.
Proof.
  intros Hx H. destruct (exec_total p' Hx) as (tr' & o & H'). exists tr', o. by eapply after_exec.
Qed.

End Partial.
