(* ===== verification/RustStd.v ===== *)
(** * RustStd: the parts of Rust's standard library the sources use

    [std::path] on Unix (joining, parents, file names, extensions, absolute
    paths), UTF-8 validation, [std::io::Error] and the rendering of errors.
    Paths are byte strings, as [Path] is on Unix. *)

From S2P Require Import Prelude Effects.

(** ** Paths *)

Module Path.

(** [Path::is_absolute], on Unix the same as [has_root]. *)
Definition is_absolute (p : bytes) : bool :=
  match p with c :: _ => bool_decide (c = SLASH) | [] => false end.

Definition is_relative (p : bytes) : bool := negb (is_absolute p).

(** [Path::join], i.e. [PathBuf::push] on a copy: an absolute argument
    replaces the path, and a separator is added unless the path is empty or
    already ends in one. *)
Definition join (base p : bytes) : bytes :=
  if is_absolute p then p
  else match last base with
       | None => p
       | Some c => if decide (c = SLASH) then base ++ p else base ++ SLASH :: p
       end.

(** What comes before the body of a path: the root directory, or a leading
    [.] component, the only one that is not normalised away. *)
Inductive start := RootDir | CurDir | NoStart.

Definition start_of (p : bytes) : start :=
  match p with
  | [] => NoStart
  | [c] => if decide (c = SLASH) then RootDir
           else if decide (c = DOT) then CurDir else NoStart
  | c :: d :: _ =>
      if decide (c = SLASH) then RootDir
      else if decide (c = DOT /\ d = SLASH) then CurDir else NoStart
  end.

Definition start_bytes (s : start) : bytes :=
  match s with RootDir => [SLASH] | CurDir => [DOT] | NoStart => [] end.

Definition body_of (p : bytes) : bytes :=
  drop (length (start_bytes (start_of p))) p.

(** Segments that [Components] skips: empty ones and [.]. *)
Definition skipped (seg : bytes) : bool :=
  bool_decide (seg = [] \/ seg = [DOT]).

(** The body's segments, last one first, without the skipped ones at the end
    of the path. *)
Fixpoint drop_skipped (rsegs : list bytes) : list bytes :=
  match rsegs with
  | seg :: rest => if skipped seg then drop_skipped rest else rsegs
  | [] => []
  end.

Definition rev_segments (p : bytes) : list bytes :=
  drop_skipped (rev (split_on SLASH (body_of p))).

(** [Path::file_name]: the last component, when it is a normal one. *)
Definition file_name (p : bytes) : option bytes :=
  match rev_segments p with
  | [] => None
  | seg :: _ => if decide (seg = [DOT; DOT]) then None else Some seg
  end.

(** [Path::parent]: the path without its last component. *)
Definition parent (p : bytes) : option bytes :=
  match rev_segments p with
  | _ :: rest =>
      Some (start_bytes (start_of p) ++ join_with SLASH (rev (drop_skipped rest)))
  | [] => match start_of p with CurDir => Some [] | _ => None end
  end.

(** The text before and after the last dot, if there is one. *)
Fixpoint rsplit_dot (s : bytes) : option (bytes * bytes) :=
  match s with
  | [] => None
  | c :: s' =>
      match rsplit_dot s' with
      | Some (before, after) => Some (c :: before, after)
      | None => if decide (c = DOT) then Some ([], s') else None
      end
  end.

(** [Path::extension]: what follows the last dot of the file name, unless the
    only dot is its first character. *)
Definition extension (p : bytes) : option bytes :=
  match file_name p with
  | None => None
  | Some f => match rsplit_dot f with
              | Some (_ :: _, after) => Some after
              | _ => None
              end
  end.

(** *** Facts *)

(** A name that can be a directory entry: one normal component. *)
Definition entry_name (n : bytes) : Prop :=
  n <> [] /\ SLASH ∉ n /\ n <> [DOT] /\ n <> [DOT; DOT].

Global Instance entry_name_dec n : Decision (entry_name n).
Proof. unfold entry_name. apply _. Defined.

Lemma entry_name_relative n : entry_name n -> is_absolute n = false.
Proof.
  intros (Hne & Hs & _). destruct n as [|c n]; [done|]. simpl.
  apply bool_decide_eq_false. intros ->. apply Hs. set_solver.
Qed.

Lemma entry_name_not_skipped n : entry_name n -> skipped n = false.
Proof. intros (H1 & _ & H2 & _). apply bool_decide_eq_false. naive_solver. Qed.

(** A path that does not end in a separator. *)
Definition no_trailing_slash (p : bytes) : Prop :=
  p <> [] /\ last p <> Some SLASH.

Lemma join_relative p n :
  no_trailing_slash p -> is_absolute n = false -> join p n = p ++ SLASH :: n.
Proof.
  intros [Hne Hl] Hn. unfold join. rewrite Hn.
  destruct (last p) as [c|] eqn:E; [|by apply last_None in E].
  by rewrite decide_False by congruence.
Qed.

Lemma join_no_trailing_slash p n :
  no_trailing_slash p -> entry_name n -> no_trailing_slash (join p n).
Proof.
  intros Hp Hn. rewrite join_relative by eauto using entry_name_relative.
  destruct Hn as (Hne & Hs & _). split; [by destruct p|].
  rewrite last_app, last_cons. destruct (last n) as [c|] eqn:E.
  - intros [= ->]. apply Hs, last_Some_elem_of; done.
  - by apply last_None in E.
Qed.

Lemma start_of_app_slash p n :
  p <> [] -> start_of (p ++ SLASH :: n) = start_of p.
Proof.
  intros Hp. destruct p as [|c [|d p]]; [done| |done]. simpl.
  case_decide; [done|]. destruct (decide (c = DOT)) as [->|].
  - by rewrite decide_True by done.
  - rewrite decide_False; [done|]. naive_solver.
Qed.

Lemma start_bytes_prefix p : exists body, p = start_bytes (start_of p) ++ body.
Proof.
  destruct p as [|c [|d p]]; simpl.
  - by exists [].
  - repeat case_decide; subst; simpl; eexists; by rewrite ?app_nil_r.
  - repeat case_decide; subst; simpl; try destruct_and!; subst; by eexists.
Qed.

Lemma body_of_app_slash p n :
  p <> [] -> body_of (p ++ SLASH :: n) = body_of p ++ SLASH :: n.
Proof.
  intros Hp. unfold body_of. rewrite start_of_app_slash by done.
  destruct (start_bytes_prefix p) as [body Hb].
  rewrite skipn_app. f_equal.
  apply (f_equal length) in Hb. rewrite length_app in Hb.
  by replace (_ - length p)%nat with 0%nat by lia.
Qed.

Lemma rev_segments_app_slash p n :
  p <> [] -> entry_name n ->
  rev_segments (p ++ SLASH :: n) = n :: rev (split_on SLASH (body_of p)).
Proof.
  intros Hp Hn. unfold rev_segments.
  rewrite body_of_app_slash, split_on_app_sep, rev_app_distr by done.
  rewrite (split_on_none _ n) by apply Hn. simpl.
  by rewrite entry_name_not_skipped.
Qed.

Lemma file_name_join p n :
  no_trailing_slash p -> entry_name n -> file_name (join p n) = Some n.
Proof.
  intros Hp Hn. rewrite join_relative by eauto using entry_name_relative.
  unfold file_name. rewrite rev_segments_app_slash; [|apply Hp|done].
  apply decide_False, Hn.
Qed.

(** A path whose last segment is a component (no trailing [/] or [/.]). *)
Definition normal_end (p : bytes) : Prop :=
  p <> [] /\ rev_segments p = rev (split_on SLASH (body_of p)).

Lemma normal_end_no_trailing_slash p : normal_end p -> no_trailing_slash p.
Proof.
  intros [Hne Hr]. split; [done|]. intros Hl.
  apply last_Some in Hl as [q ->].
  destruct q as [|c q]; [by vm_compute in Hr|].
  unfold rev_segments in Hr.
  rewrite (body_of_app_slash (c :: q) []), split_on_app_sep, rev_app_distr in Hr by done.
  simpl in Hr. apply (f_equal length) in Hr. simpl in Hr.
  assert (Hd : forall l, (length (drop_skipped l) <= length l)%nat).
  { induction l as [|x l IH]; simpl; [lia|]. case_match; simpl; lia. }
  specialize (Hd (rev (split_on SLASH (body_of (c :: q))))). lia.
Qed.

Lemma normal_end_join p n : normal_end p -> entry_name n -> normal_end (join p n).
Proof.
  intros Hp Hn. pose proof (normal_end_no_trailing_slash p Hp) as Hs.
  rewrite join_relative by eauto using entry_name_relative.
  split; [by destruct p|].
  rewrite rev_segments_app_slash by (apply Hp || done).
  rewrite body_of_app_slash, split_on_app_sep, rev_app_distr by apply Hp.
  by rewrite (split_on_none _ n) by apply Hn.
Qed.

Lemma parent_join p n :
  normal_end p -> entry_name n -> parent (join p n) = Some p.
Proof.
  intros Hp Hn. pose proof (normal_end_no_trailing_slash p Hp) as Hs.
  rewrite join_relative by eauto using entry_name_relative.
  destruct Hp as [Hne Hr]. unfold parent. rewrite rev_segments_app_slash by done.
  rewrite start_of_app_slash by done.
  fold (rev_segments p). rewrite Hr, rev_involutive, join_split.
  unfold body_of. destruct (start_bytes_prefix p) as [body Hb].
  f_equal. set (l := start_bytes (start_of p)) in *. clearbody l.
  rewrite Hb. by rewrite drop_app_length.
Qed.

Lemma is_absolute_app p q : is_absolute p = true -> is_absolute (p ++ q) = true.
Proof. by destruct p. Qed.

(** Joining onto an absolute path gives an absolute path. *)
Lemma is_absolute_join p q : is_absolute p = true -> is_absolute (join p q) = true.
Proof.
  intros Hp. unfold join. destruct (is_absolute q) eqn:Hq; [done|].
  destruct (last p) as [c|] eqn:E; [case_decide; by apply is_absolute_app|].
  apply last_None in E. by subst.
Qed.

(** The file name is the last normal component, so it is one entry name. *)
Lemma drop_skipped_head l seg rest :
  drop_skipped l = seg :: rest -> skipped seg = false /\ seg ∈ l.
Proof.
  induction l as [|x l IH]; simpl; [done|]. destruct (skipped x) eqn:E; intros H.
  - destruct (IH H) as [? ?]. split; [done|]. set_solver.
  - simplify_eq. split; [done|set_solver].
Qed.

Lemma file_name_entry p n : file_name p = Some n -> entry_name n.
Proof.
  unfold file_name, rev_segments. destruct (drop_skipped _) as [|seg rest] eqn:E; [done|].
  case_decide as Hd; [done|]. intros [= <-].
  apply drop_skipped_head in E as [Hs Hin].
  apply bool_decide_eq_false in Hs.
  rewrite list_elem_of_In, <- in_rev, <- list_elem_of_In in Hin.
  apply split_on_no_sep in Hin. unfold entry_name. naive_solver.
Qed.

Lemma rsplit_dot_None s : rsplit_dot s = None -> DOT ∉ s.
Proof.
  induction s as [|c s IH]; simpl; [intros _; apply not_elem_of_nil|].
  destruct (rsplit_dot s) as [[b a]|]; [done|]. case_decide; [done|]. intros _.
  apply not_elem_of_cons. split; [congruence|by apply IH].
Qed.

Lemma rsplit_dot_Some s a b : rsplit_dot s = Some (a, b) -> s = a ++ DOT :: b /\ DOT ∉ b.
Proof.
  revert a b. induction s as [|c s IH]; simpl; intros a b; [done|].
  destruct (rsplit_dot s) as [[a' b']|] eqn:E.
  - intros [= <- <-]. destruct (IH _ _ eq_refl) as [-> ?]. done.
  - case_decide; [|done]. intros [= <- <-]. subst. split; [done|].
    by apply rsplit_dot_None.
Qed.

Lemma rsplit_dot_app s t : DOT ∉ t -> rsplit_dot (s ++ DOT :: t) = Some (s, t).
Proof.
  intros Ht. induction s as [|c s IH]; simpl; [|by rewrite IH].
  destruct (rsplit_dot t) as [[b a]|] eqn:E; [|done].
  apply rsplit_dot_Some in E as [-> _]. destruct Ht. set_solver.
Qed.

(** A file has the extension [ext] when its name is a non-empty stem, a dot
    and [ext]. *)
Lemma extension_iff dir n ext :
  no_trailing_slash dir -> entry_name n -> DOT ∉ ext ->
  extension (join dir n) = Some ext <-> exists stem, stem <> [] /\ n = stem ++ DOT :: ext.
Proof.
  intros Hd Hn He. unfold extension. rewrite file_name_join by done. split.
  - destruct (rsplit_dot n) as [[[|c stem] after]|] eqn:E; [done| |done].
    intros [= ->]. apply rsplit_dot_Some in E as [-> _]. by exists (c :: stem).
  - intros (stem & Hs & ->). rewrite rsplit_dot_app by done. by destruct stem.
Qed.

End Path.

(** ** UTF-8 *)

Module Utf8.

Definition within (lo hi : Z) (b : byte) : bool := (lo <=? u8_val b) && (u8_val b <=? hi).

(** A continuation byte. *)
Definition cont (b : byte) : bool := within 128 191 b.

(** How many bytes a character with this first byte has, and the range of its
    second byte; [None] for a byte that cannot come first. *)
Definition first_byte (b : byte) : option (nat * (Z * Z)) :=
  if within 0 127 b then Some (1%nat, (0, 0))
  else if within 194 223 b then Some (2%nat, (128, 191))
  else if within 224 224 b then Some (3%nat, (160, 191))
  else if within 237 237 b then Some (3%nat, (128, 159))
  else if within 225 239 b then Some (3%nat, (128, 191))
  else if within 240 240 b then Some (4%nat, (144, 191))
  else if within 241 243 b then Some (4%nat, (128, 191))
  else if within 244 244 b then Some (4%nat, (128, 143))
  else None.

(** [std::str::from_utf8(s).is_ok()]: well-formed sequences only, without
    overlong forms and surrogates. *)
Fixpoint valid (s : bytes) : bool :=
  match s with
  | [] => true
  | b0 :: s1 =>
      match first_byte b0 with
      | None => false
      | Some (1%nat, _) => valid s1
      | Some (n, (lo, hi)) =>
          match s1 with
          | [] => false
          | b1 :: s2 =>
              within lo hi b1 &&
              match n with
              | 2%nat => valid s2
              | 3%nat => match s2 with
                         | b2 :: s3 => cont b2 && valid s3
                         | [] => false
                         end
              | _ => match s2 with
                     | b2 :: b3 :: s4 => cont b2 && (cont b3 && valid s4)
                     | _ => false
                     end
              end
          end
      end
  end.

Definition ascii (b : byte) : bool := within 0 127 b.

Lemma valid_ascii s : forallb ascii s = true -> valid s = true.
Proof.
  induction s as [|b s IH]; simpl; [done|]. intros [Hb Hs]%andb_prop.
  unfold first_byte. unfold ascii in Hb. rewrite Hb. auto.
Qed.

Lemma valid_app_len n s t :
  (length s <= n)%nat -> valid s = true -> valid (s ++ t) = valid t.
Proof.
  revert s. induction n as [|n IH]; intros s Hn H.
  { destruct s; [done|simpl in Hn; lia]. }
  destruct s as [|b0 s1]; [done|]. simpl in *.
  destruct (first_byte b0) as [[[|[|[|[|m]]]] [lo hi]]|]; try done.
  all: try (apply IH; [lia|done]).
  all: destruct s1 as [|b1 s2]; [done|]; simpl in *;
    destruct (within lo hi b1); simpl in *; try done.
  - destruct s2 as [|b2 [|b3 s4]]; simpl in *; try done.
    destruct (cont b2), (cont b3); simpl in *; try done. apply IH; [lia|done].
  - apply IH; [lia|done].
  - destruct s2 as [|b2 s3]; simpl in *; try done.
    destruct (cont b2); simpl in *; try done. apply IH; [lia|done].
  - destruct s2 as [|b2 [|b3 s4]]; simpl in *; try done.
    destruct (cont b2), (cont b3); simpl in *; try done. apply IH; [lia|done].
Qed.

Lemma valid_app s t : valid s = true -> valid (s ++ t) = valid t.
Proof. by apply (valid_app_len (length s)). Qed.

Lemma ascii_of_digit b : is_digit b = true -> ascii b = true.
Proof.
  unfold is_digit, ascii, within. intros [H1%Z.leb_le H2%Z.leb_le]%andb_prop.
  apply andb_true_intro. split; apply Z.leb_le; lia.
Qed.

Lemma forallb_ascii_digits s :
  Forall (fun b => is_digit b = true) s -> forallb ascii s = true.
Proof.
  induction 1 as [|b s Hb Hs IH]; [done|]. simpl. by rewrite ascii_of_digit, IH.
Qed.

End Utf8.

(** [Path::to_str]. *)
Definition to_str (p : bytes) : option bytes := if Utf8.valid p then Some p else None.

(** ** [std::io::Error] *)

Inductive io_error : Type :=
| OsError (code : Z)        (** a failed system call *)
| UnexpectedEof             (** [read_exact] at the end of the input *)
| WriteZero.                (** [write_all] on a writer that takes nothing *)

Global Instance io_error_eq_dec : EqDecision io_error.
Proof. solve_decision. Defined.

Definition ENOENT : Z := 2.
Definition EINTR : Z := 4.
Definition EBADF : Z := 9.
Definition EAGAIN : Z := 11.
Definition EINVAL : Z := 22.
Definition EPIPE : Z := 32.
Definition ENAMETOOLONG : Z := 36.

(** [e.kind() == ErrorKind::NotFound]. *)
Definition is_not_found (e : io_error) : bool :=
  match e with OsError c => c =? ENOENT | _ => false end.

(** Renderings that come from elsewhere: [Display] of an [io::Error] (the C
    library's [strerror]), [Debug] of strings and paths (Unicode tables). *)
Class Fmt := {
  io_display : io_error -> bytes;
  debug_str : bytes -> bytes;
  debug_path : bytes -> bytes;
  replace_invalid : bytes -> bytes;
}.

(** [OsStr::to_string_lossy]: valid UTF-8 is kept, invalid sequences are
    replaced. *)
Definition to_string_lossy {FMT : Fmt} (s : bytes) : bytes :=
  if Utf8.valid s then s else replace_invalid s.

(** Plain renderings, to evaluate messages with. *)
Definition plain_fmt : Fmt := {|
  io_display := fun e => match e with
                         | OsError c => B "os error " ++ dec c
                         | UnexpectedEof => B "unexpected end of file"
                         | WriteZero => B "write zero"
                         end;
  debug_str := fun s => s;
  debug_path := fun s => s;
  replace_invalid := fun s => s |}.
