(* ===== verification/Sys.v ===== *)
(** * Sys: the outside of [start-vmm]

    The system calls and process operations that [host/start-vmm] makes, from
    Rust and from C, and the monad its functions live in: a [prog] over these
    calls that threads the C library's [errno]. *)

From S2P Require Import Prelude Effects RustStd.

(** [std::process::Command] as the sources configure it. *)
Inductive stdio := Inherit | Null | Piped.

Record command := Command {
  cmd_program : bytes;
  cmd_args : list bytes;
  cmd_stdin : stdio;
  cmd_stdout : stdio;
}.

Global Instance stdio_eq_dec : EqDecision stdio.
Proof. solve_decision. Defined.
Global Instance command_eq_dec : EqDecision command.
Proof. solve_decision. Defined.

(** [std::process::ExitStatus] of a child that has been waited for. *)
Inductive exit_status := Exited (code : Z) | Signaled (sig : Z).

Definition success (s : exit_status) : bool :=
  match s with Exited c => c =? 0 | Signaled _ => false end.

Inductive sys : Type -> Type :=
(* Rust's standard library *)
| ReadDir (path : bytes) : sys (result (list (result bytes io_error)) io_error)
| RemoveFile (path : bytes) : sys (result unit io_error)
| UnixBind (path : bytes) : sys (result Z io_error)
| Spawn (c : command) : sys (result Z io_error)
| WriteStdin (child : Z) (data : bytes) : sys (result unit io_error)
| WaitChild (child : Z) : sys (result exit_status io_error)
| ExecCommand (c : command) : sys (option io_error)
| WriteFile (fd : Z) (data : bytes) : sys (result unit io_error)
| ParentId : sys Z
| Eprintln (line : bytes) : sys unit
(* the C library and the kernel; [Err] carries the errno *)
| Socket : sys (result Z Z)
| OpenTun : sys (result Z Z)
| Close (fd : Z) : sys (result unit Z)
| FcntlGetFd (fd : Z) : sys (result Z Z)
| FcntlSetFd (fd flags : Z) : sys (result unit Z)
| GetIfFlags (fd : Z) (ifr_name : bytes) : sys (result Z Z)
| SetIfFlags (fd : Z) (ifr_name : bytes) (flags : Z) : sys (result unit Z)
| SetIfName (fd : Z) (ifr_name ifr_newname : bytes) : sys (result unit Z)
| BrAdd (fd : Z) (name : bytes) : sys (result unit Z)
| BrDel (fd : Z) (name : bytes) : sys (result unit Z)
| BrAddIf (fd : Z) (ifr_name : bytes) (ifindex : Z) : sys (result unit Z)
| BrDelIf (fd : Z) (ifr_name : bytes) (ifindex : Z) : sys (result unit Z)
| TunSetIff (fd : Z) (ifr_name : bytes) (flags : Z) : sys (result bytes Z)
| IfNameToIndex (name : bytes) : sys (result Z Z)
| GetPid : sys Z
| Pipe : sys (result (Z * Z) Z)
| Fork : sys (result Z Z)
| Poll (fd : Z) : sys (result Z Z)
| Read (fd : Z) (len : nat) : sys (result bytes Z)
| Write (fd : Z) (data : bytes) : sys (result Z Z)
| Kill (pid sig : Z) : sys (result unit Z)
| WaitPid (pid : Z) : sys (result unit Z)
| Warn (text : bytes) : sys unit.

(** ** The monad: calls to the outside, threading [errno] *)

Definition M (A : Type) : Type := Z -> prog sys (A * Z).

Global Instance M_ret : MRet M := fun A a e => Ret (a, e).
Global Instance M_bind : MBind M := fun A C k m e => m e ≫= fun r => k r.1 r.2.

Definition halt {A} (s : stop) : M A := fun _ => Halt s.

(** A call that leaves [errno] alone. *)
Definition sysc {X} (c : sys X) : M X := fun e => call c ≫= fun x => Ret (x, e).

(** A C call: a failure sets [errno]. *)
Definition ccall {X} (c : sys (result X Z)) : M (result X Z) :=
  fun e => call c ≫= fun r => Ret (r, match r with Ok _ => e | Err e' => e' end).

Definition get_errno : M Z := fun e => Ret (e, e).
Definition set_errno (e' : Z) : M unit := fun _ => Ret (tt, e').

Definition unwrap {A} (o : option A) : M A :=
  match o with Some a => mret a | None => halt Panic end.

Definition map_err {A E F} (f : E -> F) (m : M (result A E)) : M (result A F) :=
  let* r := m in mret (result_map_err f r).

(** *** Executions *)

Lemma exec_mbind {A C} (m : M A) (k : A -> M C) e tr o :
  exec ((m ≫= k) e) tr o <->
  (exists a e' tr1 tr2, tr = tr1 ++ tr2 /\
     exec (m e) tr1 (Done (a, e')) /\ exec (k a e') tr2 o) \/
  (exists s, exec (m e) tr (Stopped s) /\ o = Stopped s).
Proof.
  unfold mbind, M_bind. rewrite exec_bind. split.
  - intros [([a e'] & tr1 & tr2 & -> & H1 & H2)|H]; [left|by right].
    by exists a, e', tr1, tr2.
  - intros [(a & e' & tr1 & tr2 & -> & H1 & H2)|H]; [left|by right].
    by exists (a, e'), tr1, tr2.
Qed.

(** When the whole returns, so does its first half. *)
Lemma exec_mbind_done {A C} (m : M A) (k : A -> M C) e tr r :
  exec ((m ≫= k) e) tr (Done r) ->
  exists a e' tr1 tr2, tr = tr1 ++ tr2 /\
    exec (m e) tr1 (Done (a, e')) /\ exec (k a e') tr2 (Done r).
Proof. intros [H|(s & _ & ?)]%exec_mbind; done. Qed.

Lemma exec_mret {A} (a : A) e tr o :
  exec ((mret a : M A) e) tr o <-> tr = [] /\ o = Done (a, e).
Proof. done. Qed.

Lemma exec_halt {A} s e tr o :
  exec ((halt s : M A) e) tr o <-> tr = [] /\ o = Stopped s.
Proof. done. Qed.

Lemma exec_unwrap_done {A} (x : option A) e tr a e' :
  exec (unwrap x e) tr (Done (a, e')) -> x = Some a /\ tr = [] /\ e' = e.
Proof. destruct x; intros [-> ?]; naive_solver. Qed.

Lemma exec_sysc {X} (c : sys X) e tr o :
  exec (sysc c e) tr o <-> exists x, tr = [Event c x] /\ o = Done (x, e).
Proof. unfold sysc. simpl. naive_solver. Qed.

Lemma exec_ccall {X} (c : sys (result X Z)) e tr o :
  exec (ccall c e) tr o <->
  exists r, tr = [Event c r] /\
            o = Done (r, match r with Ok _ => e | Err e' => e' end).
Proof. unfold ccall. simpl. naive_solver. Qed.

(** Executions are taken apart by the lemmas, not by simplification. *)
Global Arguments exec : simpl never.

Lemma get_errno_bind {A} (k : Z -> M A) e : (get_errno ≫= k) e = k e e.
Proof. done. Qed.

Lemma set_errno_bind {A} (k : unit -> M A) e' e : (set_errno e' ≫= k) e = k tt e'.
Proof. done. Qed.

Lemma exec_map_err {A E F} (f : E -> F) (m : M (result A E)) e tr o :
  exec (map_err f m e) tr o <->
  (exists r e', exec (m e) tr (Done (r, e')) /\ o = Done (result_map_err f r, e')) \/
  (exists s, exec (m e) tr (Stopped s) /\ o = Stopped s).
Proof.
  unfold map_err. rewrite exec_mbind. split.
  - intros [(r & e' & tr1 & tr2 & -> & H & [-> ->])|H]; [left|by right].
    rewrite app_nil_r. eauto.
  - intros [(r & e' & H & ->)|H]; [left|by right].
    exists r, e', tr, []. by rewrite app_nil_r.
Qed.

(** Take apart the executions in the hypotheses, one construct at a time. *)
Ltac mstep :=
  match goal with
  | H : exec ((get_errno ≫= _) _) _ _ |- _ => rewrite get_errno_bind in H
  | H : exec ((set_errno _ ≫= _) _) _ _ |- _ => rewrite set_errno_bind in H
  | H : exec ((_ ≫= _) _) _ _ |- _ => apply exec_mbind in H
  | H : exec (@mret M _ _ _ _) _ _ |- _ => apply (proj1 (exec_mret _ _ _ _)) in H
  | H : exec (halt _ _) _ _ |- _ => apply (proj1 (exec_halt _ _ _ _)) in H
  | H : exec (sysc _ _) _ _ |- _ => apply exec_sysc in H
  | H : exec (ccall _ _) _ _ |- _ => apply exec_ccall in H
  | H : exec (map_err _ _ _) _ _ |- _ => apply exec_map_err in H
  | H : result_map_err _ ?r = Ok _ |- _ => destruct r; simpl in H
  | H : result_map_err _ ?r = Err _ |- _ => destruct r; simpl in H
  | H : Ok _ = result_map_err _ ?r |- _ => destruct r; simpl in H
  | H : Err _ = result_map_err _ ?r |- _ => destruct r; simpl in H
  | H : exec (match ?r with Ok _ => _ | Err _ => _ end _) _ _ |- _ => destruct r eqn:?
  | H : exec ((if ?c then _ else _) _) _ _ |- _ => destruct c eqn:?
  | H : exec (match ?c with Some _ => _ | None => _ end _) _ _ |- _ => destruct c eqn:?
  | H : exec ((let (_, _) := ?c in _) _) _ _ |- _ => destruct c
  | H : exists _, _ |- _ => destruct H
  | H : _ /\ _ |- _ => destruct H
  | H : _ \/ _ |- _ => destruct H
  end; simplify_eq/=.

Ltac msteps := repeat mstep.

(** ** Reading a trace *)

(** The commands a trace starts (or tries to start). *)
Definition spawn_of (ev : event sys) : list command :=
  match ev with Event (Spawn c) _ => [c] | _ => [] end.
Definition spawned (tr : list (event sys)) : list command := tr ≫= spawn_of.

(** What a trace writes to its children's standard input. *)
Definition stdin_of (ev : event sys) : list bytes :=
  match ev with Event (WriteStdin _ d) _ => [d] | _ => [] end.
Definition stdin_data (tr : list (event sys)) : list bytes := tr ≫= stdin_of.

(** A step of running a child process that went wrong. *)
Definition child_failed (ev : event sys) : bool :=
  match ev with
  | Event e x =>
      match e in sys X return X -> bool with
      | Spawn _ => is_err
      | WriteStdin _ _ => is_err
      | WaitChild _ => fun r => match r with Ok s => negb (success s) | Err _ => true end
      | _ => fun _ => false
      end x
  end.

Definition clean (tr : list (event sys)) : Prop :=
  Forall (fun ev => child_failed ev = false) tr.

(** The last step of the trace, and no other, went wrong. *)
Definition fails_at_end (tr : list (event sys)) : Prop :=
  exists tr' ev, tr = tr' ++ [ev] /\ clean tr' /\ child_failed ev = true.

Lemma spawned_app tr1 tr2 : spawned (tr1 ++ tr2) = spawned tr1 ++ spawned tr2.
Proof. apply bind_app. Qed.

Lemma stdin_data_app tr1 tr2 : stdin_data (tr1 ++ tr2) = stdin_data tr1 ++ stdin_data tr2.
Proof. apply bind_app. Qed.

Lemma clean_app tr1 tr2 : clean (tr1 ++ tr2) <-> clean tr1 /\ clean tr2.
Proof. apply Forall_app. Qed.

Lemma fails_at_end_app tr1 tr2 :
  clean tr1 -> fails_at_end tr2 -> fails_at_end (tr1 ++ tr2).
Proof.
  intros H1 (tr' & ev & -> & H2 & H3). exists (tr1 ++ tr'), ev.
  by rewrite <- app_assoc, clean_app.
Qed.

Lemma fails_at_end_not_clean tr : fails_at_end tr -> ~ clean tr.
Proof.
  intros (tr' & ev & -> & _ & H) [_ [Hc _]%Forall_cons]%clean_app. congruence.
Qed.

Lemma clean_cons ev tr : clean (ev :: tr) <-> child_failed ev = false /\ clean tr.
Proof. unfold clean. by rewrite Forall_cons. Qed.

Lemma clean_nil : clean [] <-> True.
Proof. split; [done|]. intros _. apply Forall_nil_2. Qed.

Lemma fails_at_end_nil : fails_at_end [] <-> False.
Proof. split; [|done]. intros (tr' & ev & H & _). by destruct tr'. Qed.

Lemma fails_at_end_cons ev tr :
  fails_at_end (ev :: tr) <->
  child_failed ev = true /\ tr = [] \/ child_failed ev = false /\ fails_at_end tr.
Proof.
  split.
  - intros ([|ev' tr'] & ev1 & H & Hc & Hf); simplify_eq/=; [by left|right].
    apply clean_cons in Hc as [H1 H2]. split; [done|]. by exists tr', ev1.
  - intros [[H ->]|[H Hf]].
    + exists [], ev. split_and!; [done|by apply clean_nil|done].
    + apply (fails_at_end_app [ev]); [|done]. by apply clean_cons, conj; [|apply clean_nil].
Qed.

(** Decide which steps of an explicit trace went wrong. *)
Ltac trace_cases :=
  repeat first [rewrite clean_cons | rewrite clean_nil
               | rewrite fails_at_end_cons | rewrite fails_at_end_nil];
  simpl; unfold is_err; simpl;
  repeat match goal with H : success _ = _ |- _ => rewrite H end; simpl;
  intuition congruence.

(** *** Functions that never make a certain kind of call

    [silent f m]: whatever happens, the observation [f] sees nothing of [m]. *)

Definition silent {T A} (f : event sys -> list T) (m : M A) : Prop :=
  forall e tr o, exec (m e) tr o -> tr ≫= f = [].

Lemma silent_ret {T A} (f : event sys -> list T) (a : A) : silent f (mret a).
Proof. by intros e tr o [-> _]%exec_mret. Qed.

Lemma silent_halt {T A} (f : event sys -> list T) s : silent f (halt s : M A).
Proof. by intros e tr o [-> _]%exec_halt. Qed.

Lemma silent_set_errno {T} (f : event sys -> list T) e' : silent f (set_errno e').
Proof. by intros e tr o [-> _]. Qed.

Lemma silent_sysc {T X} (f : event sys -> list T) (c : sys X) :
  (forall x, f (Event c x) = []) -> silent f (sysc c).
Proof. intros Hf e tr o (x & -> & _)%exec_sysc. simpl. by rewrite Hf. Qed.

Lemma silent_ccall {T X} (f : event sys -> list T) (c : sys (result X Z)) :
  (forall x, f (Event c x) = []) -> silent f (ccall c).
Proof. intros Hf e tr o (x & -> & _)%exec_ccall. simpl. by rewrite Hf. Qed.

Lemma silent_bind {T A C} (f : event sys -> list T) (m : M A) (k : A -> M C) :
  silent f m -> (forall a, silent f (k a)) -> silent f (m ≫= k).
Proof.
  intros Hm Hk e tr o [(a & e' & tr1 & tr2 & -> & H1 & H2)|(s & H1 & ->)]%exec_mbind.
  - rewrite bind_app. by rewrite (Hm _ _ _ H1), (Hk _ _ _ _ H2).
  - by apply Hm in H1.
Qed.

Lemma silent_get_errno {T} (f : event sys -> list T) : silent f get_errno.
Proof. by intros e tr o [-> _]. Qed.

Lemma silent_unwrap {T A} (f : event sys -> list T) (o : option A) : silent f (unwrap o).
Proof. destruct o; [apply silent_ret|apply silent_halt]. Qed.

Lemma silent_map_err {T A E F} (f : event sys -> list T) (g : E -> F) (m : M (result A E)) :
  silent f m -> silent f (map_err g m).
Proof. intros Hm. apply silent_bind; [done|]. intros. apply silent_ret. Qed.

Create HintDb silent discriminated.

(** Follow the structure of a function, using the hints for what it calls. *)
Ltac silence :=
  cbv beta;
  lazymatch goal with
  | |- silent _ (mbind _ _) => apply silent_bind; [silence|intros; silence]
  | |- silent _ (mret _) => apply silent_ret
  | |- silent _ (halt _) => apply silent_halt
  | |- silent _ (set_errno _) => apply silent_set_errno
  | |- silent _ get_errno => apply silent_get_errno
  | |- silent _ (unwrap _) => apply silent_unwrap
  | |- silent _ (map_err _ _) => apply silent_map_err; silence
  | |- silent _ (sysc _) => apply silent_sysc; intros; try reflexivity; auto
  | |- silent _ (ccall _) => apply silent_ccall; intros; try reflexivity; auto
  | |- silent _ (match ?x with _ => _ end) => destruct x; silence
  | _ => solve [auto with silent nocore]
  end.

(** *** File descriptors *)

(** Descriptors that C calls hand out, and those it closes, in order. *)
Definition opened_of (ev : event sys) : list Z :=
  match ev with
  | Event e x =>
      match e in sys X return X -> list Z with
      | Socket | OpenTun => fun r => match r with Ok fd => [fd] | Err _ => [] end
      | Pipe => fun r => match r with Ok (a, b) => [a; b] | Err _ => [] end
      | _ => fun _ => []
      end x
  end.
Definition opened (tr : list (event sys)) : list Z := tr ≫= opened_of.

Definition closed_of (ev : event sys) : list Z :=
  match ev with Event (Close fd) _ => [fd] | _ => [] end.
Definition closed (tr : list (event sys)) : list Z := tr ≫= closed_of.

Lemma opened_app tr1 tr2 : opened (tr1 ++ tr2) = opened tr1 ++ opened tr2.
Proof. apply bind_app. Qed.

Lemma closed_app tr1 tr2 : closed (tr1 ++ tr2) = closed tr1 ++ closed tr2.
Proof. apply bind_app. Qed.

(** The function returns, having closed whatever it opened. *)
Definition leaves_no_fd {A} (m : M A) : Prop :=
  forall e tr o, exec (m e) tr o ->
  opened tr = closed tr /\ exists a e', o = Done (a, e').

(** What the kernel's answers look like: descriptors and process ids are not
    negative, and closing -1 fails with [EBADF]. *)
Definition kernel_answer (ev : event sys) : Prop :=
  match ev with
  | Event e x =>
      match e in sys X return X -> Prop with
      | Socket | OpenTun | Fork => fun r => match r with Ok v => 0 <= v | Err _ => True end
      | Pipe => fun r => match r with Ok (a, b) => 0 <= a /\ 0 <= b | Err _ => True end
      | Close fd => fun r => fd = -1 -> r = Err EBADF
      | _ => fun _ => True
      end x
  end.
Definition kernel_ok (tr : list (event sys)) : Prop := Forall kernel_answer tr.

Lemma kernel_ok_app tr1 tr2 : kernel_ok (tr1 ++ tr2) <-> kernel_ok tr1 /\ kernel_ok tr2.
Proof. apply Forall_app. Qed.

Lemma kernel_ok_cons ev tr : kernel_ok (ev :: tr) <-> kernel_answer ev /\ kernel_ok tr.
Proof. unfold kernel_ok. by rewrite Forall_cons. Qed.
