(* ===== verification/Scenario.v ===== *)
(** * Scenario: a concrete kernel for evaluating [start-vmm]

    A handler for the calls of [Sys], with the answers that matter chosen by a
    record.  It is used to exhibit executions: the general theorems are proved
    for every kernel, and instantiated on runs against this one. *)

From S2P Require Import Prelude Effects RustStd Sys.

Record scenario := {
  sc_pid : Z;
  sc_socket : result unit Z;
  sc_tun : result unit Z;
  sc_pipe : result unit Z;
  sc_fork : result Z Z;
  sc_spawn : result unit io_error;
  sc_status : exit_status;
  sc_exec : option io_error;
  sc_bind : result unit io_error;
  sc_read_dir : bytes -> result (list (result bytes io_error)) io_error;
}.

(** Everything succeeds; the directories are empty. *)
Definition all_well : scenario := {|
  sc_pid := 1234; sc_socket := Ok tt; sc_tun := Ok tt; sc_pipe := Ok tt;
  sc_fork := Ok 1235; sc_spawn := Ok tt; sc_status := Exited 0; sc_exec := None;
  sc_bind := Ok tt; sc_read_dir := fun _ => Ok [] |}.

(** A fresh descriptor, if the call succeeds. *)
Definition fresh_fd {E} (r : result unit E) (next : Z) : result Z E * Z :=
  match r with Ok _ => (Ok next, next + 1) | Err e => (Err e, next) end.

(** The world is the next free descriptor. *)
Definition kernel (s : scenario) (X : Type) (c : sys X) (next : Z) : X * Z :=
  match c in sys X return X * Z with
  | ReadDir p => (sc_read_dir s p, next)
  | RemoveFile _ => (Err (OsError ENOENT), next)
  | UnixBind _ => fresh_fd (sc_bind s) next
  | Spawn _ => fresh_fd (sc_spawn s) next
  | WriteStdin _ _ => (Ok tt, next)
  | WaitChild _ => (Ok (sc_status s), next)
  | ExecCommand _ => (sc_exec s, next)
  | WriteFile _ _ => (Ok tt, next)
  | ParentId => (sc_pid s, next)
  | Eprintln _ => (tt, next)
  | Socket => fresh_fd (sc_socket s) next
  | OpenTun => fresh_fd (sc_tun s) next
  | Close fd => (if fd =? -1 then Err EBADF else Ok tt, next)
  | FcntlGetFd _ => (Ok 1, next)
  | FcntlSetFd _ _ => (Ok tt, next)
  | GetIfFlags _ _ => (Ok 0, next)
  | SetIfFlags _ _ _ => (Ok tt, next)
  | SetIfName _ _ _ => (Ok tt, next)
  | BrAdd _ _ => (Ok tt, next)
  | BrDel _ _ => (Ok tt, next)
  | BrAddIf _ _ _ => (Ok tt, next)
  | BrDelIf _ _ _ => (Ok tt, next)
  | TunSetIff _ name _ => (Ok name, next)
  | IfNameToIndex _ => (Ok 7, next)
  | GetPid => (sc_pid s, next)
  | Pipe => match sc_pipe s with
            | Ok _ => (Ok (next, next + 1), next + 2)
            | Err e => (Err e, next)
            end
  | Fork => (sc_fork s, next)
  | Poll _ => (Ok 8, next)
  | Read _ len => (Ok (replicate len Byte.x01), next)
  | Write _ data => (Ok (Z.of_nat (length data)), next)
  | Kill _ _ => (Ok tt, next)
  | WaitPid _ => (Ok tt, next)
  | Warn _ => (tt, next)
  end.

(** The outcome and the trace of a function of [start-vmm] in a scenario. *)
Definition outcome_in {A} (s : scenario) (m : M A) : outcome (A * Z) :=
  (run (kernel s) (m 0) 3).1.1.
Definition trace_in {A} (s : scenario) (m : M A) : list (event sys) :=
  (run (kernel s) (m 0) 3).1.2.

Lemma exec_in {A} (s : scenario) (m : M A) : exec (m 0) (trace_in s m) (outcome_in s m).
Proof. apply exec_run. Qed.

(** A scenario's execution, once its outcome has been computed. *)
Lemma exec_in_outcome {A} (s : scenario) (m : M A) o :
  outcome_in s m = o -> exec (m 0) (trace_in s m) o.
Proof. intros <-. apply exec_in. Qed.

(** This kernel answers as kernels do. *)
Lemma kernel_ok_run {A} s (p : prog sys A) next :
  0 <= next -> match sc_fork s with Ok pid => 0 <= pid | Err _ => True end ->
  kernel_ok (run (kernel s) p next).1.2.
Proof.
  intros Hn Hf. revert next Hn. induction p as [a|st|X c k IH]; intros next Hn.
  - apply Forall_nil_2.
  - apply Forall_nil_2.
  - simpl. destruct (kernel s X c next) as [x next'] eqn:E.
    destruct (run (kernel s) (k x) next') as [[o tr] w] eqn:Er. simpl.
    assert (kernel_answer (Event c x) /\ 0 <= next') as [Ha Hn'].
    { clear IH Er. destruct c; simpl in E; unfold fresh_fd in E; repeat case_match;
        simplify_eq; simpl; split; try done; try lia; by intros ->. }
    apply kernel_ok_cons. split; [done|]. specialize (IH x next' Hn').
    by rewrite Er in IH.
Qed.

Lemma kernel_ok_in {A} s (m : M A) :
  match sc_fork s with Ok pid => 0 <= pid | Err _ => True end ->
  kernel_ok (trace_in s m).
Proof. by apply kernel_ok_run. Qed.
