(* ===== verification/Mac.v ===== *)
(** * Mac: MAC addresses ([host/start-vmm/net.rs])

    The [MacAddress] type, its [Display] implementation, and the proof that
    the rendering can be read back. *)

From S2P Require Import Prelude.

Module Mac.

(** [struct MacAddress([u8; 6])]. *)
Inductive MacAddress : Type := Octets (o0 o1 o2 o3 o4 o5 : byte).

Global Instance MacAddress_eq_dec : EqDecision MacAddress.
Proof. solve_decision. Defined.

(** [MacAddress::new]: the array comes in as a list; [None] is a list that is
    not a [[u8; 6]]. *)
Definition new (octets : bytes) : option MacAddress :=
  match octets with
  | [o0; o1; o2; o3; o4; o5] => Some (Octets o0 o1 o2 o3 o4 o5)
  | _ => None
  end.

Definition octets (m : MacAddress) : bytes :=
  match m with Octets o0 o1 o2 o3 o4 o5 => [o0; o1; o2; o3; o4; o5] end.

(** [Display for MacAddress], hence also [to_string]. *)
Definition to_string (m : MacAddress) : bytes :=
  match m with
  | Octets o0 o1 o2 o3 o4 o5 =>
      hex2 o0 ++ COLON :: hex2 o1 ++ COLON :: hex2 o2 ++ COLON ::
      hex2 o3 ++ COLON :: hex2 o4 ++ COLON :: hex2 o5
  end.

(** ** Reading an address back *)

Definition hex_val (b : byte) : option Z :=
  let v := u8_val b in
  if (48 <=? v) && (v <=? 57) then Some (v - 48)
  else if (65 <=? v) && (v <=? 70) then Some (v - 55)
  else None.

Definition parse_octet (s : bytes) : option byte :=
  match s with
  | [h; l] => match hex_val h, hex_val l with
              | Some x, Some y => Some (u8_of (16 * x + y))
              | _, _ => None
              end
  | _ => None
  end.

Definition parse (s : bytes) : option MacAddress :=
  octs ← mapM parse_octet (split_on COLON s);
  new octs.

Lemma u8_val_hex_digit d :
  0 <= d < 16 -> u8_val (hex_digit d) = if d <? 10 then 48 + d else 55 + d.
Proof.
  intros H. unfold hex_digit. case_match; rewrite u8_val_of; apply Z.mod_small; lia.
Qed.

Lemma hex_val_digit d : 0 <= d < 16 -> hex_val (hex_digit d) = Some d.
Proof.
  intros H. unfold hex_val. rewrite u8_val_hex_digit by done.
  destruct (Z.ltb_spec d 10).
  - rewrite (proj2 (andb_true_iff _ _)); [f_equal; lia|].
    split; apply Z.leb_le; lia.
  - rewrite (proj2 (andb_false_iff _ _)) by (right; apply Z.leb_gt; lia).
    rewrite (proj2 (andb_true_iff _ _)); [f_equal; lia|].
    split; apply Z.leb_le; lia.
Qed.

Lemma nibbles_range b : 0 <= u8_val b / 16 < 16 /\ 0 <= u8_val b mod 16 < 16.
Proof.
  pose proof (u8_val_range b). split; [|by apply Z.mod_pos_bound].
  split; [apply Z.div_pos; lia|apply Z.div_lt_upper_bound; lia].
Qed.

Lemma parse_octet_hex2 b : parse_octet (hex2 b) = Some b.
Proof.
  destruct (nibbles_range b). unfold hex2, parse_octet.
  rewrite !hex_val_digit by done. f_equal.
  rewrite <- (Z.div_mod (u8_val b) 16) by lia. apply u8_of_val.
Qed.

(** Nothing but hexadecimal digits is printed for an octet. *)
Lemma not_in_hex2 c b : hex_val c = None -> c ∉ hex2 b.
Proof.
  intros Hc. destruct (nibbles_range b). unfold hex2.
  intros [->|[->|[]%not_elem_of_nil]%elem_of_cons]%elem_of_cons;
    by rewrite hex_val_digit in Hc.
Qed.

Lemma split_to_string m : split_on COLON (to_string m) = hex2 <$> octets m.
Proof.
  destruct m as [o0 o1 o2 o3 o4 o5]. unfold to_string. simpl octets.
  rewrite !split_on_app_sep.
  by rewrite !(split_on_none COLON) by by apply not_in_hex2.
Qed.

Lemma mapM_parse_octet l : mapM parse_octet (hex2 <$> l) = Some l.
Proof.
  apply mapM_Some. induction l; constructor; eauto using parse_octet_hex2.
Qed.

(** The text of a MAC address determines the address: parsing what
    [Display] prints gives the six octets back. *)
Theorem mac_display_roundtrip (m : MacAddress) : parse (to_string m) = Some m.
Proof.
  unfold parse. rewrite split_to_string, mapM_parse_octet. by destruct m.
Qed.

Lemma to_string_no_comma m : COMMA ∉ to_string m.
Proof.
  assert (Hh : forall b, COMMA ∉ hex2 b) by (intros b; by apply not_in_hex2).
  destruct m. unfold to_string.
  repeat (rewrite elem_of_app || rewrite elem_of_cons). intros H.
  repeat (destruct H as [H|H]; [by apply Hh in H || discriminate H|]).
  by apply Hh in H.
Qed.

End Mac.
