(* ===== verification/Ch.v ===== *)
(** * Ch: driving Cloud Hypervisor ([host/start-vmm/ch.rs])

    The configuration structures and their serialisation, the [ch-remote]
    commands that create a VM and add or remove its devices, and the C entry
    points over them. *)

From S2P Require Import Prelude Effects RustStd Sys Scenario Mac.

Module Ch.

Definition EPERM : Z := 1.
Definition EPROTO : Z := 71.

(** ** Configuration data *)

Record ConsoleConfig := { console_mode : bytes; console_file : option bytes }.
Record DiskConfig := { disk_path : bytes; disk_readonly : bool }.
Record FsConfig := { fs_socket : bytes; fs_tag : bytes }.
Record GpuConfig := { gpu_socket : bytes }.
Record NetConfig := { net_fd : Z; net_id : bytes; net_mac : Mac.MacAddress }.
Record MemoryConfig := { memory_size : Z; memory_shared : bool }.
Record PayloadConfig := { payload_kernel : bytes; payload_cmdline : bytes }.
Record VsockConfig := { vsock_cid : Z; vsock_socket : bytes }.

(** [fs] is an array of one element. *)
Record VmConfig := {
  console : ConsoleConfig;
  disks : list DiskConfig;
  fs : FsConfig;
  gpu : list GpuConfig;
  memory : MemoryConfig;
  net : list NetConfig;
  payload : PayloadConfig;
  serial : ConsoleConfig;
  vsock : VsockConfig;
}.

(** ** Serialisation

    miniserde's data model, and its [Serialize] trait as a class.  A derived
    implementation maps a structure to its fields, in declaration order. *)

Inductive Fragment :=
| FNull
| FBool (b : bool)
| FStr (s : bytes)
| FU64 (n : Z)
| FI64 (n : Z)
| FSeq (l : list Fragment)
| FMap (l : list (bytes * Fragment)).

Class Serialize (A : Type) := begin : A -> Fragment.

#[export] Instance Serialize_bool : Serialize bool := FBool.
#[export] Instance Serialize_str : Serialize bytes := FStr.
#[export] Instance Serialize_option {A} `{Serialize A} : Serialize (option A) :=
  fun o => match o with Some a => begin a | None => FNull end.
#[export] Instance Serialize_Vec {A} `{Serialize A} : Serialize (list A) | 10 :=
  fun l => FSeq (begin <$> l).

#[export] Instance Serialize_MacAddress : Serialize Mac.MacAddress :=
  fun m => FStr (Mac.to_string m).
#[export] Instance Serialize_ConsoleConfig : Serialize ConsoleConfig :=
  fun c => FMap [(B "mode", begin (console_mode c)); (B "file", begin (console_file c))].
#[export] Instance Serialize_DiskConfig : Serialize DiskConfig :=
  fun c => FMap [(B "path", begin (disk_path c)); (B "readonly", begin (disk_readonly c))].
#[export] Instance Serialize_FsConfig : Serialize FsConfig :=
  fun c => FMap [(B "socket", begin (fs_socket c)); (B "tag", begin (fs_tag c))].
#[export] Instance Serialize_GpuConfig : Serialize GpuConfig :=
  fun c => FMap [(B "socket", begin (gpu_socket c))].
#[export] Instance Serialize_NetConfig : Serialize NetConfig :=
  fun c => FMap [(B "fd", FI64 (net_fd c)); (B "id", begin (net_id c));
                 (B "mac", begin (net_mac c))].
#[export] Instance Serialize_MemoryConfig : Serialize MemoryConfig :=
  fun c => FMap [(B "size", FI64 (memory_size c)); (B "shared", begin (memory_shared c))].
#[export] Instance Serialize_PayloadConfig : Serialize PayloadConfig :=
  fun c => FMap [(B "kernel", begin (payload_kernel c));
                 (B "cmdline", begin (payload_cmdline c))].
#[export] Instance Serialize_VsockConfig : Serialize VsockConfig :=
  fun c => FMap [(B "cid", FU64 (vsock_cid c)); (B "socket", begin (vsock_socket c))].
#[export] Instance Serialize_VmConfig : Serialize VmConfig :=
  fun c => FMap [(B "console", begin (console c)); (B "disks", begin (disks c));
                 (B "fs", FSeq [begin (fs c)]); (B "gpu", begin (gpu c));
                 (B "memory", begin (memory c)); (B "net", begin (net c));
                 (B "payload", begin (payload c)); (B "serial", begin (serial c));
                 (B "vsock", begin (vsock c))].

(** [miniserde::json::to_string] of a data model value. *)
Class Json := json_to_string : Fragment -> bytes.

(** ** Commands *)

(** [command]: [ch-remote --api-socket VM_DIR/vmm s]. *)
Definition command (vm_dir s : bytes) : Sys.command :=
  {| cmd_program := B "ch-remote";
     cmd_args := [B "--api-socket"; Path.join vm_dir (B "vmm"); s];
     cmd_stdin := Null;
     cmd_stdout := Inherit |}.

Definition with_args (c : Sys.command) (args : list bytes) : Sys.command :=
  {| cmd_program := cmd_program c; cmd_args := cmd_args c ++ args;
     cmd_stdin := cmd_stdin c; cmd_stdout := cmd_stdout c |}.
Definition with_stdin (c : Sys.command) (s : stdio) : Sys.command :=
  {| cmd_program := cmd_program c; cmd_args := cmd_args c;
     cmd_stdin := s; cmd_stdout := cmd_stdout c |}.
Definition with_stdout (c : Sys.command) (s : stdio) : Sys.command :=
  {| cmd_program := cmd_program c; cmd_args := cmd_args c;
     cmd_stdin := cmd_stdin c; cmd_stdout := s |}.

Definition create_command (vm_dir : bytes) : Sys.command :=
  with_stdin (with_args (command vm_dir (B "create")) [B "--"; B "-"]) Piped.

(** The argument of [ch-remote add-net]. *)
Definition net_arg (n : NetConfig) : bytes :=
  B "fd=" ++ dec (net_fd n) ++ B ",id=" ++ net_id n ++ B ",mac=" ++ Mac.to_string (net_mac n).

Definition add_net_command (vm_dir : bytes) (n : NetConfig) : Sys.command :=
  with_stdout (with_args (command vm_dir (B "add-net")) [net_arg n]) Piped.

Definition remove_device_command (vm_dir device_id : bytes) : Sys.command :=
  with_args (command vm_dir (B "remove-device")) [device_id].

(** [add_net]: the error is a non-zero errno. *)
Definition add_net (vm_dir : bytes) (n : NetConfig) : M (result unit Z) :=
  let* spawned := sysc (Spawn (add_net_command vm_dir n)) in
  match spawned with
  | Err _ => mret (Err EPERM)
  | Ok ch_remote =>
      let* waited := sysc (WaitChild ch_remote) in
      match waited with
      | Ok status => if success status then mret (Ok tt) else mret (Err EPROTO)
      | Err _ => mret (Err EPROTO)
      end
  end.

(** [remove_device]; [Command::status] spawns and waits. *)
Definition remove_device (vm_dir device_id : bytes) : M (result unit Z) :=
  let* spawned := sysc (Spawn (remove_device_command vm_dir device_id)) in
  match spawned with
  | Err _ => mret (Err EPERM)
  | Ok ch_remote =>
      let* waited := sysc (WaitChild ch_remote) in
      match waited with
      | Err _ => mret (Err EPERM)
      | Ok status => if success status then mret (Ok tt) else mret (Err EPROTO)
      end
  end.

(** [take(&mut config.net)]. *)
Definition without_net (c : VmConfig) : VmConfig :=
  {| console := console c; disks := disks c; fs := fs c; gpu := gpu c;
     memory := memory c; net := []; payload := payload c;
     serial := serial c; vsock := vsock c |}.

Section WithFormatting.
Context {FMT : Fmt} {JSON : Json}.

(** The loop over the network devices. *)
Fixpoint add_nets (vm_dir : bytes) (nets : list NetConfig) : M (result unit bytes) :=
  match nets with
  | [] => mret (Ok tt)
  | n :: rest =>
      let? _ := map_err (fun e => B "failed to add net: " ++ dec e) (add_net vm_dir n) in
      add_nets vm_dir rest
  end.

(** What [create_vm] makes of the exit status of [ch-remote create]. *)
Definition check_status (status : exit_status) : result unit bytes :=
  if success status then Ok tt
  else match status with
       | Exited code => Err (B "ch-remote exited " ++ dec code)
       | Signaled signal => Err (B "ch-remote killed by signal " ++ dec signal)
       end.

Definition create_vm (vm_dir : bytes) (config : VmConfig) : M (result unit bytes) :=
  let nets := net config in
  let config := without_net config in
  let? ch_remote :=
    map_err (fun e => B "failed to start ch-remote: " ++ io_display e)
      (sysc (Spawn (create_command vm_dir))) in
  let json := json_to_string (begin config) in
  let? _ :=
    map_err (fun e => B "writing to ch-remote's stdin: " ++ io_display e)
      (sysc (WriteStdin ch_remote json)) in
  let? status :=
    map_err (fun e => B "waiting for ch-remote: " ++ io_display e)
      (sysc (WaitChild ch_remote)) in
  let? _ := mret (check_status status) in
  add_nets vm_dir nets.

End WithFormatting.

(** ** The C interface *)

(** [struct NetConfigC], the [struct net_config] of [ch.h]: [id] is an array
    of 16 bytes. *)
Record NetConfigC := { c_fd : Z; c_id : bytes; c_mac : Mac.MacAddress }.

(** [c.id.iter().position(|&c| c == 0).unwrap_or(c.id.len())]. *)
Definition nul_index (id : bytes) : nat :=
  match list_find (.= NUL) id with Some (i, _) => i | None => length id end.

(** [TryFrom<&NetConfigC> for NetConfig]; [None] is the [FromUtf8Error]. *)
Definition try_from (c : NetConfigC) : option NetConfig :=
  let id := take (nul_index (c_id c)) (c_id c) in
  if Utf8.valid id
  then Some {| net_fd := c_fd c; net_id := id; net_mac := c_mac c |}
  else None.

(** [add_net_c], exported as [ch_add_net]. *)
Definition add_net_c (vm_dir : bytes) (n : NetConfigC) : M Z :=
  let* config := unwrap (try_from n) in
  let* r := add_net vm_dir config in
  match r with Err e => mret e | Ok _ => mret 0 end.

(** [remove_device_c], exported as [ch_remove_device]; [device_id] is the
    memory the C string points into. *)
Definition remove_device_c (vm_dir device_id : bytes) : M Z :=
  let* r := remove_device vm_dir (take (nul_index device_id) device_id) in
  match r with Err e => mret e | Ok _ => mret 0 end.

(** [device_free], exported as [ch_device_free], on the boxes that are
    allocated, by address; freeing anything else is undefined ([None]). *)
Definition device_free (id : option Z) (boxes : gmap Z bytes) : option (gmap Z bytes) :=
  match id with
  | Some p => match boxes !! p with Some _ => Some (delete p boxes) | None => None end
  | None => Some boxes
  end.

(** ** Properties *)

(** A device id is freed at most once: [device_free] releases exactly the box
    it is given, and a second call with it is undefined.  Freeing the null
    pointer does nothing. *)
Lemma device_free_once p boxes boxes' :
  device_free (Some p) boxes = Some boxes' ->
  (dom boxes' : gset Z) = dom boxes ∖ {[p]} /\ (forall q, q <> p -> boxes' !! q = boxes !! q) /\
  device_free (Some p) boxes' = None /\ device_free None boxes' = Some boxes'.
Proof.
  unfold device_free. intros H. case_match; [|done]. simplify_eq.
  split_and!; [apply dom_delete_L| |by rewrite lookup_delete_eq|done].
  intros q Hq. by rewrite lookup_delete_ne.
Qed.

(** One [add-net] starts one command.  It succeeds exactly when every step of
    running it does, and stops at the first failing step otherwise. *)
Lemma add_net_exec vm_dir n e tr o :
  exec (add_net vm_dir n e) tr o ->
  exists r, o = Done (r, e) /\ spawned tr = [add_net_command vm_dir n] /\
    stdin_data tr = [] /\
    (r = Ok tt /\ clean tr \/ (r = Err EPERM \/ r = Err EPROTO) /\ fails_at_end tr).
Proof.
  intros H. unfold add_net in H.
  msteps; (eexists; split; [reflexivity|]; split_and!; [done..|trace_cases]).
Qed.

Section Properties.
Context {FMT : Fmt} {JSON : Json}.

Lemma add_nets_exec vm_dir nets e tr o :
  exec (add_nets vm_dir nets e) tr o ->
  exists r, o = Done (r, e) /\
    spawned tr `prefix_of` (add_net_command vm_dir <$> nets) /\ stdin_data tr = [] /\
    (r = Ok tt /\ clean tr /\ spawned tr = add_net_command vm_dir <$> nets \/
     (exists m, r = Err m) /\ fails_at_end tr).
Proof.
  revert tr o. induction nets as [|n nets IH]; intros tr o H.
  - cbn [add_nets] in H. msteps. exists (Ok tt). split_and!; [done..|].
    left. split_and!; [done|by apply clean_nil|done].
  - cbn [add_nets] in H.
    apply exec_mbind in H as [(r & e' & tr1 & tr2 & -> & H1 & H2)|(s & H1 & ->)];
      apply exec_map_err in H1 as [(r0 & e0 & H1 & Ho)|(s' & H1 & Ho)]; simplify_eq;
      apply add_net_exec in H1 as (r1 & Hd & Hs & Hi & Hr); simplify_eq.
    destruct Hr as [[-> Hc]|[Hr Hf]].
    + simpl in H2. apply IH in H2 as (r & -> & Hp & Hi2 & Hr).
      exists r. rewrite spawned_app, stdin_data_app, Hs, Hi, Hi2. simpl.
      split_and!; [done|by apply prefix_cons|done|].
      destruct Hr as [(-> & Hc2 & ->)|[Hm Hf]]; [left|right].
      * split_and!; [done|by apply clean_app|done].
      * split; [done|]. by apply fails_at_end_app.
    + destruct r1 as [|e1]; [naive_solver|]. clear Hr. simpl in H2. msteps.
      rewrite app_nil_r. eexists. split_and!; [done| |done|right; eauto].
      rewrite Hs. by apply prefix_cons, prefix_nil.
Qed.

Lemma check_status_inv status r :
  check_status status = r ->
  r = Ok tt /\ success status = true \/ (exists m, r = Err m) /\ success status = false.
Proof. intros <-. unfold check_status. repeat case_match; naive_solver. Qed.

(** The commands that create a VM with these network devices. *)
Definition creation_commands (vm_dir : bytes) (nets : list NetConfig) : list Sys.command :=
  create_command vm_dir :: (add_net_command vm_dir <$> nets).

Lemma create_vm_exec vm_dir config e tr o :
  exec (create_vm vm_dir config e) tr o ->
  exists r, o = Done (r, e) /\
    spawned tr `prefix_of` creation_commands vm_dir (net config) /\
    stdin_data tr `prefix_of` [json_to_string (begin (without_net config))] /\
    (r = Ok tt /\ clean tr /\
       spawned tr = creation_commands vm_dir (net config) /\
       stdin_data tr = [json_to_string (begin (without_net config))] \/
     (exists m, r = Err m) /\ fails_at_end tr).
Proof.
  intros H. unfold create_vm in H. msteps.
  all: repeat match goal with
    | H : _ = check_status _ |- _ => symmetry in H; apply check_status_inv in H; msteps
    end.
  2-5: eexists; split_and!;
    [done|by apply prefix_cons, prefix_nil|by eauto using prefix_nil
    |right; split; [by eauto|trace_cases]].
  match goal with H : exec (add_nets _ _ _) _ _ |- _ =>
    apply add_nets_exec in H as (r & -> & Hp & Hi & Hr) end.
  exists r. rewrite Hi. split_and!; [done|by apply prefix_cons|done|].
  destruct Hr as [(-> & Hc & ->)|[Hm Hf]]; [left|right]; (split; [done|trace_cases]).
Qed.

(** What is expected, spelled out: the command lines, and the document that
    [create] reads from its standard input. *)
Definition create_line (vm_dir : bytes) : Sys.command :=
  {| cmd_program := B "ch-remote";
     cmd_args := [B "--api-socket"; Path.join vm_dir (B "vmm"); B "create"; B "--"; B "-"];
     cmd_stdin := Piped; cmd_stdout := Inherit |}.
Definition add_net_line (vm_dir : bytes) (n : NetConfig) : Sys.command :=
  {| cmd_program := B "ch-remote";
     cmd_args := [B "--api-socket"; Path.join vm_dir (B "vmm"); B "add-net";
       B "fd=" ++ dec (net_fd n) ++ B ",id=" ++ net_id n ++ B ",mac=" ++ Mac.to_string (net_mac n)];
     cmd_stdin := Null; cmd_stdout := Piped |}.
Definition command_lines (vm_dir : bytes) (nets : list NetConfig) : list Sys.command :=
  create_line vm_dir :: (add_net_line vm_dir <$> nets).

Definition document (c : VmConfig) : Fragment :=
  FMap [(B "console", begin (console c)); (B "disks", begin (disks c)); (B "fs", FSeq [begin (fs c)]);
        (B "gpu", begin (gpu c)); (B "memory", begin (memory c)); (B "net", FSeq []);
        (B "payload", begin (payload c)); (B "serial", begin (serial c)); (B "vsock", begin (vsock c))].

Lemma creation_command_lines vm_dir nets : creation_commands vm_dir nets = command_lines vm_dir nets.
Proof. done. Qed.

Lemma document_sent config : begin (without_net config) = document config.
Proof. done. Qed.

(** C7. [create_vm] runs [ch-remote --api-socket VM_DIR/vmm create -- -] and then
    [ch-remote --api-socket VM_DIR/vmm add-net fd=FD,id=ID,mac=MAC] once per
    network device, in order.  It succeeds exactly when no step of running
    them fails; then every command has run.  At the first failing step it
    stops and reports an error, with no command started after it.  It never
    panics, and what it sends to [create] is the configuration, field by field,
    with an empty list of network devices. *)
Theorem create_vm_commands vm_dir config e tr o :
  exec (create_vm vm_dir config e) tr o ->
  exists r, o = Done (r, e) /\
    spawned tr `prefix_of` command_lines vm_dir (net config) /\
    stdin_data tr `prefix_of` [json_to_string (document config)] /\
    (r = Ok tt /\ clean tr /\
       spawned tr = command_lines vm_dir (net config) /\
       stdin_data tr = [json_to_string (document config)] \/
     (exists m, r = Err m) /\ fails_at_end tr).
Proof. rewrite <- creation_command_lines, <- document_sent. apply create_vm_exec. Qed.

(** [create_vm] does nothing but run children. *)
Lemma create_vm_silent {T} (f : event sys -> list T) vm_dir config :
  (forall c x, f (Event (Spawn c) x) = []) ->
  (forall c d x, f (Event (WriteStdin c d) x) = []) ->
  (forall c x, f (Event (WaitChild c) x) = []) ->
  silent f (create_vm vm_dir config).
Proof.
  intros H1 H2 H3.
  assert (Hn : forall n, silent f (add_net vm_dir n)) by (intros n; unfold add_net; silence).
  assert (Hns : forall nets, silent f (add_nets vm_dir nets)).
  { induction nets as [|n nets IH]; cbn [add_nets]; silence. }
  unfold create_vm. silence.
Qed.

End Properties.

(** A VM with one network device, for examples. *)
Definition sample_mac : Mac.MacAddress :=
  Mac.Octets Byte.x02 Byte.x00 Byte.x00 Byte.x00 Byte.x04 Byte.xd2.
Definition sample_net : NetConfig :=
  {| net_fd := 5; net_id := B "client1234"; net_mac := sample_mac |}.
Definition sample_config : VmConfig := {|
  console := {| console_mode := B "Pty"; console_file := None |};
  disks := [];
  fs := {| fs_tag := B "virtiofs0"; fs_socket := B "/fs.sock" |};
  gpu := [{| gpu_socket := B "/gpu.sock" |}];
  memory := {| memory_size := 1073741824; memory_shared := true |};
  net := [sample_net];
  payload := {| payload_kernel := B "/vmlinux"; payload_cmdline := B "root=PARTLABEL=root" |};
  serial := {| console_mode := B "File"; console_file := Some (B "/run/a.log") |};
  vsock := {| vsock_cid := 3; vsock_socket := B "/run/vm/a/vsock" |} |}.

(** A serialiser that forgets its argument. *)
Definition no_json : Json := fun _ => B "{}".

Lemma create_vm_commands_witness :
  spawned (trace_in all_well (@create_vm plain_fmt no_json (B "/run/vm/a") sample_config)) =
  [create_line (B "/run/vm/a"); add_net_line (B "/run/vm/a") sample_net].
Proof.
  destruct (@create_vm_commands plain_fmt no_json (B "/run/vm/a") sample_config 0 _ _
              (exec_in all_well _)) as (r & Ho & _ & _ & Hr).
  destruct Hr as [(_ & _ & Hs & _)|[[m Hm] _]]; [exact Hs|].
  exfalso. rewrite Hm in Ho. vm_compute in Ho. discriminate Ho.
Defined.

(** [ch-remote] splits the argument of [add-net] at its commas.  As long
    as the interface name has none, it finds exactly the three fields that
    [add_net] meant: no part of one value can be taken for another option. *)
Theorem net_arg_fields n :
  COMMA ∉ net_id n ->
  split_on COMMA (net_arg n) =
    [B "fd=" ++ dec (net_fd n); B "id=" ++ net_id n;
     B "mac=" ++ Mac.to_string (net_mac n)].
Proof.
  intros Hid.
  assert (net_arg n =
    (B "fd=" ++ dec (net_fd n)) ++ COMMA :: (B "id=" ++ net_id n) ++ COMMA ::
    B "mac=" ++ Mac.to_string (net_mac n)) as ->.
  { unfold net_arg. by rewrite <- !app_assoc. }
  rewrite !split_on_app_sep, !split_on_none; [done|..]; rewrite not_elem_of_app;
    (split; [by_eval|]); [apply Mac.to_string_no_comma|done|by apply not_in_dec].
Qed.

Lemma net_arg_fields_witness :
  split_on COMMA (net_arg sample_net) =
    [B "fd=5"; B "id=client1234"; B "mac=02:00:00:00:04:D2"].
Proof. rewrite (net_arg_fields sample_net); [vm_compute; reflexivity|by_eval]. Defined.

Lemma nul_index_app s rest : NUL ∉ s -> nul_index (s ++ NUL :: rest) = length s.
Proof.
  intros H. unfold nul_index. rewrite list_find_app_r; [done|].
  apply list_find_None, Forall_forall. by intros x Hx ->.
Qed.

Lemma nul_index_take_no_nul id : NUL ∉ take (nul_index id) id.
Proof.
  unfold nul_index. destruct (list_find (.= NUL) id) as [[i c]|] eqn:E.
  - apply list_find_Some in E as (Hi & -> & Hlt).
    intros (j & Hj)%list_elem_of_lookup. apply lookup_take_Some in Hj as [Hj Hji].
    by eapply Hlt.
  - apply list_find_None in E. rewrite firstn_all, list_elem_of_In.
    rewrite Forall_forall in E. intros Hin%list_elem_of_In. by eapply E.
Qed.

(** Reading back a NUL-terminated name that C code put into the [id] array
    gives that name, whatever follows the terminator; the descriptor and the
    MAC address are untouched.  A name that is not UTF-8 is refused. *)
Theorem try_from_terminated fd s rest mac :
  NUL ∉ s ->
  try_from {| c_fd := fd; c_id := s ++ NUL :: rest; c_mac := mac |} =
  if Utf8.valid s then Some {| net_fd := fd; net_id := s; net_mac := mac |} else None.
Proof.
  intros H. unfold try_from. simpl. by rewrite nul_index_app, take_app_length by done.
Qed.

Lemma try_from_terminated_witness :
  try_from {| c_fd := 5; c_id := B "client1234" ++ NUL :: B "stale"; c_mac := sample_mac |} =
  Some sample_net.
Proof. rewrite (try_from_terminated 5 (B "client1234")); [reflexivity|by_eval]. Defined.

Lemma add_net_c_exec vm_dir n e tr o :
  exec (add_net_c vm_dir n e) tr o ->
  try_from n = None /\ tr = [] /\ o = Stopped Panic \/
  exists c r, try_from n = Some c /\ o = Done (r, e) /\
    spawned tr = [add_net_command vm_dir c] /\
    (r = 0 /\ clean tr \/ (r = EPERM \/ r = EPROTO) /\ fails_at_end tr).
Proof.
  intros H. unfold add_net_c, unwrap in H.
  destruct (try_from n) as [c|]; [right|left; by msteps].
  apply exec_mbind in H as [(? & ? & ? & ? & -> & [-> ?] & H0)|(? & [_ ?] & _)]; simplify_eq.
  apply exec_mbind in H0 as [(r & ? & tr1 & ? & -> & H1 & H2)|(? & H1 & ->)];
    apply add_net_exec in H1 as (r1 & Hd & Hs & _ & Hr); simplify_eq.
  destruct r1 as [[]|e1]; apply exec_mret in H2 as [-> ->]; simpl; rewrite app_nil_r;
    exists c; eexists; (split_and!; [done..|]); naive_solver.
Qed.

End Ch.
