(* ===== verification/NetUtil.v ===== *)
(** * NetUtil: network interface operations ([host/start-vmm/net-util.c])

    Each function is a short sequence of system calls on a control socket.
    A [char] pointer is modelled by the memory it points to, a list that
    contains the terminator if there is one; [ifr_name] is the 16-byte array
    handed to the kernel. *)

From S2P Require Import Prelude Effects RustStd Sys.

Module NetUtil.

Definition IFNAMSIZ : nat := 16.
Definition IFF_UP : Z := 1.
Definition IFF_TAP : Z := 2.

(** *** C strings *)

(** The C string at the start of a piece of memory. *)
Fixpoint cstr (mem : bytes) : bytes :=
  match mem with
  | [] => []
  | c :: mem' => if decide (c = NUL) then [] else c :: cstr mem'
  end.

Definition strnlen (mem : bytes) (n : nat) : nat := Nat.min n (length (cstr mem)).
Definition strchr (mem : bytes) (c : byte) : bool := has_byte c (cstr mem).

(** [strncpy(dst, src, n)], as the first [n] bytes of the destination. *)
Definition strncpy (src : bytes) (n : nat) : bytes :=
  let s := take n (cstr src) in s ++ replicate (n - length s) NUL.

(** *** The functions *)

(** Close the control socket and return. *)
Definition close_return (fd r : Z) : M Z :=
  let* _ := ccall (Close fd) in mret r.

(** The value of a system call that is only tested against -1. *)
Definition ret_code {A} (r : result A Z) : Z :=
  match r with Ok _ => 0 | Err _ => -1 end.

Definition if_up (name : bytes) : M Z :=
  let* s := ccall Socket in
  match s with
  | Err _ => mret (-1)
  | Ok fd =>
      let ifr_name := strncpy name IFNAMSIZ in
      let* g := ccall (GetIfFlags fd ifr_name) in
      match g with
      | Err _ => close_return fd (-1)
      | Ok flags =>
          let* r := ccall (SetIfFlags fd ifr_name (Z.lor flags IFF_UP)) in
          close_return fd (ret_code r)
      end
  end.

Definition if_rename (name newname : bytes) : M Z :=
  let ifr_name := strncpy name IFNAMSIZ in
  let ifr_newname := strncpy newname IFNAMSIZ in
  if negb (bool_decide (last ifr_newname = Some NUL)) then
    let* _ := set_errno ENAMETOOLONG in mret (-1)
  else if strchr ifr_newname PERCENT then
    let* _ := set_errno EINVAL in mret (-1)
  else
    let* s := ccall Socket in
    match s with
    | Err _ => mret (-1)
    | Ok fd =>
        let* r := ccall (SetIfName fd ifr_name ifr_newname) in
        close_return fd (ret_code r)
    end.

Definition if_down (name : bytes) : M Z :=
  let* s := ccall Socket in
  match s with
  | Err _ => mret (-1)
  | Ok fd =>
      let ifr_name := strncpy name IFNAMSIZ in
      let* g := ccall (GetIfFlags fd ifr_name) in
      match g with
      | Err _ => close_return fd (-1)
      | Ok flags =>
          let* r := ccall (SetIfFlags fd ifr_name (Z.land flags (Z.lnot IFF_UP))) in
          close_return fd (ret_code r)
      end
  end.

Definition bridge_add (name : bytes) : M Z :=
  if (strnlen name IFNAMSIZ =? IFNAMSIZ)%nat then
    let* _ := set_errno ENAMETOOLONG in mret (-1)
  else if strchr name PERCENT then
    let* _ := set_errno EINVAL in mret (-1)
  else
    let* s := ccall Socket in
    match s with
    | Err _ => mret (-1)
    | Ok fd =>
        let* r := ccall (BrAdd fd (cstr name)) in
        close_return fd (ret_code r)
    end.

Definition bridge_add_if (brname ifname : bytes) : M Z :=
  let ifr_name := strncpy brname IFNAMSIZ in
  let* i := ccall (IfNameToIndex (cstr ifname)) in
  match i with
  | Err _ => mret (-1)
  | Ok ifr_ifindex =>
      let* s := ccall Socket in
      match s with
      | Err _ => mret (-1)
      | Ok fd =>
          let* r := ccall (BrAddIf fd ifr_name ifr_ifindex) in
          close_return fd (ret_code r)
      end
  end.

Definition bridge_remove_if (brname ifname : bytes) : M Z :=
  let ifr_name := strncpy brname IFNAMSIZ in
  let* i := ccall (IfNameToIndex (cstr ifname)) in
  match i with
  | Err _ => mret (-1)
  | Ok ifr_ifindex =>
      let* s := ccall Socket in
      match s with
      | Err _ => mret (-1)
      | Ok fd =>
          let* r := ccall (BrDelIf fd ifr_name ifr_ifindex) in
          close_return fd (ret_code r)
      end
  end.

Definition bridge_delete (name : bytes) : M Z :=
  let* d := if_down name in
  let* _ := (if d =? -1 then sysc (Warn (B "setting " ++ cstr name ++ B " down"))
             else mret tt) in
  let* s := ccall Socket in
  match s with
  | Err _ => mret (-1)
  | Ok fd =>
      let* r := ccall (BrDel fd (cstr name)) in
      close_return fd (ret_code r)
  end.

(** [tap_open]: returns the descriptor and the new contents of [name].
    [ifr15] is the byte of the uninitialised [ifr_name] that [strncpy] leaves
    alone; [ifr_flags] keeps the low 16 bits. *)
Definition tap_open (ifr15 : byte) (name : bytes) (flags : Z) : M (Z * bytes) :=
  if (strnlen name IFNAMSIZ =? IFNAMSIZ)%nat then
    let* _ := set_errno ENAMETOOLONG in mret (-1, name)
  else
    let ifr_name := strncpy name (IFNAMSIZ - 1) ++ [ifr15] in
    let ifr_flags := Z.land (Z.lor IFF_TAP flags) 65535 in
    let* s := ccall OpenTun in
    match s with
    | Err _ => mret (-1, name)
    | Ok fd =>
        let* t := ccall (TunSetIff fd ifr_name ifr_flags) in
        match t with
        | Err _ => let* _ := ccall (Close fd) in mret (-1, name)
        | Ok ifr_name' => mret (fd, strncpy ifr_name' IFNAMSIZ)
        end
    end.

(** ** Properties *)

(** Unfold a function and follow every path through it. *)
Ltac follow f H := unfold f, close_return in H; msteps; eauto.

Lemma if_up_no_leak name : leaves_no_fd (if_up name).
Proof. intros e tr o H. follow if_up H. Qed.

Lemma if_down_no_leak name : leaves_no_fd (if_down name).
Proof. intros e tr o H. follow if_down H. Qed.

Lemma if_rename_no_leak name newname : leaves_no_fd (if_rename name newname).
Proof. intros e tr o H. follow if_rename H. Qed.

Lemma bridge_add_no_leak name : leaves_no_fd (bridge_add name).
Proof. intros e tr o H. follow bridge_add H. Qed.

Lemma bridge_add_if_no_leak brname ifname : leaves_no_fd (bridge_add_if brname ifname).
Proof. intros e tr o H. follow bridge_add_if H. Qed.

Lemma bridge_remove_if_no_leak brname ifname :
  leaves_no_fd (bridge_remove_if brname ifname).
Proof. intros e tr o H. follow bridge_remove_if H. Qed.

Lemma leaves_no_fd_bind {A C} (m : M A) (k : A -> M C) :
  leaves_no_fd m -> (forall a, leaves_no_fd (k a)) -> leaves_no_fd (m ≫= k).
Proof.
  intros Hm Hk e tr o H.
  apply exec_mbind in H as [(a & e' & tr1 & tr2 & -> & H1 & H2)|(s & H1 & ->)].
  - apply Hm in H1 as [H1 _]. apply Hk in H2 as [H2 Ho].
    by rewrite opened_app, closed_app, H1, H2.
  - by apply Hm in H1 as [_ (? & ? & ?)].
Qed.

Lemma bridge_delete_no_leak name : leaves_no_fd (bridge_delete name).
Proof.
  apply leaves_no_fd_bind; [apply if_down_no_leak|]. intros d.
  intros e tr o H. follow close_return H.
Qed.

(** None of the interface and bridge operations leaks its control socket:
    on every path, whichever call fails, they return having closed every
    descriptor they opened, and no other. *)
Theorem net_util_no_leak :
  (forall name, leaves_no_fd (if_up name)) /\
  (forall name, leaves_no_fd (if_down name)) /\
  (forall name newname, leaves_no_fd (if_rename name newname)) /\
  (forall name, leaves_no_fd (bridge_add name)) /\
  (forall brname ifname, leaves_no_fd (bridge_add_if brname ifname)) /\
  (forall brname ifname, leaves_no_fd (bridge_remove_if brname ifname)) /\
  (forall name, leaves_no_fd (bridge_delete name)).
Proof.
  split_and!; intros; eauto using if_up_no_leak, if_down_no_leak,
    if_rename_no_leak, bridge_add_no_leak, bridge_add_if_no_leak,
    bridge_remove_if_no_leak, bridge_delete_no_leak.
Qed.

(** [tap_open] keeps exactly the descriptor it returns, and none on failure. *)
Lemma tap_open_exec ifr15 name flags e tr o :
  exec (tap_open ifr15 name flags e) tr o ->
  exists fd name' e', o = Done ((fd, name'), e') /\
    (fd = -1 /\ opened tr = closed tr \/ opened tr = [fd] /\ closed tr = []).
Proof. intros H. follow tap_open H; do 3 eexists; (split; [done|]); auto. Qed.

Lemma cstr_length mem : (length (cstr mem) <= length mem)%nat.
Proof. induction mem; simpl; [lia|]. case_decide; simpl; lia. Qed.

Lemma cstr_id s : NUL ∉ s -> cstr s = s.
Proof.
  induction s as [|c s IH]; [done|]. simpl. intros [Hc Hs]%not_elem_of_cons.
  rewrite decide_False by congruence. by rewrite IH.
Qed.

Lemma cstr_terminated s rest : NUL ∉ s -> cstr (s ++ NUL :: rest) = s.
Proof.
  induction s as [|c s IH]; simpl; [done|]. intros [Hc Hs]%not_elem_of_cons.
  rewrite decide_False by congruence. by rewrite IH.
Qed.

Lemma strncpy_length src n : length (strncpy src n) = n.
Proof.
  unfold strncpy. rewrite length_app, length_replicate, length_take. lia.
Qed.

Lemma cstr_no_nul mem : NUL ∉ cstr mem.
Proof.
  induction mem as [|c mem IH]; simpl; [apply not_elem_of_nil|].
  case_decide; [apply not_elem_of_nil|]. apply not_elem_of_cons. done.
Qed.

Lemma strncpy_short src n :
  (length (cstr src) < n)%nat ->
  strncpy src n = cstr src ++ NUL :: replicate (n - S (length (cstr src))) NUL.
Proof.
  intros H. unfold strncpy. rewrite take_ge by lia.
  by replace (n - length (cstr src))%nat with (S (n - S (length (cstr src)))) by lia.
Qed.

Lemma strncpy_long src n :
  (n <= length (cstr src))%nat -> strncpy src n = take n (cstr src).
Proof.
  intros H. unfold strncpy. rewrite length_take, Nat.min_l by done.
  by rewrite Nat.sub_diag, app_nil_r.
Qed.

(** A copy keeps the string as long as it fits, terminator or not. *)
Lemma cstr_strncpy src n :
  (length (cstr src) <= n)%nat -> cstr (strncpy src n) = cstr src.
Proof.
  intros H. destruct (Nat.eq_dec (length (cstr src)) n) as [<-|Hne].
  - rewrite strncpy_long, take_ge by done. apply cstr_id, cstr_no_nul.
  - rewrite strncpy_short by lia. apply cstr_terminated, cstr_no_nul.
Qed.

Lemma last_replicate_NUL n : last (NUL :: replicate n NUL) = Some NUL.
Proof.
  induction n as [|n IH]; [done|]. change (replicate (S n) NUL) with (NUL :: replicate n NUL).
  by rewrite last_cons_cons.
Qed.

(** The new name fits exactly when the copy ends in a NUL. *)
Lemma strncpy_fits src n :
  (0 < n)%nat -> last (strncpy src n) = Some NUL <-> (length (cstr src) < n)%nat.
Proof.
  intros Hn. split.
  - intros Hl. destruct (Nat.lt_ge_cases (length (cstr src)) n) as [|Hge]; [done|].
    rewrite strncpy_long in Hl by done. exfalso.
    apply last_Some_elem_of in Hl. apply (cstr_no_nul src).
    by apply elem_of_take in Hl as (i & Hi & _); eapply list_elem_of_lookup_2.
  - intros Hlt. rewrite strncpy_short by done.
    by rewrite last_app, last_replicate_NUL.
Qed.

(** An interface name that does not fit into [IFNAMSIZ] bytes with its
    terminator is refused with [ENAMETOOLONG], and one that contains the
    kernel's [%] template character with [EINVAL], before any system call is
    made; every other name reaches the kernel. *)
Theorem name_validation name old e :
  ((IFNAMSIZ <= length (cstr name))%nat ->
     bridge_add name e = Ret (-1, ENAMETOOLONG) /\
     if_rename old name e = Ret (-1, ENAMETOOLONG)) /\
  ((length (cstr name) < IFNAMSIZ)%nat -> PERCENT ∈ cstr name ->
     bridge_add name e = Ret (-1, EINVAL) /\
     if_rename old name e = Ret (-1, EINVAL)) /\
  ((length (cstr name) < IFNAMSIZ)%nat -> PERCENT ∉ cstr name ->
     (exists k, bridge_add name e = Vis Socket k) /\
     (exists k, if_rename old name e = Vis Socket k)).
Proof.
  pose proof (strncpy_fits name IFNAMSIZ ltac:(unfold IFNAMSIZ; lia)) as Hfits.
  unfold bridge_add, if_rename, strnlen, strchr, has_byte. split_and!.
  - intros H. rewrite (proj2 (Nat.eqb_eq _ _)) by lia.
    rewrite bool_decide_false by (rewrite Hfits; lia). done.
  - intros H Hp. rewrite (proj2 (Nat.eqb_neq _ _)) by lia.
    rewrite (bool_decide_true (last _ = _)) by by apply Hfits.
    rewrite strncpy_short, cstr_terminated by (done || apply cstr_no_nul).
    by rewrite bool_decide_true.
  - intros H Hp. rewrite (proj2 (Nat.eqb_neq _ _)) by lia.
    rewrite (bool_decide_true (last _ = _)) by by apply Hfits.
    rewrite (strncpy_short name), cstr_terminated by (done || apply cstr_no_nul).
    rewrite bool_decide_false by done. split; by eexists.
Qed.

End NetUtil.
