(* ===== verification/Fork.v ===== *)
(** * Fork: process and descriptor helpers of [host/start-vmm]

    [fork.c] (the double fork, with its report over a pipe), [unix.c] and
    [unix.rs] (clearing close-on-exec), bound to Rust by [fork.rs]. *)

From S2P Require Import Prelude Effects RustStd Sys Scenario.

Module Fork.

Definition SIGKILL : Z := 9.
Definition FD_CLOEXEC : Z := 1.

(** ** Close-on-exec *)

(** [clear_cloexec] of [unix.c]. *)
Definition clear_cloexec_c (fd : Z) : M Z :=
  let* g := ccall (FcntlGetFd fd) in
  match g with
  | Err _ => mret (-1)
  | Ok flags =>
      let* s := ccall (FcntlSetFd fd (Z.land flags (Z.lnot FD_CLOEXEC))) in
      match s with Ok _ => mret 0 | Err _ => mret (-1) end
  end.

(** [AsFdExt::clear_cloexec] of [unix.rs]. *)
Definition clear_cloexec (fd : Z) : M (result unit io_error) :=
  let* r := clear_cloexec_c fd in
  if r =? -1 then let* e := get_errno in mret (Err (OsError e))
  else mret (Ok tt).

(** ** The double fork *)

(** The four bytes of an [int] in memory, and back. *)
Definition int_bytes (v : Z) : bytes :=
  [u8_of v; u8_of (v / 256); u8_of (v / 65536); u8_of (v / 16777216)].

Definition to_signed (z : Z) : Z := if z <? 2147483648 then z else z - 4294967296.

Definition bytes_int (buf : bytes) : Z :=
  match buf with
  | [a; b; c; d] =>
      to_signed (u8_val a + 256 * u8_val b + 65536 * u8_val c + 16777216 * u8_val d)
  | _ => 0
  end.

(** [acc += r] on a [size_t] with a signed [r]. *)
Definition size_add (acc r : Z) : Z := (acc + r) mod 2 ^ 64.

(** [memcpy] of freshly read bytes into the buffer at offset [acc]. *)
Definition store (buf : bytes) (acc : nat) (data : bytes) : bytes :=
  take acc buf ++ data ++ drop (acc + length data) buf.

(** The parent's loop: [r], and the memory of [v] when it ends. *)
Fixpoint read_loop (fuel : nat) (fd : Z) (v : bytes) (acc : Z) : M (Z * bytes) :=
  match fuel with
  | O => halt NoFuel
  | S fuel' =>
      let* res := ccall (Read fd (Z.to_nat (4 - acc))) in
      let* errno := get_errno in
      let r := match res with Ok data => Z.of_nat (length data) | Err _ => -1 end in
      let v := match res with Ok data => store v (Z.to_nat acc) data | Err _ => v end in
      if (negb (r =? -1) || (errno =? EINTR)) && (size_add acc r <? 4)
      then read_loop fuel' fd v (size_add acc r)
      else mret (r, v)
  end.

(** The child's loop: the last [r]. *)
Fixpoint write_loop (fuel : nat) (fd : Z) (v : bytes) (acc : Z) : M Z :=
  match fuel with
  | O => halt NoFuel
  | S fuel' =>
      let* res := ccall (Write fd (drop (Z.to_nat acc) v)) in
      let* errno := get_errno in
      let r := match res with Ok n => n | Err _ => -1 end in
      if (negb (r =? -1) || (errno =? EINTR)) && (size_add acc r <? 4)
      then write_loop fuel' fd v (size_add acc r)
      else mret r
  end.

(** [double_fork]; [v0] is what the uninitialised [v] happens to hold, [fuel]
    bounds the two loops. *)
Definition double_fork (fuel : nat) (v0 : bytes) : M Z :=
  let* p := ccall Pipe in
  match p with
  | Err _ => mret (-1)
  | Ok (fd0, fd1) =>
      let* child := ccall Fork in
      match child with
      | Err _ =>
          let* _ := ccall (Close fd0) in
          let* _ := ccall (Close fd1) in
          mret (-1)
      | Ok pid =>
          if pid =? 0 then
            let* _ := ccall (Close fd0) in
            let* grandchild := ccall Fork in
            let* errno := get_errno in
            let v := match grandchild with Ok v => v | Err _ => - errno end in
            if v =? 0 then
              let* _ := ccall (Close fd1) in mret 0
            else
              let* r := write_loop fuel fd1 (int_bytes v) 0 in
              halt (Exit (if (v <? 0) || (r =? -1) then 1 else 0))
          else
            let* _ := ccall (Close fd1) in
            let* rv := read_loop fuel fd0 v0 0 in
            let* _ := ccall (Close fd0) in
            let* _ := (if rv.1 =? -1 then
                         let* _ := ccall (Kill pid SIGKILL) in
                         let* _ := ccall (WaitPid pid) in mret tt
                       else mret tt) in
            mret (bytes_int rv.2)
      end
  end.

(** ** Reading traces of the pipe *)

Definition read_of (ev : event sys) : bytes :=
  match ev with
  | Event e x => match e in sys X return X -> bytes with
                 | Read _ _ => fun r => match r with Ok d => d | Err _ => [] end
                 | _ => fun _ => []
                 end x
  end.
Definition read_data (tr : list (event sys)) : bytes := tr ≫= read_of.

(** A [write] of [data] that returns [n] has sent the first [n] bytes. *)
Definition written_of (ev : event sys) : bytes :=
  match ev with
  | Event e x => match e in sys X return X -> bytes with
                 | Write _ data =>
                     fun r => match r with Ok n => take (Z.to_nat n) data | Err _ => [] end
                 | _ => fun _ => []
                 end x
  end.
Definition written_data (tr : list (event sys)) : bytes := tr ≫= written_of.

(** Reads and writes that make progress: at least one byte, at most what was
    asked for, and no error. *)
Definition progress (ev : event sys) : Prop :=
  match ev with
  | Event e x =>
      match e in sys X return X -> Prop with
      | Read _ len =>
          fun r => match r with Ok d => (0 < length d <= len)%nat | Err _ => False end
      | Write _ data =>
          fun r => match r with Ok n => 0 < n <= Z.of_nat (length data) | Err _ => False end
      | _ => fun _ => True
      end x
  end.
Definition makes_progress (tr : list (event sys)) : Prop := Forall progress tr.

(** ** Properties *)

Lemma int_bytes_roundtrip v : - 2 ^ 31 <= v < 2 ^ 31 -> bytes_int (int_bytes v) = v.
Proof.
  intros Hv. unfold bytes_int, int_bytes, to_signed. rewrite !u8_val_of.
  change (2 ^ 31) with 2147483648 in Hv.
  Z.div_mod_to_equations. case_match; lia.
Qed.

Lemma int_bytes_length v : length (int_bytes v) = 4%nat.
Proof. done. Qed.

Lemma size_add_small acc r : 0 <= acc < 4 -> 0 <= r <= 4 -> size_add acc r = acc + r.
Proof. intros. unfold size_add. apply Z.mod_small. lia. Qed.

Lemma store_length v acc d :
  (acc + length d <= length v)%nat -> length (store v acc d) = length v.
Proof.
  intros H. unfold store. rewrite !length_app, length_take, length_drop. lia.
Qed.

Lemma take_store v acc d :
  (acc + length d <= length v)%nat ->
  take (acc + length d) (store v acc d) = take acc v ++ d.
Proof.
  intros H. unfold store. rewrite app_assoc, take_app_length'; [done|].
  rewrite length_app, length_take. lia.
Qed.

Lemma read_data_cons ev tr : read_data (ev :: tr) = read_of ev ++ read_data tr.
Proof. done. Qed.

(** As long as the reads make progress, the loop ends within the bytes it
    waits for and the buffer then holds exactly the bytes that were read. *)
Lemma read_loop_exec fuel fd v acc e tr o :
  exec (read_loop fuel fd v acc e) tr o -> makes_progress tr ->
  length v = 4%nat -> 0 <= acc < 4 -> 4 - acc <= Z.of_nat fuel ->
  exists r, o = Done ((r, take (Z.to_nat acc) v ++ read_data tr), e) /\ r <> -1 /\
    length (read_data tr) = Z.to_nat (4 - acc).
Proof.
  revert v acc tr. induction fuel as [|fuel IH]; intros v acc tr H Hp Hl Ha Hf; [lia|].
  cbn [read_loop] in H.
  apply exec_mbind in H as [(res & e' & tr1 & tr2 & -> & H1 & H2)|(s & H1 & ->)];
    apply exec_ccall in H1 as (r0 & -> & Ho); simplify_eq.
  apply Forall_app in Hp as [[Hr _]%Forall_cons Hp2].
  destruct r0 as [d|en]; simpl in Hr; [|done].
  rewrite get_errno_bind in H2.
  rewrite (proj2 (Z.eqb_neq _ (-1))) in H2 by lia.
  rewrite size_add_small in H2 by lia. simpl in H2.
  pose proof (take_store v (Z.to_nat acc) d ltac:(lia)) as Ht.
  destruct (Z.ltb_spec (acc + Z.of_nat (length d)) 4).
  - apply IH in H2 as (r & -> & Hr2 & Hlen); [|done|rewrite store_length by lia; lia|lia|lia].
    exists r. simpl. rewrite length_app, Hlen.
    replace (Z.to_nat (acc + _)) with (Z.to_nat acc + length d)%nat by lia.
    rewrite Ht, <- app_assoc. split_and!; [done|done|lia].
  - apply exec_mret in H2 as [-> ->]. exists (Z.of_nat (length d)). simpl.
    rewrite app_nil_r. split_and!; [|lia|lia]. do 3 f_equal.
    rewrite <- Ht, take_ge; [done|]. rewrite store_length; lia.
Qed.

Lemma write_loop_exec fuel fd v acc e tr o :
  exec (write_loop fuel fd v acc e) tr o -> makes_progress tr ->
  length v = 4%nat -> 0 <= acc < 4 -> 4 - acc <= Z.of_nat fuel ->
  exists r, o = Done (r, e) /\ r <> -1 /\ written_data tr = drop (Z.to_nat acc) v.
Proof.
  revert acc tr. induction fuel as [|fuel IH]; intros acc tr H Hp Hl Ha Hf; [lia|].
  cbn [write_loop] in H.
  apply exec_mbind in H as [(res & e' & tr1 & tr2 & -> & H1 & H2)|(s & H1 & ->)];
    apply exec_ccall in H1 as (r0 & -> & Ho); simplify_eq.
  apply Forall_app in Hp as [[Hr _]%Forall_cons Hp2].
  destruct r0 as [n|en]; simpl in Hr; [|done]. rewrite length_drop in Hr.
  rewrite get_errno_bind in H2.
  rewrite (proj2 (Z.eqb_neq _ (-1))) in H2 by lia.
  rewrite size_add_small in H2 by lia. simpl in H2.
  destruct (Z.ltb_spec (acc + n) 4).
  - apply IH in H2 as (r & -> & Hr2 & Hw); [|done|done|lia|lia].
    exists r. simpl. rewrite Hw. split_and!; [done|done|].
    rewrite Z2Nat.inj_add, <- drop_drop by lia. apply take_drop.
  - apply exec_mret in H2 as [-> ->]. exists n. simpl. rewrite app_nil_r.
    split_and!; [done|lia|]. apply take_ge. rewrite length_drop. lia.
Qed.

Global Arguments read_loop : simpl never.
Global Arguments write_loop : simpl never.
Global Arguments int_bytes : simpl never.
Global Arguments bytes_int : simpl never.

(** The answers to the forks of a trace. *)
Definition forked (tr : list (event sys)) : list (result Z Z) :=
  tr ≫= fun ev => match ev with
                  | Event e x => match e in sys X return X -> list (result Z Z) with
                                 | Fork => fun r => [r]
                                 | _ => fun _ => []
                                 end x
                  end.

Lemma read_data_app tr1 tr2 : read_data (tr1 ++ tr2) = read_data tr1 ++ read_data tr2.
Proof. apply bind_app. Qed.

Lemma forked_app tr1 tr2 : forked (tr1 ++ tr2) = forked tr1 ++ forked tr2.
Proof. apply bind_app. Qed.

Lemma written_data_app tr1 tr2 :
  written_data (tr1 ++ tr2) = written_data tr1 ++ written_data tr2.
Proof. apply bind_app. Qed.

(** The part of a trace that belongs to a loop makes progress if all of it does. *)
Ltac loop_progress Hp :=
  unfold makes_progress in *;
  repeat match type of Hp with
         | Forall _ (_ :: _) => apply Forall_cons in Hp as [_ Hp]
         | Forall _ (_ ++ _) => apply Forall_app in Hp as [Hp _]
         end.

Lemma double_fork_parent fuel v0 e tr o pid :
  exec (double_fork fuel v0 e) tr o -> (4 <= fuel)%nat -> length v0 = 4%nat ->
  makes_progress tr -> forked tr = [Ok pid] -> pid <> 0 ->
  exists e', o = Done (bytes_int (read_data tr), e').
Proof.
  intros H Hfuel Hl Hp Hf Hpid. unfold double_fork in H. msteps.
  all: loop_progress Hp;
    match goal with H : exec (read_loop _ _ _ _ _) _ _ |- _ =>
      apply read_loop_exec in H as (r & Ho & Hr & _); [|done|done|lia|lia] end;
    simplify_eq/=.
  - lia.
  - rewrite read_data_app, app_nil_r. by eexists.
Qed.

Lemma double_fork_child fuel v0 e tr o g :
  exec (double_fork fuel v0 e) tr o -> (4 <= fuel)%nat -> makes_progress tr ->
  forked tr = [Ok 0; g] ->
  match g with Ok p => 0 < p | Err en => 0 < en end ->
  written_data tr = int_bytes (match g with Ok p => p | Err en => - en end) /\
  o = Stopped (Exit (if is_ok g then 0 else 1)).
Proof.
  intros H Hfuel Hp Hf Hg. unfold double_fork in H. msteps.
  1: destruct g; lia.
  all: loop_progress Hp;
    match goal with H : exec (write_loop _ _ _ _ _) _ _ |- _ =>
      apply write_loop_exec in H as (r & Ho & Hr & Hw); [|done|done|lia|lia] end;
    simplify_eq/=.
  rewrite app_nil_r, Hw. apply Z.eqb_neq in Hr. rewrite Hr, orb_false_r.
  destruct g as [p|en]; simpl in *; (split; [done|]); do 2 f_equal; case_match; lia.
Qed.

(** *** Errors of the pipe *)

(** The answers to [pipe] and to the reads of a trace, and the signals sent. *)
Definition piped (tr : list (event sys)) : list (result (Z * Z) Z) :=
  tr ≫= fun ev => match ev with
                  | Event e x => match e in sys X return X -> list (result (Z * Z) Z) with
                                 | Pipe => fun r => [r]
                                 | _ => fun _ => []
                                 end x
                  end.
Definition answer_read (ev : event sys) : list (result bytes Z) :=
  match ev with
  | Event e x => match e in sys X return X -> list (result bytes Z) with
                 | Read _ _ => fun r => [r]
                 | _ => fun _ => []
                 end x
  end.
Definition read_answers (tr : list (event sys)) : list (result bytes Z) := tr ≫= answer_read.
Definition signals (tr : list (event sys)) : list (Z * Z) :=
  tr ≫= fun ev => match ev with Event (Kill pid sig) _ => [(pid, sig)] | _ => [] end.

Lemma read_answers_app tr1 tr2 : read_answers (tr1 ++ tr2) = read_answers tr1 ++ read_answers tr2.
Proof. apply bind_app. Qed.
Lemma signals_app tr1 tr2 : signals (tr1 ++ tr2) = signals tr1 ++ signals tr2.
Proof. apply bind_app. Qed.

(** A failure of the very first read, whichever it is, ends the loop. *)
Lemma read_loop_first fuel fd v e tr o en :
  exec (read_loop fuel fd v 0 e) tr o -> head (read_answers tr) = Some (Err en) ->
  tr = [Event (Read fd 4) (Err en)] /\ o = Done ((-1, v), en).
Proof.
  intros H Hh. destruct fuel as [|fuel]; [by apply exec_halt in H as [-> _]|].
  change (read_loop (S fuel) fd v 0) with
    (let* res := ccall (Read fd 4) in
     let* errno := get_errno in
     let r := match res with Ok data => Z.of_nat (length data) | Err _ => -1 end in
     let v := match res with Ok data => store v 0 data | Err _ => v end in
     if (negb (r =? -1) || (errno =? EINTR)) && (size_add 0 r <? 4)
     then read_loop fuel fd v (size_add 0 r)
     else mret (r, v)) in H.
  apply exec_mbind in H as [(res & e' & t1 & t2 & -> & H1 & H)|(s & H1 & ->)];
    apply exec_ccall in H1 as (r & -> & ?); simplify_eq.
  destruct r as [d|en']; simpl in Hh; simplify_eq. rewrite get_errno_bind in H. cbv zeta in H.
  change (size_add 0 (-1) <? 4) with false in H. rewrite andb_false_r in H. by apply exec_mret in H as [-> ->].
Qed.

Lemma read_loop_more fuel fd v acc e (res : result bytes Z) t o :
  let r := match res with Ok data => Z.of_nat (length data) | Err _ => -1 end in
  let e' := match res with Ok _ => e | Err en => en end in
  (negb (r =? -1) || (e' =? EINTR)) && (size_add acc r <? 4) = true ->
  exec (read_loop fuel fd (match res with Ok data => store v (Z.to_nat acc) data | Err _ => v end)
          (size_add acc r) e') t o ->
  exec (read_loop (S fuel) fd v acc e) (Event (Read fd (Z.to_nat (4 - acc))) res :: t) o.
Proof.
  intros r e' Hc H. unfold read_loop; fold read_loop. apply exec_mbind. left.
  exists res, e', [Event (Read fd (Z.to_nat (4 - acc))) res], t. split; [done|].
  split; [apply exec_ccall; by exists res|]. rewrite get_errno_bind. cbv zeta. fold r. by rewrite Hc.
Qed.

(** After a read of 1 to 3 bytes an interrupt moves the position back by one. *)
Lemma read_loop_interrupted n fd v e d1 d2 :
  (0 < length d1 < 4)%nat -> (length d1 + length d2 = 4)%nat ->
  exec (read_loop (S (S (S n))) fd v 0 e)
    (Event (Read fd 4) (Ok d1) :: Event (Read fd (length d2)) (Err EINTR) ::
     Event (Read fd (1 + length d2)) (Ok d2) :: replicate n (Event (Read fd 1) (Ok []))) (Stopped NoFuel).
Proof.
  intros H1 H2. set (k := Z.of_nat (length d1)). set (m := Z.of_nat (length d2)).
  assert (Hspin : forall w e', exec (read_loop n fd w 3 e') (replicate n (Event (Read fd 1) (Ok []))) (Stopped NoFuel)).
  { clear. induction n as [|n IH]; intros w e'; [done|]. by apply (read_loop_more n fd w 3). }
  apply (read_loop_more _ _ _ 0); cbv zeta; fold k; rewrite size_add_small by lia.
  { rewrite (proj2 (Z.eqb_neq k (-1))), (proj2 (Z.ltb_lt _ 4)) by lia. done. }
  replace (length d2) with (Z.to_nat (4 - (0 + k))) at 1 by lia.
  assert (Hback : size_add (0 + k) (-1) = k - 1) by (unfold size_add; rewrite Z.mod_small; lia).
  apply read_loop_more; cbv zeta; rewrite Hback.
  { by rewrite (proj2 (Z.ltb_lt _ 4)) by lia. }
  replace (1 + length d2)%nat with (Z.to_nat (4 - (k - 1))) by lia.
  apply read_loop_more; cbv zeta; fold m; rewrite size_add_small by lia; replace (k - 1 + m) with 3 by lia.
  { by rewrite (proj2 (Z.eqb_neq m (-1))) by lia. }
  apply Hspin.
Qed.

Lemma double_fork_first_read fuel v0 e tr o pid en :
  exec (double_fork fuel v0 e) tr o -> forked tr = [Ok pid] -> pid <> 0 ->
  head (read_answers tr) = Some (Err en) ->
  read_answers tr = [Err en] /\ signals tr = [(pid, SIGKILL)] /\ exists e', o = Done (bytes_int v0, e').
Proof.
  intros H Hf Hpid Hr. unfold double_fork in H. msteps.
  all: try rewrite read_answers_app, app_nil_r in Hr;
    match goal with H : exec (read_loop _ _ _ _ _) _ _ |- _ =>
      apply (read_loop_first _ _ _ _ _ _ en) in H as [-> ?]; [|done] end; simplify_eq/=.
  split_and!; [done..|]. by eexists.
Qed.

(** C35. The errors that [double_fork] does not report.  If the parent's first
    [read] fails, be it that a signal interrupts it, it is not retried, although
    the loop tests for [EINTR]: adding the -1 to the unsigned counter ends the
    loop, the child is killed, and the uninitialised [v] is returned as if it
    were a process id or an errno.  If a signal interrupts it when some bytes, but
    not all, have been read, the counter goes back by one: the read is retried
    one byte too early and waits for one byte too many, and when the child has
    closed its end the loop never ends.  And a failure of [pipe] or of the first
    [fork] is always reported as -1, that is as the negated [EPERM], whatever the
    actual errno. *)
Theorem double_fork_loses_errors v0 e :
  (forall fuel tr o pid en,
     exec (double_fork fuel v0 e) tr o -> forked tr = [Ok pid] -> pid <> 0 ->
     head (read_answers tr) = Some (Err en) ->
     read_answers tr = [Err en] /\ signals tr = [(pid, SIGKILL)] /\ exists e', o = Done (bytes_int v0, e')) /\
  (forall n a b pid x d1 d2,
     pid <> 0 -> (0 < length d1 < 4)%nat -> (length d1 + length d2 = 4)%nat ->
     exec (double_fork (3 + n) v0 e)
       ([Event Pipe (Ok (a, b)); Event Fork (Ok pid); Event (Close b) x;
         Event (Read a 4) (Ok d1); Event (Read a (length d2)) (Err EINTR);
         Event (Read a (1 + length d2)) (Ok d2)] ++ replicate n (Event (Read a 1) (Ok [])))
       (Stopped NoFuel)) /\
  (forall fuel tr o en,
     exec (double_fork fuel v0 e) tr o -> piped tr = [Err en] \/ forked tr = [Err en] ->
     exists e', o = Done (-1, e')).
Proof.
  split_and!.
  - intros fuel tr o pid en. apply double_fork_first_read.
  - intros n a b pid x d1 d2 Hpid H1 H2. eexists _, _. split; [reflexivity|]. eexists _, _. split; [reflexivity|].
    apply Z.eqb_neq in Hpid. cbn. rewrite Hpid. eexists _, _. split; [reflexivity|].
    apply exec_mbind. right. exists NoFuel. split; [|done]. by apply read_loop_interrupted.
  - intros fuel tr o en H Hor. unfold double_fork in H. msteps; try by eexists.
Qed.

Lemma double_fork_loses_errors_witness :
  exec (double_fork 4 (int_bytes 12345) 0)
    [Event Pipe (Ok (5, 6)); Event Fork (Ok 76); Event (Close 6) (Ok tt);
     Event (Read 5 4) (Ok (take 2 (int_bytes 77))); Event (Read 5 2) (Err EINTR);
     Event (Read 5 3) (Ok (drop 2 (int_bytes 77))); Event (Read 5 1) (Ok [])] (Stopped NoFuel) /\
  exists e', @Done (Z * Z) (12345, EINTR) = Done (12345, e').
Proof.
  pose (tr := [Event Pipe (Ok (5, 6)); Event Fork (Ok 76); Event (Close 6) (Ok tt);
     Event (Read 5 4) (Err EINTR); Event (Close 5) (Ok tt);
     Event (Kill 76 SIGKILL) (Ok tt); Event (WaitPid 76) (Ok tt)]).
  destruct (double_fork_loses_errors (int_bytes 12345) 0) as (H1 & H2 & _). split.
  - apply (H2 1%nat 5 6 76 (Ok tt) (take 2 (int_bytes 77)) (drop 2 (int_bytes 77))); by_eval || lia.
  - apply (H1 4%nat tr _ 76 EINTR); [unfold tr; exec_trace|reflexivity|lia|reflexivity].
Defined.

(** [clear_cloexec] succeeds only after setting the descriptor's flags to
    what they were with the close-on-exec bit cleared and every other bit
    unchanged; a failure carries the errno of the call that failed. *)
Theorem clear_cloexec_exact fd e tr o :
  exec (clear_cloexec fd e) tr o ->
  (exists flags flags', o = Done (Ok tt, e) /\
     tr = [Event (FcntlGetFd fd) (Ok flags); Event (FcntlSetFd fd flags') (Ok tt)] /\
     forall i, 0 <= i -> Z.testbit flags' i = negb (i =? 0) && Z.testbit flags i) \/
  (exists en, o = Done (Err (OsError en), en) /\
     (tr = [Event (FcntlGetFd fd) (Err en)] \/
      exists flags flags', tr = [Event (FcntlGetFd fd) (Ok flags);
                                 Event (FcntlSetFd fd flags') (Err en)])).
Proof.
  intros H. unfold clear_cloexec, clear_cloexec_c in H. msteps; try (right; by eauto 6).
  left. match goal with u : unit |- _ => destruct u end.
  do 2 eexists. split_and!; [done..|]. intros i Hi.
  rewrite Z.land_spec, Z.lnot_spec, andb_comm by done. f_equal.
Qed.

Lemma clear_cloexec_exact_witness :
  exists flags flags', trace_in all_well (clear_cloexec 4) =
    [Event (FcntlGetFd 4) (Ok flags); Event (FcntlSetFd 4 flags') (Ok tt)] /\
    Z.testbit flags' 0 = false.
Proof.
  destruct (clear_cloexec_exact 4 0 _ _ (exec_in all_well (clear_cloexec 4)))
    as [(fl & fl' & _ & Ht & Hb)|(en & Ho & _)].
  - exists fl, fl'. split; [exact Ht|by rewrite Hb].
  - vm_compute in Ho. discriminate Ho.
Defined.

(** C20. The two halves of [double_fork] agree.  Take an execution of the
    original process and one of the intermediate child whose second [fork]
    gave [g].  If their pipe operations make progress and the parent reads what
    the child writes, then the parent returns the grandchild's process id, or
    the negated errno of the failed [fork]; four loop turns are enough, however
    the four bytes are cut up; and the child exits with status 1 only to report
    a failure. *)
Theorem double_fork_reports fuel v0 e1 e2 trp trc op oc pid g :
  exec (double_fork fuel v0 e1) trp op -> exec (double_fork fuel v0 e2) trc oc ->
  (4 <= fuel)%nat -> length v0 = 4%nat ->
  makes_progress trp -> makes_progress trc ->
  forked trp = [Ok pid] -> pid <> 0 ->
  forked trc = [Ok 0; g] ->
  match g with Ok p => 0 < p < 2 ^ 31 | Err en => 0 < en < 2 ^ 31 end ->
  read_data trp = written_data trc ->
  exists e', op = Done (match g with Ok p => p | Err en => - en end, e') /\
    oc = Stopped (Exit (if is_ok g then 0 else 1)).
Proof.
  intros Hp Hc Hfuel Hl Hpp Hpc Hfp Hpid Hfc Hg Hrw.
  apply double_fork_child with (g := g) in Hc as [Hw Hoc]; [|done..|destruct g; lia].
  apply double_fork_parent with (pid := pid) in Hp as [e' ->]; [|done..].
  exists e'. split; [|done]. rewrite Hrw, Hw. do 2 f_equal.
  apply int_bytes_roundtrip. destruct g; lia.
Qed.

Lemma double_fork_reports_witness :
  exists e', Done (77, 0) = Done (77, e') /\ Stopped (A := Z * Z) (Exit 0) = Stopped (Exit 0).
Proof.
  pose (trp := [Event Pipe (Ok (5, 6)); Event Fork (Ok 76); Event (Close 6) (Ok tt);
                Event (Read 5 4) (Ok [Byte.x4d; Byte.x00]);
                Event (Read 5 2) (Ok [Byte.x00; Byte.x00]); Event (Close 5) (Ok tt)]).
  pose (trc := [Event Pipe (Ok (5, 6)); Event Fork (Ok 0); Event (Close 5) (Ok tt);
                Event Fork (Ok 77); Event (Write 6 (int_bytes 77)) (Ok 4)]).
  refine (double_fork_reports 4 (replicate 4 Byte.xff) 0 0 trp trc (Done (77, 0))
            (Stopped (Exit 0)) 76 (Ok 77) _ _ _ _ _ _ _ _ _ _ _).
  1-2: exec_trace.
  all: try (repeat constructor; simpl; lia).
  all: try (vm_compute; reflexivity).
Defined.

End Fork.
