(* ===== verification/FdLogic.v ===== *)
(** * FdLogic: which file descriptors a C function holds on to

    A small program logic over executions.  [holds l m Q] says: a process that
    holds the descriptors [l] and runs [m] to completion ends with a result
    [a] and descriptors [l'] such that [Q a l'], provided the kernel answers as
    documented.  Closing -1 closes nothing. *)

From S2P Require Import Prelude Effects RustStd Sys.

(** The descriptors a trace really closes. *)
Definition closes (tr : list (event sys)) : list Z := filter (fun fd => 0 <= fd) (closed tr).

Definition holds {A} (l : list Z) (m : M A) (Q : A -> list Z -> Prop) : Prop :=
  forall e tr o, exec (m e) tr o -> kernel_ok tr ->
  match o with
  | Done (a, _) => exists l', l ++ opened tr ≡ₚ l' ++ closes tr /\ Q a l'
  | Stopped _ => True
  end.

Lemma closes_app tr1 tr2 : closes (tr1 ++ tr2) = closes tr1 ++ closes tr2.
Proof. unfold closes. by rewrite closed_app, filter_app. Qed.

Lemma holds_ret {A} l (a : A) Q : Q a l -> holds l (mret a) Q.
Proof.
  intros HQ e tr o [-> ->]%exec_mret _. by exists l.
Qed.

Lemma holds_halt {A} l s (Q : A -> list Z -> Prop) : holds l (halt s) Q.
Proof. by intros e tr o [-> ->]%exec_halt _. Qed.

Lemma holds_bind {A C} l (m : M A) (k : A -> M C) R Q :
  holds l m R -> (forall a l', R a l' -> holds l' (k a) Q) -> holds l (m ≫= k) Q.
Proof.
  intros Hm Hk e tr o [(a & e' & tr1 & tr2 & -> & H1 & H2)|(s & H1 & ->)]%exec_mbind Hok;
    [|done].
  apply kernel_ok_app in Hok as [Hok1 Hok2].
  destruct (Hm _ _ _ H1 Hok1) as (l1 & Hp1 & HR).
  specialize (Hk _ _ HR _ _ _ H2 Hok2). destruct o as [[c ?]|]; [|done].
  destruct Hk as (l2 & Hp2 & HQ). exists l2. split; [|done].
  rewrite opened_app, closes_app, app_assoc, Hp1.
  rewrite <- app_assoc, (Permutation_app_comm (closes tr1)), app_assoc, Hp2.
  by rewrite <- app_assoc, (Permutation_app_comm (closes tr2)).
Qed.

Lemma holds_weaken {A} l (m : M A) (R Q : A -> list Z -> Prop) :
  holds l m R -> (forall a l', R a l' -> Q a l') -> holds l m Q.
Proof.
  intros Hm HRQ e tr o H Hok. specialize (Hm e tr o H Hok).
  destruct o as [[a e']|]; [|done]. naive_solver.
Qed.

Lemma holds_perm {A} l1 l2 (m : M A) Q : l1 ≡ₚ l2 -> holds l1 m Q -> holds l2 m Q.
Proof.
  intros Hl Hm e tr o H Hok. specialize (Hm e tr o H Hok).
  destruct o as [[a e']|]; [|done]. destruct Hm as (l' & Hp & HQ).
  exists l'. split; [|done]. by rewrite <- Hp, Hl.
Qed.

(** Kernel answers make every opened descriptor non-negative. *)
Lemma kernel_ok_opened tr : kernel_ok tr -> Forall (fun fd => 0 <= fd) (opened tr).
Proof.
  induction 1 as [|[X e x] tr Hev _ IH]; [constructor|].
  change (opened (?ev :: ?tr)) with (opened_of ev ++ opened tr).
  apply Forall_app. split; [|done]. clear IH. revert x Hev.
  destruct e; simpl; intros x Hev; repeat case_match; simpl; repeat constructor; naive_solver.
Qed.

Lemma filter_all {A} (P : A -> Prop) `{!forall x, Decision (P x)} (l : list A) :
  Forall P l -> filter P l = l.
Proof.
  induction 1 as [|x l Hx _ IH]; [done|]. by rewrite filter_cons_True, IH.
Qed.

Lemma holds_no_leak {A} l (m : M A) :
  leaves_no_fd m -> holds l m (fun _ l' => l' = l).
Proof.
  intros Hm e tr o H Hok. apply Hm in H as [Heq (a & e' & ->)].
  exists l. split; [|done]. unfold closes. rewrite <- Heq.
  by rewrite filter_all by by apply kernel_ok_opened.
Qed.

(** A call that concerns no descriptor. *)
Definition fd_neutral {X} (c : sys X) : Prop :=
  forall x, opened_of (Event c x) = [] /\ closed_of (Event c x) = [].

Lemma holds_sysc {X} l (c : sys X) :
  fd_neutral c -> holds l (sysc c) (fun _ l' => l' = l).
Proof.
  intros Hc e tr o (x & -> & ->)%exec_sysc _. destruct (Hc x) as [Ho Hcl].
  exists l. split; [|done]. unfold closes, opened, closed.
  cbn [mbind list_bind]. by rewrite Ho, Hcl.
Qed.

Lemma holds_ccall {X} l (c : sys (result X Z)) :
  fd_neutral c -> holds l (ccall c) (fun _ l' => l' = l).
Proof.
  intros Hc e tr o (x & -> & ->)%exec_ccall _. destruct (Hc x) as [Ho Hcl].
  exists l. split; [|done]. unfold closes, opened, closed.
  cbn [mbind list_bind]. by rewrite Ho, Hcl.
Qed.

Lemma holds_set_errno l e' : holds l (set_errno e') (fun _ l' => l' = l).
Proof. intros e tr o [-> ->] _. by exists l. Qed.

Lemma holds_close l fd : 0 <= fd -> holds (fd :: l) (ccall (Close fd)) (fun _ l' => l' = l).
Proof.
  intros Hfd e tr o (x & -> & ->)%exec_ccall _. exists l. split; [|done].
  unfold closes. simpl. rewrite filter_cons_True, app_nil_r by done.
  apply Permutation_cons_append.
Qed.

Lemma holds_close_none l : holds l (ccall (Close (-1))) (fun _ l' => l' = l).
Proof.
  intros e tr o (x & -> & ->)%exec_ccall _. exists l. split; [|done].
  unfold closes. simpl. by rewrite filter_cons_False by lia.
Qed.

Lemma holds_pipe l :
  holds l (ccall Pipe) (fun r l' => match r with
                                    | Ok (a, b) => 0 <= a /\ 0 <= b /\ l' = b :: a :: l
                                    | Err _ => l' = l
                                    end).
Proof.
  intros e tr o (x & -> & ->)%exec_ccall [Hx _]%kernel_ok_cons.
  destruct x as [[a b]|en]; simpl in Hx.
  - exists (b :: a :: l). split; [|naive_solver]. unfold closes. simpl.
    rewrite app_nil_r, (Permutation_app_comm l). simpl. apply perm_swap.
  - exists l. split; [|done]. done.
Qed.
