(* ===== verification/NetSetup.v ===== *)
(** * NetSetup: connecting a VM to its network provider ([host/start-vmm/net.c])

    A bridge with two taps on it: one descriptor goes to the client VM, the
    other is handed to the router VM over its API socket, and a helper process
    waits for the client to exit and cleans up. *)

From S2P Require Import Prelude Effects RustStd Sys Scenario Mac Ch NetUtil FdLogic.

Module NetSetup.
Import Mac Ch NetUtil.

Definition IFF_NO_PI : Z := 4096.
Definition IFF_VNET_HDR : Z := 16384.
Definition IFF_TUN_EXCL : Z := 32768.
Definition POLLERR : Z := 8.
Definition EWOULDBLOCK : Z := EAGAIN.

(** [snprintf(buf, IFNAMSIZ, ...)] of the text [s] into the 16-byte [buf]. *)
Definition snprintf (buf s : bytes) : bytes :=
  let t := take (IFNAMSIZ - 1) s in
  t ++ NUL :: drop (S (length t)) buf.

(** What the compiler left in the uninitialised locals: [id] of the router's
    [net_config], the last byte of [tap_open]'s [ifr_name], the name buffers. *)
Record garbage := { g_id : bytes; g_ifr15 : byte; g_buf : bytes }.

(** [setup_tap]: the descriptor, and the buffer that receives the name.
    [snprintf] into a buffer of this size does not return -1. *)
Definition setup_tap (g : garbage) (bridge_name tap_prefix tap_name : bytes)
  : M (Z * bytes) :=
  let* pid := sysc GetPid in
  let tap_name := snprintf tap_name (tap_prefix ++ dec pid) in
  let* t := tap_open (g_ifr15 g) tap_name
              (Z.lor IFF_NO_PI (Z.lor IFF_VNET_HDR IFF_TUN_EXCL)) in
  let '(fd, tap_name) := t in
  if fd =? -1 then mret (-1, tap_name)
  else
    let* a := bridge_add_if bridge_name tap_name in
    if a =? -1 then let* _ := ccall (Close fd) in mret (-1, tap_name)
    else
      let* u := if_up tap_name in
      if u =? -1 then let* _ := ccall (Close fd) in mret (-1, tap_name)
      else mret (fd, tap_name).

Definition client_net_setup (g : garbage) (bridge_name tap_name : bytes) : M (Z * bytes) :=
  setup_tap g bridge_name (B "client") tap_name.

(** [router_net_setup]: 0 and the device id, or -1. *)
Definition router_net_setup (g : garbage) (bridge_name router_vm_dir : bytes)
    (mac : MacAddress) : M (Z * bytes) :=
  let* t := setup_tap g bridge_name (B "router") (g_id g) in
  let '(fd, id) := t in
  if fd =? -1 then mret (-1, [])
  else
    let* e := add_net_c router_vm_dir {| c_fd := fd; c_id := id; c_mac := mac |} in
    let* _ := ccall (Close fd) in
    if e =? 0 then mret (0, cstr id)
    else let* _ := set_errno e in mret (-1, []).

(** [router_net_cleanup]. *)
Definition router_net_cleanup (g : garbage) (pid : Z) (vm_dir device_id : bytes) : M Z :=
  let* e := remove_device_c vm_dir device_id in
  if negb (e =? 0) then let* _ := set_errno e in mret (-1)
  else
    let name := snprintf (g_buf g) (B "router" ++ dec pid) in
    let newname := snprintf (g_buf g) (B "_dead" ++ dec pid) in
    let brname := snprintf (g_buf g) (B "br" ++ dec pid) in
    let* r := bridge_remove_if brname name in
    let* _ := (if r =? -1
               then sysc (Warn (B "removing " ++ cstr name ++ B " from " ++ cstr brname))
               else mret tt) in
    let* d := if_down name in
    if d =? -1 then mret (-1) else if_rename name newname.

Definition bridge_cleanup (g : garbage) (pid : Z) : M Z :=
  bridge_delete (snprintf (g_buf g) (B "br" ++ dec pid)).

(** The wait for the other end of the pipe; [fuel] bounds the retries. *)
Fixpoint poll_loop (fuel : nat) (fd : Z) : M Z :=
  match fuel with
  | O => halt NoFuel
  | S fuel' =>
      let* r := ccall (Poll fd) in
      match r with
      | Ok revents => mret revents
      | Err errno =>
          if (errno =? EINTR) || (errno =? EWOULDBLOCK) then poll_loop fuel' fd
          else let* _ := sysc (Warn (B "poll")) in halt (Exit 1)
      end
  end.

(** [exit_listener_main] does not return; a failed assertion is a panic. *)
Definition exit_listener_main (g : garbage) (fuel : nat) (fd pid : Z)
    (router_vm_dir router_device_id : bytes) : M unit :=
  let* revents := poll_loop fuel fd in
  if negb (revents =? POLLERR) then halt Panic
  else
    let* r := router_net_cleanup g pid router_vm_dir router_device_id in
    let* s1 := (if r =? -1 then let* _ := sysc (Warn (B "cleaning up router tap")) in mret 1
                else mret 0) in
    let* b := bridge_cleanup g pid in
    let* s2 := (if b =? -1 then let* _ := sysc (Warn (B "cleaning up bridge")) in mret 1
                else mret s1) in
    halt (Exit s2).

Definition exit_listener_setup (g : garbage) (fuel : nat)
    (router_vm_dir router_device_id : bytes) : M Z :=
  let* pid := sysc GetPid in
  let* p := ccall Pipe in
  match p with
  | Err _ => mret (-1)
  | Ok (fd0, fd1) =>
      let* f := ccall Fork in
      match f with
      | Err _ =>
          let* _ := ccall (Close fd0) in
          let* _ := ccall (Close fd1) in mret (-1)
      | Ok child =>
          if child =? 0 then
            let* _ := ccall (Close fd0) in
            let* _ := exit_listener_main g fuel fd1 pid router_vm_dir router_device_id in
            halt Panic
          else let* _ := ccall (Close fd1) in mret 0
      end
  end.

(** The two MAC addresses derived from the process id. *)
Definition router_mac (pid : Z) : MacAddress :=
  Octets Byte.x0a Byte.xb3 Byte.xec Byte.x80 (u8_of (Z.shiftr pid 8)) (u8_of pid).
Definition client_mac (pid : Z) : MacAddress :=
  Octets Byte.x0a Byte.xb3 Byte.xec Byte.x00 (u8_of (Z.shiftr pid 8)) (u8_of pid).

Definition net_setup (g : garbage) (fuel : nat) (router_vm_dir : bytes) : M NetConfigC :=
  let* pid := sysc GetPid in
  let r fd id := {| c_fd := fd; c_id := id; c_mac := client_mac pid |} in
  let id0 := replicate IFNAMSIZ NUL in
  let bridge_name := snprintf (g_buf g) (B "br" ++ dec pid) in
  let fail_bridge fd id :=
    let* _ := bridge_delete bridge_name in
    let* _ := ccall (Close fd) in
    mret (r (-1) id) in
  let* a := bridge_add bridge_name in
  if a =? -1 then mret (r (-1) id0)
  else
    let* u := if_up bridge_name in
    if u =? -1 then fail_bridge (-1) id0
    else
      let* c := client_net_setup g bridge_name id0 in
      let '(fd, id) := c in
      if fd =? -1 then fail_bridge (-1) id
      else
        let* d := router_net_setup g bridge_name router_vm_dir (router_mac pid) in
        let '(rr, router_device_id) := d in
        if rr =? -1 then fail_bridge fd id
        else
          let* l := exit_listener_setup g fuel router_vm_dir router_device_id in
          if l =? -1 then fail_bridge fd id
          else mret (r fd id).


(** ** Descriptors *)

Create HintDb fds.
#[local] Hint Resolve holds_no_leak holds_sysc holds_ccall holds_set_errno
  holds_close_none holds_pipe holds_halt : fds.
#[local] Hint Resolve if_up_no_leak if_down_no_leak bridge_add_no_leak
  bridge_add_if_no_leak bridge_remove_if_no_leak bridge_delete_no_leak : fds.
#[local] Hint Extern 1 (fd_neutral _) => (intros ?; split; reflexivity) : fds.

(** One call that keeps the descriptors as they are. *)
Ltac keep := eapply holds_bind; [solve [eauto with fds]|]; cbn beta; intros ? ? ->.

Lemma holds_tap_open l ifr15 name flags :
  holds l (tap_open ifr15 name flags) (fun r l' =>
    r.1 = -1 /\ l' = l \/ 0 <= r.1 /\ l' = r.1 :: l).
Proof.
  intros e tr o H Hok. pose proof (kernel_ok_opened tr Hok) as Hpos.
  apply tap_open_exec in H as (fd & name' & e' & -> & [[-> Hbal]|[Ho Hc]]).
  - exists l. split; [|by left]. unfold closes. by rewrite <- Hbal, filter_all.
  - exists (fd :: l). unfold closes. rewrite Ho in *. rewrite Hc.
    apply Forall_cons in Hpos as [Hfd _]. split; [|by right].
    rewrite app_nil_r. symmetry. apply Permutation_cons_append.
Qed.

Lemma holds_setup_tap l g bridge_name prefix tap_name :
  holds l (setup_tap g bridge_name prefix tap_name) (fun r l' =>
    r.1 = -1 /\ l' = l \/ 0 <= r.1 /\ l' = r.1 :: l).
Proof.
  unfold setup_tap. keep.
  eapply holds_bind; [apply holds_tap_open|]. intros [fd name] l' Hl'; simpl in Hl'.
  destruct (Z.eqb_spec fd (-1)) as [->|Hfd].
  - apply holds_ret. simpl. left. naive_solver lia.
  - destruct Hl' as [[? _]|[Hpos ->]]; [done|]. keep.
    destruct (_ =? -1).
    + eapply holds_bind; [by apply holds_close|]. intros ? ? ->. apply holds_ret. by left.
    + keep. destruct (_ =? -1).
      * eapply holds_bind; [by apply holds_close|]. intros ? ? ->. apply holds_ret. by left.
      * apply holds_ret. by right.
Qed.

Lemma holds_add_net_c l vm_dir n : holds l (add_net_c vm_dir n) (fun _ l' => l' = l).
Proof.
  unfold add_net_c, unwrap. destruct (try_from n) as [c|].
  - eapply holds_bind; [apply (holds_ret l c (fun _ l' => l' = l)); done|].
    intros ? ? ->. unfold add_net.
    eapply holds_bind with (R := fun _ l' => l' = l).
    + keep. case_match; [|by apply holds_ret]. keep.
      repeat case_match; by apply holds_ret.
    + intros ? ? ->. case_match; by apply holds_ret.
  - by apply holds_bind with (R := fun _ _ => False); [apply holds_halt|].
Qed.
#[local] Hint Resolve holds_add_net_c : fds.

Lemma holds_router_net_setup l g bridge_name dir mac :
  holds l (router_net_setup g bridge_name dir mac) (fun _ l' => l' = l).
Proof.
  unfold router_net_setup.
  eapply holds_bind; [apply holds_setup_tap|]. intros [fd id] l1 Hl'; simpl in Hl'.
  destruct (Z.eqb_spec fd (-1)) as [->|Hfd].
  - apply holds_ret. naive_solver lia.
  - destruct Hl' as [[? _]|[Hpos ->]]; [done|]. keep.
    eapply holds_bind; [by apply holds_close|]. intros ? ? ->.
    case_match; [by apply holds_ret|]. keep. by apply holds_ret.
Qed.
#[local] Hint Resolve holds_router_net_setup : fds.

(** The listener process never returns to the caller's code. *)
Definition never_returns {A} (m : M A) : Prop :=
  forall e tr o, exec (m e) tr o -> exists s, o = Stopped s.

Lemma never_returns_halt {A} s : never_returns (halt s : M A).
Proof. intros e tr o [-> ->]. eauto. Qed.

Lemma never_returns_bind {A C} (m : M A) (k : A -> M C) :
  (forall a, never_returns (k a)) -> never_returns (m ≫= k).
Proof.
  intros Hk e tr o [(a & e' & tr1 & tr2 & -> & _ & H)|(s & _ & ->)]%exec_mbind; [|eauto].
  by apply Hk in H.
Qed.

Lemma exit_listener_main_stops g fuel fd pid dir id :
  never_returns (exit_listener_main g fuel fd pid dir id).
Proof.
  apply never_returns_bind; intros revents.
  case_match; [apply never_returns_halt|].
  do 4 (apply never_returns_bind; intros ?). apply never_returns_halt.
Qed.

Lemma holds_exit_listener_setup l g fuel dir id :
  holds l (exit_listener_setup g fuel dir id) (fun r l' =>
    r = -1 /\ l' = l \/ r = 0 /\ exists p, l' = p :: l).
Proof.
  unfold exit_listener_setup. keep.
  eapply holds_bind; [apply holds_pipe|]. intros [[fd0 fd1]|en] l1 Hl'.
  2: { subst. apply holds_ret. by left. }
  destruct Hl' as (Ha & Hb & ->). keep. case_match.
  2: { eapply holds_bind.
       { eapply holds_perm; [apply perm_swap|]. by apply holds_close. }
       intros ? ? ->. eapply holds_bind; [by apply holds_close|]. intros ? ? ->.
       apply holds_ret. by left. }
  case_match.
  - apply holds_bind with (R := fun _ _ => True).
    { eapply holds_weaken; [|done]. eapply holds_perm; [apply perm_swap|].
      by apply holds_close. }
    intros ? l2 _. apply holds_bind with (R := fun _ _ => False); [|done].
    intros ? ? ? (? & ->)%exit_listener_main_stops ?. done.
  - eapply holds_bind; [by apply holds_close|]. intros ? ? ->.
    apply holds_ret. right. eauto.
Qed.

Lemma holds_net_setup g fuel dir :
  holds [] (net_setup g fuel dir) (fun c l' =>
    c_fd c = -1 /\ l' = [] \/ 0 <= c_fd c /\ exists p, l' = [p; c_fd c]).
Proof.
  unfold net_setup. keep. keep.
  case_match; [apply holds_ret; by left|]. keep.
  case_match; [do 2 keep; apply holds_ret; by left|].
  unfold client_net_setup.
  eapply holds_bind; [apply holds_setup_tap|]. intros [fd id] l1 Hl'; simpl in Hl'.
  destruct (Z.eqb_spec fd (-1)) as [->|Hfd].
  { assert (l1 = []) as -> by naive_solver lia. do 2 keep. apply holds_ret. by left. }
  destruct Hl' as [[? _]|[Hpos ->]]; [done|]. keep.
  case_match; case_match.
  { keep. eapply holds_bind; [by apply holds_close|]. intros ? ? ->.
    apply holds_ret. by left. }
  eapply holds_bind; [apply holds_exit_listener_setup|].
  intros r l1 [[-> ->]|[-> (p & ->)]]; simpl.
  - keep. eapply holds_bind; [by apply holds_close|]. intros ? ? ->.
    apply holds_ret. by left.
  - apply holds_ret. right. eauto.
Qed.

(** C21. [net_setup] leaks no descriptor on failure: when it returns -1, every
    descriptor obtained on the way has been closed, whichever step failed.  On
    success the process keeps exactly two more: the tap it returns and the read
    end of the pipe whose closing tells the helper process to clean up. *)
Theorem net_setup_descriptors g fuel dir e tr c e' :
  exec (net_setup g fuel dir e) tr (Done (c, e')) -> kernel_ok tr ->
  c_fd c = -1 /\ opened tr ≡ₚ closes tr \/
  0 <= c_fd c /\ exists p, opened tr ≡ₚ p :: c_fd c :: closes tr.
Proof.
  intros H Hok. destruct (holds_net_setup _ _ _ _ _ _ H Hok) as (l & Hp & Hl).
  naive_solver.
Qed.

(** A scenario's locals. *)
Definition no_garbage : garbage :=
  {| g_id := replicate 16 NUL; g_ifr15 := NUL; g_buf := replicate 16 NUL |}.

Definition EMFILE : Z := 24.

(** Everything works, up to the pipe of the exit listener. *)
Definition pipe_fails : scenario := {|
  sc_pid := 1234; sc_socket := Ok tt; sc_tun := Ok tt; sc_pipe := Err EMFILE;
  sc_fork := Ok 1235; sc_spawn := Ok tt; sc_status := Exited 0; sc_exec := None;
  sc_bind := Ok tt; sc_read_dir := fun _ => Ok [] |}.

Lemma net_setup_descriptors_witness :
  exists fd, 0 <= fd /\ exists p,
    opened (trace_in all_well (net_setup no_garbage 1 (B "/run/vm/netvm")))
    ≡ₚ p :: fd :: closes (trace_in all_well (net_setup no_garbage 1 (B "/run/vm/netvm"))).
Proof.
  destruct (net_setup_descriptors no_garbage 1 (B "/run/vm/netvm") 0
              (trace_in all_well (net_setup no_garbage 1 (B "/run/vm/netvm")))
              {| c_fd := 5; c_id := B "client1234" ++ replicate 6 NUL; c_mac := client_mac 1234 |} 0)
    as [[H _]|H]; [|by apply kernel_ok_in|done|by eexists].
  apply exec_in_outcome. vm_compute. reflexivity.
Defined.

(** *** Which interface is made *)

Lemma snprintf_fits buf s :
  NUL ∉ s -> (length s < IFNAMSIZ)%nat -> cstr (snprintf buf s) = s.
Proof.
  intros Hn Hl. unfold snprintf. rewrite take_ge by (unfold IFNAMSIZ in *; lia).
  by apply cstr_terminated.
Qed.

(** The interfaces a trace asks the tun driver for: name and flags. *)
Definition tun_request_of (ev : event sys) : list (bytes * Z) :=
  match ev with Event (TunSetIff _ n f) _ => [(n, f)] | _ => [] end.
Definition tun_requests (tr : list (event sys)) : list (bytes * Z) := tr ≫= tun_request_of.

(** The taps and bridges that were created. *)
Definition taps_of (ev : event sys) : list bytes :=
  match ev with
  | Event e x => match e in sys X return X -> list bytes with
                 | TunSetIff _ _ _ => fun r => match r with Ok n => [n] | Err _ => [] end
                 | _ => fun _ => []
                 end x
  end.
Definition taps (tr : list (event sys)) : list bytes := tr ≫= taps_of.

Definition bridges_of (ev : event sys) : list bytes :=
  match ev with
  | Event e x => match e in sys X return X -> list bytes with
                 | BrAdd _ n => fun r => match r with Ok _ => [n] | Err _ => [] end
                 | _ => fun _ => []
                 end x
  end.
Definition bridges (tr : list (event sys)) : list bytes := tr ≫= bridges_of.

Lemma tun_requests_app t1 t2 : tun_requests (t1 ++ t2) = tun_requests t1 ++ tun_requests t2.
Proof. apply bind_app. Qed.
Lemma taps_app t1 t2 : taps (t1 ++ t2) = taps t1 ++ taps t2.
Proof. apply bind_app. Qed.
Lemma bridges_app t1 t2 : bridges (t1 ++ t2) = bridges t1 ++ bridges t2.
Proof. apply bind_app. Qed.

Lemma dec_no_nul n : NUL ∉ dec n.
Proof. by apply not_in_dec. Qed.

(** The process ids a trace was told. *)
Definition pid_of (ev : event sys) : list Z :=
  match ev with
  | Event e x => match e in sys X return X -> list Z with
                 | GetPid => fun pid => [pid]
                 | _ => fun _ => []
                 end x
  end.
Definition pids (tr : list (event sys)) : list Z := tr ≫= pid_of.

(** With a process id of at most nine digits, the name fits. *)
Lemma pid_name_fits buf prefix pid :
  NUL ∉ prefix -> (length prefix <= 6)%nat -> 0 <= pid < 10 ^ 9 ->
  cstr (snprintf buf (prefix ++ dec pid)) = prefix ++ dec pid.
Proof.
  intros Hn Hl Hp. apply snprintf_fits.
  - rewrite not_elem_of_app. split; [done|apply dec_no_nul].
  - rewrite length_app. pose proof (dec_length_le pid 9 Hp ltac:(lia)).
    unfold IFNAMSIZ. lia.
Qed.

(** Everything but [tap_open] leaves the tun driver alone. *)
Lemma if_up_no_tun name : silent tun_request_of (if_up name).
Proof. unfold if_up, close_return. silence. Qed.
Lemma bridge_add_if_no_tun br name : silent tun_request_of (bridge_add_if br name).
Proof. unfold bridge_add_if, close_return. silence. Qed.
#[local] Hint Resolve if_up_no_tun bridge_add_if_no_tun : silent.

(** [tap_open] asks for the name it was given, as a C string. *)
Lemma tap_open_request ifr15 name flags e tr o :
  exec (tap_open ifr15 name flags e) tr o ->
  tun_requests tr = [] \/
  exists n, tun_requests tr = [(n, Z.land (Z.lor IFF_TAP flags) 65535)] /\
    take (IFNAMSIZ - 1) n = strncpy name (IFNAMSIZ - 1) /\
    (length (cstr name) < IFNAMSIZ)%nat.
Proof.
  intros H. unfold tap_open in H. msteps; auto; right; eexists;
    (split_and!; [done|apply take_app_length'; symmetry; apply strncpy_length|]).
  all: match goal with H : (_ =? _)%nat = false |- _ => apply Nat.eqb_neq in H end;
    unfold strnlen, IFNAMSIZ in *; lia.
Qed.

Definition tap_flags : Z := 53250. (* IFF_TAP | IFF_NO_PI | IFF_VNET_HDR | IFF_TUN_EXCL *)

Lemma tail_no_tun bridge_name fd name :
  silent tun_request_of
    (if fd =? -1 then mret (-1, name)
     else
       let* a := bridge_add_if bridge_name name in
       if a =? -1 then let* _ := ccall (Close fd) in mret (-1, name)
       else
         let* u := if_up name in
         if u =? -1 then let* _ := ccall (Close fd) in mret (-1, name)
         else mret (fd, name)).
Proof. silence. Qed.

(** The tap that [setup_tap] asks the kernel for is named by the prefix
    and the process id, in full: for every process id the kernel can give out
    the name fits into the interface name buffer, whatever the buffers held
    before, and the request carries the four tap flags. *)
Theorem setup_tap_name g bridge_name prefix buf e tr o pid :
  exec (setup_tap g bridge_name prefix buf e) tr o ->
  NUL ∉ prefix -> (length prefix <= 6)%nat ->
  pids tr = [pid] -> 0 <= pid < 10 ^ 9 ->
  Forall (fun req => cstr (take (IFNAMSIZ - 1) req.1) = prefix ++ dec pid /\
                     req.2 = tap_flags) (tun_requests tr).
Proof.
  intros H Hn Hl Hpids Hpid. unfold setup_tap in H.
  apply exec_mbind in H as [(pid' & e1 & tr1 & tr2 & -> & H1 & H2)|(s & H1 & ->)];
    apply exec_sysc in H1 as (x & -> & Hx); simplify_eq.
  injection Hpids as -> _. change (Forall ?P (tun_requests ([_] ++ ?t))) with (Forall P (tun_requests t)).
  pose proof (pid_name_fits buf prefix pid Hn Hl Hpid) as Hname.
  assert (exists t1 t2 o1, tr2 = t1 ++ t2 /\ tun_requests t2 = [] /\
    exec (tap_open (g_ifr15 g) (snprintf buf (prefix ++ dec pid))
      (Z.lor IFF_NO_PI (Z.lor IFF_VNET_HDR IFF_TUN_EXCL)) e) t1 o1)
    as (t1 & t2 & o1 & -> & Ht2 & Ht).
  { apply exec_mbind in H2 as [([fd name] & e2 & t1 & t2 & -> & Ht & H3)|(s & Ht & ->)].
    - exists t1, t2. eexists. split_and!; [done| |done]. revert H3. apply tail_no_tun.
    - exists tr2, []. rewrite app_nil_r. eauto. }
  rewrite tun_requests_app, Ht2, app_nil_r.
  apply tap_open_request in Ht as [->|(n & -> & Htake & Hlen)]; [constructor|].
  constructor; [|constructor]. rewrite Hname in *. split; [|done].
  cbn [fst]. rewrite Htake, cstr_strncpy; rewrite Hname; [done|]. unfold IFNAMSIZ in *. lia.
Qed.

Lemma setup_tap_name_witness :
  cstr (take 15 (B "client1234" ++ replicate 6 NUL)) = B "client1234".
Proof.
  assert (H : Forall (fun req => cstr (take 15 req.1) = B "client" ++ dec 1234 /\
                                 req.2 = tap_flags)
    (tun_requests (trace_in all_well
       (setup_tap no_garbage (B "br1234") (B "client") (replicate 16 NUL))))).
  { eapply (setup_tap_name no_garbage (B "br1234") (B "client") (replicate 16 NUL) 0
              _ _ 1234 (exec_in _ _)); [by_eval|vm_compute; lia|reflexivity|lia]. }
  apply Forall_cons in H as [[H _] _]. exact H.
Defined.

(** *** What is reported when it fails *)

Lemma if_up_no_bridge name : silent bridges_of (if_up name).
Proof. unfold if_up, close_return. silence. Qed.

Lemma bridge_add_failed name e tr e' :
  exec (bridge_add name e) tr (Done (-1, e')) -> bridges tr = [].
Proof.
  intros H. follow bridge_add H.
  match goal with H : -1 = ret_code ?r |- _ => by destruct r end.
Qed.

Lemma setup_tap_made g bridge_name prefix buf e tr fd id e' :
  exec (setup_tap g bridge_name prefix buf e) tr (Done ((fd, id), e')) ->
  fd <> -1 -> taps tr <> [].
Proof.
  intros H Hfd. unfold setup_tap in H.
  apply exec_mbind in H as [(pid & e1 & tr1 & tr2 & -> & H1 & H2)|(s & H1 & ?)]; [|done].
  apply exec_mbind in H2 as [([fd1 name] & e2 & tr3 & tr4 & -> & H2 & H3)|(s & H2 & ?)]; [|done].
  rewrite !taps_app. intros [_ [Ht _]%app_eq_nil]%app_eq_nil.
  assert (fd1 = -1) as ->.
  { clear H3. unfold tap_open in H2. msteps; done. }
  simpl in H3. by msteps.
Qed.

(** The error path taken while there is no tap yet: [close(-1)] comes last. *)
Lemma fail_bridge_errno {A} name (x : A) e tr c e' :
  exec ((let* _ := bridge_delete name in let* _ := ccall (Close (-1)) in mret x) e)
    tr (Done (c, e')) ->
  kernel_ok tr -> c = x /\ e' = EBADF.
Proof.
  intros H Hok.
  apply exec_mbind in H as [(d & e1 & tr1 & tr2 & -> & _ & H2)|(s & _ & ?)]; [|done].
  apply kernel_ok_app in Hok as [_ Hok]. msteps.
  apply kernel_ok_cons in Hok as [Hc _]. simpl in Hc. by rewrite (Hc eq_refl).
Qed.

(** C36. The error that [net_setup] leaves for its caller is lost whenever the
    failure comes after the bridge was created and before a tap exists: the
    cleanup code closes descriptor -1, so [errno] is [EBADF] whatever went
    wrong. *)
Theorem net_setup_masks_errno g fuel dir e tr c e' :
  exec (net_setup g fuel dir e) tr (Done (c, e')) -> kernel_ok tr ->
  bridges tr <> [] -> taps tr = [] ->
  c_fd c = -1 /\ e' = EBADF.
Proof.
  intros H Hok Hb Ht. unfold net_setup in H.
  apply exec_mbind_done in H as (x & e1 & tr1 & tr2 & -> & H1 & H).
  apply exec_sysc in H1 as (? & -> & ?); simplify_eq.
  apply exec_mbind_done in H as (a & e2 & tr2' & tr3 & -> & H1 & H).
  rewrite !kernel_ok_app in Hok. destruct Hok as (_ & _ & Hok).
  destruct (Z.eqb_spec a (-1)) as [->|Ha].
  { apply exec_mret in H as [-> ?]. apply bridge_add_failed in H1.
    rewrite !bridges_app, H1 in Hb. by destruct Hb. }
  clear Hb. rewrite !taps_app in Ht. apply app_eq_nil in Ht as [_ [_ Ht]%app_eq_nil].
  apply exec_mbind_done in H as (u & e3 & tr4 & tr5 & -> & _ & H).
  apply kernel_ok_app in Hok as [_ Hok].
  rewrite taps_app in Ht. apply app_eq_nil in Ht as [_ Ht].
  case_match; [by apply fail_bridge_errno in H as [-> ->]|].
  apply exec_mbind_done in H as ([fd id] & e4 & tr6 & tr7 & -> & H2 & H).
  apply kernel_ok_app in Hok as [_ Hok].
  rewrite taps_app in Ht. apply app_eq_nil in Ht as [Ht _].
  destruct (Z.eqb_spec fd (-1)) as [->|Hfd].
  - by apply fail_bridge_errno in H as [-> ->].
  - by apply setup_tap_made in H2.
Qed.

(** Opening the tun device is not permitted. *)
Definition tun_fails : scenario := {|
  sc_pid := 1234; sc_socket := Ok tt; sc_tun := Err EPERM; sc_pipe := Ok tt;
  sc_fork := Ok 1235; sc_spawn := Ok tt; sc_status := Exited 0; sc_exec := None;
  sc_bind := Ok tt; sc_read_dir := fun _ => Ok [] |}.

Lemma net_setup_masks_errno_witness :
  exists c, outcome_in tun_fails (net_setup no_garbage 1 (B "/run/vm/netvm")) = Done (c, EBADF) /\
    c_fd c = -1.
Proof.
  pose (c := {| c_fd := -1; c_id := B "client1234" ++ replicate 6 NUL; c_mac := client_mac 1234 |}).
  assert (Ho : outcome_in tun_fails (net_setup no_garbage 1 (B "/run/vm/netvm")) = Done (c, EBADF))
    by (vm_compute; reflexivity).
  exists c. split; [exact Ho|].
  apply (net_setup_masks_errno no_garbage 1 (B "/run/vm/netvm") 0
           (trace_in tun_fails (net_setup no_garbage 1 (B "/run/vm/netvm"))) c EBADF).
  - by apply exec_in_outcome.
  - by apply kernel_ok_in.
  - vm_compute. discriminate.
  - vm_compute. reflexivity.
Defined.

(** *** The router's device *)

Lemma if_up_no_spawn name : silent spawn_of (if_up name).
Proof. unfold if_up, close_return. silence. Qed.
Lemma if_down_no_spawn name : silent spawn_of (if_down name).
Proof. unfold if_down, close_return. silence. Qed.
Lemma bridge_add_no_spawn name : silent spawn_of (bridge_add name).
Proof. unfold bridge_add, close_return. silence. Qed.
Lemma bridge_add_if_no_spawn br name : silent spawn_of (bridge_add_if br name).
Proof. unfold bridge_add_if, close_return. silence. Qed.
Lemma tap_open_no_spawn x name flags : silent spawn_of (tap_open x name flags).
Proof. unfold tap_open. silence. Qed.
#[local] Hint Resolve if_up_no_spawn if_down_no_spawn bridge_add_no_spawn
  bridge_add_if_no_spawn tap_open_no_spawn : silent.

Lemma bridge_delete_no_spawn name : silent spawn_of (bridge_delete name).
Proof. unfold bridge_delete, close_return. silence. Qed.
Lemma setup_tap_no_spawn g br prefix buf : silent spawn_of (setup_tap g br prefix buf).
Proof. unfold setup_tap. silence. Qed.
#[local] Hint Resolve bridge_delete_no_spawn setup_tap_no_spawn : silent.

(** Commands that add a network device to the VM of [dir]. *)
Definition only_add_net (dir : bytes) (tr : list (event sys)) : Prop :=
  Forall (fun c => exists n, c = add_net_command dir n) (spawned tr).

Lemma only_add_net_app dir t1 t2 :
  only_add_net dir (t1 ++ t2) <-> only_add_net dir t1 /\ only_add_net dir t2.
Proof. unfold only_add_net. rewrite spawned_app. apply Forall_app. Qed.

Lemma silent_only_add_net {A} (m : M A) dir e tr o :
  silent spawn_of m -> exec (m e) tr o -> only_add_net dir tr.
Proof.
  intros Hs H. unfold only_add_net, spawned. rewrite (Hs _ _ _ H). constructor.
Qed.

(** The part of an execution that runs no command at all. *)
Ltac no_command H := eapply silent_only_add_net; [|exact H]; silence.

Lemma router_net_setup_only_add_net g br dir mac e tr r :
  exec (router_net_setup g br dir mac e) tr (Done r) -> only_add_net dir tr.
Proof.
  intros H. unfold router_net_setup in H.
  apply exec_mbind_done in H as ([fd id] & e1 & tr1 & tr2 & -> & H1 & H).
  apply only_add_net_app. split; [by no_command H1|].
  case_match; [by apply exec_mret in H as [-> _]; constructor|].
  apply exec_mbind_done in H as (ae & e2 & tr3 & tr4 & -> & H2 & H).
  apply only_add_net_app. split.
  - apply add_net_c_exec in H2 as [(_ & -> & _)|(c & r' & _ & _ & Hs & _)].
    + constructor.
    + unfold only_add_net. rewrite Hs. constructor; [by eexists|constructor].
  - by no_command H.
Qed.

Lemma exit_listener_setup_no_spawn g fuel dir id e tr r :
  exec (exit_listener_setup g fuel dir id e) tr (Done r) -> spawned tr = [].
Proof.
  intros H. unfold exit_listener_setup in H.
  apply exec_mbind_done in H as (pid & e1 & tr1 & tr2 & -> & H1 & H).
  apply exec_sysc in H1 as (? & -> & ?); simplify_eq.
  apply exec_mbind_done in H as (p & e2 & tr3 & tr4 & -> & H1 & H).
  apply exec_ccall in H1 as (? & -> & ?); simplify_eq.
  match goal with H : exec (match ?p with Ok _ => _ | Err _ => _ end _) _ _ |- _ =>
    destruct p as [[fd0 fd1]|] end; [|by msteps].
  apply exec_mbind_done in H as (f & e3 & tr5 & tr6 & -> & H1 & H).
  apply exec_ccall in H1 as (? & -> & ?); simplify_eq.
  case_match; [case_match|]; [|by msteps..].
  apply exec_mbind_done in H as (? & ? & ? & ? & -> & _ & H).
  apply exec_mbind_done in H as (? & ? & ? & ? & -> & H & _).
  by apply exit_listener_main_stops in H as [? ?].
Qed.

(** C37. When [net_setup] fails after the router VM has accepted its device,
    nothing takes the device away again: the only commands a returning
    [net_setup] ever runs are [add-net]s to the router, and there are failing
    executions in which the [add-net] was a success. *)
Theorem net_setup_keeps_router_device :
  (forall g fuel dir e tr c e',
     exec (net_setup g fuel dir e) tr (Done (c, e')) -> only_add_net dir tr) /\
  (exists tr c e' n,
     exec (net_setup no_garbage 1 (B "/run/vm/netvm") 0) tr (Done (c, e')) /\
     kernel_ok tr /\ c_fd c = -1 /\ clean tr /\
     spawned tr = [add_net_command (B "/run/vm/netvm") n] /\ net_id n = B "router1234").
Proof.
  split.
  - intros g fuel dir e tr c e' H. unfold net_setup, client_net_setup in H.
    apply exec_mbind_done in H as (pid & e1 & tr1 & tr2 & -> & H1 & H).
    apply exec_mbind_done in H as (a & e2 & tr3 & tr4 & -> & H2 & H).
    rewrite !only_add_net_app. split_and!; [by no_command H1|by no_command H2|].
    destruct (_ =? -1); [by apply exec_mret in H as [-> _]; constructor|].
    apply exec_mbind_done in H as (u & e3 & tr5 & tr6 & -> & H3 & H).
    apply only_add_net_app. split; [by no_command H3|].
    destruct (_ =? -1); [by no_command H|].
    apply exec_mbind_done in H as ([fd id] & e4 & tr7 & tr8 & -> & H4 & H).
    apply only_add_net_app. split; [by no_command H4|].
    destruct (_ =? -1); [by no_command H|].
    apply exec_mbind_done in H as ([rr did] & e5 & tr9 & tr10 & -> & H5 & H).
    apply only_add_net_app. split; [by eapply router_net_setup_only_add_net|].
    destruct (_ =? -1); [by no_command H|].
    apply exec_mbind_done in H as (l & e6 & tr11 & tr12 & -> & H6 & H).
    apply only_add_net_app. split.
    { unfold only_add_net. erewrite exit_listener_setup_no_spawn by done. constructor. }
    by no_command H.
  - exists (trace_in pipe_fails (net_setup no_garbage 1 (B "/run/vm/netvm"))).
    do 3 eexists. split_and!; [by apply exec_in_outcome; vm_compute
      |by apply kernel_ok_in|done|by repeat constructor|done|done].
Qed.

(** ** MAC addresses *)

(** C29. With process ids of at most 16 bits, as the source assumes, distinct
    processes get distinct client addresses and distinct router addresses, the
    two kinds never collide, all carry the documented OUI [0A:B3:EC], and the
    final two octets are the process id, most significant first. *)
Theorem mac_addresses_unique p q :
  0 <= p < 2 ^ 16 -> 0 <= q < 2 ^ 16 ->
  (client_mac p = client_mac q -> p = q) /\
  (router_mac p = router_mac q -> p = q) /\
  client_mac p <> router_mac q /\
  take 3 (octets (client_mac p)) = [Byte.x0a; Byte.xb3; Byte.xec] /\
  take 3 (octets (router_mac p)) = [Byte.x0a; Byte.xb3; Byte.xec] /\
  u8_val <$> drop 4 (octets (client_mac p)) = [p / 256; p mod 256].
Proof.
  change (2 ^ 16) with 65536. intros Hp Hq.
  assert (Hsh : forall x, 0 <= x < 65536 -> u8_val (u8_of (Z.shiftr x 8)) = x / 256).
  { intros x Hx. rewrite u8_val_of, Z.shiftr_div_pow2 by lia. change (2 ^ 8) with 256.
    apply Z.mod_small. Z.div_mod_to_equations. lia. }
  assert (Hinj : u8_of (Z.shiftr p 8) = u8_of (Z.shiftr q 8) -> u8_of p = u8_of q -> p = q).
  { intros H1%(f_equal u8_val) H2%(f_equal u8_val).
    rewrite !Hsh in H1 by done. rewrite !u8_val_of in H2.
    Z.div_mod_to_equations. lia. }
  split_and!; [..|done|done|].
  - intros H. injection H as H1 H2. auto.
  - intros H. injection H as H1 H2. auto.
  - discriminate.
  - simpl. by rewrite Hsh, u8_val_of by done.
Qed.

(** The example of the documentation: [0A:B3:EC:00:A5:46]. *)
Lemma mac_addresses_unique_witness :
  (0 <= 42310 < 2 ^ 16) /\ u8_val <$> drop 4 (octets (client_mac 42310)) = [165; 70].
Proof.
  split; [lia|].
  apply (mac_addresses_unique 42310 42310 ltac:(lia) ltac:(lia)).
Defined.

End NetSetup.
