(* ===== verification/StartVmm.v ===== *)
(** * StartVmm: starting a VM ([host/start-vmm]: [lib.rs], [s6.rs], [start-vmm.rs])

    Reading a VM's configuration directory, creating the API socket, forking
    the process that creates the VM through [ch-remote], and replacing the
    original process with [cloud-hypervisor]. *)

From S2P Require Import Prelude Effects RustStd Sys Scenario Mac Ch NetUtil Fork NetSetup.

Module StartVmm.
Import Ch.

Definition SIGTERM : Z := 15.

(** What a process is started with: its arguments, the architecture it was
    compiled for, the contents of uninitialised memory in the C code, and the
    bound on the C code's loops. *)
Record env := {
  argv : list bytes;
  x86_64 : bool;
  garbage : NetSetup.garbage;
  uninit_v : bytes;
  fuel : nat;
}.

Section WithEnvironment.
Context {FMT : Fmt} {JSON : Json}.

Definition prog_name (E : env) : bytes :=
  match head (argv E) with
  | Some arg => match Path.file_name arg with
                | Some name => to_string_lossy name
                | None => B "start-vmm"
                end
  | None => B "start-vmm"
  end.

Definition create_api_socket (vm_dir : bytes) : M (result Z bytes) :=
  let path := Path.join vm_dir (B "vmm") in
  let* _ := sysc (RemoveFile path) in
  let? api_socket :=
    map_err (fun e => B "creating API socket: " ++ io_display e) (sysc (UnixBind path)) in
  let* r := Fork.clear_cloexec api_socket in
  match r with
  | Err e => mret (Err (B "clearing CLOEXEC on API socket fd: " ++ io_display e))
  | Ok _ => mret (Ok api_socket)
  end.

(** *** [vm_config] *)

(** The iterator chain over the entries of the [blk] directory. *)
Fixpoint collect_disks (blk_dir : bytes) (entries : list (result bytes io_error))
  : M (result (list DiskConfig) bytes) :=
  match entries with
  | [] => mret (Ok [])
  | Err e :: _ => mret (Err (B "examining directory entry: " ++ io_display e))
  | Ok name :: rest =>
      let path := Path.join blk_dir name in
      if decide (Path.extension path = Some (B "img")) then
        let* entry := unwrap (to_str path) in
        if has_byte COMMA entry then
          mret (Err (B "illegal ',' character in path " ++ debug_str entry))
        else
          let? disks := collect_disks blk_dir rest in
          mret (Ok ({| disk_path := entry; disk_readonly := true |} :: disks))
      else collect_disks blk_dir rest
  end.

Definition read_disks (blk_dir : bytes) : M (result (list DiskConfig) bytes) :=
  let* listing := sysc (ReadDir blk_dir) in
  match listing with
  | Ok entries => collect_disks blk_dir entries
  | Err e => mret (Err (B "reading directory " ++ debug_path blk_dir ++ B ": " ++ io_display e))
  end.

(** The closure that connects the VM to one provider. *)
Definition setup_provider (E : env) (vm_dir : bytes) (entry : result bytes io_error)
  : M (result NetConfig bytes) :=
  match entry with
  | Err e => mret (Err (B "examining directory entry: " ++ io_display e))
  | Ok name =>
      match to_str name with
      | None => mret (Err (B "provider name " ++ debug_path name ++ B " is not UTF-8"))
      | Some provider_name =>
          let* vms := unwrap (Path.parent vm_dir) in
          let provider_dir := Path.join vms provider_name in
          let* net := NetSetup.net_setup (garbage E) (fuel E) provider_dir in
          if c_fd net =? -1 then
            let* e := get_errno in
            mret (Err (B "setting up networking failed: " ++ io_display (OsError e)))
          else
            let* config := unwrap (try_from net) in
            mret (Ok config)
      end
  end.

(** Only the first provider is used ([take(1)]). *)
Definition read_nets (E : env) (vm_dir net_providers_dir : bytes)
  : M (result (list NetConfig) bytes) :=
  let* listing := sysc (ReadDir net_providers_dir) in
  match listing with
  | Ok [] => mret (Ok [])
  | Ok (entry :: _) =>
      let? config := setup_provider E vm_dir entry in
      mret (Ok [config])
  | Err e =>
      if is_not_found e then mret (Ok [])
      else mret (Err (B "reading directory " ++ debug_path net_providers_dir ++ B ": "
                      ++ io_display e))
  end.

Definition fs_config (vm_name : bytes) : FsConfig :=
  {| fs_tag := B "virtiofs0";
     fs_socket := B "/run/service/vhost-user-fs/instance/" ++ vm_name ++ B "/env/virtiofsd.sock" |}.

Definition gpu_config (vm_name : bytes) : GpuConfig :=
  {| gpu_socket := B "/run/service/vhost-user-gpu/instance/" ++ vm_name ++ B "/env/crosvm.sock" |}.

Definition cmdline (E : env) : bytes :=
  if x86_64 E then B "console=ttyS0 root=PARTLABEL=root" else B "root=PARTLABEL=root".

Definition vm_config (E : env) (vm_dir : bytes) : M (result VmConfig bytes) :=
  let* file_name := unwrap (Path.file_name vm_dir) in
  match to_str file_name with
  | None => mret (Err (B "VM dir " ++ debug_path vm_dir ++ B " is not valid UTF-8"))
  | Some vm_name =>
      if has_byte COLON vm_name then
        mret (Err (B "VM name may not contain a colon: " ++ debug_str vm_name))
      else
        let config_dir := Path.join vm_dir (B "config") in
        let blk_dir := Path.join config_dir (B "blk") in
        let kernel_path := Path.join config_dir (B "vmlinux") in
        let net_providers_dir := Path.join config_dir (B "providers/net") in
        let? disks := read_disks blk_dir in
        let? nets := read_nets E vm_dir net_providers_dir in
        let* kernel := unwrap (to_str kernel_path) in
        let* vsock_path := unwrap (to_str (Path.join vm_dir (B "vsock"))) in
        mret (Ok {|
          console := {| console_mode := B "Pty"; console_file := None |};
          disks := disks;
          fs := fs_config vm_name;
          gpu := [gpu_config vm_name];
          memory := {| memory_size := Z.shiftl 1 30; memory_shared := true |};
          net := nets;
          payload := {| payload_kernel := kernel; payload_cmdline := cmdline E |};
          serial := {| console_mode := B "File";
                       console_file := Some (B "/run/" ++ vm_name ++ B ".log") |};
          vsock := {| vsock_cid := 3; vsock_socket := vsock_path |} |})
  end.

(** *** Creating the VM *)

(** [notify_readiness] of [s6.rs]: a newline on the readiness descriptor. *)
Definition notify_readiness (fd : Z) : M (result unit bytes) :=
  map_err (fun e => B "notifying readiness: " ++ io_display e)
    (sysc (WriteFile fd [NL])).

Definition create_vm_child_main {A} (E : env) (vm_dir : bytes) (ready_fd : Z)
    (config : VmConfig) : M A :=
  let* created := Ch.create_vm vm_dir config in
  match created with
  | Err e =>
      let* _ := sysc (Eprintln (prog_name E ++ B ": creating VM: " ++ e)) in
      let* parent := sysc ParentId in
      let* k := ccall (Kill parent SIGTERM) in
      let* _ := match k with
                | Err _ =>
                    let* errno := get_errno in
                    sysc (Eprintln (prog_name E ++ B ": killing cloud-hypervisor: "
                                    ++ io_display (OsError errno)))
                | Ok _ => mret tt
                end in
      halt (Exit 1)
  | Ok _ =>
      let* notified := notify_readiness ready_fd in
      match notified with
      | Err e =>
          let* _ := sysc (Eprintln (prog_name E ++ B ": failed to notify readiness: " ++ e)) in
          halt (Exit 1)
      | Ok _ => halt (Exit 0)
      end
  end.

Definition create_vm (E : env) (vm_dir : bytes) (ready_fd : Z) : M (result unit bytes) :=
  let? config := vm_config E vm_dir in
  let* pid := Fork.double_fork (fuel E) (uninit_v E) in
  if pid <? 0 then mret (Err (B "double fork: " ++ io_display (OsError (- pid))))
  else if pid =? 0 then create_vm_child_main E vm_dir ready_fd config
  else mret (Ok tt).

Definition vm_command (api_socket_fd : Z) : result Sys.command bytes :=
  Ok {| cmd_program := B "cloud-hypervisor";
        cmd_args := [B "--api-socket"; B "fd=" ++ dec api_socket_fd];
        cmd_stdin := Inherit; cmd_stdout := Inherit |}.

(** *** The program *)

Definition ex_usage {A} : M A :=
  let* _ := sysc (Eprintln (B "Usage: start-vmm vm")) in
  halt (Exit 1).

(** [run]: the error message to print; a successful [exec] does not return. *)
Definition run (E : env) : M bytes :=
  match tail (argv E) with
  | [vm_name] =>
      let vm_dir := Path.join (B "/run/vm") vm_name in
      let* s := create_api_socket vm_dir in
      match s with
      | Err e => mret e
      | Ok api_socket =>
          let ready_fd := 3 in
          let* c := create_vm E vm_dir ready_fd in
          match c with
          | Err e => mret e
          | Ok _ =>
              match vm_command api_socket with
              | Ok command =>
                  let* x := sysc (ExecCommand command) in
                  match x with
                  | None => halt Replaced
                  | Some e => mret (B "failed to exec: " ++ io_display e)
                  end
              | Err e => mret e
              end
          end
      end
  | _ => ex_usage
  end.

Definition main (E : env) : M unit :=
  let* e := run E in
  let* _ := sysc (Eprintln (prog_name E ++ B ": " ++ e)) in
  halt (Exit 1).

(** ** Disk images *)

Definition is_image (blk_dir name : bytes) : Prop :=
  Path.extension (Path.join blk_dir name) = Some (B "img").
#[local] Instance is_image_dec blk_dir name : Decision (is_image blk_dir name).
Proof. unfold is_image. apply _. Defined.

Definition read_only_disk (blk_dir name : bytes) : DiskConfig :=
  {| disk_path := Path.join blk_dir name; disk_readonly := true |}.

(** The disks for the entries [names] of the [blk] directory. *)
Definition image_names (blk_dir : bytes) (names : list bytes) : list bytes :=
  filter (is_image blk_dir) names.
Definition image_disks (blk_dir : bytes) (names : list bytes) : list DiskConfig :=
  read_only_disk blk_dir <$> image_names blk_dir names.

(** A listing in which every entry could be read. *)
Definition entries_ok (names : list bytes) : list (result bytes io_error) := Ok <$> names.

(** An image path that the configuration can carry. *)
Definition usable (path : bytes) : Prop := Utf8.valid path = true /\ COMMA ∉ path.

(** [collect_disks] makes no calls.  It returns the image entries as read-only
    disks, in order, provided every entry could be read and every image path
    is usable. *)
Lemma collect_disks_spec blk_dir entries e tr o :
  exec (collect_disks blk_dir entries e) tr o ->
  tr = [] /\
  match o with
  | Done (Ok ds, e') => e' = e /\ exists names, entries = entries_ok names /\
      ds = image_disks blk_dir names /\
      Forall (fun n => usable (Path.join blk_dir n)) (image_names blk_dir names)
  | Done (Err _, e') => e' = e /\
      ((exists err, Err err ∈ entries) \/
       exists n, Ok n ∈ entries /\ is_image blk_dir n /\ COMMA ∈ Path.join blk_dir n)
  | Stopped s => s = Panic /\ exists n, Ok n ∈ entries /\ is_image blk_dir n /\
      Utf8.valid (Path.join blk_dir n) = false
  end.
Proof.
  revert tr o. induction entries as [|[name|err] rest IH]; intros tr o H;
    cbn [collect_disks] in H.
  - apply exec_mret in H as [-> ->]. split; [done|]. split; [done|]. by exists [].
  - destruct (decide _) as [Himg|Himg].
    + unfold to_str in H. destruct (Utf8.valid (Path.join blk_dir name)) eqn:Hv.
      2: { msteps. split; [done|]. split; [done|]. exists name. set_solver. }
      apply exec_mbind in H as [(p & e1 & t1 & t2 & -> & [-> Hp] & H)|(s & [_ ?] & _)];
        simplify_eq. unfold has_byte in H. destruct (bool_decide _) eqn:Hc.
      { apply bool_decide_eq_true in Hc. msteps. split; [done|]. split; [done|].
        right. exists name. set_solver. }
      apply bool_decide_eq_false in Hc.
      apply exec_mbind in H as [(ds & e1 & t3 & t4 & -> & H1 & H)|(s & H1 & ->)];
        apply IH in H1 as [-> Hr].
      * destruct ds as [ds|m]; apply exec_mret in H as [-> ->]; (split; [done|]).
        -- destruct Hr as (-> & names & -> & -> & Hu). split; [done|].
           exists (name :: names). split; [done|]. unfold image_disks, image_names. rewrite filter_cons_True by done.
           split; [done|]. by constructor.
        -- destruct Hr as [-> Hr]. split; [done|]. set_solver.
      * split; [done|]. destruct Hr as (-> & n & Hn). split; [done|]. exists n. set_solver.
    + apply IH in H as [-> Hr]. split; [done|]. destruct o as [[[ds|m] e']|s].
      * destruct Hr as (-> & names & -> & -> & Hu). split; [done|].
        exists (name :: names). unfold image_disks, image_names.
        by rewrite filter_cons_False by done.
      * destruct Hr as [-> Hr]. split; [done|]. set_solver.
      * destruct Hr as (-> & n & Hn). split; [done|]. exists n. set_solver.
  - apply exec_mret in H as [-> ->]. split; [done|]. split; [done|]. left. exists err. set_solver.
Qed.

Lemma collect_disks_accepts blk_dir names e :
  Forall (fun n => usable (Path.join blk_dir n)) (image_names blk_dir names) ->
  collect_disks blk_dir (entries_ok names) e = Ret (Ok (image_disks blk_dir names), e).
Proof.
  unfold image_disks, image_names.
  induction names as [|n names IH]; [done|].
  change (entries_ok (n :: names)) with (Ok n :: entries_ok names). cbn [collect_disks].
  destruct (decide (Path.extension _ = _)) as [Hi|Hi].
  - rewrite filter_cons_True by done. intros [[Hv Hc] Hu]%Forall_cons.
    unfold to_str. rewrite Hv. unfold mbind, M_bind. simpl.
    unfold has_byte. rewrite bool_decide_false by done. simpl. by rewrite IH.
  - rewrite filter_cons_False by done. apply IH.
Qed.

(** The directory listings a trace was given. *)
Definition listing_of (ev : event sys)
  : list (bytes * result (list (result bytes io_error)) io_error) :=
  match ev with
  | Event e x => match e in sys X return X -> _ with
                 | ReadDir p => fun r => [(p, r)]
                 | _ => fun _ => []
                 end x
  end.
Definition listings (tr : list (event sys)) := tr ≫= listing_of.

(** C23. The disks of a VM are exactly the images of its [blk] directory.  A
    successful [read_disks] has read every entry and returns, in listing order,
    one read-only disk for each image, and nothing else; no path it returns
    contains a comma.  Conversely, a listing whose image paths are UTF-8 and
    free of commas is always accepted.  An entry is an image when its name is a
    non-empty stem followed by [.img]. *)
Theorem read_disks_spec blk_dir e :
  (forall tr ds e', exec (read_disks blk_dir e) tr (Done (Ok ds, e')) ->
     exists names, listings tr = [(blk_dir, Ok (entries_ok names))] /\
       ds = image_disks blk_dir names /\
       Forall (fun d => disk_readonly d = true /\ COMMA ∉ disk_path d) ds) /\
  (forall names,
     Forall (fun n => usable (Path.join blk_dir n)) (image_names blk_dir names) ->
     exec (read_disks blk_dir e) [Event (ReadDir blk_dir) (Ok (entries_ok names))]
       (Done (Ok (image_disks blk_dir names), e))) /\
  (forall n, Path.no_trailing_slash blk_dir -> Path.entry_name n ->
     is_image blk_dir n <-> exists stem, stem <> [] /\ n = stem ++ B ".img").
Proof.
  split_and!.
  - intros tr ds e' H. unfold read_disks in H.
    apply exec_mbind_done in H as (l & e1 & t1 & t2 & -> & H1 & H).
    apply exec_sysc in H1 as (l' & -> & ?); simplify_eq.
    destruct l' as [entries|]; [|by apply exec_mret in H as [_ ?]].
    apply collect_disks_spec in H as (-> & _ & names' & -> & -> & Hu).
    exists names'. split_and!; [done..|]. apply Forall_fmap.
    eapply Forall_impl; [exact Hu|]. by intros n [_ Hc].
  - intros names Hu. exists (Ok (entries_ok names)), []. split; [done|].
    simpl. by rewrite collect_disks_accepts.
  - intros n Hb Hn. apply (Path.extension_iff blk_dir n (B "img")); [done..|by_eval].
Qed.

(** ** Names *)

Definition colon_error (name : bytes) : bytes :=
  B "VM name may not contain a colon: " ++ debug_str name.

Lemma create_vm_colon E vm_dir name ready_fd e :
  Path.file_name vm_dir = Some name -> Utf8.valid name = true -> COLON ∈ name ->
  vm_config E vm_dir e = Ret (Err (colon_error name), e) /\
  create_vm E vm_dir ready_fd e = Ret (Err (colon_error name), e).
Proof.
  intros Hn Hv Hc.
  assert (Hcfg : vm_config E vm_dir e = Ret (Err (colon_error name), e)).
  { unfold vm_config, to_str. rewrite Hn. unfold mbind, M_bind. simpl.
    rewrite Hv. unfold has_byte. by rewrite bool_decide_true. }
  split; [done|]. unfold create_vm, mbind, M_bind. by rewrite Hcfg.
Qed.

(** A VM whose name contains a colon is refused before anything is
    touched: neither the configuration directory is read nor a process forked. *)
Theorem colon_refused E vm_dir name ready_fd e :
  Path.file_name vm_dir = Some name -> Utf8.valid name = true -> COLON ∈ name ->
  vm_config E vm_dir e = Ret (Err (colon_error name), e) /\
  create_vm E vm_dir ready_fd e = Ret (Err (colon_error name), e).
Proof. apply create_vm_colon. Qed.

(** *** Isolation of the VMs' endpoints *)

Lemma vm_config_ok E vm_dir e tr cfg e' :
  exec (vm_config E vm_dir e) tr (Done (Ok cfg, e')) ->
  exists name, Path.file_name vm_dir = Some name /\ Utf8.valid name = true /\
    COLON ∉ name /\ fs cfg = fs_config name /\ gpu cfg = [gpu_config name] /\
    console_file (serial cfg) = Some (B "/run/" ++ name ++ B ".log") /\
    vsock_socket (vsock cfg) = Path.join vm_dir (B "vsock") /\
    payload_kernel (payload cfg) = Path.join (Path.join vm_dir (B "config")) (B "vmlinux") /\
    Utf8.valid (payload_kernel (payload cfg)) = true /\
    Utf8.valid (vsock_socket (vsock cfg)) = true /\
    (console cfg = {| console_mode := B "Pty"; console_file := None |} /\
     memory cfg = {| memory_size := 2 ^ 30; memory_shared := true |} /\
     payload_cmdline (payload cfg) = cmdline E /\ console_mode (serial cfg) = B "File" /\
     vsock_cid (vsock cfg) = 3) /\
    exists e1 e2 t1 t2,
      tr = t1 ++ t2 /\
      exec (read_disks (Path.join (Path.join vm_dir (B "config")) (B "blk")) e) t1
        (Done (Ok (disks cfg), e1)) /\
      exec (read_nets E vm_dir (Path.join (Path.join vm_dir (B "config")) (B "providers/net")) e1)
        t2 (Done (Ok (net cfg), e2)).
Proof.
  intros H. unfold vm_config in H.
  apply exec_mbind_done in H as (name & ? & ? & t & -> & Hu & H).
  apply exec_unwrap_done in Hu as (Hname & -> & ->).
  exists name. unfold to_str in H. destruct (Utf8.valid name) eqn:Hv; [|by apply exec_mret in H as [_ ?]].
  unfold has_byte in H. destruct (bool_decide _) eqn:Hc; [by apply exec_mret in H as [_ ?]|].
  apply bool_decide_eq_false in Hc.
  apply exec_mbind_done in H as (ds & e1 & t1 & t2 & -> & H1 & H).
  destruct ds as [ds|]; [|by apply exec_mret in H as [_ ?]].
  apply exec_mbind_done in H as (ns & e2 & t3 & t4 & -> & H2 & H).
  destruct ns as [ns|]; [|by apply exec_mret in H as [_ ?]].
  apply exec_mbind_done in H as (k & ? & ? & ? & -> & Hu1 & H).
  apply exec_unwrap_done in Hu1 as (Hk & -> & ->).
  apply exec_mbind_done in H as (v & ? & ? & ? & -> & Hu2 & H).
  apply exec_unwrap_done in Hu2 as (Hv2 & -> & ->). repeat case_match; simplify_eq.
  apply exec_mret in H as [-> ?]; simplify_eq.
  split_and!; [done..|]. exists e1. do 3 eexists. split_and!; [|done|done].
  by rewrite app_nil_r.
Qed.

(** C22. The endpoints of two VMs in the same directory never coincide: VMs
    with different names get different virtiofs and GPU sockets, different log
    files and different vsock sockets. *)
Theorem vm_endpoints_distinct E vms n1 n2 e1 e2 tr1 tr2 c1 c2 e1' e2' :
  Path.normal_end vms -> Path.entry_name n1 -> Path.entry_name n2 -> n1 <> n2 ->
  exec (vm_config E (Path.join vms n1) e1) tr1 (Done (Ok c1, e1')) ->
  exec (vm_config E (Path.join vms n2) e2) tr2 (Done (Ok c2, e2')) ->
  fs_socket (fs c1) <> fs_socket (fs c2) /\
  (gpu_socket <$> gpu c1) <> (gpu_socket <$> gpu c2) /\
  console_file (serial c1) <> console_file (serial c2) /\
  vsock_socket (vsock c1) <> vsock_socket (vsock c2).
Proof.
  intros Hvms Hn1 Hn2 Hne H1 H2.
  pose proof (Path.normal_end_no_trailing_slash _ Hvms) as Hs.
  apply vm_config_ok in H1 as (m1 & Hm1 & _ & _ & -> & -> & -> & -> & _).
  apply vm_config_ok in H2 as (m2 & Hm2 & _ & _ & -> & -> & -> & -> & _).
  rewrite Path.file_name_join in Hm1, Hm2 by done. simplify_eq. cbn.
  split_and!.
  - by intros ?%sandwich_inj.
  - intros H%(f_equal head). cbn [head] in H. by apply (inj Some), sandwich_inj in H.
  - intros H. by apply (inj Some), sandwich_inj in H.
  - intros H. apply (f_equal Path.parent) in H.
    rewrite !Path.parent_join in H by (apply Path.normal_end_join; done) || by_eval.
    injection H as H. apply (f_equal Path.file_name) in H.
    rewrite !Path.file_name_join in H by done. by simplify_eq.
Qed.

(** ** Network providers *)

Lemma setup_provider_done E vm_dir entry e tr cfg e' :
  exec (setup_provider E vm_dir entry e) tr (Done (Ok cfg, e')) ->
  exists name vms c e1, entry = Ok name /\ Utf8.valid name = true /\
    Path.parent vm_dir = Some vms /\
    exec (NetSetup.net_setup (garbage E) (fuel E) (Path.join vms name) e) tr (Done (c, e1)) /\
    c_fd c <> -1 /\ try_from c = Some cfg.
Proof.
  intros H. unfold setup_provider, to_str in H.
  destruct entry as [name|err]; [|by apply exec_mret in H as [_ ?]].
  destruct (Utf8.valid name) eqn:Hv; [|by apply exec_mret in H as [_ ?]].
  apply exec_mbind_done in H as (vms & ? & ? & t & -> & Hu & H).
  apply exec_unwrap_done in Hu as (Hp & -> & ->).
  apply exec_mbind_done in H as (c & e1 & t1 & t2 & -> & Hn & H).
  destruct (Z.eqb_spec (c_fd c) (-1)) as [Hm|Hm]; [by msteps|].
  apply exec_mbind_done in H as (cfg' & ? & ? & ? & -> & Hu & H).
  apply exec_unwrap_done in Hu as (Ht & -> & ->).
  apply exec_mret in H as [-> ?]. simplify_eq. exists name, vms, c, e1.
  by rewrite app_nil_r.
Qed.

(** A VM has at most one network device.  If its [providers/net] directory
    has none or does not exist there is no device; otherwise the device is the
    one that [net_setup] made for the first entry of the listing, connected to
    the VM of that name in the same directory, and later entries have no effect. *)
Theorem first_provider_only E vm_dir dir e tr nets e' :
  exec (read_nets E vm_dir dir e) tr (Done (Ok nets, e')) ->
  (nets = [] /\ (listings tr = [(dir, Ok [])] \/ listings tr = [(dir, Err (OsError ENOENT))]) \/
   exists name rest vms c cfg e1 tr',
     nets = [cfg] /\ tr = Event (ReadDir dir) (Ok (Ok name :: rest)) :: tr' /\
     Path.parent vm_dir = Some vms /\
     exec (NetSetup.net_setup (garbage E) (fuel E) (Path.join vms name) e) tr' (Done (c, e1)) /\
     try_from c = Some cfg /\ net_fd cfg <> -1).
Proof.
  intros H. unfold read_nets in H.
  apply exec_mbind_done in H as (l & e1 & t1 & t2 & -> & H1 & H).
  apply exec_sysc in H1 as (l' & -> & ?); simplify_eq.
  destruct l' as [[|entry rest]|err].
  - apply exec_mret in H as [-> ?]. simplify_eq. auto.
  - right. apply exec_mbind_done in H as (r & e2 & t3 & t4 & -> & H1 & H).
    destruct r as [cfg|]; apply exec_mret in H as [-> ?]; simplify_eq.
    apply setup_provider_done in H1 as (name & vms & c & e1 & -> & _ & Hp & Hn & Hfd & Ht).
    exists name, rest, vms, c, cfg, e1, t3. rewrite app_nil_r. split_and!; [done..|].
    unfold try_from in Ht. by repeat case_match; simplify_eq.
  - left. destruct (is_not_found err) eqn:Hf; apply exec_mret in H as [-> ?]; simplify_eq.
    split; [done|]. right. destruct err; simpl in Hf; try done.
    apply Z.eqb_eq in Hf. by subst.
Qed.

(** ** Readiness *)

(** Writes to the readiness descriptor, and signals sent. *)
Definition notice_of (ev : event sys) : list (Z * bytes) :=
  match ev with Event (WriteFile fd d) _ => [(fd, d)] | _ => [] end.
Definition notices (tr : list (event sys)) : list (Z * bytes) := tr ≫= notice_of.

Definition kill_of (ev : event sys) : list (Z * Z) :=
  match ev with Event (Kill pid sig) _ => [(pid, sig)] | _ => [] end.
Definition kills (tr : list (event sys)) : list (Z * Z) := tr ≫= kill_of.

(** The parents that the process was told it has. *)
Definition parent_of (ev : event sys) : list Z :=
  match ev with
  | Event e x => match e in sys X return X -> list Z with ParentId => fun p => [p] | _ => fun _ => [] end x
  end.
Definition parents (tr : list (event sys)) : list Z := tr ≫= parent_of.

Lemma notices_app t1 t2 : notices (t1 ++ t2) = notices t1 ++ notices t2.
Proof. apply bind_app. Qed.
Lemma kills_app t1 t2 : kills (t1 ++ t2) = kills t1 ++ kills t2.
Proof. apply bind_app. Qed.
Lemma parents_app t1 t2 : parents (t1 ++ t2) = parents t1 ++ parents t2.
Proof. apply bind_app. Qed.

(** C1. The process that creates the VM tells the supervisor that the VM is
    ready only after every [ch-remote] command has succeeded: [create] and all
    [add-net]s.  If any of them fails it sends [SIGTERM] to the process that
    [parent_id] says is its parent, and to no other, exits with status 1 and
    reports nothing.  It always exits: it never returns into the caller's code. *)
Theorem ready_only_if_created {A} E vm_dir ready_fd config e tr (o : outcome (A * Z)) :
  exec (create_vm_child_main E vm_dir ready_fd config e) tr o ->
  exists code, o = Stopped (Exit code) /\
    (notices tr = [(ready_fd, [NL])] /\ kills tr = [] /\ clean tr /\
       spawned tr = command_lines vm_dir (net config) \/
     notices tr = [] /\ (exists parent, parents tr = [parent] /\ kills tr = [(parent, 15)]) /\
       ~ clean tr /\ code = 1).
Proof.
  intros H. unfold create_vm_child_main in H.
  apply exec_mbind in H as [(r & e1 & t1 & t2 & -> & H1 & H)|(s & H1 & ->)];
    pose proof (create_vm_silent notice_of vm_dir config ltac:(done) ltac:(done) ltac:(done) _ _ _ H1)
      as Hnot;
    pose proof (create_vm_silent kill_of vm_dir config ltac:(done) ltac:(done) ltac:(done) _ _ _ H1)
      as Hkill;
    pose proof (create_vm_silent parent_of vm_dir config ltac:(done) ltac:(done) ltac:(done) _ _ _ H1)
      as Hpar;
    apply create_vm_exec in H1 as (r1 & Ho & _ & _ & Hr); simplify_eq.
  fold (notices t1) in Hnot. fold (kills t1) in Hkill. fold (parents t1) in Hpar.
  rewrite notices_app, kills_app, parents_app, spawned_app, Hnot, Hkill, Hpar. clear Hnot Hkill Hpar. simpl.
  rewrite <- creation_command_lines.
  destruct Hr as [(-> & Hc & -> & _)|[[m ->] Hf]].
  - unfold notify_readiness in H. msteps; eexists; (split; [done|]); left.
    all: split_and!; [done..| |by rewrite app_nil_r]; apply clean_app; split; [done|];
      repeat (apply clean_cons; split; [done|]); by apply clean_nil.
  - apply fails_at_end_not_clean in Hf.
    msteps; eexists; (split; [done|]); right; split_and!; eauto; by intros [? _]%clean_app.
Qed.

(** ** Launching the hypervisor *)

(** Calls that matter for the hand-over of the API socket. *)
Inductive launch :=
| Bound (path : bytes) (fd : Z)      (** a socket was bound *)
| CloexecCleared (fd : Z)            (** close-on-exec was switched off *)
| Executed (c : Sys.command).        (** [exec] was called *)

Definition launch_of (ev : event sys) : list launch :=
  match ev with
  | Event e x =>
      match e in sys X return X -> list launch with
      | UnixBind p => fun r => match r with Ok fd => [Bound p fd] | Err _ => [] end
      | FcntlSetFd fd flags =>
          fun r => if is_ok r && negb (Z.testbit flags 0) then [CloexecCleared fd] else []
      | ExecCommand c => fun _ => [Executed c]
      | _ => fun _ => []
      end x
  end.
Definition launches (tr : list (event sys)) : list launch := tr ≫= launch_of.

Lemma launches_app t1 t2 : launches (t1 ++ t2) = launches t1 ++ launches t2.
Proof. apply bind_app. Qed.

(** None of the C code is concerned with it. *)
Lemma if_up_no_launch name : silent launch_of (NetUtil.if_up name).
Proof. unfold NetUtil.if_up, NetUtil.close_return. silence. Qed.
Lemma if_down_no_launch name : silent launch_of (NetUtil.if_down name).
Proof. unfold NetUtil.if_down, NetUtil.close_return. silence. Qed.
Lemma if_rename_no_launch a b : silent launch_of (NetUtil.if_rename a b).
Proof. unfold NetUtil.if_rename, NetUtil.close_return. silence. Qed.
Lemma bridge_add_no_launch name : silent launch_of (NetUtil.bridge_add name).
Proof. unfold NetUtil.bridge_add, NetUtil.close_return. silence. Qed.
Lemma bridge_add_if_no_launch a b : silent launch_of (NetUtil.bridge_add_if a b).
Proof. unfold NetUtil.bridge_add_if, NetUtil.close_return. silence. Qed.
Lemma bridge_remove_if_no_launch a b : silent launch_of (NetUtil.bridge_remove_if a b).
Proof. unfold NetUtil.bridge_remove_if, NetUtil.close_return. silence. Qed.
#[local] Hint Resolve if_up_no_launch if_down_no_launch if_rename_no_launch
  bridge_add_no_launch bridge_add_if_no_launch bridge_remove_if_no_launch : silent.

Lemma bridge_delete_no_launch name : silent launch_of (NetUtil.bridge_delete name).
Proof. unfold NetUtil.bridge_delete, NetUtil.close_return. silence. Qed.
Lemma tap_open_no_launch x name flags : silent launch_of (NetUtil.tap_open x name flags).
Proof. unfold NetUtil.tap_open. silence. Qed.
Lemma add_net_c_no_launch dir n : silent launch_of (add_net_c dir n).
Proof. unfold add_net_c, add_net, unwrap. silence. Qed.
Lemma remove_device_c_no_launch dir d : silent launch_of (remove_device_c dir d).
Proof. unfold remove_device_c, remove_device. silence. Qed.
Lemma poll_loop_no_launch n fd : silent launch_of (NetSetup.poll_loop n fd).
Proof. induction n; cbn [NetSetup.poll_loop]; silence. Qed.
#[local] Hint Resolve bridge_delete_no_launch tap_open_no_launch add_net_c_no_launch
  remove_device_c_no_launch poll_loop_no_launch : silent.

Lemma setup_tap_no_launch g br p b : silent launch_of (NetSetup.setup_tap g br p b).
Proof. unfold NetSetup.setup_tap. silence. Qed.
#[local] Hint Resolve setup_tap_no_launch : silent.

Lemma router_net_setup_no_launch g br dir mac :
  silent launch_of (NetSetup.router_net_setup g br dir mac).
Proof. unfold NetSetup.router_net_setup. silence. Qed.
Lemma router_net_cleanup_no_launch g pid dir id :
  silent launch_of (NetSetup.router_net_cleanup g pid dir id).
Proof. unfold NetSetup.router_net_cleanup. silence. Qed.
#[local] Hint Resolve router_net_setup_no_launch router_net_cleanup_no_launch : silent.

Lemma exit_listener_setup_no_launch g n dir id :
  silent launch_of (NetSetup.exit_listener_setup g n dir id).
Proof.
  unfold NetSetup.exit_listener_setup, NetSetup.exit_listener_main, NetSetup.bridge_cleanup.
  silence.
Qed.
#[local] Hint Resolve exit_listener_setup_no_launch : silent.

Lemma net_setup_no_launch g n dir : silent launch_of (NetSetup.net_setup g n dir).
Proof. unfold NetSetup.net_setup, NetSetup.client_net_setup. silence. Qed.

Lemma read_loop_no_launch n fd v acc : silent launch_of (Fork.read_loop n fd v acc).
Proof.
  revert v acc. induction n; intros v acc;
  unfold Fork.read_loop; fold Fork.read_loop; silence.
Qed.
Lemma write_loop_no_launch n fd v acc : silent launch_of (Fork.write_loop n fd v acc).
Proof.
  revert acc. induction n; intros acc;
  unfold Fork.write_loop; fold Fork.write_loop; silence.
Qed.
#[local] Hint Resolve net_setup_no_launch read_loop_no_launch write_loop_no_launch : silent.

Lemma double_fork_no_launch n v : silent launch_of (Fork.double_fork n v).
Proof. unfold Fork.double_fork. silence. Qed.

Lemma collect_disks_no_launch dir l : silent launch_of (collect_disks dir l).
Proof. intros e tr o H. by apply collect_disks_spec in H as [-> _]. Qed.
#[local] Hint Resolve double_fork_no_launch collect_disks_no_launch : silent.

Lemma vm_config_no_launch E dir : silent launch_of (vm_config E dir).
Proof. unfold vm_config, read_disks, read_nets, setup_provider. silence. Qed.
#[local] Hint Resolve vm_config_no_launch : silent.

Lemma create_vm_no_launch E dir fd : silent launch_of (create_vm E dir fd).
Proof.
  assert (forall cfg, silent launch_of (Ch.create_vm dir cfg))
    by (intros cfg; by apply create_vm_silent).
  unfold create_vm, create_vm_child_main, notify_readiness. silence.
Qed.

Lemma create_api_socket_exec vm_dir e tr o :
  exec (create_api_socket vm_dir e) tr o ->
  exists r e', o = Done (r, e') /\
    match r with
    | Ok fd => launches tr = [Bound (Path.join vm_dir (B "vmm")) fd; CloexecCleared fd]
    | Err _ => forall c, Executed c ∉ launches tr
    end.
Proof.
  intros H. unfold create_api_socket, Fork.clear_cloexec, Fork.clear_cloexec_c in H.
  msteps; do 2 eexists; (split; [done|]); simpl.
  all: try (intros c; set_solver).
  by rewrite <- Z.bit0_odd, Z.land_spec, Z.lnot_spec, andb_false_r.
Qed.

Lemma create_vm_launches E dir fd e tr o :
  exec (create_vm E dir fd e) tr o -> launches tr = [].
Proof. apply create_vm_no_launch. Qed.

(** What can be seen of a hand-over to [cloud-hypervisor] for the VM [name]. *)
Definition handed_over (name : bytes) (l : list launch) : Prop :=
  (forall c, Executed c ∉ l) \/
  exists fd,
    l = [Bound (Path.join (Path.join (B "/run/vm") name) (B "vmm")) fd;
         CloexecCleared fd;
         Executed {| cmd_program := B "cloud-hypervisor";
                     cmd_args := [B "--api-socket"; B "fd=" ++ dec fd];
                     cmd_stdin := Inherit; cmd_stdout := Inherit |}].

Lemma run_launches E name e tr o :
  tail (argv E) = [name] -> exec (run E e) tr o -> handed_over name (launches tr).
Proof.
  intros Hargs H. unfold run in H. rewrite Hargs in H.
  apply exec_mbind in H as [(r & e1 & t1 & t2 & -> & H1 & H)|(s & H1 & ->)];
    apply create_api_socket_exec in H1 as (r' & e' & Ho & Hl); simplify_eq.
  destruct r' as [fd|m].
  2: { apply exec_mret in H as [-> _]. left. by rewrite app_nil_r. }
  rewrite launches_app, Hl. clear Hl.
  apply exec_mbind in H as [(r & e2 & t3 & t4 & -> & H1 & H)|(s & H1 & ->)];
    apply create_vm_launches in H1.
  2: { left. intros c. rewrite H1. set_solver. }
  rewrite launches_app, H1. destruct r as [[]|m].
  2: { apply exec_mret in H as [-> _]. left. intros c. set_solver. }
  right. unfold vm_command in H. msteps; by eexists.
Qed.

(** C6. [start-vmm] takes exactly one argument: with any other number it
    prints its usage, exits with status 1 and does nothing else.  It never
    returns from [main].  If it runs [cloud-hypervisor], then exactly once,
    after binding [/run/vm/NAME/vmm] and clearing close-on-exec on that very
    socket, and the number it passes on the command line is that socket's
    descriptor. *)
Theorem hypervisor_gets_api_socket E e tr o :
  exec (main E e) tr o ->
  (exists s, o = Stopped s) /\
  ((forall name, tail (argv E) <> [name]) ->
     tr = [Event (Eprintln (B "Usage: start-vmm vm")) tt] /\ o = Stopped (Exit 1)) /\
  (forall name, tail (argv E) = [name] -> handed_over name (launches tr)).
Proof.
  intros H. unfold main in H. split_and!.
  - apply exec_mbind in H as [(? & ? & ? & ? & -> & _ & H)|(s & _ & ->)]; [|by eexists].
    msteps. by eexists.
  - intros Hn. unfold run in H.
    destruct (tail (argv E)) as [|name [|x l]] eqn:Hargs; [|by destruct (Hn name)|];
      unfold ex_usage in H; msteps; repeat match goal with u : unit |- _ => destruct u end; done.
  - intros name Hargs.
    apply exec_mbind in H as [(m & e1 & t1 & t2 & -> & H1 & H)|(s & H1 & ->)];
      apply run_launches with (name := name) in H1; [|done..].
    rewrite launches_app. msteps. by rewrite app_nil_r.
Qed.

End WithEnvironment.

(** ** Examples *)

(** [start-vmm web], in a memory full of zeroes. *)
Definition web_env : env := {|
  argv := [B "/usr/bin/start-vmm"; B "web"]; x86_64 := true;
  garbage := NetSetup.no_garbage; uninit_v := replicate 4 NUL; fuel := 4 |}.

(** VMs with a disk, and the router VM [netvm] as their network provider; the
    second answer to [fork] is not reached in the original process. *)
Definition web_dirs : scenario := {|
  sc_pid := 1234; sc_socket := Ok tt; sc_tun := Ok tt; sc_pipe := Ok tt;
  sc_fork := Ok 1235; sc_spawn := Ok tt; sc_status := Exited 0; sc_exec := None;
  sc_bind := Ok tt;
  sc_read_dir := fun p =>
    if decide (Path.file_name p = Some (B "net")) then Ok [Ok (B "netvm"); Ok (B "other")]
    else Ok [Ok (B "root.img")] |}.

(** As above, but [ch-remote] fails. *)
Definition ch_remote_fails : scenario := {|
  sc_pid := 1234; sc_socket := Ok tt; sc_tun := Ok tt; sc_pipe := Ok tt;
  sc_fork := Ok 1235; sc_spawn := Ok tt; sc_status := Exited 1; sc_exec := None;
  sc_bind := Ok tt; sc_read_dir := fun _ => Ok [] |}.

#[local] Existing Instance plain_fmt.

Lemma read_disks_spec_witness :
  exec (read_disks (B "/run/vm/a/config/blk") 0)
    [Event (ReadDir (B "/run/vm/a/config/blk"))
       (Ok (entries_ok [B "root.img"; B "README"; B ".img"]))]
    (Done (Ok [{| disk_path := B "/run/vm/a/config/blk/root.img"; disk_readonly := true |}], 0)).
Proof.
  apply (proj1 (proj2 (read_disks_spec (B "/run/vm/a/config/blk") 0))
           [B "root.img"; B "README"; B ".img"]).
  repeat constructor. by_eval.
Defined.

#[local] Existing Instance no_json.

Lemma colon_refused_witness :
  create_vm web_env (B "/run/vm/a:b") 3 0 = Ret (Err (colon_error (B "a:b")), 0).
Proof. apply (colon_refused web_env (B "/run/vm/a:b") (B "a:b") 3 0); by_eval. Defined.

(** The configuration found in a scenario. *)
Definition config_in (s : scenario) (vm_dir : bytes) : option VmConfig :=
  match outcome_in s (vm_config web_env vm_dir) with
  | Done (Ok c, _) => Some c
  | _ => None
  end.

Lemma exec_config_in s vm_dir c :
  config_in s vm_dir = Some c ->
  exists tr e', exec (vm_config web_env vm_dir 0) tr (Done (Ok c, e')).
Proof.
  unfold config_in. intros H. pose proof (exec_in s (vm_config web_env vm_dir)) as Hx.
  destruct (outcome_in _ _) as [[[c'|] e']|]; simplify_eq. eauto.
Qed.

Lemma vm_endpoints_distinct_witness :
  exists c1 c2, config_in all_well (B "/run/vm/web") = Some c1 /\
    config_in all_well (B "/run/vm/mail") = Some c2 /\
    fs_socket (fs c1) <> fs_socket (fs c2).
Proof.
  destruct (config_in all_well (B "/run/vm/web")) as [c1|] eqn:E1;
    [|vm_compute in E1; discriminate E1].
  destruct (config_in all_well (B "/run/vm/mail")) as [c2|] eqn:E2;
    [|vm_compute in E2; discriminate E2].
  exists c1, c2. split; [reflexivity|]. split; [reflexivity|].
  apply exec_config_in in E1 as (tr1 & e1 & H1).
  apply exec_config_in in E2 as (tr2 & e2 & H2).
  apply (vm_endpoints_distinct web_env (B "/run/vm") (B "web") (B "mail") 0 0 tr1 tr2 c1 c2 e1 e2);
    try by_eval; assumption.
Defined.

Lemma first_provider_only_witness :
  exists cfg, net_id cfg = B "client1234" /\
    outcome_in web_dirs (read_nets web_env (B "/run/vm/web") (B "/run/vm/web/config/providers/net"))
    = Done (Ok [cfg], 0).
Proof.
  pose (m := read_nets web_env (B "/run/vm/web") (B "/run/vm/web/config/providers/net")).
  pose (cfg := {| net_fd := 5; net_id := B "client1234"; net_mac := NetSetup.client_mac 1234 |}).
  assert (Ho : outcome_in web_dirs m = Done (Ok [cfg], 0)) by (vm_compute; reflexivity).
  destruct (first_provider_only web_env (B "/run/vm/web") (B "/run/vm/web/config/providers/net")
              0 (trace_in web_dirs m) [cfg] 0 (exec_in_outcome _ _ _ Ho))
    as [[Hn _]|(name & rest & vms & c & cfg' & e1 & tr' & Hn & _)]; [discriminate Hn|].
  exists cfg'. injection Hn as <-. split; [reflexivity|exact Ho].
Defined.

Lemma ready_only_if_created_witness :
  let m := @create_vm_child_main _ _ unit web_env (B "/run/vm/web") 3 sample_config in
  notices (trace_in all_well m) = [(3, [NL])] /\ notices (trace_in ch_remote_fails m) = [].
Proof.
  intros m. split.
  - destruct (ready_only_if_created web_env (B "/run/vm/web") 3 sample_config 0 _ _
                (exec_in all_well m)) as (code & Ho & [[Hn _]|(_ & _ & _ & Hc)]); [exact Hn|].
    subst code. vm_compute in Ho. discriminate Ho.
  - destruct (ready_only_if_created web_env (B "/run/vm/web") 3 sample_config 0 _ _
                (exec_in ch_remote_fails m)) as (code & _ & [(_ & Hk & _)|[Hn _]]); [|exact Hn].
    vm_compute in Hk. discriminate Hk.
Defined.

Lemma hypervisor_gets_api_socket_witness :
  handed_over (B "web") (launches (trace_in web_dirs (main web_env))) /\
  exists cmd, Executed cmd ∈ launches (trace_in web_dirs (main web_env)).
Proof.
  split.
  - apply (hypervisor_gets_api_socket web_env 0 _ _ (exec_in web_dirs (main web_env))).
    reflexivity.
  - eexists. vm_compute. do 2 right. left.
Defined.

End StartVmm.
