(* ===== verification/Processes.v ===== *)
(** * Processes: [start-vmm] as a tree of processes

    [start-vmm] forks three times: once for the exit listener of the network,
    and twice in [double_fork].  Here its processes run together: a fork adds a
    process, a process that ends leaves its children to the reaper, and the pipe
    of [double_fork], the only one through which data flows, is shared.  The
    theorem says which process does what. *)

From S2P Require Import Prelude Effects Wp RustStd Sys Scenario Mac Ch NetUtil Fork NetSetup StartVmm.

Module Processes.
Import Ch StartVmm.

Section Processes.
Context {FMT : Fmt} {JSON : Json}.
(** The first process, which the supervisor started, and the process that
    adopts orphans. *)
Variables (E : env) (first reaper : Z).

(** ** The system *)

Record proc := Proc { p_pid : Z; p_parent : Z; p_prog : prog sys (unit * Z) }.

Record world := World {
  w_procs : list proc;                 (** those that have ended included *)
  w_pipe : bytes;                      (** written and not yet read *)
  w_log : list (Z * event sys);        (** the calls made, and by which process *)
}.

(** Calls whose answers do not depend on the processes. *)
Definition elsewhere {X} (c : sys X) : bool :=
  match c with ParentId | GetPid | Read _ _ | Write _ _ | Fork => false | _ => true end.

(** A call of a process, its answer, and the pipe before and after.  Writes of
    this size to a pipe are atomic. *)
Inductive answer (pid parent : Z) (pipe : bytes) : forall X, sys X -> X -> bytes -> Prop :=
| AnswerParentId : answer pid parent pipe _ ParentId parent pipe
| AnswerGetPid : answer pid parent pipe _ GetPid pid pipe
| AnswerRead fd len data rest :
    pipe = data ++ rest -> (length data <= len)%nat -> answer pid parent pipe _ (Read fd len) (Ok data) rest
| AnswerReadFails fd len en : answer pid parent pipe _ (Read fd len) (Err en) pipe
| AnswerWrite fd data :
    answer pid parent pipe _ (Write fd data) (Ok (Z.of_nat (length data))) (pipe ++ data)
| AnswerWriteFails fd data en : answer pid parent pipe _ (Write fd data) (Err en) pipe
| AnswerElsewhere X (c : sys X) x : elsewhere c = true -> answer pid parent pipe X c x pipe.

Definition adopt (dead : Z) (p : proc) : proc :=
  if p_parent p =? dead then Proc (p_pid p) reaper (p_prog p) else p.

Definition ended {A} (p : prog sys A) : Prop := match p with Vis _ _ => False | _ => True end.

(** The values of an [int] other than those that mean something else. *)
Definition positive_int (v : Z) : Prop := 0 < v < 2 ^ 31.

Inductive step : world -> world -> Prop :=
| Calls i pid parent X (c : sys X) k x ps pipe pipe' log :
    ps !! i = Some (Proc pid parent (Vis c k)) ->
    answer pid parent pipe X c x pipe' ->
    step (World ps pipe log)
         (World (<[i := Proc pid parent (k x)]> ps) pipe' (log ++ [(pid, Event c x)]))
| Forks i pid parent k child ps pipe log :
    ps !! i = Some (Proc pid parent (Vis Fork k)) ->
    positive_int child -> child ∉ first :: reaper :: (p_pid <$> ps) ->
    step (World ps pipe log)
         (World (<[i := Proc pid parent (k (Ok child))]> ps ++ [Proc child pid (k (Ok 0))]) pipe
            (log ++ [(pid, Event Fork (Ok child))]))
| ForkFails i pid parent k en ps pipe log :
    ps !! i = Some (Proc pid parent (Vis Fork k)) -> positive_int en ->
    step (World ps pipe log)
         (World (<[i := Proc pid parent (k (Err en))]> ps) pipe (log ++ [(pid, Event Fork (Err en))]))
| Ends i pid parent p ps pipe log :
    ps !! i = Some (Proc pid parent p) -> ended p ->
    step (World ps pipe log) (World (adopt pid <$> ps) pipe log).

(** The first process runs [main]. *)
Definition start (parent : Z) : world := World [Proc first parent (main E 0)] [] [].

(** ** Who does what *)

(** [q] is not the first process, and it has forked [pid] or adopted it. *)
Definition elder (log : list (Z * event sys)) (pid q : Z) : Prop :=
  q <> first /\ (q = reaper \/ (q, Event Fork (Ok pid)) ∈ log).

(** What may be seen of a call: only the first process becomes the hypervisor,
    only others report readiness, and a signal is sent by others, to a parent
    that is not the first either. *)
Definition in_role (log : list (Z * event sys)) (pid : Z) (ev : event sys) : Prop :=
  match ev with
  | Event (ExecCommand _) _ => pid = first
  | Event (WriteFile _ _) _ => pid <> first
  | Event (Kill target _) _ => pid <> first /\ elder log pid target
  | _ => True
  end.

(** No read of the pipe has failed. *)
Definition read_failed (ev : event sys) : bool :=
  match ev with
  | Event e x => match e in sys X return X -> bool with Read _ _ => fun r => is_err r | _ => fun _ => false end x
  end.
Definition reads_succeed (log : list (Z * event sys)) : Prop := Forall (fun x => read_failed x.2 = false) log.

Lemma elder_later log log' pid q : elder log pid q -> elder (log ++ log') pid q.
Proof. intros [H1 [H2|H2]]; (split; [done|]); [by left|right]. apply elem_of_app. by left. Qed.

Lemma in_role_later log log' pid ev : in_role log pid ev -> in_role (log ++ log') pid ev.
Proof. destruct ev as [X c x]. destruct c; try done. intros [? ?]. split; [done|]. by apply elder_later. Qed.

(** *** A logic for one process

    A process knows how many forks it is below the first process, the parents it
    has had if that is more than one, whether it may write to the pipe, what has been
    written to it, and what it has read. *)
Record role := Role {
  depth : nat;
  known : list Z;
  token : bool;
  written : bytes;
  got : bytes;
}.

(** Part of a report of [double_fork]: a process id or a negated errno. *)
Definition honest (w : bytes) : Prop :=
  exists v, v <> 0 /\ - 2 ^ 31 <= v < 2 ^ 31 /\ w `prefix_of` Fork.int_bytes v.

Definition learn (pid : Z) (r : role) : role :=
  Role (depth r) (pid :: known r) (token r) (written r) (got r).
(** The two sides of a fork; [t] says whether the child may write. *)
Definition forker (t : bool) (r : role) : role :=
  Role (depth r) (known r) (token r && negb t) (written r) (got r).
Definition forked (t : bool) (r : role) : role :=
  Role (S (depth r)) [] (token r && t) (written r) [].

Definition role_ev {X} (c : sys X) (r : role) : (X -> role -> Prop) -> Prop :=
  match c in sys X return (X -> role -> Prop) -> Prop with
  | Fork => fun K => exists t,
      (forall pid, positive_int pid -> K (Ok pid) (forker t r)) /\
      K (Ok 0) (forked t r) /\ forall en, positive_int en -> K (Err en) r
  | ParentId => fun K => forall x, K x (if (2 <=? depth r)%nat then learn x r else r)
  | Kill pid _ => fun K => (2 <= depth r)%nat /\ pid ∈ known r /\ forall x, K x r
  | ExecCommand _ => fun K => depth r = 0%nat /\ forall x, K x r
  | WriteFile _ _ => fun K => (2 <= depth r)%nat /\ forall x, K x r
  | Read _ len => fun K => depth r = 0%nat /\
      forall data, (length data <= len)%nat -> honest (got r ++ data) ->
        K (Ok data) (Role (depth r) (known r) (token r) (written r) (got r ++ data))
  | Write _ data => fun K => token r = true /\ honest (written r ++ data) /\
      K (Ok (Z.of_nat (length data)))
        (Role (depth r) (known r) (token r) (written r ++ data) (got r)) /\
      forall en, K (Err en) r
  | _ => fun K => forall x, K x r
  end.

#[local] Program Instance roles : EventSpec sys role := {|
  ev X c r K := role_ev c r K;
  halted _ _ := True |}.
Next Obligation.
  intros X c r K K' H. destruct c; simpl; naive_solver.
Qed.

(** *** Code that concerns nobody else *)

(** The process has learnt of more processes, and that is all. *)
Definition learnt (r r' : role) : Prop :=
  exists ks, r' = Role (depth r) (ks ++ known r) (token r) (written r) (got r).

#[local] Instance learnt_preorder : PreOrder learnt.
Proof.
  split; [intros [d ks t w g]; by exists []|].
  intros r1 r2 r3 [ks ->] [ks' ->]. exists (ks' ++ ks). simpl. by rewrite <- app_assoc.
Qed.

Definition plain {A} (m : M A) : Prop :=
  forall e r (Q : A * Z -> role -> Prop),
    (forall a e' r', learnt r r' -> Q (a, e') r') -> wp (m e) r Q.

Lemma plain_ret {A} (a : A) : plain (mret a).
Proof. intros e r Q H. by apply H. Qed.
Lemma plain_halt {A} st : plain (halt st : M A).
Proof. done. Qed.
Lemma plain_sysc {X} (c : sys X) :
  (forall r K, (forall x, K x r) -> role_ev c r K) -> plain (sysc c).
Proof. intros H e r Q HQ. apply H. intros x. by apply HQ. Qed.
Lemma plain_ccall {X} (c : sys (result X Z)) :
  (forall r K, (forall x, K x r) -> role_ev c r K) -> plain (ccall c).
Proof. intros H e r Q HQ. apply H. intros x. by apply HQ. Qed.
Lemma plain_bind {A C} (m : M A) (k : A -> M C) :
  plain m -> (forall a, plain (k a)) -> plain (m ≫= k).
Proof. intros Hm Hk e r Q H. apply wp_bind, Hm. intros a e' r' Hr. apply Hk. intros c e'' r'' Hr'.
  apply H. by etrans.
Qed.
Lemma plain_get_errno : plain get_errno.
Proof. intros e r Q H. by apply H. Qed.
Lemma plain_set_errno e' : plain (set_errno e').
Proof. intros e r Q H. by apply H. Qed.
Lemma plain_unwrap {A} (o : option A) : plain (unwrap o).
Proof. destruct o; [apply plain_ret|apply plain_halt]. Qed.
Lemma plain_map_err {A F G} (f : F -> G) (m : M (result A F)) : plain m -> plain (map_err f m).
Proof. intros Hm. apply plain_bind; [done|]. intros. apply plain_ret. Qed.

Create HintDb plain discriminated.

Ltac plainly :=
  cbv beta;
  lazymatch goal with
  | |- plain (mbind _ _) => apply plain_bind; [plainly|intros; plainly]
  | |- plain (mret _) => apply plain_ret
  | |- plain (halt _) => apply plain_halt
  | |- plain (set_errno _) => apply plain_set_errno
  | |- plain get_errno => apply plain_get_errno
  | |- plain (unwrap _) => apply plain_unwrap
  | |- plain (map_err _ _) => apply plain_map_err; plainly
  | |- plain (sysc _) => apply plain_sysc; intros ? ?; exact (fun H => H)
  | |- plain (ccall _) => apply plain_ccall; intros ? ?; exact (fun H => H)
  | |- plain (match ?x with _ => _ end) => destruct x; plainly
  | _ => solve [auto with plain nocore]
  end.

Lemma plain_if_up name : plain (NetUtil.if_up name).
Proof. unfold NetUtil.if_up, NetUtil.close_return. plainly. Qed.
Lemma plain_if_down name : plain (NetUtil.if_down name).
Proof. unfold NetUtil.if_down, NetUtil.close_return. plainly. Qed.
Lemma plain_if_rename a b : plain (NetUtil.if_rename a b).
Proof. unfold NetUtil.if_rename, NetUtil.close_return. plainly. Qed.
Lemma plain_bridge_add name : plain (NetUtil.bridge_add name).
Proof. unfold NetUtil.bridge_add, NetUtil.close_return. plainly. Qed.
Lemma plain_bridge_add_if a b : plain (NetUtil.bridge_add_if a b).
Proof. unfold NetUtil.bridge_add_if, NetUtil.close_return. plainly. Qed.
Lemma plain_bridge_remove_if a b : plain (NetUtil.bridge_remove_if a b).
Proof. unfold NetUtil.bridge_remove_if, NetUtil.close_return. plainly. Qed.
#[local] Hint Resolve plain_if_up plain_if_down plain_if_rename plain_bridge_add
  plain_bridge_add_if plain_bridge_remove_if : plain.
Lemma plain_bridge_delete name : plain (NetUtil.bridge_delete name).
Proof. unfold NetUtil.bridge_delete, NetUtil.close_return. plainly. Qed.
Lemma plain_tap_open x name flags : plain (NetUtil.tap_open x name flags).
Proof. unfold NetUtil.tap_open. plainly. Qed.
Lemma plain_add_net dir n : plain (add_net dir n).
Proof. unfold add_net. plainly. Qed.
#[local] Hint Resolve plain_bridge_delete plain_tap_open plain_add_net : plain.
Lemma plain_add_net_c dir n : plain (add_net_c dir n).
Proof. unfold add_net_c. plainly. Qed.
Lemma plain_remove_device_c dir d : plain (remove_device_c dir d).
Proof. unfold remove_device_c, remove_device. plainly. Qed.
#[local] Hint Resolve plain_add_net_c plain_remove_device_c : plain.

Lemma plain_poll_loop n fd : plain (NetSetup.poll_loop n fd).
Proof. induction n; cbn [NetSetup.poll_loop]; plainly. Qed.
Lemma plain_setup_tap g br p b : plain (NetSetup.setup_tap g br p b).
Proof. unfold NetSetup.setup_tap. plainly. Qed.
#[local] Hint Resolve plain_poll_loop plain_setup_tap : plain.
Lemma plain_router_net_setup g br dir mac : plain (NetSetup.router_net_setup g br dir mac).
Proof. unfold NetSetup.router_net_setup. plainly. Qed.
Lemma plain_router_net_cleanup g pid dir id : plain (NetSetup.router_net_cleanup g pid dir id).
Proof. unfold NetSetup.router_net_cleanup. plainly. Qed.
#[local] Hint Resolve plain_router_net_setup plain_router_net_cleanup : plain.
Lemma plain_exit_listener_main g n fd pid dir id :
  plain (NetSetup.exit_listener_main g n fd pid dir id).
Proof. unfold NetSetup.exit_listener_main, NetSetup.bridge_cleanup. plainly. Qed.
#[local] Hint Resolve plain_exit_listener_main : plain.

(** A fork whose child does not return. *)
Lemma plain_fork {A} (k : result Z Z -> M A) :
  (forall pid, positive_int pid -> plain (k (Ok pid))) -> (forall en, plain (k (Err en))) ->
  (forall e r Q, wp (k (Ok 0) e) r Q) ->
  plain (ccall Fork ≫= k).
Proof.
  intros Hp He Hc e r Q H. exists false. split_and!.
  - intros pid Hpid. apply (Hp pid Hpid). intros a e' r' [ks ->]. apply H.
    exists ks. simpl. by rewrite andb_true_r.
  - apply Hc.
  - intros en Hen. by apply He.
Qed.

(** Code that ends with a halt, after something plain. *)
Lemma plain_no_return {A C} (m : M A) st e r (Q : C * Z -> role -> Prop) :
  plain m -> wp ((let* _ := m in halt st) e) r Q.
Proof. intros Hm. apply wp_bind, Hm. by intros. Qed.

Lemma plain_exit_listener_setup g n dir id : plain (NetSetup.exit_listener_setup g n dir id).
Proof.
  unfold NetSetup.exit_listener_setup. apply plain_bind; [plainly|]. intros pid.
  apply plain_bind; [plainly|]. intros [[fd0 fd1]|]; [|plainly].
  apply plain_fork; [|intros; plainly|].
  - intros child Hc. rewrite (proj2 (Z.eqb_neq child 0)) by (unfold positive_int in Hc; lia). plainly.
  - intros e r Q. rewrite Z.eqb_refl. apply wp_bind, plain_ccall; [done|].
    intros a e' r' _. by apply plain_no_return, plain_exit_listener_main.
Qed.
#[local] Hint Resolve plain_exit_listener_setup : plain.

Lemma plain_net_setup g n dir : plain (NetSetup.net_setup g n dir).
Proof. unfold NetSetup.net_setup, NetSetup.client_net_setup. plainly. Qed.
Lemma plain_collect_disks dir l : plain (collect_disks dir l).
Proof. induction l as [|[]]; cbn [collect_disks]; plainly. Qed.
#[local] Hint Resolve plain_net_setup plain_collect_disks : plain.
Lemma plain_vm_config dir : plain (vm_config E dir).
Proof. unfold vm_config, read_disks, read_nets, setup_provider. plainly. Qed.
Lemma plain_create_api_socket dir : plain (create_api_socket dir).
Proof. unfold create_api_socket, Fork.clear_cloexec, Fork.clear_cloexec_c. plainly. Qed.
Lemma plain_add_nets dir nets : plain (add_nets dir nets).
Proof. induction nets; cbn [add_nets]; plainly. Qed.
#[local] Hint Resolve plain_vm_config plain_create_api_socket plain_add_nets : plain.
Lemma plain_ch_create_vm dir cfg : plain (Ch.create_vm dir cfg).
Proof. unfold Ch.create_vm, check_status. plainly. Qed.

(** *** The double fork *)

Lemma honest_complete w :
  honest w -> length w = 4%nat -> exists v, v <> 0 /\ - 2 ^ 31 <= v < 2 ^ 31 /\ w = Fork.int_bytes v.
Proof.
  intros (v & Hv & Hr & Hp) Hl. exists v. split; [done|]. split; [done|].
  apply prefix_length_eq; [done|]. rewrite Fork.int_bytes_length. lia.
Qed.

Lemma honest_length w : honest w -> (length w <= 4)%nat.
Proof. intros (v & _ & _ & Hp%prefix_length). by rewrite Fork.int_bytes_length in Hp. Qed.

Lemma honest_prefix w w' : w `prefix_of` w' -> honest w' -> honest w.
Proof. intros Hp (v & Hv & Hr & Hw). exists v. split; [done|]. split; [done|]. by etrans. Qed.

Lemma honest_report v : v <> 0 -> - 2 ^ 31 <= v < 2 ^ 31 -> honest (Fork.int_bytes v).
Proof. intros. by exists v. Qed.

Lemma wp_ccall {X} (c : sys (result X Z)) e r (Q : result X Z * Z -> role -> Prop) :
  role_ev c r (fun x r' => Q (x, match x with Ok _ => e | Err e' => e' end) r') ->
  wp (ccall c e) r Q.
Proof. done. Qed.

(** The parent's loop ends with a complete report in its buffer. *)
Lemma wp_read_loop n fd v acc e r Q :
  depth r = 0%nat -> length v = 4%nat -> 0 <= acc < 4 -> take (Z.to_nat acc) v = got r ->
  (forall n v', n <> -1 -> Fork.bytes_int v' <> 0 ->
     Q ((n, v'), e) (Role (depth r) (known r) (token r) (written r) v')) ->
  wp (Fork.read_loop n fd v acc e) r Q.
Proof.
  intros Hd Hl Ha Ht HQ. revert r v acc Hd Hl Ha Ht HQ.
  induction n as [|n IH]; intros r v acc Hd Hl Ha Ht HQ; [done|].
  unfold Fork.read_loop; fold Fork.read_loop.
  apply wp_bind, wp_ccall. split; [done|]. intros data Hlen Hh. cbn [fst snd].
  assert (Hg : length (got r) = Z.to_nat acc) by (rewrite <- Ht, length_take; lia).
  pose proof (honest_length _ Hh) as Hle. rewrite length_app, Hg in Hle.
  rewrite get_errno_bind. rewrite (proj2 (Z.eqb_neq _ (-1))) by lia.
  rewrite Fork.size_add_small by lia. cbn [negb orb andb].
  pose proof (Fork.take_store v (Z.to_nat acc) data ltac:(lia)) as Hs. rewrite Ht in Hs.
  destruct (Z.ltb_spec (acc + Z.of_nat (length data)) 4).
  - apply IH; simpl; [done|rewrite Fork.store_length; lia|lia| |done].
    by replace (Z.to_nat (acc + _)) with (Z.to_nat acc + length data)%nat by lia.
  - rewrite take_ge in Hs by (rewrite Fork.store_length; lia). rewrite Hs.
    destruct (honest_complete _ Hh) as (x & Hx & Hr & Hw); [rewrite length_app; lia|].
    apply HQ; [lia|]. by rewrite Hw, Fork.int_bytes_roundtrip.
Qed.

(** The child's loop writes its report once, or fails. *)
Lemma wp_write_loop n fd v e r (Q : Z * Z -> role -> Prop) :
  token r = true -> written r = [] -> v <> 0 -> - 2 ^ 31 <= v < 2 ^ 31 ->
  (forall x e' r', Q (x, e') r') ->
  wp (Fork.write_loop n fd (Fork.int_bytes v) 0 e) r Q.
Proof.
  intros Ht Hw Hv Hr HQ. destruct n as [|n]; [done|].
  unfold Fork.write_loop; fold Fork.write_loop. apply wp_bind, wp_ccall. split; [done|]. change (drop (Z.to_nat 0) ?l) with l. rewrite Hw.
  split; [by apply honest_report|]. split; [|intros en]; cbn [fst snd]; rewrite get_errno_bind.
  - rewrite Fork.int_bytes_length. apply HQ.
  - unfold Fork.size_add. destruct (_ && _) eqn:Hc; [|apply HQ].
    apply andb_true_iff in Hc as [_ Hc]. by vm_compute in Hc.
Qed.

(** The answers of [double_fork] tell the first process from the grandchild. *)
Lemma wp_double_fork n v0 e r Q :
  depth r = 0%nat -> token r = true -> written r = [] -> got r = [] -> length v0 = 4%nat ->
  (forall v e' r', v <> 0 /\ depth r' = 0%nat \/ v = 0 /\ depth r' = 2%nat -> Q (v, e') r') ->
  wp (Fork.double_fork n v0 e) r Q.
Proof.
  intros Hd Ht Hw Hg Hl HQ. unfold Fork.double_fork. apply wp_bind, wp_ccall.
  intros [[fd0 fd1]|en]; cbn [fst snd]; [|apply HQ; by left].
  apply wp_bind, wp_ccall. exists true. split_and!; cbn [fst snd].
  - intros pid Hpid. rewrite (proj2 (Z.eqb_neq pid 0)) by (unfold positive_int in Hpid; lia).
    apply wp_bind, wp_ccall. intros ?. cbn [fst snd].
    apply wp_bind, wp_read_loop; [done|done|lia|by simpl; rewrite Hg|]. intros n1 v1 Hx Hv. cbn [fst snd].
    apply wp_bind, wp_ccall. intros ?. cbn [fst snd].
    rewrite (proj2 (Z.eqb_neq n1 (-1))) by done. apply HQ. by left.
  - rewrite Z.eqb_refl. apply wp_bind, wp_ccall. intros ?. cbn [fst snd].
    apply wp_bind, wp_ccall. exists false. split_and!; cbn [fst snd].
    + intros child Hc. rewrite get_errno_bind. unfold positive_int in Hc.
      rewrite (proj2 (Z.eqb_neq child 0)) by lia.
      apply wp_bind, wp_write_loop; [simpl; by rewrite Ht|done|lia|lia|done].
    + rewrite get_errno_bind, Z.eqb_refl. apply wp_bind, wp_ccall. intros ?. apply HQ. right.
      simpl. by rewrite Hd.
    + intros en Hen. rewrite get_errno_bind. unfold positive_int in Hen.
      rewrite (proj2 (Z.eqb_neq (- en) 0)) by lia.
      apply wp_bind, wp_write_loop; [simpl; by rewrite Ht|done|lia|lia|done].
  - intros en Hen. apply wp_bind, wp_ccall. intros ?. apply wp_bind, wp_ccall. intros ?. apply HQ. by left.
Qed.

(** The grandchild creates the VM. *)
Lemma wp_create_vm_child_main {A} dir fd cfg e r (Q : A * Z -> role -> Prop) :
  depth r = 2%nat -> wp (create_vm_child_main E dir fd cfg e) r Q.
Proof.
  intros Hd. unfold create_vm_child_main. apply wp_bind, plain_ch_create_vm.
  intros [[]|m] e1 r1 [ks ->]; cbn [fst snd].
  - apply wp_bind. apply wp_bind. split; [simpl; lia|]. intros [u|er]; [done|].
    by apply plain_no_return, plain_sysc.
  - apply wp_bind, plain_sysc; [done|]. intros [] e2 r2 [ks2 ->]. cbn [fst snd].
    apply wp_bind. intros parent. rewrite Hd. cbn [fst snd].
    apply wp_bind, wp_ccall. split; [simpl; lia|]. split; [simpl; set_solver|]. intros k. cbn [fst snd].
    apply plain_no_return. destruct k; plainly.
Qed.

Lemma wp_create_vm dir fd e r Q :
  depth r = 0%nat -> token r = true -> written r = [] -> got r = [] ->
  length (uninit_v E) = 4%nat ->
  (forall a e' r', depth r' = 0%nat -> Q (a, e') r') -> wp (create_vm E dir fd e) r Q.
Proof.
  intros Hd Ht Hw Hg Hl HQ. unfold create_vm. apply wp_bind, plain_vm_config.
  intros [cfg|m] e1 r1 [ks ->]; cbn [fst snd]; [|by apply HQ].
  apply wp_bind, wp_double_fork; [done..|]. intros v e2 r2 [[Hv Hd2]|[-> Hd2]]; cbn [fst snd].
  - destruct (v <? 0); [by apply HQ|]. rewrite (proj2 (Z.eqb_neq v 0)) by done. by apply HQ.
  - by apply wp_create_vm_child_main.
Qed.

(** The role of the first process. *)
Definition first_role : role := Role 0 [] true [] [].

Lemma wp_main e Q : length (uninit_v E) = 4%nat -> wp (main E e) first_role Q.
Proof.
  intros Hl. unfold main. apply wp_bind.
  assert (Hend : forall m e1 r1, wp ((let* _ := sysc (Eprintln m) in halt (Exit 1)) e1) r1 Q)
    by (intros; by apply plain_no_return, plain_sysc).
  unfold run. destruct (tail (argv E)) as [|name [|? ?]]; try by apply plain_no_return, plain_sysc.
  apply wp_bind, plain_create_api_socket. intros [fd|m] e1 r1 [ks ->]; cbn [fst snd]; [|apply Hend].
  apply wp_bind, wp_create_vm; [done..|]. intros [[]|m] e2 r2 Hd; cbn [fst snd]; [|apply Hend].
  unfold vm_command. apply wp_bind. split; [done|]. intros [x|]; [apply Hend|done].
Qed.

(** *** All processes together *)

Definition exclusive (P : role -> Prop) (rs : list role) : Prop :=
  forall i j r r', rs !! i = Some r -> rs !! j = Some r' -> P r -> P r' -> i = j.

Lemma exclusive_insert (P : role -> Prop) rs i r r' :
  rs !! i = Some r -> (P r' -> P r) -> exclusive P rs -> exclusive P (<[i := r']> rs).
Proof.
  intros Hi Hr Hx j k a b Ha Hb Pa Pb.
  apply list_lookup_insert_Some in Ha as [(<- & <- & _)|[Hij Ha]];
    apply list_lookup_insert_Some in Hb as [(<- & <- & _)|[Hik Hb]]; eauto.
Qed.

Lemma exclusive_snoc (P : role -> Prop) rs r :
  exclusive P rs -> (P r -> Forall (fun r' => ~ P r') rs) -> exclusive P (rs ++ [r]).
Proof.
  intros Hx Hr j k a b [[_ Ha]|[-> Ha]]%lookup_snoc_Some [[_ Hb]|[-> Hb]]%lookup_snoc_Some Pa Pb;
    simplify_eq; [by eauto|exfalso..|done].
  - by apply (Forall_lookup_1 _ _ _ _ (Hr Pb) Ha).
  - by apply (Forall_lookup_1 _ _ _ _ (Hr Pa) Hb).
Qed.

(** The holder of an exclusive property is the only one. *)
Lemma exclusive_only (P C : role -> Prop) rs i r r' :
  rs !! i = Some r -> P r -> exclusive P rs -> (P r' -> C r') ->
  Forall (fun a => P a -> C a) (<[i := r']> rs).
Proof.
  intros Hi Hr Hx HC. apply Forall_lookup_2. intros j a Ha Pa.
  apply list_lookup_insert_Some in Ha as [(<- & <- & _)|[Hij Ha]]; [by auto|].
  by destruct Hij; eapply Hx.
Qed.

Definition fits (log : list (Z * event sys)) (p : proc) (r : role) : Prop :=
  wp (p_prog p) r (fun _ _ => True) /\ (depth r = 0%nat <-> p_pid p = first) /\
  ((2 <= depth r)%nat -> elder log (p_pid p) (p_parent p)) /\ Forall (elder log (p_pid p)) (known r).

Lemma fits_later log log' p r : fits log p r -> fits (log ++ log') p r.
Proof.
  intros (H1 & H2 & H3 & H4). split_and!; [done..| |].
  - intros Hd. by apply elder_later, H3.
  - eapply Forall_impl; [exact H4|]. intros q. apply elder_later.
Qed.

(** The report written so far is [total], of which [taken] has been read. *)
Record inv_with (rs : list role) (total taken : bytes) (w : world) : Prop := {
  inv_fits : Forall2 (fits (w_log w)) (w_procs w) rs;
  inv_writer : exclusive (fun r => token r = true) rs;
  inv_reader : exclusive (fun r => depth r = 0%nat) rs;
  inv_honest : honest total;
  inv_pipe : total = taken ++ w_pipe w;
  inv_written : Forall (fun r => token r = true -> written r = total) rs;
  inv_got : Forall (fun r => depth r = 0%nat -> got r = taken) rs;
  inv_log : Forall (fun x => in_role (w_log w) x.1 x.2) (w_log w);
}.

Definition inv (w : world) : Prop := exists rs total taken, inv_with rs total taken w.

Lemma all_fit_later log log' ps rs : Forall2 (fits log) ps rs -> Forall2 (fits (log ++ log')) ps rs.
Proof. intros H. eapply Forall2_impl; [exact H|]. intros p r. apply fits_later. Qed.

Lemma log_snoc log pid ev :
  Forall (fun x => in_role log x.1 x.2) log -> in_role log pid ev ->
  Forall (fun x => in_role (log ++ [(pid, ev)]) x.1 x.2) (log ++ [(pid, ev)]).
Proof.
  intros Hl He. apply Forall_app. split.
  - eapply Forall_impl; [exact Hl|]. intros x. apply in_role_later.
  - apply Forall_singleton. by apply in_role_later.
Qed.

(** A call after which the process is in the same role, but for what it knows. *)
Lemma inv_call rs total taken ps pipe log i pid parent p r p' r' ev :
  inv_with rs total taken (World ps pipe log) ->
  ps !! i = Some (Proc pid parent p) -> rs !! i = Some r ->
  fits log (Proc pid parent p') r' -> learnt r r' -> in_role log pid ev ->
  inv_with (<[i := r']> rs) total taken
    (World (<[i := Proc pid parent p']> ps) pipe (log ++ [(pid, ev)])).
Proof.
  intros [Hf Hw Hr Hh Hp Hwr Hg Hl] Hi Hri Hfit [ks ->] Hev. split; simpl in *; try done.
  - apply all_fit_later. by apply Forall2_insert.
  - by eapply exclusive_insert.
  - by eapply exclusive_insert.
  - apply Forall_insert; [done|]. exact (Forall_lookup_1 _ _ _ _ Hwr Hri).
  - apply Forall_insert; [done|]. exact (Forall_lookup_1 _ _ _ _ Hg Hri).
  - by apply log_snoc.
Qed.

Lemma fits_next log pid parent p p' r r' :
  fits log (Proc pid parent p) r -> wp p' r' (fun _ _ => True) ->
  depth r' = depth r -> Forall (elder log pid) (known r') -> fits log (Proc pid parent p') r'.
Proof. intros (_ & Hd & Hp & _) Hw Hr Hk. unfold fits. simpl in *. by rewrite Hr. Qed.

Lemma fits_adopted log dead p r : reaper <> first -> fits log p r -> fits log (adopt dead p) r.
Proof.
  intros Hr (H1 & H2 & H3 & H4). unfold adopt. case_match; [|done]. split_and!; [done..| |done].
  intros _. split; [done|by left].
Qed.

(** Calls answered elsewhere are in the role of the process that makes them. *)
Lemma role_ev_elsewhere {X} (c : sys X) log pid parent p r (K : X -> role -> Prop) x :
  elsewhere c = true -> fits log (Proc pid parent p) r -> role_ev c r K ->
  K x r /\ in_role log pid (Event c x).
Proof.
  intros He (_ & Hd & _ & Hk) H. simpl in Hd.
  assert (Hnf : (2 <= depth r)%nat -> pid <> first) by (intros H2 ->; pose proof (proj2 Hd eq_refl); lia).
  destruct c; simpl in *; try done; try (by split); destruct H as [H HK]; (split; [by apply HK|]).
  - by apply Hd.
  - by apply Hnf.
  - split; [by apply Hnf|]. destruct HK as [Hin _]. by eapply Forall_forall in Hk.
Qed.

(** A read by the first process takes the next part of the report. *)
Lemma inv_read rs total taken ps data rest log i pid parent p p' r ev :
  inv_with rs total taken (World ps (data ++ rest) log) ->
  ps !! i = Some (Proc pid parent p) -> rs !! i = Some r -> fits log (Proc pid parent p) r ->
  depth r = 0%nat ->
  (honest (got r ++ data) ->
   wp p' (Role (depth r) (known r) (token r) (written r) (got r ++ data)) (fun _ _ => True)) ->
  in_role log pid ev ->
  inv (World (<[i := Proc pid parent p']> ps) rest (log ++ [(pid, ev)])).
Proof.
  intros HI Hi Hr Hfit Hd0 Hwp Hev. pose proof Hfit as (_ & _ & _ & Hk).
  assert (Hgot : got r = taken) by exact (Forall_lookup_1 _ _ _ _ (inv_got _ _ _ _ HI) Hr Hd0).
  destruct HI as [Hf Hw Hx Hh Hp Hwr Hg Hl]. simpl in *. subst total.
  eexists _, _, (taken ++ data). split; simpl.
  - apply all_fit_later. apply Forall2_insert; [done|]. eapply fits_next; [done|apply Hwp|done..].
    rewrite Hgot. eapply honest_prefix; [|exact Hh]. rewrite app_assoc. by apply prefix_app_r.
  - by eapply exclusive_insert.
  - by eapply exclusive_insert.
  - exact Hh.
  - by rewrite app_assoc.
  - apply Forall_insert; [done|]. exact (Forall_lookup_1 _ _ _ _ Hwr Hr).
  - eapply exclusive_only; [done..|]. by rewrite Hgot.
  - by apply log_snoc.
Qed.

(** A write by the holder of the token adds to the report. *)
Lemma inv_write rs total taken ps pipe data log i pid parent p p' r ev :
  inv_with rs total taken (World ps pipe log) ->
  ps !! i = Some (Proc pid parent p) -> rs !! i = Some r -> fits log (Proc pid parent p) r ->
  token r = true -> honest (written r ++ data) ->
  wp p' (Role (depth r) (known r) (token r) (written r ++ data) (got r)) (fun _ _ => True) ->
  in_role log pid ev ->
  inv (World (<[i := Proc pid parent p']> ps) (pipe ++ data) (log ++ [(pid, ev)])).
Proof.
  intros HI Hi Hr Hfit Ht Hho Hwp Hev. pose proof Hfit as (_ & _ & _ & Hk).
  assert (Hwt : written r = total) by exact (Forall_lookup_1 _ _ _ _ (inv_written _ _ _ _ HI) Hr Ht).
  destruct HI as [Hf Hw Hx Hh Hp Hwr Hg Hl]. simpl in *.
  eexists _, (total ++ data), taken. split; simpl.
  - apply all_fit_later. apply Forall2_insert; [done|]. by eapply fits_next.
  - by eapply exclusive_insert.
  - by eapply exclusive_insert.
  - by rewrite <- Hwt.
  - by rewrite Hp, app_assoc.
  - eapply (exclusive_only (fun r => token r = true)); [done..|]. by rewrite Hwt.
  - apply Forall_insert; [done|]. exact (Forall_lookup_1 _ _ _ _ Hg Hr).
  - by apply log_snoc.
Qed.

Lemma inv_calls rs total taken ps pipe log i pid parent X (c : sys X) k x pipe' :
  inv_with rs total taken (World ps pipe log) ->
  ps !! i = Some (Proc pid parent (Vis c k)) -> answer pid parent pipe X c x pipe' ->
  read_failed (Event c x) = false ->
  inv (World (<[i := Proc pid parent (k x)]> ps) pipe' (log ++ [(pid, Event c x)])).
Proof.
  intros HI Hi Ha Hrf.
  destruct (Forall2_lookup_l _ _ _ _ _ (inv_fits _ _ _ _ HI) Hi) as (r & Hr & Hfit).
  pose proof Hfit as (Hwp & Hd & Hpar & Hk). simpl in Hd, Hpar.
  change (role_ev c r (fun x r' => wp (k x) r' (fun _ _ => True))) in Hwp.
  destruct Ha as [ | |fd len data rest Hpipe Hlen|fd len en|fd data|fd data en|X c x He].
  - specialize (Hwp parent).
    exists (<[i := if (2 <=? depth r)%nat then learn parent r else r]> rs), total, taken.
    eapply inv_call; [done..| | |done].
    + eapply fits_next; [done..| |]; destruct (Nat.leb_spec 2 (depth r)); try done.
      constructor; [by apply Hpar|done].
    + destruct (2 <=? depth r)%nat; [by exists [parent]|done].
  - exists (<[i := r]> rs), total, taken. eapply inv_call; [done..| |done|done]. by eapply fits_next.
  - destruct Hwp as [Hd0 Hwp]. subst pipe. eapply inv_read; [done..| |done]. by apply Hwp.
  - done.
  - destruct Hwp as (Ht & Hho & Hwp & _). by eapply inv_write.
  - destruct Hwp as (_ & _ & _ & Hwp).
    exists (<[i := r]> rs), total, taken. eapply inv_call; [done..| |done|done]. by eapply fits_next.
  - destruct (role_ev_elsewhere c log pid parent _ r _ x He Hfit Hwp) as [HK Hin].
    exists (<[i := r]> rs), total, taken. eapply inv_call; [done..| |done|done]. by eapply fits_next.
Qed.

Lemma inv_forks rs total taken ps pipe log i pid parent k child :
  inv_with rs total taken (World ps pipe log) ->
  ps !! i = Some (Proc pid parent (Vis Fork k)) -> positive_int child -> child <> first ->
  inv (World (<[i := Proc pid parent (k (Ok child))]> ps ++ [Proc child pid (k (Ok 0))]) pipe
         (log ++ [(pid, Event Fork (Ok child))])).
Proof.
  intros HI Hi Hc Hcf.
  destruct (Forall2_lookup_l _ _ _ _ _ (inv_fits _ _ _ _ HI) Hi) as (r & Hr & Hfit).
  pose proof Hfit as ((t & Hparent & Hchild & _) & Hd & Hpar & Hk).
  destruct HI as [Hf Hw Hx Hh Hp Hwr Hg Hl]. simpl in *.
  pose proof (Forall_lookup_1 _ _ _ _ Hwr Hr) as Hwr'. pose proof (Forall_lookup_1 _ _ _ _ Hg Hr) as Hg'.
  exists (<[i := forker t r]> rs ++ [forked t r]), total, taken. split; simpl.
  - apply Forall2_app; [apply all_fit_later, Forall2_insert; [done|]|constructor; [|constructor]].
    + by eapply fits_next; [done|by apply Hparent|..].
    + split; [exact Hchild|]. simpl. split; [by split; [|intros ?]|].
      split; [|constructor]. intros H2. split; [intros H%Hd; lia|right]. apply elem_of_app. right. left.
  - apply exclusive_snoc; [eapply exclusive_insert; [done| |done]|].
    + simpl. by intros [? _]%andb_true_iff.
    + simpl. intros [Ht ->]%andb_true_iff.
      eapply Forall_impl; [eapply (exclusive_only (fun r => token r = true) (fun _ => False)); [done..|]|done].
      simpl. rewrite andb_false_r. done.
  - apply exclusive_snoc; [by eapply exclusive_insert|done].
  - done.
  - done.
  - apply Forall_app. split; [apply Forall_insert; [done|]|repeat constructor]; simpl;
      intros [? _]%andb_true_iff; by apply Hwr'.
  - apply Forall_app. split; [by apply Forall_insert|by repeat constructor].
  - by apply log_snoc.
Qed.

Lemma tree_inv_step w w' : reaper <> first -> inv w -> step w w' -> reads_succeed (w_log w') -> inv w'.
Proof.
  intros Hreap (rs & total & taken & HI) Hs Hrw.
  destruct Hs as [i pid parent X c k x ps pipe pipe' log Hi Ha
                 |i pid parent k child ps pipe log Hi Hc Hfresh
                 |i pid parent k en ps pipe log Hi Hen
                 |i pid parent p ps pipe log Hi He].
  - eapply inv_calls; [done..|]. apply Forall_app in Hrw as [_ Hrw]. exact (proj1 (Forall_singleton _ _) Hrw).
  - eapply inv_forks; [done..|]. set_solver.
  - destruct (Forall2_lookup_l _ _ _ _ _ (inv_fits _ _ _ _ HI) Hi) as (r & Hr & Hfit).
    pose proof Hfit as ((t & _ & _ & Hf) & _ & _ & Hk).
    exists (<[i := r]> rs), total, taken. eapply inv_call; [done..| |done|done].
    eapply fits_next; [done|by apply Hf|done..].
  - exists rs, total, taken. destruct HI as [Hf Hw Hx Hh Hp Hwr Hg Hl]. split; try done. simpl in *.
    apply Forall2_fmap_l. eapply Forall2_impl; [exact Hf|]. intros q r Hq.
    by apply fits_adopted.
Qed.

Lemma inv_start parent : length (uninit_v E) = 4%nat -> inv (start parent).
Proof.
  intros Hl. exists [first_role], [], []. split; simpl; try done.
  - apply Forall2_cons. split; [|constructor]. split; [by apply wp_main|]. split; [done|].
    split; [simpl; lia|constructor].
  - by intros [|i] [|j] r r' [= <-] [= <-].
  - by intros [|i] [|j] r r' [= <-] [= <-].
  - exists 1. split; [done|]. split; [lia|]. apply prefix_nil.
  - by repeat constructor.
  - by repeat constructor.
Qed.

Lemma step_log w w' : step w w' -> w_log w `prefix_of` w_log w'.
Proof. destruct 1; simpl; by eauto using prefix_app_r. Qed.

(** C13. Who does what in the process tree of [start-vmm].  However its processes
    are scheduled, and whatever their other calls answer, as long as no read of
    the pipe of [double_fork] fails: only the process that the supervisor started
    becomes the hypervisor, so that the supervisor keeps watching the right one;
    readiness is reported only by other processes; and no signal is ever sent to
    the supervised process.  So when creating the VM fails, the [SIGTERM] that is
    meant to stop [cloud-hypervisor] never reaches it: it goes to the process in
    the middle of [double_fork], which has forked the sender and is not the first
    process, or to the one that has adopted the sender. *)
Theorem start_vmm_roles parent w :
  reaper <> first -> length (uninit_v E) = 4%nat -> rtc step (start parent) w -> reads_succeed (w_log w) ->
  forall pid ev, (pid, ev) ∈ w_log w ->
    (forall c x, ev = Event (ExecCommand c) x -> pid = first) /\
    (forall fd d x, ev = Event (WriteFile fd d) x -> pid <> first) /\
    (forall target sig x, ev = Event (Kill target sig) x ->
       pid <> first /\ target <> first /\
       (target = reaper \/ (target, Event Fork (Ok pid)) ∈ w_log w)).
Proof.
  intros Hr Hl Hs Hrw.
  assert (reads_succeed (w_log w) -> inv w) as Hinv.
  { clear Hrw. revert Hs. apply (rtc_ind_r (fun w => reads_succeed (w_log w) -> inv w)); [by intros _; apply inv_start|].
    intros w1 w2 _ Hs Hi Hw2. eapply tree_inv_step; [done|apply Hi|done..].
    apply step_log in Hs as [t Ht]. unfold reads_succeed in *. rewrite Ht in Hw2. by apply Forall_app in Hw2 as [? _]. }
  destruct (Hinv Hrw) as (rs & total & taken & HI).
  intros pid ev Hin. pose proof (inv_log _ _ _ _ HI) as Hlog.
  eapply Forall_forall in Hlog; [|exact Hin]. simpl in Hlog. split_and!; intros; subst; try done; apply Hlog.
Qed.

(** ** Running a schedule *)

(** The [i]-th process makes its next call, or is noticed to have ended. *)
Definition act (sc : scenario) (i : nat) (w : world) (next : Z) : option (world * Z) :=
  let '(World ps pipe log) := w in
  match ps !! i with
  | Some (Proc pid parent p) =>
      let go (p' : prog sys (unit * Z)) (pipe' : bytes) (ev : event sys) :=
        World (<[i := Proc pid parent p']> ps) pipe' (log ++ [(pid, ev)]) in
      match p with
      | Vis c k =>
          match c in sys X return (X -> prog sys (unit * Z)) -> option (world * Z) with
          | ParentId => fun k => Some (go (k parent) pipe (Event ParentId parent), next)
          | GetPid => fun k => Some (go (k pid) pipe (Event GetPid pid), next)
          | Read fd len => fun k =>
              let data := take len pipe in
              Some (go (k (Ok data)) (drop len pipe) (Event (Read fd len) (Ok data)), next)
          | Write fd data => fun k =>
              let n := Z.of_nat (length data) in
              Some (go (k (Ok n)) (pipe ++ data) (Event (Write fd data) (Ok n)), next)
          | Fork => fun k =>
              let child := 2000 + Z.of_nat (length ps) in
              if decide (0 < child < 2 ^ 31 /\ child ∉ first :: reaper :: (p_pid <$> ps)) then
                Some (World (<[i := Proc pid parent (k (Ok child))]> ps ++ [Proc child pid (k (Ok 0))])
                        pipe (log ++ [(pid, Event Fork (Ok child))]), next)
              else None
          | c => fun k => let '(x, next') := kernel sc _ c next in Some (go (k x) pipe (Event c x), next')
          end k
      | _ => Some (World (adopt pid <$> ps) pipe log, next)
      end
  | None => None
  end.

Lemma act_step sc i w next w' next' : act sc i w next = Some (w', next') -> step w w'.
Proof.
  destruct w as [ps pipe log]. cbn [act].
  destruct (ps !! i) as [[pid parent [a|st|X c k]]|] eqn:Hi; [..|done]; intros H.
  - simplify_eq. by eapply Ends.
  - simplify_eq. by eapply Ends.
  - destruct c; try (match type of H with context [kernel ?s ?X ?c ?w] => destruct (kernel s X c w) end);
      try (simplify_eq; eapply Calls; [done|]; by constructor).
    + case_decide as Hc; [|done]. simplify_eq. destruct Hc. by eapply Forks.
    + simplify_eq. eapply Calls; [done|]. constructor; [by rewrite take_drop|]. rewrite length_take. lia.
Qed.

Fixpoint acts (sc : scenario) (sched : list nat) (w : world) (next : Z) : option world :=
  match sched with
  | [] => Some w
  | i :: sched' => match act sc i w next with Some (w', next') => acts sc sched' w' next' | None => None end
  end.

Lemma acts_steps sc sched w next w' : acts sc sched w next = Some w' -> rtc step w w'.
Proof.
  revert w next. induction sched as [|i sched IH]; intros w next H; cbn [acts] in H; [by simplify_eq|].
  destruct (act sc i w next) as [[w1 next1]|] eqn:Ha; [|done].
  eapply rtc_l; [by eapply act_step|]. by eapply IH.
Qed.

End Processes.

(** ** Example *)

#[local] Existing Instance plain_fmt.
#[local] Existing Instance no_json.

(** [ch-remote] fails, after the process in the middle has exited. *)
Definition failing_creation : list nat :=
  replicate 12 0%nat ++ replicate 6 1%nat ++ replicate 10 2%nat.

Definition failed : option world :=
  acts 1234 1 ch_remote_fails failing_creation (start web_env 1234 77) 3.

Lemma start_vmm_roles_witness :
  exists w, rtc (step 1234 1) (start web_env 1234 77) w /\
    (2002, Event (Kill 1 SIGTERM) (Ok tt)) ∈ w_log w /\ 2002 <> 1234.
Proof.
  assert (Hl : option_map (fun w => (last (w_log w), forallb (fun x => negb (read_failed x.2)) (w_log w))) failed =
               Some (Some (2002, Event (Kill 1 SIGTERM) (Ok tt)), true)) by (vm_compute; reflexivity).
  destruct failed as [w|] eqn:Hw; [|discriminate Hl].
  assert (Hs : rtc (step 1234 1) (start web_env 1234 77) w) by (eapply acts_steps; exact Hw).
  injection Hl as Hl Hrf. apply last_Some_elem_of in Hl.
  assert (Hrw : reads_succeed (w_log w)).
  { apply Forall_forall. intros x Hx%list_elem_of_In. rewrite forallb_forall in Hrf.
    specialize (Hrf x Hx). by apply negb_true_iff in Hrf. }
  exists w. split; [exact Hs|]. split; [exact Hl|].
  destruct (start_vmm_roles web_env 1234 1 77 w ltac:(lia) eq_refl Hs Hrw _ _ Hl) as (_ & _ & Hk).
  exact (proj1 (Hk _ _ _ eq_refl)).
Defined.

End Processes.
