(* ===== verification/NetKernel.v ===== *)
(** * NetKernel: the kernel's network devices, as the sources rely on them

    What [netdevice(7)], [brctl] and the tun driver document of the calls that
    [net-util.c] and [net.c] make, as a relation between the devices before a
    call, its answer, and the devices after it.  A kernel may refuse any call
    ([refuses]), or none that it can carry out.  With it comes a program logic:
    [trip s m Q] says that [m], started with the devices [s], ends with a result
    and devices that satisfy [Q], whatever such a kernel answers. *)

From S2P Require Import Prelude Effects Wp RustStd Sys Scenario Mac Ch NetUtil FdLogic NetSetup.

Module NetKernel.
Import Mac Ch NetUtil NetSetup.

#[local] Arguments Z.testbit : simpl never.

(** ** Devices *)

(** A tap exists while a descriptor for it is open: one of this process, or one
    that another process has been given. *)
Inductive kind := Bridge | Tap (fd : option Z) (away : bool).

Record iface := Iface { index : Z; up : bool; master : option Z; what : kind }.

Global Instance kind_eq_dec : EqDecision kind.
Proof. solve_decision. Defined.
Global Instance iface_eq_dec : EqDecision iface.
Proof. solve_decision. Defined.

Abbreviation net :=
  (@gmap bytes (@list_eq_dec byte byte_eq_dec) (@list_countable byte byte_eq_dec byte_countable) iface).

(** The devices, and the commands that the process has started. *)
Record kstate := KState { k_net : net; k_children : gmap Z Sys.command }.

Definition with_up (b : bool) (i : iface) : iface := Iface (index i) b (master i) (what i).
Definition with_master (m : option Z) (i : iface) : iface := Iface (index i) (up i) m (what i).
Definition with_kind (k : kind) (i : iface) : iface := Iface (index i) (up i) (master i) k.

Definition held_by (fd : Z) (i : iface) : bool :=
  match what i with Tap (Some fd') _ => fd' =? fd | _ => false end.

Definition unheld (fd : Z) (n : net) : Prop := map_Forall (fun _ i => held_by fd i = false) n.

(** Closing a descriptor: its tap goes, unless another process has it. *)
Definition release1 (fd : Z) (i : iface) : option iface :=
  if held_by fd i then
    match what i with Tap _ true => Some (with_kind (Tap None true) i) | _ => None end
  else Some i.
Definition release (fd : Z) (n : net) : net := omap (release1 fd) n.

(** The members of a bridge, after it has been deleted. *)
Definition set_free (idx : Z) (i : iface) : iface :=
  if decide (master i = Some idx) then with_master None i else i.

(** Other processes get descriptors of this one. *)
Definition hand1 (P : Z -> bool) (i : iface) : iface :=
  match what i with Tap (Some fd) a => with_kind (Tap (Some fd) (a || P fd)) i | _ => i end.

(** Others let go of their taps. *)
Definition drop_named (L : bytes -> bool) (n : net) : net := filter (fun p => L p.1 = false) n.

Lemma drop_named_none (L : bytes -> bool) (n : net) : (forall a, L a = false) -> drop_named L n = n.
Proof. intros H. apply map_filter_id. intros a i _. apply H. Qed.

Lemma lookup_drop_named (L : bytes -> bool) (n : net) a :
  drop_named L n !! a = if L a then None else n !! a.
Proof.
  unfold drop_named. rewrite map_lookup_filter. destruct (n !! a); simpl; destruct (L a); try done.
Qed.

(** No device has this index, or had a bridge with this index. *)
Definition fresh_index (idx : Z) (n : net) : Prop :=
  map_Forall (fun _ i => index i <> idx /\ master i <> Some idx) n.

Definition wf (n : net) : Prop :=
  forall a b i j, n !! a = Some i -> n !! b = Some j -> index i = index j -> a = b.

(** The names that the kernel accepts for a device ([dev_valid_name]), and the
    first name that a template stands for. *)
Definition NAME_BYTES : bytes := B "/: " ++ [Byte.x09; Byte.x0a; Byte.x0b; Byte.x0c; Byte.x0d; Byte.xa0].

Definition valid_name (n : bytes) : bool :=
  negb (bool_decide (n ∈ [[]; B "."; B ".."])) && (length n <? IFNAMSIZ)%nat &&
  forallb (fun c => negb (has_byte c NAME_BYTES)) n.

Lemma valid_name_length n : valid_name n = true -> (length n < IFNAMSIZ)%nat /\ n <> [].
Proof.
  unfold valid_name. rewrite !andb_true_iff, negb_true_iff, bool_decide_eq_false, Nat.ltb_lt.
  intros [[H Hl] _]. split; [done|]. set_solver.
Qed.

Definition zeroth (template first : bytes) : Prop :=
  exists prefix, PERCENT ∉ prefix /\ template = prefix ++ B "%d" /\ first = prefix ++ B "0".

(** The name that was asked for, or one that a template stands for. *)
Definition meant (wanted n : bytes) : Prop :=
  PERCENT ∉ n /\ (wanted <> [] -> PERCENT ∉ wanted -> n = wanted) /\
  forall prefix, PERCENT ∉ prefix -> wanted = prefix ++ B "%d" -> exists k, 0 <= k /\ n = prefix ++ dec k.

(** ** The calls *)

Section Kernel.
(** Whether calls that could be carried out may fail nevertheless, whether the
    commands that the process starts may fail, the id of the process, and how
    its descriptors and children are told from those of other processes. *)
Variables (refuses declines : Prop) (pid : Z) (hold : Z -> Z).

Definition in_net (s : kstate) (n : net) : kstate := KState n (k_children s).

Lemma in_net_twice s n n' : in_net (in_net s n) n' = in_net s n'.
Proof. done. Qed.

(** The bridge [br], and a device with index [idx], called [n], in it or not. *)
Definition port_of (s : kstate) (br : bytes) (idx : Z) (ib : iface) (n : bytes) (i : iface) : Prop :=
  k_net s !! br = Some ib /\ what ib = Bridge /\ k_net s !! n = Some i /\ index i = idx.

(** Which interfaces can be put into a bridge, and taken out of it. *)
Definition can_join (ib i : iface) : Prop := what i <> Bridge /\ master i = None.
Definition is_in (ib i : iface) : Prop := master i = Some (index ib).

Definition port_step (s : kstate) (br : bytes) (idx : Z) (can : iface -> iface -> Prop)
    (f : iface -> iface -> iface) (x : result unit Z) (s' : kstate) : Prop :=
  match x with
  | Ok _ => exists ib n i, port_of s br idx ib n i /\ can ib i /\
      s' = in_net s (<[n := f ib i]> (k_net s))
  | Err _ => s' = s /\ (refuses \/ forall ib n i, port_of s br idx ib n i -> ~ can ib i)
  end.

Definition kstep_at (s : kstate) {X} (c : sys X) : X -> kstate -> Prop :=
  match c in sys X return X -> kstate -> Prop with
  | GetPid => fun x s' => x = pid /\ s' = s
  | Socket | OpenTun => fun x s' => s' = s /\
      match x with Ok fd => 0 <= fd /\ unheld (hold fd) (k_net s) | Err _ => refuses end
  | Pipe => fun x s' => s' = s /\
      match x with
      | Ok (a, b) => 0 <= a /\ 0 <= b /\ unheld (hold a) (k_net s) /\ unheld (hold b) (k_net s)
      | Err _ => refuses
      end
  (** the child is another process *)
  | Fork => fun x s' => s' = s /\ match x with Ok v => 0 < v | Err _ => refuses end
  | Close fd => fun x s' =>
      if fd =? -1 then x = Err EBADF /\ s' = s else s' = in_net s (release (hold fd) (k_net s))
  | GetIfFlags _ nm => fun x s' => s' = s /\
      match x with
      | Ok z => exists i, k_net s !! cstr nm = Some i /\ Z.testbit z 0 = up i
      | Err _ => refuses \/ k_net s !! cstr nm = None
      end
  | SetIfFlags _ nm z => fun x s' =>
      match x with
      | Ok _ => exists i, k_net s !! cstr nm = Some i /\
          s' = in_net s (<[cstr nm := with_up (Z.testbit z 0) i]> (k_net s))
      | Err _ => s' = s /\ (refuses \/ k_net s !! cstr nm = None)
      end
  | SetIfName _ nm nm' => fun x s' =>
      match x with
      | Ok _ => exists i, k_net s !! cstr nm = Some i /\ k_net s !! cstr nm' = None /\
          s' = in_net s (<[cstr nm' := i]> (delete (cstr nm) (k_net s)))
      | Err _ => s' = s /\ (refuses \/ valid_name (cstr nm') = false \/ is_Some (k_net s !! cstr nm') \/
          forall i, k_net s !! cstr nm = Some i -> up i = true)
      end
  | BrAdd _ nm => fun x s' =>
      match x with
      | Ok _ => exists idx, k_net s !! nm = None /\ fresh_index idx (k_net s) /\
          s' = in_net s (<[nm := Iface idx false None Bridge]> (k_net s))
      | Err _ => s' = s /\ (refuses \/ valid_name nm = false \/ is_Some (k_net s !! nm))
      end
  | BrDel _ nm => fun x s' =>
      match x with
      | Ok _ => exists i, k_net s !! nm = Some i /\ what i = Bridge /\ up i = false /\
          s' = in_net s (set_free (index i) <$> delete nm (k_net s))
      | Err _ => s' = s /\ (refuses \/
          forall i, k_net s !! nm = Some i -> what i = Bridge -> up i = true)
      end
  | BrAddIf _ br idx => port_step s (cstr br) idx can_join (fun ib => with_master (Some (index ib)))
  | BrDelIf _ br idx => port_step s (cstr br) idx is_in (fun _ => with_master None)
  | TunSetIff fd nm _ => fun x s' =>
      let wanted := cstr (take (IFNAMSIZ - 1) nm) in
      match x with
      | Ok ifr => exists idx, valid_name (cstr ifr) = true /\ meant wanted (cstr ifr) /\
          k_net s !! cstr ifr = None /\ fresh_index idx (k_net s) /\ unheld (hold fd) (k_net s) /\
          s' = in_net s (<[cstr ifr := Iface idx false None (Tap (Some (hold fd)) false)]> (k_net s))
      | Err _ => s' = s /\ (refuses \/
          forall n, wanted = n /\ PERCENT ∉ n \/ zeroth wanted n -> valid_name n = true ->
            unheld (hold fd) (k_net s) -> is_Some (k_net s !! n))
      end
  | IfNameToIndex nm => fun x s' => s' = s /\
      match x with
      | Ok idx => exists i, k_net s !! nm = Some i /\ index i = idx
      | Err _ => refuses \/ k_net s !! nm = None
      end
  | Spawn c => fun x s' =>
      match x with
      | Ok child => s' = KState (k_net s) (<[hold child := c]> (k_children s))
      | Err _ => s' = s /\ refuses
      end
  | WaitChild child => fun x s' => exists P L,
      s' = in_net s (drop_named L (hand1 P <$> k_net s)) /\
      (** the holder lets go of a tap only when it is told to *)
      (forall a, L a = true -> (exists i, k_net s !! a = Some i /\ what i = Tap None true) /\
         exists dir, k_children s !! hold child = Some (remove_device_command dir a)) /\
      match x with Ok st => success st = true \/ declines | Err _ => declines end /\
      (** a descriptor is handed over only by a command that names it *)
      (forall h, P h = true -> exists dir n, h = hold (net_fd n) /\ 0 <= net_fd n /\
         k_children s !! hold child = Some (add_net_command dir n)) /\
      (** and it has been handed over if that command succeeded *)
      (forall st dir n, x = Ok st -> success st = true ->
         k_children s !! hold child = Some (add_net_command dir n) -> P (hold (net_fd n)) = true)
  | Poll _ => fun x s' => s' = s /\
      (** of the write end of a pipe, with no events asked for *)
      match x with Ok revents => revents = POLLERR | Err en => en = EINTR \/ en = EWOULDBLOCK \/ refuses end
  | _ => fun _ s' => s' = s
  end.

(** *** Runs of a program on such a kernel *)

Fixpoint behaves_at (s : kstate) (tr : list (event sys)) (s' : kstate) : Prop :=
  match tr with
  | [] => s' = s
  | Event c x :: tr' => exists s1, kstep_at s c x s1 /\ behaves_at s1 tr' s'
  end.

(** Indices stay unique. *)
Lemma wf_sub (n n' : net) :
  wf n -> (forall a i', n' !! a = Some i' -> exists i, n !! a = Some i /\ index i = index i') -> wf n'.
Proof.
  intros Hw H a b i j (i' & Ha & Hi)%H (j' & Hb & Hj)%H Hij. eapply Hw; [done..|]. congruence.
Qed.

Lemma wf_insert (n : net) a i :
  wf n -> (forall b j, b <> a -> n !! b = Some j -> index j <> index i) -> wf (<[a := i]> n).
Proof.
  intros Hw Hi b c j k [[<- <-]|[Hb Hj]]%lookup_insert_Some [[<- <-]|[Hc Hk]]%lookup_insert_Some Hjk;
    [done|..].
  - by destruct (Hi c k).
  - by destruct (Hi b j).
  - by eapply Hw.
Qed.

Lemma wf_fresh (n : net) a i : wf n -> fresh_index (index i) n -> wf (<[a := i]> n).
Proof. intros Hw Hf. apply wf_insert; [done|]. intros b j _ Hj. by destruct (Hf b j Hj). Qed.

Lemma wf_update (n : net) a i i' :
  wf n -> n !! a = Some i -> index i' = index i -> wf (<[a := i']> n).
Proof.
  intros Hw Ha Hi. apply wf_insert; [done|]. intros b j Hb Hj Hij.
  apply Hb. eapply Hw; [done..|]. congruence.
Qed.

Lemma wf_fmap (f : iface -> iface) (n : net) : (forall i, index (f i) = index i) -> wf n -> wf (f <$> n).
Proof.
  intros Hf Hw. apply (wf_sub n); [done|]. intros a i' (i & <- & Ha)%lookup_fmap_Some. by exists i.
Qed.

Lemma wf_delete (n : net) a : wf n -> wf (delete a n).
Proof. intros Hw. apply (wf_sub n); [done|]. intros b i' [_ Hb]%lookup_delete_Some. by exists i'. Qed.

Lemma wf_drop_named L (n : net) : wf n -> wf (drop_named L n).
Proof.
  intros Hw. apply (wf_sub n); [done|]. intros a i'. rewrite lookup_drop_named. case_match; [done|]. eauto.
Qed.

Lemma wf_release fd (n : net) : wf n -> wf (release fd n).
Proof.
  intros Hw. apply (wf_sub n); [done|]. intros a i' (i & Hi & Ha)%lookup_omap_Some. exists i.
  split; [done|]. unfold release1, with_kind in Hi. repeat case_match; by simplify_eq/=.
Qed.

Lemma wf_rename (n : net) a b i : wf n -> n !! a = Some i -> wf (<[b := i]> (delete a n)).
Proof.
  intros Hw Ha. apply wf_insert; [by apply wf_delete|].
  intros c j _ [Hc Hj]%lookup_delete_Some Hij. apply Hc. symmetry. by eapply Hw.
Qed.

Lemma wf_kstep s X (c : sys X) x s' : wf (k_net s) -> kstep_at s c x s' -> wf (k_net s').
Proof.
  intros Hw H. destruct c; simpl in H; unfold port_step, port_of in *; repeat case_match;
    repeat match goal with H : exists _, _ |- _ => destruct H | H : _ /\ _ |- _ => destruct H end;
    subst; simpl; eauto using wf_release, wf_update, wf_fresh, wf_rename.
  3: { apply wf_fmap; [|by apply wf_delete]. intros i. unfold set_free. by case_match. }
  all: apply wf_drop_named, wf_fmap; [|done]; intros i; unfold hand1, with_kind; by repeat case_match.
Qed.

Lemma behaves_wf s tr s' : behaves_at s tr s' -> wf (k_net s) -> wf (k_net s').
Proof.
  revert s. induction tr as [|[X c x] tr IH]; intros s H Hw; [by simpl in H; subst|].
  destruct H as (s1 & Hc & H). eapply IH; [done|]. by eapply wf_kstep.
Qed.

End Kernel.

(** A process that is alone names its descriptors as it pleases. *)
Abbreviation kstep refuses declines pid := (kstep_at refuses declines pid (fun fd => fd)).
Abbreviation behaves refuses declines pid := (behaves_at refuses declines pid (fun fd => fd)).

(** The devices that a call is about are [mine]. *)
Definition own (mine : bytes -> Prop) (s : kstate) {X} (c : sys X) : Prop :=
  match c with
  | GetIfFlags _ nm | SetIfFlags _ nm _ => mine (cstr nm)
  | SetIfName _ nm nm' => mine (cstr nm) /\ mine (cstr nm')
  | BrAdd _ nm | BrDel _ nm | IfNameToIndex nm => mine nm
  | BrAddIf _ br idx | BrDelIf _ br idx =>
      mine (cstr br) /\ exists n i, mine n /\ k_net s !! n = Some i /\ index i = idx
  | TunSetIff _ nm _ => forall n, meant (cstr (take (IFNAMSIZ - 1) nm)) n -> mine n
  | WaitChild child => forall dir a, k_children s !! child = Some (remove_device_command dir a) -> mine a
  | _ => True
  end.

(** ** The logic

    [mine] are the names of the devices that the process may be concerned with,
    and [stops] is what must hold where it ends. *)

Section Logic.
Variables (refuses declines : Prop) (pid : Z) (mine : bytes -> Prop) (stops : stop -> kstate -> Prop).

#[local] Abbreviation kstep := (kstep_at refuses declines pid (fun fd => fd)).
#[local] Abbreviation behaves := (behaves_at refuses declines pid (fun fd => fd)).
#[local] Abbreviation port_step := (port_step refuses).

#[local] Program Instance devices : EventSpec sys kstate := {|
  ev X c s K := own mine s c /\ (wf (k_net s) -> forall x s', kstep s c x s' -> K x s');
  halted := stops |}.
Next Obligation. naive_solver. Qed.

Definition trip {A} (s : kstate) (m : M A) (Q : A -> kstate -> Prop) : Prop :=
  forall e, wp (m e) s (fun r s' => Q r.1 s').

Lemma trip_sound {A} s (m : M A) Q e tr a e' s' :
  trip s m Q -> wf (k_net s) -> exec (m e) tr (Done (a, e')) -> behaves s tr s' -> Q a s'.
Proof.
  intros Ht. specialize (Ht e). revert Ht. generalize (m e). intros p. revert s tr.
  induction p as [r|st|X c k IH]; intros s tr Hp Hw H Hb.
  - destruct H as [-> [= <-]]. simpl in Hb. by subst.
  - by destruct H.
  - destruct H as (x & t & -> & H). destruct Hb as (s1 & Hc & Hb).
    eapply (IH x s1 t); [by apply (proj2 Hp)|by eapply wf_kstep|done..].
Qed.

Lemma trip_sound_stop {A} s (m : M A) Q e tr st s' :
  trip s m Q -> wf (k_net s) -> exec (m e) tr (Stopped st) -> behaves s tr s' -> stops st s'.
Proof.
  intros Ht. specialize (Ht e). revert Ht. generalize (m e). intros p. revert s tr.
  induction p as [r|st'|X c k IH]; intros s tr Hp Hw H Hb.
  - by destruct H.
  - destruct H as [-> [= <-]]. simpl in Hb. by subst.
  - destruct H as (x & t & -> & H). destruct Hb as (s1 & Hc & Hb).
    eapply (IH x s1 t); [by apply (proj2 Hp)|by eapply wf_kstep|done..].
Qed.

Lemma trip_mono {A} s (m : M A) (Q Q' : A -> kstate -> Prop) :
  trip s m Q -> (forall a s', Q a s' -> Q' a s') -> trip s m Q'.
Proof. intros H HQ e. eapply wp_mono; [|apply H]. intros r s'. apply HQ. Qed.

Lemma trip_bind {A C} s (m : M A) (k : A -> M C) (R : A -> kstate -> Prop) Q :
  trip s m R -> (forall a s', R a s' -> trip s' (k a) Q) -> trip s (m ≫= k) Q.
Proof. intros Hm Hk e. apply wp_bind. eapply wp_mono; [|apply Hm]. intros r s' HR. by apply Hk. Qed.

Lemma trip_ret {A} s (a : A) (Q : A -> kstate -> Prop) : Q a s -> trip s (mret a) Q.
Proof. intros H e. apply H. Qed.

Lemma trip_halt {A} s st (Q : A -> kstate -> Prop) : stops st s -> trip s (halt st) Q.
Proof. intros H e. exact H. Qed.

Lemma trip_set_errno s en (Q : unit -> kstate -> Prop) : Q tt s -> trip s (set_errno en) Q.
Proof. intros H e. apply H. Qed.

Lemma trip_sysc {X} s (c : sys X) (Q : X -> kstate -> Prop) :
  own mine s c -> (wf (k_net s) -> forall x s', kstep s c x s' -> Q x s') -> trip s (sysc c) Q.
Proof. intros Ho H e. split; [done|]. intros Hw x s' Hc. by apply H. Qed.

Lemma trip_ccall {X} s (c : sys (result X Z)) (Q : result X Z -> kstate -> Prop) :
  own mine s c -> (wf (k_net s) -> forall x s', kstep s c x s' -> Q x s') -> trip s (ccall c) Q.
Proof. intros Ho H e. split; [done|]. intros Hw x s' Hc. by apply H. Qed.

(** One call. *)
Lemma trip_call_bind {X C} s (c : sys (result X Z)) (k : result X Z -> M C) Q :
  own mine s c -> (wf (k_net s) -> forall x s', kstep s c x s' -> trip s' (k x) Q) -> trip s (ccall c ≫= k) Q.
Proof. intros Ho H. apply (trip_bind _ _ _ (fun x s' => trip s' (k x) Q)); [by apply trip_ccall|done]. Qed.

Lemma trip_sysc_bind {X C} s (c : sys X) (k : X -> M C) Q :
  own mine s c -> (wf (k_net s) -> forall x s', kstep s c x s' -> trip s' (k x) Q) -> trip s (sysc c ≫= k) Q.
Proof. intros Ho H. apply (trip_bind _ _ _ (fun x s' => trip s' (k x) Q)); [by apply trip_sysc|done]. Qed.

(** ** Descriptors *)

Lemma release_unheld (fd : Z) (n : net) : unheld fd n -> release fd n = n.
Proof.
  intros Hu. apply map_eq. intros a. unfold release. rewrite lookup_omap.
  destruct (n !! a) as [i|] eqn:Ha; simpl; [|done]. unfold release1. by rewrite (Hu a i Ha).
Qed.

Lemma unheld_update (fd : Z) (n : net) a i i' :
  unheld fd n -> n !! a = Some i -> what i' = what i -> unheld fd (<[a := i']> n).
Proof.
  intros Hu Ha Hw. apply map_Forall_insert_2; [|done].
  unfold held_by. rewrite Hw. exact (Hu a i Ha).
Qed.

Lemma unheld_bridge (fd : Z) (n : net) a idx b m :
  unheld fd n -> unheld fd (<[a := Iface idx b m Bridge]> n).
Proof. intros Hu. by apply map_Forall_insert_2. Qed.

Lemma unheld_set_free (fd : Z) (n : net) a idx : unheld fd n -> unheld fd (set_free idx <$> delete a n).
Proof.
  intros Hu b i' (i & <- & [_ Hi]%lookup_delete_Some)%lookup_fmap_Some.
  pose proof (Hu b i Hi) as H. unfold set_free. by case_decide.
Qed.

(** Closing a control socket. *)
Lemma trip_close {C} s fd (k : result unit Z -> M C) Q :
  0 <= fd -> unheld fd (k_net s) -> (forall x, trip s (k x) Q) -> trip s (ccall (Close fd) ≫= k) Q.
Proof.
  intros Hfd Hu Hk. apply trip_call_bind; [done|]. intros _ x s' Hc. simpl in Hc.
  rewrite (proj2 (Z.eqb_neq fd (-1))), release_unheld in Hc by (lia || done). subst.
  destruct s. apply Hk.
Qed.

Lemma trip_close_return s fd r (Q : Z -> kstate -> Prop) :
  0 <= fd -> unheld fd (k_net s) -> Q r s -> trip s (close_return fd r) Q.
Proof. intros. apply trip_close; [done..|]. intros _. by apply trip_ret. Qed.

(** Opening one. *)
Lemma trip_socket {C} s (k : result Z Z -> M C) Q :
  (forall fd, 0 <= fd -> unheld fd (k_net s) -> trip s (k (Ok fd)) Q) ->
  (forall en, refuses -> trip s (k (Err en)) Q) -> trip s (ccall Socket ≫= k) Q.
Proof.
  intros Hok Herr. apply trip_call_bind; [done|]. intros _ [fd|en] s' [-> H]; [|by apply Herr].
  destruct H. by apply Hok.
Qed.

(** ** The operations of [net-util.c] *)

(** Names as the kernel sees them. *)
Definition named (name n : bytes) : Prop := cstr name = n /\ valid_name n = true /\ mine n.

Lemma named_strncpy name n : named name n -> cstr (strncpy name IFNAMSIZ) = n.
Proof. intros (<- & [H _]%valid_name_length & _). apply cstr_strncpy. lia. Qed.

Lemma named_mine name n : named name n -> mine (cstr (strncpy name IFNAMSIZ)).
Proof. intros H. rewrite (named_strncpy name n H). apply H. Qed.

(** Names that consist of a prefix and a number. *)
Definition fine_prefix (prefix : bytes) : bool :=
  negb (bool_decide (prefix = [])) &&
  forallb (fun c => negb (has_byte c (NUL :: PERCENT :: B "." ++ NAME_BYTES))) prefix.

#[local] Lemma fine_prefix_spec prefix k :
  fine_prefix prefix = true ->
  prefix <> [] /\ forall c, c ∈ NUL :: PERCENT :: B "." ++ NAME_BYTES -> c ∉ prefix ++ dec k.
Proof.
  unfold fine_prefix. rewrite !andb_true_iff, negb_true_iff, bool_decide_eq_false, forallb_forall.
  intros [Hne Hall]. split; [done|]. intros c Hc [Hin|Hin]%elem_of_app.
  - apply list_elem_of_In, Hall in Hin. unfold has_byte in Hin. by rewrite bool_decide_true in Hin.
  - assert (Hf : Forall (fun c => is_digit c = false /\ c <> Byte.x2d) (NUL :: PERCENT :: B "." ++ NAME_BYTES))
      by by_eval.
    rewrite Forall_forall in Hf. destruct (Hf c Hc). revert Hin. by apply not_in_dec.
Qed.

Lemma numbered_plain prefix k : fine_prefix prefix = true -> PERCENT ∉ prefix ++ dec k.
Proof. intros [_ Hc]%(fine_prefix_spec _ k). apply Hc. by_eval. Qed.

Lemma numbered_name prefix k buf :
  fine_prefix prefix = true -> (length (prefix ++ dec k) < IFNAMSIZ)%nat -> mine (prefix ++ dec k) ->
  named (snprintf buf (prefix ++ dec k)) (prefix ++ dec k).
Proof.
  intros [Hne Hc]%(fine_prefix_spec _ k) Hl Hm. split_and!; [| |done].
  - apply snprintf_fits; [|done]. apply Hc. by_eval.
  - assert (Hdot : B "." <> prefix ++ dec k /\ B ".." <> prefix ++ dec k).
    { split; intros Heq; (apply (Hc Byte.x2e); [by_eval|]); rewrite <- Heq; by_eval. }
    unfold valid_name. rewrite !andb_true_iff, negb_true_iff, bool_decide_eq_false, Nat.ltb_lt, forallb_forall.
    split_and!; [|done|].
    + rewrite !elem_of_cons, elem_of_nil. destruct prefix; naive_solver.
    + intros c Hin%list_elem_of_In. unfold has_byte. rewrite negb_true_iff, bool_decide_eq_false.
      intros Hb. apply (Hc c); [|done]. do 2 right. apply elem_of_app. by right.
Qed.

Definition change (s : kstate) (n : bytes) (f : iface -> iface) (s' : kstate) : Prop :=
  exists i, k_net s !! n = Some i /\ s' = in_net s (<[n := f i]> (k_net s)).

(** An operation has worked, or has left everything as it was. *)
Definition works (s : kstate) (done : kstate -> Prop) (reason : Prop) (r : Z) (s' : kstate) : Prop :=
  r = 0 /\ done s' \/ r = -1 /\ s' = s /\ (refuses \/ reason).

Lemma trip_set_up s name n (f : Z -> Z) b :
  named name n -> (forall z, Z.testbit (f z) 0 = b) ->
  trip s
    (let* s := ccall Socket in
     match s with
     | Err _ => mret (-1)
     | Ok fd =>
         let ifr_name := strncpy name IFNAMSIZ in
         let* g := ccall (GetIfFlags fd ifr_name) in
         match g with
         | Err _ => close_return fd (-1)
         | Ok flags =>
             let* r := ccall (SetIfFlags fd ifr_name (f flags)) in
             close_return fd (ret_code r)
         end
     end)
    (works s (change s n (with_up b)) (k_net s !! n = None)).
Proof.
  intros Hn Hf. apply trip_socket; [intros fd Hfd Hu|intros en Hr; apply trip_ret; right; auto].
  cbv zeta. apply trip_call_bind; [by eapply named_mine|].
  intros _ [z|en] s' [-> Hz]; simpl in Hz; rewrite (named_strncpy name n) in Hz by done.
  2: { apply trip_close_return; [done..|]. right. auto. }
  apply trip_call_bind; [by eapply named_mine|].
  intros _ [u|en] s' H; simpl in H; rewrite (named_strncpy name n) in H by done.
  - destruct H as (i & Hi & ->). rewrite Hf. apply trip_close_return; [done| |].
    + simpl. by eapply unheld_update.
    + left. split; [done|]. by exists i.
  - destruct H as [-> H]. apply trip_close_return; [done..|]. right. auto.
Qed.

Lemma trip_if_up s name n :
  named name n -> trip s (if_up name) (works s (change s n (with_up true)) (k_net s !! n = None)).
Proof.
  intros Hn. apply (trip_set_up s name n (fun z => Z.lor z IFF_UP)); [done|].
  intros z. by rewrite Z.lor_spec, orb_true_r.
Qed.

Lemma trip_if_down s name n :
  named name n -> trip s (if_down name) (works s (change s n (with_up false)) (k_net s !! n = None)).
Proof.
  intros Hn. apply (trip_set_up s name n (fun z => Z.land z (Z.lnot IFF_UP))); [done|].
  intros z. by rewrite Z.land_spec, andb_false_r.
Qed.

(** The name checks let every name through that fits and is no template. *)
Lemma trip_bridge_add s name n :
  named name n -> PERCENT ∉ n ->
  trip s (bridge_add name) (works s
    (fun s' => exists idx, k_net s !! n = None /\ fresh_index idx (k_net s) /\
       s' = in_net s (<[n := Iface idx false None Bridge]> (k_net s)))
    (is_Some (k_net s !! n))).
Proof.
  intros (Hc & Hv & Hm) Hp. pose proof (valid_name_length n Hv) as [Hl _].
  unfold bridge_add, strnlen, strchr, has_byte. rewrite Hc.
  rewrite (proj2 (Nat.eqb_neq _ _)) by lia. rewrite bool_decide_false by done.
  apply trip_socket; [intros fd Hfd Hu|intros en Hr; apply trip_ret; right; auto].
  apply trip_call_bind; [done|]. intros _ [u|en] s' H; simpl in H.
  - destruct H as (idx & Hn & Hf & ->). apply trip_close_return; [done|by apply unheld_bridge|].
    left. split; [done|]. by exists idx.
  - destruct H as [-> H]. apply trip_close_return; [done..|]. right. rewrite Hv in H. naive_solver.
Qed.

Lemma trip_bridge_delete s name n :
  named name n ->
  trip s (bridge_delete name) (fun r s' =>
    r = 0 /\ (exists i, k_net s !! n = Some i /\ what i = Bridge /\
       s' = in_net s (set_free (index i) <$> delete n (k_net s))) \/
    r = -1 /\ (s' = s \/ change s n (with_up false) s') /\
      (refuses \/ forall i, k_net s !! n = Some i -> what i <> Bridge)).
Proof.
  intros Hn. pose proof Hn as (Hc & _ & Hm). unfold bridge_delete.
  eapply trip_bind; [by apply trip_if_down|]. intros d s1 Hd.
  apply (trip_bind _ _ _ (fun _ s' => s' = s1)).
  { case_match; [apply trip_sysc; [done|]; by intros _ x s' ->|by apply trip_ret]. }
  intros ? ? ->.
  assert (Hs1 : (s1 = s \/ change s n (with_up false) s1) /\
    (refuses \/ forall i, k_net s1 !! n = Some i -> up i = false)).
  { destruct Hd as [[-> Hch]|(-> & -> & Hr)].
    - split; [by right|]. right. destruct Hch as (i & _ & ->). simpl.
      intros j. rewrite lookup_insert_eq. by intros [= <-].
    - split; [by left|]. destruct Hr as [Hr|Hr]; [by left|right]. intros i. by rewrite Hr. }
  clear Hd. destruct Hs1 as [Hs1 Hdown].
  apply trip_socket; [intros fd Hfd Hu|intros en Hr; apply trip_ret; right; auto].
  rewrite Hc. apply trip_call_bind; [done|]. intros _ [u|en] s' H; simpl in H.
  - destruct H as (i & Hi & Hw & _ & ->). apply trip_close_return; [done|by apply unheld_set_free|].
    left. split; [done|]. destruct Hs1 as [->|(j & Hj & ->)]; [by exists i|].
    simpl in *. rewrite lookup_insert_eq in Hi. simplify_eq. exists j. split_and!; [done..|].
    by rewrite delete_insert_eq.
  - destruct H as [-> H]. apply trip_close_return; [done..|]. right. split_and!; [done..|].
    destruct H as [?|H]; [by left|]. destruct Hdown as [?|Hdown]; [by left|right].
    intros i Hi Hw. destruct Hs1 as [->|(j & Hj & ->)]; simpl in *.
    + specialize (H i Hi Hw). by rewrite (Hdown i Hi) in H.
    + simplify_eq. specialize (H _ (lookup_insert_eq _ _ _) Hw). done.
Qed.

(** An operation on a bridge and an interface, both given by name. *)
Definition ports (s : kstate) (br n : bytes) (ib i : iface) : Prop :=
  k_net s !! br = Some ib /\ what ib = Bridge /\ k_net s !! n = Some i.

Lemma trip_port s brname br ifname n (c : Z -> bytes -> Z -> sys (result unit Z)) can f :
  named brname br -> named ifname n -> (forall ib i, index (f ib i) = index i /\ what (f ib i) = what i) ->
  (forall fd idx x s', kstep s (c fd (strncpy brname IFNAMSIZ) idx) x s' -> port_step s br idx can f x s') ->
  (forall fd i, k_net s !! n = Some i -> own mine s (c fd (strncpy brname IFNAMSIZ) (index i))) ->
  trip s
    (let* i := ccall (IfNameToIndex (cstr ifname)) in
     match i with
     | Err _ => mret (-1)
     | Ok ifr_ifindex =>
         let* s := ccall Socket in
         match s with
         | Err _ => mret (-1)
         | Ok fd =>
             let* r := ccall (c fd (strncpy brname IFNAMSIZ) ifr_ifindex) in
             close_return fd (ret_code r)
         end
     end)
    (works s
      (fun s' => exists ib i, ports s br n ib i /\ can ib i /\ s' = in_net s (<[n := f ib i]> (k_net s)))
      (forall ib i, ports s br n ib i -> ~ can ib i)).
Proof.
  intros Hb (Hc & _ & Hm) Hf Hstep Hown. rewrite Hc.
  apply trip_call_bind; [done|]. intros Hwf [idx|en] s' [-> Hi].
  2: { apply trip_ret. right. split_and!; [done..|]. destruct Hi as [?|Hi]; [by left|right].
       intros ib i (_ & _ & H). congruence. }
  destruct Hi as (j & Hj & <-).
  apply trip_socket; [intros fd Hfd Hu|intros en Hr; apply trip_ret; right; auto].
  apply trip_call_bind; [by apply Hown|]. intros _ [u|en] s' H; apply Hstep in H.
  - destruct H as (ib & n' & i & (H1 & H2 & H3 & H4) & H5 & ->).
    assert (n' = n) as -> by (by eapply Hwf). simplify_eq.
    apply trip_close_return; [done|eapply unheld_update; [done..|apply Hf]|]. left. split; [done|]. by exists ib, j.
  - destruct H as [-> H]. apply trip_close_return; [done..|]. right. split_and!; [done..|].
    destruct H as [?|H]; [by left|right]. intros ib i (H1 & H2 & H3). simplify_eq. by eapply H.
Qed.

Lemma trip_bridge_add_if s brname br ifname n :
  named brname br -> named ifname n ->
  trip s (bridge_add_if brname ifname) (works s
    (fun s' => exists ib i, ports s br n ib i /\ can_join ib i /\
       s' = in_net s (<[n := with_master (Some (index ib)) i]> (k_net s)))
    (forall ib i, ports s br n ib i -> ~ can_join ib i)).
Proof.
  intros Hb Hn. apply (trip_port s brname br ifname n BrAddIf can_join (fun ib => with_master (Some (index ib))));
    [done..| |].
  - intros fd idx x s' H. simpl in H. by rewrite (named_strncpy brname br) in H.
  - intros fd i Hi. split; [by eapply named_mine|]. exists n, i. split_and!; [apply Hn|done..].
Qed.

Lemma trip_bridge_remove_if s brname br ifname n :
  named brname br -> named ifname n ->
  trip s (bridge_remove_if brname ifname) (works s
    (fun s' => exists ib i, ports s br n ib i /\ is_in ib i /\
       s' = in_net s (<[n := with_master None i]> (k_net s)))
    (forall ib i, ports s br n ib i -> ~ is_in ib i)).
Proof.
  intros Hb Hn. apply (trip_port s brname br ifname n BrDelIf is_in (fun _ => with_master None));
    [done..| |].
  - intros fd idx x s' H. simpl in H. by rewrite (named_strncpy brname br) in H.
  - intros fd i Hi. split; [by eapply named_mine|]. exists n, i. split_and!; [apply Hn|done..].
Qed.

Lemma trip_if_rename s name n newname n' :
  named name n -> named newname n' -> PERCENT ∉ n' ->
  trip s (if_rename name newname) (works s
    (fun s' => exists i, k_net s !! n = Some i /\ k_net s !! n' = None /\
       s' = in_net s (<[n' := i]> (delete n (k_net s))))
    (is_Some (k_net s !! n') \/ forall i, k_net s !! n = Some i -> up i = true)).
Proof.
  intros Hn Hn' Hp. pose proof Hn' as (Hc' & Hv & _). pose proof (valid_name_length n' Hv) as [Hl' _].
  unfold if_rename.
  rewrite bool_decide_true by (apply strncpy_fits; [unfold IFNAMSIZ; lia|by rewrite Hc']).
  unfold strchr, has_byte. rewrite (named_strncpy newname n') by done.
  rewrite bool_decide_false by done. cbn [negb].
  apply trip_socket; [intros fd Hfd Hu|intros en Hr; apply trip_ret; right; auto].
  apply trip_call_bind; [split; by eapply named_mine|]. intros _ [u|en] s' H; simpl in H;
    rewrite (named_strncpy name n), (named_strncpy newname n') in H by done.
  - destruct H as (i & Hi & Hi' & ->). apply trip_close_return; [done| |].
    + simpl. apply map_Forall_insert_2; [exact (Hu n i Hi)|]. by apply map_Forall_delete.
    + left. split; [done|]. by exists i.
  - destruct H as [-> H]. apply trip_close_return; [done..|]. right. rewrite Hv in H. naive_solver.
Qed.

Lemma trip_tap_open_template s ifr15 name n flags :
  cstr name = n -> (length n < IFNAMSIZ)%nat -> (forall n', meant n n' -> mine n') ->
  trip s (tap_open ifr15 name flags) (fun '(fd, name') s' =>
    0 <= fd /\ (exists n' idx, named name' n' /\ meant n n' /\ k_net s !! n' = None /\
      fresh_index idx (k_net s) /\ unheld fd (k_net s) /\
      s' = in_net s (<[n' := Iface idx false None (Tap (Some fd) false)]> (k_net s))) \/
    fd = -1 /\ s' = s /\ (refuses \/
      forall n', n = n' /\ PERCENT ∉ n' \/ zeroth n n' -> valid_name n' = true -> is_Some (k_net s !! n'))).
Proof.
  intros Hc Hl Hm. unfold tap_open, strnlen. rewrite Hc.
  rewrite (proj2 (Nat.eqb_neq _ _)) by lia.
  assert (Hw : cstr (take (IFNAMSIZ - 1) (strncpy name (IFNAMSIZ - 1) ++ [ifr15])) = n).
  { rewrite take_app_length' by (by rewrite strncpy_length).
    rewrite cstr_strncpy; [done|]. rewrite Hc. unfold IFNAMSIZ in *. lia. }
  apply trip_call_bind; [done|]. intros _ [fd|en] s' [-> Hfd]; [|apply trip_ret; right; auto].
  destruct Hfd as [Hfd Hu].
  apply trip_call_bind; [by intros n'; rewrite Hw; apply Hm|].
  intros _ [ifr|en] s' H; cbn [kstep_at] in H; rewrite Hw in H.
  - destruct H as (idx & Hv & Hname & Hfree & Hf & Hu' & ->).
    apply trip_ret. left. split; [done|]. exists (cstr ifr), idx. split_and!; try done.
    split_and!; [|done|by apply Hm]. apply cstr_strncpy. apply valid_name_length in Hv as [Hv _]. lia.
  - destruct H as [-> H]. apply trip_close; [done..|]. intros _. apply trip_ret. right.
    split_and!; [done..|]. destruct H as [?|H]; [by left|right]. auto.
Qed.

Lemma trip_tap_open s ifr15 name n flags :
  named name n -> PERCENT ∉ n ->
  trip s (tap_open ifr15 name flags) (fun '(fd, name') s' =>
    0 <= fd /\ named name' n /\ (exists idx, k_net s !! n = None /\ fresh_index idx (k_net s) /\
      unheld fd (k_net s) /\
      s' = in_net s (<[n := Iface idx false None (Tap (Some fd) false)]> (k_net s))) \/
    fd = -1 /\ s' = s /\ (refuses \/ is_Some (k_net s !! n))).
Proof.
  intros (Hc & Hv & Hm) Hp. pose proof (valid_name_length n Hv) as [Hl Hne].
  eapply trip_mono; [apply (trip_tap_open_template s ifr15 name n flags); [done..|]|].
  { intros n' (_ & Hsame & _). by rewrite Hsame. }
  intros [fd name'] s' [(Hfd & n' & idx & Hn' & (_ & Hsame & _) & H)|(-> & -> & H)].
  - rewrite (Hsame Hne Hp) in *. left. split_and!; [done..|]. by exists idx.
  - right. split_and!; [done..|]. destruct H as [?|H]; [by left|right]. apply H; [by left|done].
Qed.

End Logic.
End NetKernel.
