(* ===== verification/NetSim.v ===== *)
(** * NetSim: a kernel that carries out whatever it can

    An executable kernel for the devices of [NetKernel], and the proof that it
    behaves as [NetKernel] says, in every state and for every call.  What is
    proved of all such kernels is run on this one. *)

From S2P Require Import Prelude Effects Wp RustStd Sys Scenario Mac Ch NetUtil FdLogic NetSetup NetKernel.

Module NetSim.
Import Mac Ch NetUtil NetSetup NetKernel.

(** The command names its descriptor. *)
Lemma add_net_command_dec dir dir' n n' :
  add_net_command dir n = add_net_command dir' n' -> dec (net_fd n) = dec (net_fd n').
Proof.
  intros H. apply (f_equal (fun c => last (cmd_args c))) in H.
  change (Some (net_arg n) = Some (net_arg n')) in H. apply (inj Some) in H as Ha.
  unfold net_arg in Ha. apply app_inv_head in Ha. apply (f_equal (split_on COMMA)) in Ha.
  change (B ",id=" ++ ?r) with (COMMA :: B "id=" ++ r) in Ha.
  rewrite !split_on_app_sep, !(split_on_none COMMA (dec _)) in Ha by by apply not_in_dec.
  by apply (f_equal head), (inj Some) in Ha.
Qed.

Lemma add_net_command_fd dir dir' n n' :
  add_net_command dir n = add_net_command dir' n' -> 0 <= net_fd n -> 0 <= net_fd n' ->
  net_fd n = net_fd n'.
Proof. intros H%add_net_command_dec Hn Hn'. by apply dec_inj. Qed.

Lemma hand_none P (n : net) : (forall fd, P fd = false) -> hand1 P <$> n = n.
Proof.
  intros HP. rewrite <- (map_fmap_id n) at 2. apply map_fmap_ext. intros a [idx u m [|[fd|] w]] _; [done| |done].
  unfold hand1. simpl. by rewrite HP, orb_false_r.
Qed.

(** ** Numbers that are free *)

Definition largest (f : iface -> Z) (n : net) : Z :=
  foldr (fun p m => Z.max (f p.2) m) 0 (map_to_list n).

Lemma largest_spec f (n : net) a i : n !! a = Some i -> f i <= largest f n.
Proof.
  intros Ha%elem_of_map_to_list. unfold largest.
  revert Ha. generalize (map_to_list n). intros l. induction l as [|p l IH]; simpl.
  - by intros ?%not_elem_of_nil.
  - intros [<-|H%IH]%elem_of_cons; simpl; lia.
Qed.

Lemma largest_nonneg f (n : net) : 0 <= largest f n.
Proof. unfold largest. induction (map_to_list n); simpl; lia. Qed.

Definition held (i : iface) : Z := match what i with Tap (Some fd) _ => fd | _ => 0 end.
Definition next_fd (n : net) : Z := 3 + largest held n.
Definition next_index (n : net) : Z :=
  1 + Z.max (largest index n) (largest (fun i => default 0 (master i)) n).

Lemma next_fd_unheld (n : net) fd : next_fd n <= fd -> 0 <= fd /\ unheld fd n.
Proof.
  intros Hfd. unfold next_fd in Hfd. pose proof (largest_nonneg held n). split; [lia|].
  intros a i Ha. pose proof (largest_spec held n a i Ha) as Hl. revert Hl. unfold held at 1, held_by.
  destruct (what i) as [|[fd'|] w]; [done| |done]. lia.
Qed.

Lemma next_index_fresh (n : net) : fresh_index (next_index n) n.
Proof.
  intros a i Ha. unfold next_index. pose proof (largest_spec index n a i Ha).
  pose proof (largest_spec (fun i => default 0 (master i)) n a i Ha) as Hm.
  split; [lia|]. intros He. cbv beta in Hm. rewrite He in Hm. simpl in Hm. lia.
Qed.

(** The device with an index. *)
Definition find_index (n : net) (idx : Z) : option (bytes * iface) :=
  head (filter (fun p => index p.2 = idx) (map_to_list n)).

Lemma find_index_Some (n : net) idx a i : find_index n idx = Some (a, i) -> n !! a = Some i /\ index i = idx.
Proof.
  intros H%head_Some_elem_of. apply list_elem_of_filter in H as [H1 H2%elem_of_map_to_list]. done.
Qed.

Lemma find_index_unique (n : net) a i : wf n -> n !! a = Some i -> find_index n (index i) = Some (a, i).
Proof.
  intros Hw Ha. destruct (find_index n (index i)) as [[b j]|] eqn:H.
  - apply find_index_Some in H as [Hb Hj]. assert (b = a) as -> by (by eapply Hw). congruence.
  - unfold find_index in H. apply head_None in H.
    assert (Hin : (a, i) ∈ filter (fun p => index p.2 = index i) (map_to_list n)).
    { apply list_elem_of_filter. split; [done|]. by apply elem_of_map_to_list. }
    rewrite H in Hin. by apply not_elem_of_nil in Hin.
Qed.

(** The name that [TUNSETIFF] gives to a tap. *)
Definition first_name (wanted : bytes) : option bytes :=
  if has_byte PERCENT wanted then
    let prefix := take (length wanted - 2) wanted in
    if bool_decide (wanted = prefix ++ B "%d" /\ PERCENT ∉ prefix) then Some (prefix ++ B "0") else None
  else Some wanted.

Lemma first_name_spec wanted n :
  wanted = n /\ PERCENT ∉ n \/ zeroth wanted n -> first_name wanted = Some n.
Proof.
  unfold first_name, has_byte. intros [[-> Hn]|(prefix & Hp & -> & ->)].
  - by rewrite bool_decide_false.
  - rewrite bool_decide_true by (apply elem_of_app; right; by_eval).
    assert (take (length (prefix ++ B "%d") - 2) (prefix ++ B "%d") = prefix) as ->.
    { apply take_app_length'. rewrite length_app. change (length (B "%d")) with 2%nat. lia. }
    by rewrite bool_decide_true.
Qed.

Lemma first_name_sound wanted n :
  first_name wanted = Some n -> NUL ∉ wanted ->
  NUL ∉ n /\ meant wanted n.
Proof.
  unfold first_name, has_byte. case_bool_decide as Hp.
  - case_bool_decide as Hd; [|done]. destruct Hd as [Hd Hper]. intros [= <-] Hn.
    rewrite Hd, !not_elem_of_app in Hn. destruct Hn as [Hn _]. unfold meant.
    rewrite !not_elem_of_app. split_and!; [done|by_eval|done|by_eval|done|].
    intros prefix _ Hw. exists 0. split; [done|]. rewrite Hd in Hw. by apply app_inv_tail in Hw as ->.
  - intros [= ->] Hn. unfold meant. split_and!; [done..|]. intros prefix _ ->. destruct Hp.
    apply elem_of_app. right. by_eval.
Qed.

(** ** The kernel *)

Section Sim.
Variables (pid : Z) (hold : Z -> Z).
(** The router accepts this interface. *)
Variables (dir0 : bytes) (net0 : NetConfig).

Definition EEXIST : Z := 17.
Definition EBUSY : Z := 16.
Definition ENODEV : Z := 19.

Definition done_if {X} (b : bool) (x : X) (s' s : kstate) (en : Z) : result X Z * kstate :=
  if b then (Ok x, s') else (Err en, s).

Definition is_bridge (i : iface) : bool := match what i with Bridge => true | Tap _ _ => false end.

Definition sim_port (s : kstate) (br : bytes) (idx : Z) (can : iface -> iface -> bool)
    (f : iface -> iface -> iface) : result unit Z * kstate :=
  match k_net s !! br, find_index (k_net s) idx with
  | Some ib, Some (a, i) =>
      done_if (is_bridge ib && can ib i) tt (in_net s (<[a := f ib i]> (k_net s))) s EBUSY
  | _, _ => (Err ENODEV, s)
  end.

Definition sim_at (X : Type) (c : sys X) (s : kstate) : X * kstate :=
  let n := k_net s in
  match c in sys X return X * kstate -> X * kstate with
  | GetPid => fun _ => (pid, s)
  | Socket | OpenTun => fun _ => (Ok (next_fd n), s)
  | Pipe => fun _ => (Ok (next_fd n, next_fd n + 1), s)
  | Fork => fun _ => (Ok (pid + 1), s)
  | Close fd => fun _ => if fd =? -1 then (Err EBADF, s) else (Ok tt, in_net s (release (hold fd) n))
  | GetIfFlags _ nm => fun _ =>
      match n !! cstr nm with
      | Some i => (Ok (if up i then 1 else 0), s)
      | None => (Err ENODEV, s)
      end
  | SetIfFlags _ nm z => fun _ =>
      match n !! cstr nm with
      | Some i => (Ok tt, in_net s (<[cstr nm := with_up (Z.testbit z 0) i]> n))
      | None => (Err ENODEV, s)
      end
  | SetIfName _ nm nm' => fun _ =>
      match n !! cstr nm, n !! cstr nm' with
      | Some i, None =>
          done_if (valid_name (cstr nm') && negb (up i)) tt
            (in_net s (<[cstr nm' := i]> (delete (cstr nm) n))) s EBUSY
      | None, _ => (Err ENODEV, s)
      | _, Some _ => (Err EEXIST, s)
      end
  | BrAdd _ nm => fun _ =>
      match n !! nm with
      | None => done_if (valid_name nm) tt (in_net s (<[nm := Iface (next_index n) false None Bridge]> n)) s EINVAL
      | Some _ => (Err EEXIST, s)
      end
  | BrDel _ nm => fun _ =>
      match n !! nm with
      | Some i => done_if (is_bridge i && negb (up i)) tt (in_net s (set_free (index i) <$> delete nm n)) s EBUSY
      | None => (Err ENODEV, s)
      end
  | BrAddIf _ br idx => fun _ => sim_port s (cstr br) idx
      (fun _ i => negb (is_bridge i) && bool_decide (master i = None)) (fun ib => with_master (Some (index ib)))
  | BrDelIf _ br idx => fun _ => sim_port s (cstr br) idx
      (fun ib i => bool_decide (master i = Some (index ib))) (fun _ => with_master None)
  | TunSetIff fd nm _ => fun _ =>
      match first_name (cstr (take (IFNAMSIZ - 1) nm)) with
      | Some a =>
          done_if (valid_name a && bool_decide (n !! a = None) && bool_decide (unheld (hold fd) n)) a
            (in_net s (<[a := Iface (next_index n) false None (Tap (Some (hold fd)) false)]> n)) s EBUSY
      | None => (Err EINVAL, s)
      end
  | IfNameToIndex nm => fun _ =>
      match n !! nm with Some i => (Ok (index i), s) | None => (Err ENODEV, s) end
  | Spawn c => fun _ =>
      let child := pid + 2 + Z.of_nat (size (k_children s)) in
      (Ok child, KState n (<[hold child := c]> (k_children s)))
  | WaitChild child => fun _ =>
      if decide (k_children s !! hold child = Some (add_net_command dir0 net0)) then
        (Ok (Exited 0), in_net s (hand1 (Z.eqb (hold (net_fd net0))) <$> n))
      else (Ok (Exited (if decide (k_children s !! hold child = Some (remove_device_command dir0 (net_id net0)))
                        then 0 else 1)), s)
  | _ => fun other => other
  end ((kernel all_well X c 3).1, s).

(** A command that the router accepts names no other descriptor. *)
Lemma accepted_fd dir n : 0 <= net_fd net0 ->
  add_net_command dir n = add_net_command dir0 net0 -> net_fd n = net_fd net0.
Proof.
  intros H0 H. destruct (Z_lt_le_dec (net_fd n) 0) as [Hneg|Hpos]; [|by eapply add_net_command_fd].
  apply add_net_command_dec in H. assert (Hm : Byte.x2d ∈ dec (net_fd n)).
  { unfold dec. destruct (Z.ltb_spec (net_fd n) 0); [left|lia]. }
  rewrite H, dec_nonneg in Hm by done. pose proof (dec_digits_all (S (Z.to_nat (Z.log2 (net_fd net0)))) _ H0) as Hd.
  rewrite Forall_forall in Hd. by apply Hd in Hm.
Qed.

Definition obeys (s : kstate) {X} (c : sys X) : Prop :=
  kstep_at False True pid hold s c (sim_at X c s).1 (sim_at X c s).2.

Lemma is_bridge_spec i : is_bridge i = true <-> what i = Bridge.
Proof. unfold is_bridge. by destruct (what i). Qed.

Lemma obeys_wait s child : 0 <= net_fd net0 -> obeys s (WaitChild child).
Proof.
  intros H0. unfold obeys. simpl. case_decide as Hc.
  - exists (Z.eqb (hold (net_fd net0))), (fun _ => false). rewrite drop_named_none by done. split_and!; try done.
    + by left.
    + intros h <-%Z.eqb_eq. by exists dir0, net0.
    + intros st dir n _ _ Hd. rewrite Hc in Hd. apply (inj Some) in Hd.
      rewrite (accepted_fd dir n) by done. apply Z.eqb_refl.
  - exists (fun _ => false), (fun _ => false). rewrite drop_named_none, hand_none by done.
    split_and!; try done; [by destruct s|by right|]. intros st dir n [= <-] Hst Hd. exfalso.
    case_decide as Hr; [|done]. rewrite Hr in Hd. done.
Qed.

Lemma obeys_tun s fd name flags : obeys s (TunSetIff fd name flags).
Proof.
  unfold obeys. cbn [sim_at kstep_at]. set (wanted := cstr _).
  destruct (first_name wanted) as [a|] eqn:Hf; simpl.
  2: { split; [done|]. right. intros n Hn%first_name_spec. congruence. }
  unfold done_if. destruct (valid_name a) eqn:Hv; simpl.
  2: { split; [done|]. right. intros n Hn%first_name_spec. congruence. }
  case_bool_decide as Hn; simpl.
  2: { split; [done|]. right. intros n Ha%first_name_spec _ _. simplify_eq.
       by apply not_eq_None_Some. }
  case_bool_decide as Hu; simpl.
  2: { split; [done|]. right. by intros n _ _ ?. }
  apply first_name_sound in Hf as [Hnul Hm]; [|apply cstr_no_nul].
  rewrite (cstr_id a Hnul). exists (next_index (k_net s)).
  split_and!; auto using next_index_fresh.
Qed.

Lemma sim_port_step s br idx can (canb : iface -> iface -> bool) f :
  wf (k_net s) -> (forall ib i, canb ib i = true <-> can ib i) ->
  port_step False s br idx can f (sim_port s br idx canb f).1 (sim_port s br idx canb f).2.
Proof.
  intros Hw Hcan. unfold sim_port. destruct (k_net s !! br) as [ib|] eqn:Hb; simpl.
  2: { split; [done|]. right. intros ib n i (? & _). congruence. }
  destruct (find_index (k_net s) idx) as [[a i]|] eqn:Hf; simpl.
  2: { split; [done|]. right. intros ib' n i (_ & _ & Hn & <-).
       pose proof (find_index_unique _ n i Hw Hn). congruence. }
  apply find_index_Some in Hf as [Ha Hi]. unfold done_if. destruct (_ && _) eqn:Hc; simpl.
  - apply andb_true_iff in Hc as [Hc1%is_bridge_spec Hc2%Hcan]. by exists ib, a, i.
  - split; [done|]. right. intros ib' n j (H1 & H2 & H3 & H4) Hj%Hcan. simplify_eq.
    assert (n = a) as -> by (by eapply Hw). simplify_eq.
    by rewrite (proj2 (is_bridge_spec _) H2), Hj in Hc.
Qed.

Lemma obeys_add_if s fd br idx : wf (k_net s) -> obeys s (BrAddIf fd br idx).
Proof.
  intros Hw. apply sim_port_step; [done|]. intros ib i. unfold can_join.
  rewrite andb_true_iff, negb_true_iff, bool_decide_eq_true, <- is_bridge_spec.
  destruct (is_bridge i); naive_solver.
Qed.

Lemma obeys_remove_if s fd br idx : wf (k_net s) -> obeys s (BrDelIf fd br idx).
Proof. intros Hw. apply sim_port_step; [done|]. intros ib i. apply bool_decide_eq_true. Qed.

(** No number grows smaller by being told apart. *)
Hypothesis hold_up : forall fd, 0 <= fd -> fd <= hold fd.

Lemma next_hold (n : net) fd : next_fd n <= fd -> 0 <= fd /\ unheld (hold fd) n.
Proof using hold_up.
  intros Hfd. destruct (next_fd_unheld n fd Hfd) as [H _]. split; [done|].
  apply next_fd_unheld. specialize (hold_up fd H). lia.
Qed.

(** The kernel does what [NetKernel] says, and refuses nothing. *)
Lemma sim_obeys X (c : sys X) s : 0 <= pid -> 0 <= net_fd net0 -> wf (k_net s) -> obeys s c.
Proof using hold_up.
  intros Hp H0 Hw. pose proof (next_hold (k_net s)) as Hfd. pose proof (next_index_fresh (k_net s)) as Hidx.
  destruct c; try done;
    first [by apply obeys_wait|by apply obeys_tun|by apply obeys_add_if|by apply obeys_remove_if|idtac];
    unfold obeys; simpl; unfold done_if; try (repeat case_match; simpl; naive_solver (done || lia)).
  - destruct (k_net s !! cstr ifr_name) as [i|]; [|naive_solver].
    destruct (k_net s !! cstr ifr_newname); [naive_solver|].
    destruct (valid_name (cstr ifr_newname)); [|naive_solver]. destruct (up i) eqn:Hu; naive_solver.
  - destruct (k_net s !! name) as [i|]; [|naive_solver]. destruct (is_bridge i) eqn:Hb; simpl.
    + apply is_bridge_spec in Hb. destruct (up i) eqn:Hu; naive_solver.
    + split; [done|]. right. intros j [= <-] Hj%is_bridge_spec. congruence.
Qed.

(** Its runs are runs of such a kernel. *)
Lemma sim_behaves {A} (p : prog sys A) s :
  0 <= pid -> 0 <= net_fd net0 -> wf (k_net s) ->
  behaves_at False True pid hold s (run sim_at p s).1.2 (run sim_at p s).2.
Proof using hold_up.
  intros Hp H0. revert s. induction p as [a|st|X c k IH]; intros s Hw; simpl; [done..|].
  pose proof (sim_obeys X c s Hp H0 Hw) as Hc. unfold obeys in Hc.
  destruct (sim_at X c s) as [x s1]. simpl in Hc. specialize (IH x s1 (wf_kstep _ _ _ _ _ _ _ _ _ Hw Hc)).
  destruct (run sim_at (k x) s1) as [[o tr] s2]. simpl in *. by exists s1.
Qed.

End Sim.

(** For a process that is alone. *)
Abbreviation sim pid := (sim_at pid (fun fd => fd)).

End NetSim.
