(* ===== verification/NetTests.v ===== *)
(** * NetTests: the repository's tests of [net-util.c]

    The thirteen C programs of [host/start-vmm/tests], with the assertions they
    make about the kernel's devices, and the proof that each of them passes on
    every kernel that behaves as [NetKernel] says and refuses nothing. *)

From S2P Require Import Prelude Effects Wp RustStd Sys Scenario Mac Ch NetUtil FdLogic NetSetup NetKernel NetSim.

Module NetTests.
Import Mac Ch NetUtil NetSetup NetKernel NetSim.

(** ** The programs *)

(** What the tests call besides the code under test. *)
Inductive ctest : Type -> Type :=
| Unshare (mounts : bool) : ctest (result unit Z)
| MountSysfs : ctest (result unit Z)
| Rand : ctest Z
| TunGetIff (fd : Z) : ctest (result bytes Z)
| Lstat (path : bytes) : ctest (result unit Z)
| Code {X} (c : sys X) : ctest X.

Definition T (A : Type) : Type := Z -> prog ctest (A * Z).

Global Instance T_ret : MRet T := fun A a e => Ret (a, e).
Global Instance T_bind : MBind T := fun A C k m e => m e ≫= fun r => k r.1 r.2.

Fixpoint under {A} (p : prog sys A) : prog ctest A :=
  match p with
  | Ret a => Ret a
  | Halt st => Halt st
  | Vis c k => Vis (Code c) (fun x => under (k x))
  end.

Definition code {A} (m : M A) : T A := fun e => under (m e).

Definition tcall {X} (c : ctest (result X Z)) : T (result X Z) :=
  fun e => call c ≫= fun r => Ret (r, match r with Ok _ => e | Err e' => e' end).
Definition rand : T Z := fun e => call Rand ≫= fun x => Ret (x, e).
Definition errno : T Z := fun e => Ret (e, e).
Definition abort {A} : T A := fun _ => Halt Panic.
Definition assert (b : bool) : T unit := if b then mret tt else abort.

(** [return errno == EPERM || errno == ENOENT ? 77 : 1]. *)
Definition skip_if (ens : list Z) : T Z :=
  let* en := errno in mret (if bool_decide (en ∈ ens) then 77 else 1).

Section Tests.
(** What the locals hold before they are written. *)
Variables (buf : bytes) (ifr15 : byte).

(** [snprintf(name, sizeof name, "PREFIX%d", rand())], and the check that it fits. *)
Definition random_name (prefix : bytes) : T bytes :=
  let* r := rand in
  let text := prefix ++ dec r in
  let* _ := assert ((0 <? length text)%nat && (length text <? IFNAMSIZ)%nat) in
  mret (snprintf buf text).

Definition TAP : bytes := B "tap%d" ++ replicate 11 NUL.
Definition TOO_LONG : bytes := replicate 16 Byte.x61.

(** A call that must fail, with its [errno]. *)
Definition assert_fails (m : M Z) (en : Z) : T unit :=
  let* r := code m in
  let* _ := assert (r =? -1) in
  let* e := errno in
  assert (e =? en).

Definition bridge_add_percent : T Z :=
  let* _ := assert_fails (bridge_add (B "br%d" ++ [NUL])) EINVAL in mret 0.

Definition bridge_add_name_too_long : T Z :=
  let* _ := assert_fails (bridge_add TOO_LONG) ENAMETOOLONG in mret 0.

Definition bridge_add_test : T Z :=
  let* _ := tcall (Unshare false) in
  let* name := random_name (B "br") in
  let* r := code (bridge_add name) in
  if r =? -1 then skip_if [EPERM]
  else
    let* i := tcall (Code (IfNameToIndex (cstr name))) in
    let* _ := assert (is_ok i) in
    mret 0.

Definition bridge_remove : T Z :=
  let* _ := tcall (Unshare false) in
  let* name := random_name (B "br") in
  let* r := code (bridge_add name) in
  if r =? -1 then skip_if [EPERM]
  else
    let* d := code (bridge_delete name) in
    let* _ := assert (d =? 0) in
    let* i := tcall (Code (IfNameToIndex (cstr name))) in
    let* _ := assert (negb (is_ok i)) in
    mret 0.

(** [/sys/devices/virtual/net/BRIDGE/brif/TAP]. *)
Definition brif_path (br n : bytes) : bytes :=
  B "/sys/devices/virtual/net/" ++ br ++ B "/brif/" ++ n.

(** The beginning of the two tests of a bridge with a tap; [k] gets the names. *)
Definition with_port (k : bytes -> bytes -> T Z) : T Z :=
  let* u := tcall (Unshare true) in
  let* m := (if is_ok u then tcall MountSysfs else mret (Ok tt)) in
  match m with
  | Err en => mret (if en =? ENOENT then 77 else 1)
  | Ok _ =>
      let* t := code (tap_open ifr15 TAP 0) in
      let '(tap, tap_name) := t in
      if tap =? -1 then skip_if [EPERM; ENOENT]
      else
        let* bridge_name := random_name (B "br") in
        let* a := code (bridge_add bridge_name) in
        let* _ := assert (negb (a =? -1)) in
        let* b := code (bridge_add_if bridge_name tap_name) in
        let* _ := assert (negb (b =? -1)) in
        k bridge_name tap_name
  end.

(** The path fits: [32 + 2 * IFNAMSIZ] bytes are enough. *)
Definition assert_path (br n : bytes) : T bytes :=
  let path := brif_path (cstr br) (cstr n) in
  let* _ := assert ((0 <? length path)%nat && (length path <? 32 + IFNAMSIZ * 2)%nat) in
  mret path.

Definition bridge_add_if_test : T Z :=
  with_port (fun bridge_name tap_name =>
    let* path := assert_path bridge_name tap_name in
    let* l := tcall (Lstat path) in
    let* _ := assert (is_ok l) in
    mret 0).

Definition bridge_remove_if_test : T Z :=
  with_port (fun bridge_name tap_name =>
    let* r := code (bridge_remove_if bridge_name tap_name) in
    let* _ := assert (negb (r =? -1)) in
    let* path := assert_path bridge_name tap_name in
    let* l := tcall (Lstat path) in
    let* _ := assert (negb (is_ok l)) in
    let* en := errno in
    let* _ := assert (en =? ENOENT) in
    mret 0).

(** [if (tap_open(name, 0) == -1 && (errno == EPERM || errno == ENOENT)) return 77;] *)
Definition with_tap (k : Z -> bytes -> T Z) : T Z :=
  let* _ := tcall (Unshare false) in
  let* t := code (tap_open ifr15 TAP 0) in
  let '(fd, name) := t in
  let* en := errno in
  if (fd =? -1) && bool_decide (en ∈ [EPERM; ENOENT]) then mret 77 else k fd name.

(** [tap_open] that must succeed, and otherwise ends the test. *)
Definition with_tap_or_fail (k : Z -> bytes -> T Z) : T Z :=
  let* t := code (tap_open ifr15 TAP 0) in
  let '(fd, name) := t in
  if fd =? -1 then skip_if [EPERM; ENOENT] else k fd name.

(** The flags of an interface, as the tests read them. *)
Definition read_flags (name : bytes) : T Z :=
  let* fd := tcall (Code Socket) in
  match fd with
  | Err _ => abort
  | Ok fd =>
      let* g := tcall (Code (GetIfFlags fd (strncpy name IFNAMSIZ))) in
      match g with Ok z => mret z | Err _ => abort end
  end.

Definition if_up_test : T Z :=
  with_tap (fun _ name =>
    let* r := code (if_up name) in
    let* _ := assert (r =? 0) in
    let* z := read_flags name in
    let* _ := assert (negb (Z.land z IFF_UP =? 0)) in
    mret 0).

Definition if_down_test : T Z :=
  with_tap (fun _ name =>
    let* r := code (if_up name) in
    let* _ := assert (r =? 0) in
    let* r := code (if_down name) in
    let* _ := assert (r =? 0) in
    let* z := read_flags name in
    let* _ := assert (Z.land z IFF_UP =? 0) in
    mret 0).

(** [TUNGETIFF] gives the tap this name. *)
Definition assert_tap_name (fd : Z) (name : bytes) : T unit :=
  let* ifr := tcall (TunGetIff fd) in
  match ifr with
  | Err _ => assert false
  | Ok ifr_name => assert (bool_decide (cstr ifr_name = cstr name))
  end.

Definition if_rename_test : T Z :=
  let* _ := tcall (Unshare false) in
  let* newname := random_name (B "_tap") in
  with_tap_or_fail (fun fd name =>
    let* r := code (if_rename name newname) in
    let* _ := assert (r =? 0) in
    let* _ := assert_tap_name fd newname in
    mret 0).

Definition if_rename_percent : T Z :=
  let* _ := tcall (Unshare false) in
  with_tap_or_fail (fun _ name =>
    let* _ := assert_fails (if_rename name (B "tap%d" ++ [NUL])) EINVAL in mret 0).

Definition if_rename_name_too_long : T Z :=
  let* _ := tcall (Unshare false) in
  with_tap_or_fail (fun _ name =>
    let* _ := assert_fails (if_rename name TOO_LONG) ENAMETOOLONG in mret 0).

Definition tap_open_test : T Z :=
  with_tap (fun fd name => let* _ := assert_tap_name fd name in mret 0).

Definition tap_open_name_too_long : T Z :=
  let* _ := assert_fails (let* t := tap_open ifr15 TOO_LONG 0 in mret t.1) ENAMETOOLONG in mret 0.

Definition c_tests : list (T Z) :=
  [if_up_test; if_rename_test; if_rename_percent; if_rename_name_too_long; if_down_test;
   bridge_add_test; bridge_add_percent; bridge_add_name_too_long; bridge_add_if_test;
   bridge_remove_if_test; bridge_remove; tap_open_test; tap_open_name_too_long].

End Tests.

(** ** The kernel, as the tests see it *)

Section Logic.
Variables (declines : Prop) (pid : Z).

(** A new network namespace has no devices; its loopback interface is left out. *)
Definition tstep (s : kstate) {X} (c : ctest X) : X -> kstate -> Prop :=
  match c in ctest X return X -> kstate -> Prop with
  | Unshare _ => fun x s' => x = Ok tt /\ s' = in_net s ∅
  | MountSysfs => fun x s' => x = Ok tt /\ s' = s
  | Rand => fun x s' => s' = s /\ 0 <= x < 2 ^ 31
  | TunGetIff fd => fun x s' => s' = s /\
      match x with
      | Ok ifr => exists n i, k_net s !! n = Some i /\ held_by fd i = true /\ cstr ifr = cstr n
      | Err _ => unheld fd (k_net s)
      end
  | Lstat path => fun x s' => s' = s /\ forall br n,
      valid_name br = true -> valid_name n = true -> path = brif_path br n ->
      let member := exists ib i, k_net s !! br = Some ib /\ what ib = Bridge /\
                      k_net s !! n = Some i /\ master i = Some (index ib) in
      match x with Ok _ => member | Err en => en = ENOENT /\ ~ member end
  | Code c => kstep False declines pid s c
  end.

Fixpoint tbehaves (s : kstate) (tr : list (event ctest)) (s' : kstate) : Prop :=
  match tr with
  | [] => s' = s
  | Event c x :: tr' => exists s1, tstep s c x s1 /\ tbehaves s1 tr' s'
  end.

#[local] Program Instance tested : EventSpec ctest kstate := {|
  ev X c s K := wf (k_net s) -> forall x s', tstep s c x s' -> K x s';
  halted _ _ := False |}.
Next Obligation. naive_solver. Qed.

(** [test s t Q]: started with the devices [s], [t] makes no assertion that
    fails, and ends with a result and devices that satisfy [Q]. *)
Definition test {A} (s : kstate) (t : T A) (Q : A -> kstate -> Prop) : Prop :=
  forall e, wp (t e) s (fun r s' => Q r.1 s').

Definition passes (s : kstate) (t : T Z) : Prop := test s t (fun r _ => r = 0).

Lemma wf_tstep s X (c : ctest X) x s' : wf (k_net s) -> tstep s c x s' -> wf (k_net s').
Proof.
  intros Hw H. destruct c; simpl in H; try (destruct H as [_ ->]; done || by intros a b i j ?);
    try (by destruct H as [-> _]). by eapply wf_kstep.
Qed.

Lemma passes_sound s t e tr o s' :
  passes s t -> wf (k_net s) -> exec (t e) tr o -> tbehaves s tr s' -> exists e', o = Done (0, e').
Proof.
  intros Ht. specialize (Ht e). revert Ht. generalize (t e). intros p. revert s tr.
  induction p as [r|st|X c k IH]; intros s tr Hp Hw H Hb.
  - destruct H as [-> ->]. destruct r as [r e']. simpl in Hp. subst. by exists e'.
  - destruct Hp.
  - destruct H as (x & t' & -> & H). destruct Hb as (s1 & Hc & Hb).
    eapply (IH x s1 t'); [by apply Hp|by eapply wf_tstep|done..].
Qed.

(** The tests may name any device. *)
Definition any_name (_ : bytes) : Prop := True.
#[local] Abbreviation trip := (NetKernel.trip False declines pid any_name (fun _ _ => False)).
#[local] Abbreviation named := (NetKernel.named any_name).

Lemma test_mono {A} s (t : T A) (Q Q' : A -> kstate -> Prop) :
  test s t Q -> (forall a s', Q a s' -> Q' a s') -> test s t Q'.
Proof. intros H HQ e. eapply wp_mono; [|apply H]. intros r s'. apply HQ. Qed.

Lemma test_bind {A C} s (t : T A) (k : A -> T C) (R : A -> kstate -> Prop) Q :
  test s t R -> (forall a s', R a s' -> test s' (k a) Q) -> test s (t ≫= k) Q.
Proof. intros Ht Hk e. apply wp_bind. eapply wp_mono; [|apply Ht]. intros r s' HR. by apply Hk. Qed.

Lemma test_ret {A} s (a : A) (Q : A -> kstate -> Prop) : Q a s -> test s (mret a) Q.
Proof. intros H e. apply H. Qed.

(** The code under test. *)
Lemma test_code {A} s (m : M A) (Q : A -> kstate -> Prop) : trip s m Q -> test s (code m) Q.
Proof.
  intros Hm e. specialize (Hm e). revert Hm. unfold code. generalize (m e). intros p. revert s.
  induction p as [r|st|X c k IH]; intros s Hp; [done..|]. intros Hw x s' Hc. apply IH. by apply (proj2 Hp).
Qed.

Lemma test_code_bind {A C} s (m : M A) (k : A -> T C) (R : A -> kstate -> Prop) Q :
  trip s m R -> (forall a s', R a s' -> test s' (k a) Q) -> test s (code m ≫= k) Q.
Proof. intros Hm. apply test_bind. by apply test_code. Qed.

Lemma test_call {X C} s (c : ctest (result X Z)) (k : result X Z -> T C) Q :
  (wf (k_net s) -> forall x s', tstep s c x s' -> test s' (k x) Q) -> test s (tcall c ≫= k) Q.
Proof. intros H e Hw x s' Hc. by apply H. Qed.

(** A call whose [errno] is looked at. *)
Lemma test_call_errno {X C} s (c : ctest (result X Z)) (k : result X Z -> T C) Q :
  (wf (k_net s) -> forall x s', tstep s c x s' ->
     forall e, wp (k x (match x with Ok _ => e | Err e' => e' end)) s' (fun r s' => Q r.1 s')) ->
  test s (tcall c ≫= k) Q.
Proof. intros H e Hw x s' Hc. by apply H. Qed.

Lemma test_assert {C} s b (k : unit -> T C) Q : b = true -> test s (k tt) Q -> test s (assert b ≫= k) Q.
Proof. by intros ->. Qed.

Lemma test_errno {C} s (k : Z -> T C) Q : (forall en, test s (k en) Q) -> test s (errno ≫= k) Q.
Proof. intros H e. apply H. Qed.

Lemma passes_fails s m en :
  (forall e, m e = Ret (-1, en)) -> passes s (let* _ := assert_fails m en in mret 0).
Proof.
  intros Hm e. unfold assert_fails, code, mbind, T_bind. rewrite Hm. simpl.
  unfold assert. by rewrite !Z.eqb_refl.
Qed.

(** ** The tests *)

Lemma test_unshare {C} s mounts (k : result unit Z -> T C) Q :
  test (in_net s ∅) (k (Ok tt)) Q -> test s (tcall (Unshare mounts) ≫= k) Q.
Proof. intros H. apply test_call. by intros _ x s' [-> ->]. Qed.

Lemma test_random_name s buf prefix :
  fine_prefix prefix = true -> (length prefix <= 5)%nat ->
  test s (random_name buf prefix) (fun name s' => s' = s /\
    exists r, named name (prefix ++ dec r) /\ PERCENT ∉ prefix ++ dec r).
Proof.
  intros Hp Hl. apply (test_bind _ _ _ (fun r s' => s' = s /\ 0 <= r < 2 ^ 31)).
  { by intros e Hw r s' [-> Hr]. }
  intros r ? [-> Hr]. cbv zeta.
  assert (Hlen : (length (prefix ++ dec r) < IFNAMSIZ)%nat).
  { rewrite length_app. pose proof (dec_length_le r 10 ltac:(lia) ltac:(lia)). unfold IFNAMSIZ. lia. }
  assert (Hpos : (0 < length (prefix ++ dec r))%nat).
  { rewrite length_app. destruct prefix; [done|]. simpl. lia. }
  apply test_assert; [by rewrite (proj2 (Nat.ltb_lt _ _) Hpos), (proj2 (Nat.ltb_lt _ _) Hlen)|].
  apply test_ret. split; [done|]. exists r. split; [by apply numbered_name|by apply numbered_plain].
Qed.

(** The devices after [tap_open], in a namespace of its own. *)
Definition tapped (s : kstate) (n : bytes) (idx fd : Z) : kstate :=
  in_net s {[ n := Iface idx false None (Tap (Some fd) false) ]}.

Lemma test_tap_open {C} s ifr15 (k : Z * bytes -> T C) Q :
  (forall fd name n idx, 0 <= fd -> named name n -> meant (B "tap%d") n -> test (tapped s n idx fd) (k (fd, name)) Q) ->
  test (in_net s ∅) (code (tap_open ifr15 TAP 0) ≫= k) Q.
Proof.
  intros Hk. eapply test_code_bind; [apply (trip_tap_open_template _ _ _ _ _ _ ifr15 TAP (B "tap%d")); by_eval || done|].
  intros [fd name] s' [(Hfd & n & idx & Hn & Hm & _ & _ & _ & ->)|(_ & _ & [[]|Hno])].
  - by apply (Hk fd name n idx).
  - destruct (Hno (B "tap0")) as [i Hi]; [right; exists (B "tap"); split_and!; by_eval|by_eval|done].
Qed.

Lemma test_with_tap s ifr15 k Q :
  (forall fd name n idx, 0 <= fd -> named name n -> meant (B "tap%d") n -> test (tapped s n idx fd) (k fd name) Q) ->
  test s (with_tap ifr15 k) Q.
Proof.
  intros Hk. apply test_unshare, test_tap_open. intros fd name n idx Hfd Hn Hp.
  apply test_errno. intros en. rewrite (proj2 (Z.eqb_neq fd (-1))) by lia. by apply (Hk fd name n idx).
Qed.

Lemma test_with_tap_or_fail s ifr15 k Q :
  (forall fd name n idx, 0 <= fd -> named name n -> meant (B "tap%d") n -> test (tapped s n idx fd) (k fd name) Q) ->
  test (in_net s ∅) (with_tap_or_fail ifr15 k) Q.
Proof.
  intros Hk. apply test_tap_open. intros fd name n idx Hfd Hn Hp.
  rewrite (proj2 (Z.eqb_neq fd (-1))) by lia. by apply (Hk fd name n idx).
Qed.

(** The code that the tests exercise, in a state where it must work. *)
Lemma test_set_up {C} s n i b (m : M Z) (k : Z -> T C) Q :
  k_net s !! n = Some i ->
  trip s m (works False s (change s n (with_up b)) (k_net s !! n = None)) ->
  test (in_net s (<[n := with_up b i]> (k_net s))) (k 0) Q -> test s (code m ≫= k) Q.
Proof.
  intros Hi Hm Hk. eapply test_code_bind; [exact Hm|].
  intros r s' [(-> & j & Hj & ->)|(_ & _ & [[]|H])]; by simplify_eq.
Qed.

Lemma test_read_flags {C} s name n i (k : Z -> T C) Q :
  named name n -> k_net s !! n = Some i ->
  (forall z, Z.testbit z 0 = up i -> test s (k z) Q) -> test s (read_flags name ≫= k) Q.
Proof.
  intros Hn Hi Hk. eapply (test_bind _ _ _ (fun z s' => s' = s /\ Z.testbit z 0 = up i)).
  2: { intros z s' [-> Hz]. by apply Hk. }
  apply test_call. intros _ [fd|en] s' [-> H]; [|done].
  apply test_call. intros _ [z|en] s' [-> H2]; simpl in H2; rewrite (named_strncpy _ name n) in H2 by done.
  - destruct H2 as (j & Hj & Hz). simplify_eq. by apply test_ret.
  - destruct H2 as [[]|H2]. congruence.
Qed.

Lemma flag_up z : negb (Z.land z IFF_UP =? 0) = Z.testbit z 0.
Proof.
  change IFF_UP with (Z.ones 1). rewrite Z.land_ones by lia. change (2 ^ 1) with 2.
  rewrite Zmod_odd, Z.bit0_odd. by destruct (Z.odd z).
Qed.

Lemma passes_if_up s ifr15 : passes s (if_up_test ifr15).
Proof.
  apply test_with_tap. intros fd name n idx Hfd Hn Hp.
  eapply (test_set_up _ n); [apply lookup_insert_eq|by apply trip_if_up|].
  apply test_assert; [done|]. eapply test_read_flags; [exact Hn|apply lookup_insert_eq|].
  intros z Hz. apply test_assert; [by rewrite flag_up|]. by apply test_ret.
Qed.

Lemma passes_if_down s ifr15 : passes s (if_down_test ifr15).
Proof.
  apply test_with_tap. intros fd name n idx Hfd Hn Hp.
  eapply (test_set_up _ n); [apply lookup_insert_eq|by apply trip_if_up|].
  apply test_assert; [done|].
  eapply (test_set_up _ n); [apply lookup_insert_eq|by apply trip_if_down|].
  apply test_assert; [done|]. eapply test_read_flags; [exact Hn|apply lookup_insert_eq|].
  intros z Hz. apply test_assert; [by rewrite <- negb_false_iff, flag_up|]. by apply test_ret.
Qed.

Lemma test_tap_name {C} s fd name n i (k : unit -> T C) Q :
  k_net s = {[ n := i ]} -> held_by fd i = true -> cstr name = n -> test s (k tt) Q ->
  test s (assert_tap_name fd name ≫= k) Q.
Proof.
  intros Hs Hi Hname Hk. apply (test_bind _ _ _ (fun _ s' => s' = s)); [|by intros [] ? ->].
  apply test_call. intros _ [ifr|en] s' [-> H]; rewrite Hs in H.
  - destruct H as (m & j & [<- _]%lookup_singleton_Some & _ & Heq). unfold assert.
    rewrite bool_decide_true; [by apply test_ret|]. rewrite Heq, <- Hname. apply cstr_id, cstr_no_nul.
  - specialize (H n i (lookup_insert_eq _ _ _)). simpl in H. congruence.
Qed.

Lemma passes_tap_open s ifr15 : passes s (tap_open_test ifr15).
Proof.
  apply test_with_tap. intros fd name n idx Hfd [Hn _] Hp.
  eapply test_tap_name; [done| |exact Hn|by apply test_ret]. apply Z.eqb_refl.
Qed.

Lemma passes_if_rename s buf ifr15 : passes s (if_rename_test buf ifr15).
Proof.
  apply test_unshare. eapply test_bind; [apply test_random_name; by_eval|].
  intros newname ? (-> & r & Hnew & Hplain). apply test_with_tap_or_fail.
  intros fd name n idx Hfd Hn Hp.
  eapply test_code_bind; [by apply trip_if_rename|].
  intros x s' [(-> & i & Hi & _ & ->)|(_ & _ & [[]|H])].
  - apply test_assert; [done|]. simpl in Hi. apply lookup_singleton_Some in Hi as [_ <-].
    eapply test_tap_name; [simpl; by rewrite delete_singleton_eq|apply Z.eqb_refl|exact (proj1 Hnew)|by apply test_ret].
  - destruct Hp as (_ & _ & Hp). destruct (Hp (B "tap")) as (j & _ & ->); [by_eval..|].
    simpl in H. destruct H as [[i [Heq _]%lookup_singleton_Some]|H].
    + by apply (f_equal head) in Heq.
    + specialize (H _ (lookup_insert_eq _ _ _)). done.
Qed.

Lemma passes_if_rename_percent s ifr15 : passes s (if_rename_percent ifr15).
Proof.
  apply test_unshare, test_with_tap_or_fail. intros fd name n idx _ _ _. by apply passes_fails.
Qed.

Lemma passes_if_rename_name_too_long s ifr15 : passes s (if_rename_name_too_long ifr15).
Proof.
  apply test_unshare, test_with_tap_or_fail. intros fd name n idx _ _ _. by apply passes_fails.
Qed.

(** A bridge of the tests. *)
Lemma test_bridge_add {C} s buf (k : bytes -> Z -> T C) Q :
  (forall n i, k_net s !! n = Some i -> exists j, n = B "tap" ++ dec j) ->
  (forall name n idx, named name n -> k_net s !! n = None -> fresh_index idx (k_net s) ->
     test (in_net s (<[n := Iface idx false None Bridge]> (k_net s))) (k name 0) Q) ->
  test s (let* name := random_name buf (B "br") in let* r := code (bridge_add name) in k name r) Q.
Proof.
  intros Hs Hk. eapply test_bind; [apply test_random_name; by_eval|].
  intros name ? (-> & r & Hn & Hp). eapply test_code_bind; [by apply trip_bridge_add|].
  intros x s' [(-> & idx & Hfree & Hf & ->)|(_ & _ & [[]|[i Hi]])]; [by apply (Hk _ (B "br" ++ dec r))|].
  apply Hs in Hi as [j Hj]. by apply (f_equal head) in Hj.
Qed.

Lemma passes_bridge_add s buf : passes s (bridge_add_test buf).
Proof.
  apply test_unshare, test_bridge_add; [done|]. intros name n idx [Hn _] _ _. cbn [Z.eqb].
  apply test_call. intros _ [i|en] s' [-> H]; [by apply test_assert; [|apply test_ret]|].
  rewrite Hn in H. destruct H as [[]|H]. simpl in H. by rewrite lookup_insert_eq in H.
Qed.

Lemma passes_bridge_remove s buf : passes s (bridge_remove buf).
Proof.
  apply test_unshare, test_bridge_add; [done|]. intros name n idx Hn _ _. cbn [Z.eqb].
  eapply test_code_bind; [by apply trip_bridge_delete|].
  intros d s' [(-> & i & Hi & _ & ->)|(_ & _ & [[]|H])].
  2: { destruct (H _ (lookup_insert_eq _ _ _)). done. }
  apply test_assert; [done|]. apply test_call. intros _ [j|en] s' [-> H]; simpl in H.
  - rewrite (proj1 Hn) in H. destruct H as (j' & Hj & _). rewrite lookup_fmap, lookup_delete_eq in Hj. done.
  - by apply test_assert; [|apply test_ret].
Qed.

(** A bridge and a tap, in it or not. *)
Definition port (s : kstate) (br n : bytes) (ib : Z) (m : option Z) (s' : kstate) : Prop :=
  br <> n /\ k_net s' !! br = Some (Iface ib false None Bridge) /\
  exists idx fd, k_net s' !! n = Some (Iface idx false m (Tap (Some fd) false)).

Lemma test_with_port s buf ifr15 k :
  (forall bridge_name tap_name br n ib s', named bridge_name br -> named tap_name n ->
     port s br n ib (Some ib) s' -> passes s' (k bridge_name tap_name)) ->
  passes s (with_port buf ifr15 k).
Proof.
  intros Hk. apply test_unshare. cbn [is_ok]. apply test_call. intros _ x s' [-> ->].
  apply test_tap_open. intros fd tap_name n idx Hfd Hn Hm. rewrite (proj2 (Z.eqb_neq fd (-1))) by lia.
  destruct Hm as (_ & _ & Hm). destruct (Hm (B "tap")) as (j & _ & ->); [by_eval..|].
  apply test_bridge_add.
  { intros a i Ha. simpl in Ha. apply lookup_singleton_Some in Ha as [<- _]. by exists j. }
  intros name br ib Hb Hfree _. apply test_assert; [done|].
  assert (Hne : br <> B "tap" ++ dec j) by (intros ->; simpl in Hfree; by rewrite lookup_singleton_eq in Hfree).
  eapply test_code_bind; [by apply trip_bridge_add_if|].
  intros b s' [(-> & ib' & i & (H1 & _ & H3) & _ & ->)|(_ & _ & [[]|Hno])].
  - simpl in H1, H3. rewrite lookup_insert_eq in H1. rewrite lookup_insert_ne, lookup_singleton_eq in H3 by done.
    simplify_eq. apply test_assert; [done|]. apply (Hk _ _ br (B "tap" ++ dec j) ib); [done..|].
    split; [done|]. simpl. split; [by rewrite lookup_insert_ne, lookup_insert_eq|].
    exists idx, fd. by rewrite lookup_insert_eq.
  - destruct (Hno (Iface ib false None Bridge) (Iface idx false None (Tap (Some fd) false))); [|done].
    split_and!; simpl; [by rewrite lookup_insert_eq|done|by rewrite lookup_insert_ne, lookup_singleton_eq].
Qed.

Lemma test_assert_path {C} s name br tap n (k : bytes -> T C) Q :
  named name br -> named tap n -> test s (k (brif_path br n)) Q -> test s (assert_path name tap ≫= k) Q.
Proof.
  intros (Hb & [Hlb _]%valid_name_length & _) (Hn & [Hln _]%valid_name_length & _) Hk.
  apply (test_bind _ _ _ (fun path s' => path = brif_path br n /\ s' = s)); [|by intros path ? [-> ->]].
  unfold assert_path. rewrite Hb, Hn. apply test_assert; [|by apply test_ret].
  unfold brif_path. rewrite !length_app. change (length (B "/sys/devices/virtual/net/")) with 25%nat.
  change (length (B "/brif/")) with 6%nat. unfold IFNAMSIZ in *. rewrite andb_true_iff, !Nat.ltb_lt. lia.
Qed.

Lemma passes_bridge_add_if s buf ifr15 : passes s (bridge_add_if_test buf ifr15).
Proof.
  unfold bridge_add_if_test. apply test_with_port.
  intros bridge_name tap_name br n ib s' Hb Hn (_ & Hib & idx & fd & Hi).
  eapply test_assert_path; [done..|]. apply test_call. intros _ [u|en] s1 [-> H].
  - by apply test_assert; [|apply test_ret].
  - destruct (H br n (proj1 (proj2 Hb)) (proj1 (proj2 Hn)) eq_refl) as [_ Hno]. destruct Hno. eexists _, _. done.
Qed.

Lemma passes_bridge_remove_if s buf ifr15 : passes s (bridge_remove_if_test buf ifr15).
Proof.
  unfold bridge_remove_if_test. apply test_with_port.
  intros bridge_name tap_name br n ib s' Hb Hn (Hne & Hib & idx & fd & Hi).
  eapply test_code_bind; [by apply trip_bridge_remove_if|].
  intros r s1 [(-> & ib' & i & (H1 & _ & H3) & _ & ->)|(_ & _ & [[]|Hno])].
  2: { destruct (Hno (Iface ib false None Bridge) (Iface idx false (Some ib) (Tap (Some fd) false))); done. }
  apply test_assert; [done|]. eapply test_assert_path; [done..|].
  apply test_call_errno. intros _ [u|en] s1 [-> H] e.
  - destruct (H br n (proj1 (proj2 Hb)) (proj1 (proj2 Hn)) eq_refl) as (jb & j & _ & _ & Hj & Hm).
    simpl in Hj. rewrite lookup_insert_eq in Hj. by simplify_eq.
  - destruct (H br n (proj1 (proj2 Hb)) (proj1 (proj2 Hn)) eq_refl) as [-> _]. done.
Qed.

(** Every test passes. *)
Lemma c_tests_all s buf ifr15 : Forall (passes s) (c_tests buf ifr15).
Proof.
  repeat apply Forall_cons_2; [..|apply Forall_nil_2];
    auto using passes_if_up, passes_if_rename, passes_if_rename_percent, passes_if_rename_name_too_long,
      passes_if_down, passes_bridge_add, passes_bridge_add_if, passes_bridge_remove_if, passes_bridge_remove,
      passes_tap_open; by apply passes_fails.
Qed.

End Logic.

(** C31. The thirteen tests of [net-util.c] in the repository pass, whatever the
    locals of the test programs held, whatever [rand] returns and whatever other
    interfaces there are, on every kernel that behaves as [NetKernel] says and
    refuses nothing: none of their assertions about the kernel's devices fails,
    and none of them is skipped. *)
Theorem c_tests_pass (declines : Prop) pid s buf ifr15 t e tr o s' :
  wf (k_net s) -> t ∈ c_tests buf ifr15 -> exec (t e) tr o -> tbehaves declines pid s tr s' ->
  exists e', o = Done (0, e').
Proof.
  intros Hw Ht He Hb. pose proof (c_tests_all declines pid s buf ifr15) as Hall.
  rewrite Forall_forall in Hall. by eapply passes_sound; eauto.
Qed.

(** *** On the kernel of [NetSim] *)

(** The path of a member of a bridge, and the bridge's name in it. *)
Definition is_member (path : bytes) (p q : bytes * iface) : bool :=
  valid_name p.1 && valid_name q.1 && bool_decide (path = brif_path p.1 q.1) &&
  is_bridge p.2 && bool_decide (master q.2 = Some (index p.2)).

Definition has_member (path : bytes) (n : net) : bool :=
  existsb (fun p => existsb (is_member path p) (map_to_list n)) (map_to_list n).

Lemma valid_name_slash n : valid_name n = true -> SLASH ∉ n.
Proof.
  unfold valid_name. rewrite !andb_true_iff, forallb_forall. intros [_ H] Hin%list_elem_of_In.
  by apply H in Hin.
Qed.

Lemma brif_path_inj br n br' n' :
  valid_name br = true -> valid_name br' = true -> brif_path br n = brif_path br' n' -> br = br' /\ n = n'.
Proof.
  intros Hb%valid_name_slash Hb'%valid_name_slash H. apply app_inv_head in H.
  assert (br = br') as ->; [|split; [done|]; do 2 apply app_inv_head in H; done].
  apply (f_equal (split_on SLASH)) in H.
  change (B "/brif/" ++ ?r) with (SLASH :: B "brif/" ++ r) in H.
  rewrite !split_on_app_sep, (split_on_none SLASH br), (split_on_none SLASH br') in H by done.
  by apply (f_equal head), (inj Some) in H.
Qed.

Lemma has_member_spec br n (m : net) :
  valid_name br = true -> valid_name n = true ->
  has_member (brif_path br n) m = true <->
  exists ib i, m !! br = Some ib /\ what ib = Bridge /\ m !! n = Some i /\ master i = Some (index ib).
Proof.
  intros Hb Hn. unfold has_member. rewrite existsb_exists. setoid_rewrite existsb_exists. unfold is_member.
  setoid_rewrite andb_true_iff. setoid_rewrite andb_true_iff. setoid_rewrite andb_true_iff.
  setoid_rewrite andb_true_iff. setoid_rewrite bool_decide_eq_true. setoid_rewrite is_bridge_spec.
  setoid_rewrite <- list_elem_of_In. split.
  - intros ([a ib] & Ha%elem_of_map_to_list & [c i] & Hc%elem_of_map_to_list & ((((Hva & _) & Hp) & Hw) & Hm)).
    apply brif_path_inj in Hp as [-> ->]; [|done..]. by exists ib, i.
  - intros (ib & i & H1 & H2 & H3 & H4). exists (br, ib). split; [by apply elem_of_map_to_list|].
    exists (n, i). split; [by apply elem_of_map_to_list|]. done.
Qed.

Definition tsim (X : Type) (c : ctest X) (s : kstate) : X * kstate :=
  match c in ctest X return X * kstate with
  | Unshare _ => (Ok tt, in_net s ∅)
  | MountSysfs => (Ok tt, s)
  | Rand => (1804289383, s)
  | TunGetIff fd =>
      match head (filter (fun p => held_by fd p.2 = true) (map_to_list (k_net s))) with
      | Some (n, _) => (Ok n, s)
      | None => (Err EBADF, s)
      end
  | Lstat path => (if has_member path (k_net s) then Ok tt else Err ENOENT, s)
  | Code c => sim 1234 [] {| net_fd := 3; net_id := []; net_mac := router_mac 1234 |} _ c s
  end.

Lemma tsim_step X (c : ctest X) s : wf (k_net s) -> tstep True 1234 s c (tsim X c s).1 (tsim X c s).2.
Proof.
  intros Hw. destruct c as [m| | |fd|path|X c]; try done.
  - simpl. destruct (head _) as [[n i]|] eqn:H; simpl; (split; [done|]).
    + apply head_Some_elem_of, list_elem_of_filter in H as [Hi Hn%elem_of_map_to_list]. by exists n, i.
    + intros a i Ha. apply head_None in H. destruct (held_by fd i) eqn:Hi; [|done].
      assert (Hin : (a, i) ∈ filter (fun p => held_by fd p.2 = true) (map_to_list (k_net s))).
      { apply list_elem_of_filter. split; [done|]. by apply elem_of_map_to_list. }
      rewrite H in Hin. by apply not_elem_of_nil in Hin.
  - simpl. split; [done|]. intros br n Hb Hn ->. destruct (has_member _ _) eqn:H.
    + by apply has_member_spec in H.
    + split; [done|]. intros Hm. apply (has_member_spec br n) in Hm; [congruence|done..].
  - by apply sim_obeys.
Qed.

Lemma tsim_behaves {A} (p : prog ctest A) s :
  wf (k_net s) -> tbehaves True 1234 s (run tsim p s).1.2 (run tsim p s).2.
Proof.
  revert s. induction p as [a|st|X c k IH]; intros s Hw; simpl; [done..|].
  pose proof (tsim_step X c s Hw) as Hc. destruct (tsim X c s) as [x s1]. simpl in Hc.
  specialize (IH x s1 (wf_tstep _ _ _ _ _ _ _ Hw Hc)).
  destruct (run tsim (k x) s1) as [[o tr] s2]. simpl in *. by exists s1.
Qed.

Definition run_test (t : T Z) := run tsim (t 0) (KState ∅ ∅).

Lemma c_tests_pass_witness :
  exists e', (run_test (bridge_remove_if_test [] NUL)).1.1 = Done (0, e').
Proof.
  apply (c_tests_pass True 1234 (KState ∅ ∅) [] NUL (bridge_remove_if_test [] NUL) 0
    (run_test (bridge_remove_if_test [] NUL)).1.2 _ (run_test (bridge_remove_if_test [] NUL)).2).
  - by intros a b i j ?.
  - unfold c_tests. do 9 right. left.
  - apply exec_run.
  - apply tsim_behaves. by intros a b i j ?.
Defined.

End NetTests.
