(* ===== verification/Topology.v ===== *)
(** * Topology: the network that [net_setup] builds, and its removal

    [net_setup] and the exit listener of [net.c], run on the devices of
    [NetKernel]: which interfaces exist afterwards, how they are connected, and
    who holds them, on every path. *)

From S2P Require Import Prelude Effects Wp RustStd Sys Scenario Mac Ch NetUtil FdLogic NetSetup NetKernel NetSim.

Module Topology.
Import Mac Ch NetUtil NetSetup NetKernel NetSim.

(** ** Handing over a tap *)

Lemma hand_unheld P (fd : Z) (n : net) :
  (forall fd', P fd' = true -> fd' = fd) -> unheld fd n -> hand1 P <$> n = n.
Proof.
  intros HP Hu. apply map_eq. intros a. rewrite lookup_fmap.
  destruct (n !! a) as [[idx u m k]|] eqn:Ha; simpl; [|done]. f_equal.
  pose proof (Hu a _ Ha) as Hh. unfold held_by in Hh. simpl in Hh. unfold hand1. simpl.
  destruct k as [|[fd'|] aw]; [done| |done]. destruct (P fd') eqn:HPf.
  - apply HP in HPf as ->. by rewrite Z.eqb_refl in Hh.
  - by rewrite orb_false_r.
Qed.

(** Closing the descriptor of a tap that nobody else has, or that somebody has. *)
Lemma release_tap (fd : Z) (n : net) a idx u m :
  n !! a = None -> unheld fd n -> release fd (<[a := Iface idx u m (Tap (Some fd) false)]> n) = n.
Proof.
  intros Ha Hu. unfold release. rewrite omap_insert_None.
  - rewrite delete_id; [exact (release_unheld fd n Hu)|]. by rewrite lookup_omap, Ha.
  - unfold release1, held_by. simpl. by rewrite Z.eqb_refl.
Qed.

Lemma release_shared (fd : Z) (n : net) a idx u m :
  unheld fd n ->
  release fd (<[a := Iface idx u m (Tap (Some fd) true)]> n) = <[a := Iface idx u m (Tap None true)]> n.
Proof.
  intros Hu. unfold release.
  rewrite (omap_insert_Some _ _ _ _ (Iface idx u m (Tap None true))).
  - f_equal. exact (release_unheld fd n Hu).
  - unfold release1, held_by. simpl. by rewrite Z.eqb_refl.
Qed.

(** ** The names that [net.c] makes from a process id *)

Definition bridge_of (pid : Z) : bytes := B "br" ++ dec pid.
Definition client_tap (pid : Z) : bytes := B "client" ++ dec pid.
Definition router_tap (pid : Z) : bytes := B "router" ++ dec pid.
Definition dead_tap (pid : Z) : bytes := B "_dead" ++ dec pid.

Definition owned (pid : Z) (n : bytes) : Prop :=
  n = bridge_of pid \/ n = client_tap pid \/ n = router_tap pid \/ n = dead_tap pid.

Lemma owned_names pid :
  owned pid (bridge_of pid) /\ owned pid (client_tap pid) /\ owned pid (router_tap pid) /\ owned pid (dead_tap pid).
Proof. unfold owned. tauto. Qed.

Section Topology.
Variables (refuses declines : Prop) (pid : Z).
(** The process ids that the kernel gives out have at most nine digits. *)
Hypothesis Hpid : 0 <= pid < 10 ^ 9.

#[local] Abbreviation trip := (NetKernel.trip refuses declines pid (owned pid) (fun _ _ => True)).
#[local] Abbreviation named := (NetKernel.named (owned pid)).
#[local] Abbreviation bridge_of := (bridge_of pid).
#[local] Abbreviation client_tap := (client_tap pid).
#[local] Abbreviation router_tap := (router_tap pid).
#[local] Abbreviation dead_tap := (dead_tap pid).

#[local] Lemma pid_name prefix buf :
  fine_prefix prefix = true -> (length prefix <= 6)%nat -> owned pid (prefix ++ dec pid) ->
  named (snprintf buf (prefix ++ dec pid)) (prefix ++ dec pid).
Proof using Hpid.
  intros Hp Hl Ho. apply numbered_name; [done| |done]. rewrite length_app.
  pose proof (dec_length_le pid 9 Hpid ltac:(lia)). unfold IFNAMSIZ. lia.
Qed.

(** A tap that is up and in the bridge [ib]. *)
Definition connected (idx : Z) (ib : iface) (k : kind) : iface := Iface idx true (Some (index ib)) k.

Definition tap_added (s : kstate) (ib : iface) (n : bytes) (fd : Z) (s' : kstate) : Prop :=
  exists idx, k_net s !! n = None /\ fresh_index idx (k_net s) /\ unheld fd (k_net s) /\
    s' = in_net s (<[n := connected idx ib (Tap (Some fd) false)]> (k_net s)).

(** The tap of a descriptor that has just been opened goes when it is closed. *)
Lemma trip_close_tap {C} s fd n i (k : result unit Z -> M C) Q :
  0 <= fd -> k_net s !! n = None -> unheld fd (k_net s) -> what i = Tap (Some fd) false ->
  (forall x, trip s (k x) Q) ->
  trip (in_net s (<[n := i]> (k_net s))) (ccall (Close fd) ≫= k) Q.
Proof using Type.
  intros Hfd Hn Hu Hi Hk. apply trip_call_bind; [done|]. intros _ x s' Hc. cbn [kstep_at] in Hc.
  rewrite (proj2 (Z.eqb_neq fd (-1))) in Hc by lia. simpl in Hc.
  destruct i as [idx u m w]. simpl in Hi. subst w. rewrite release_tap in Hc by done. subst s'.
  destruct s. apply Hk.
Qed.

Lemma trip_setup_tap s g bridge_name prefix buf ib :
  named bridge_name bridge_of -> k_net s !! bridge_of = Some ib -> what ib = Bridge ->
  fine_prefix prefix = true -> (length prefix <= 6)%nat -> owned pid (prefix ++ dec pid) ->
  trip s (setup_tap g bridge_name prefix buf) (fun '(fd, name') s' =>
    0 <= fd /\ named name' (prefix ++ dec pid) /\ tap_added s ib (prefix ++ dec pid) fd s' \/
    fd = -1 /\ s' = s /\ (refuses \/ is_Some (k_net s !! (prefix ++ dec pid)))).
Proof using Hpid.
  intros Hb Hib Hbr Hpre Hlen Hown. unfold setup_tap.
  apply trip_sysc_bind; [done|]. intros _ x s' [-> ->].
  set (n := prefix ++ dec pid).
  eapply trip_bind; [by apply trip_tap_open; [apply pid_name|apply numbered_plain]|].
  intros [fd name] s1 [(Hfd & Hname & idx & Hfree & Hfr & Hu & ->)|(-> & -> & Hr)].
  2: { apply trip_ret. right. auto. }
  rewrite (proj2 (Z.eqb_neq fd (-1))) by lia. fold n in Hname, Hfree |- *.
  assert (Hne : n <> bridge_of) by congruence.
  eapply trip_bind; [by apply trip_bridge_add_if|]. intros a s2 Ha.
  destruct Ha as [(-> & ib' & i & (H1 & H2 & H3) & _ & ->)|(-> & -> & Hr)].
  2: { apply trip_close_tap; [done..|]. intros _. apply trip_ret. right. split_and!; [done..|].
       destruct Hr as [?|Hr]; [by left|]. destruct (Hr ib (Iface idx false None (Tap (Some fd) false))); [|done].
       split_and!; simpl; [by rewrite lookup_insert_ne|done|by rewrite lookup_insert_eq]. }
  simpl in H1, H3. rewrite lookup_insert_ne in H1 by done. rewrite lookup_insert_eq in H3. simplify_eq.
  cbn [Z.eqb]. simpl. rewrite insert_insert_eq, in_net_twice.
  eapply trip_bind; [by apply trip_if_up|]. intros u s3 Hup.
  destruct Hup as [(-> & j & Hj & ->)|(-> & -> & Hr)].
  - simpl in Hj. rewrite lookup_insert_eq in Hj. simplify_eq. apply trip_ret. left.
    split; [done|]. split; [done|]. exists idx. split_and!; [done..|].
    simpl. by rewrite insert_insert_eq.
  - apply trip_close_tap; [done..|]. intros _. apply trip_ret. right. split_and!; [done..|].
    destruct Hr as [?|Hr]; [by left|]. simpl in Hr. by rewrite lookup_insert_eq in Hr.
Qed.

(** The command may hand the tap over, and has done so if it succeeded. *)
Lemma trip_add_net_c s n0 n idx u m dir (c : NetConfigC) :
  k_net s = <[n := Iface idx u m (Tap (Some (c_fd c)) false)]> n0 -> unheld (c_fd c) n0 -> 0 <= c_fd c ->
  trip s (add_net_c dir c) (fun e s' => exists a,
    k_net s' = <[n := Iface idx u m (Tap (Some (c_fd c)) a)]> n0 /\ (e = 0 -> a = true) /\
    (e <> 0 -> refuses \/ declines)).
Proof using Type.
  intros Hs Hu Hfd. unfold add_net_c.
  eapply (trip_bind _ _ _ _ _ _ _ _ (fun cfg s' => s' = s /\ net_fd cfg = c_fd c)).
  { unfold unwrap, try_from. case_match eqn:Hv; [|by apply trip_halt]. apply trip_ret.
    case_match; by simplify_eq. }
  intros cfg ? [-> Hcfg].
  eapply (trip_bind _ _ _ _ _ _ _ _ (fun r s' => exists a,
    k_net s' = <[n := Iface idx u m (Tap (Some (c_fd c)) a)]> n0 /\ (is_ok r = true -> a = true) /\
    (forall e, r = Err e -> e <> 0 /\ (refuses \/ declines)))).
  2: { intros r s' (a & Hn & Ha & He). destruct r as [[]|e]; apply trip_ret; exists a; (split; [done|]).
       - split; [|done]. intros _. by apply Ha.
       - destruct (He e) as [He0 Hd]; [done|]. by split. }
  unfold add_net. apply trip_sysc_bind; [done|]. intros _ [child|e] s1 Hs1.
  2: { destruct Hs1 as [-> Hr]. apply trip_ret. exists false. split_and!; [done..|]. intros e0 [= <-]. by auto. }
  simpl in Hs1. subst s1.
  apply trip_sysc_bind; [by intros dir' a Hc; simpl in Hc; rewrite lookup_insert_eq in Hc|].
  intros _ x s2 (P & L & -> & HL & Hst0 & HP & Hok). simpl in *.
  rewrite lookup_insert_eq in HL. rewrite drop_named_none.
  2: { intros a. destruct (L a) eqn:Ha; [|done]. by destruct (HL a Ha) as (_ & dir' & ?). }
  assert (Honly : forall fd', P fd' = true -> fd' = c_fd c).
  { intros fd' (d & n' & -> & Hpos & Hn')%HP. rewrite lookup_insert_eq in Hn'.
    apply (inj Some) in Hn'. rewrite <- Hcfg. symmetry.
    eapply add_net_command_fd; [exact Hn'|lia|done]. }
  assert (Hnet : hand1 P <$> k_net s = <[n := Iface idx u m (Tap (Some (c_fd c)) (P (c_fd c)))]> n0).
  { rewrite Hs, fmap_insert, (hand_unheld P (c_fd c)) by done. done. }
  rewrite Hnet. destruct x as [st|e]; [destruct (success st) eqn:Hst|]; apply trip_ret;
    exists (P (c_fd c)); (split; [done|]); (split; [done || intros _|try (clear Hpid; intros e0 [= <-]; naive_solver)]).
  rewrite <- Hcfg. eapply Hok; [done..|]. by rewrite lookup_insert_eq.
Qed.

Definition router_kept (s : kstate) (ib : iface) (s' : kstate) : Prop :=
  exists idx, k_net s !! router_tap = None /\ fresh_index idx (k_net s) /\
    k_net s' = <[router_tap := connected idx ib (Tap None true)]> (k_net s).

Lemma trip_router_net_setup s g bridge_name dir mac ib :
  named bridge_name bridge_of -> k_net s !! bridge_of = Some ib -> what ib = Bridge ->
  trip s (router_net_setup g bridge_name dir mac) (fun '(r, id) s' =>
    r = 0 /\ id = router_tap /\ router_kept s ib s' \/
    r = -1 /\ (k_net s' = k_net s \/ router_kept s ib s') /\
      (refuses \/ declines \/ is_Some (k_net s !! router_tap))).
Proof using Hpid.
  intros Hb Hib Hbr. unfold router_net_setup.
  eapply trip_bind; [apply (trip_setup_tap s g bridge_name (B "router") _ ib); [done..|by_eval|apply owned_names]|].
  intros [fd name] s1 [(Hfd & [Hname _] & idx & Hfree & Hfr & Hu & ->)|(-> & -> & Hr)].
  2: { apply trip_ret. right. naive_solver. }
  rewrite (proj2 (Z.eqb_neq fd (-1))) by lia.
  eapply trip_bind; [by apply (trip_add_net_c _ (k_net s) router_tap idx true (Some (index ib)))|].
  intros e s2 (a & Hn & Ha & Hno). simpl in Hn.
  apply (trip_bind _ _ _ _ _ _ _ _ (fun _ s' =>
    if a then k_net s' = <[router_tap := connected idx ib (Tap None true)]> (k_net s)
    else k_net s' = k_net s)).
  { apply trip_ccall; [done|]. intros _ x s' Hc. cbn [kstep_at] in Hc.
    rewrite (proj2 (Z.eqb_neq fd (-1))) in Hc by lia. subst s'. simpl. rewrite Hn.
    destruct a; [by apply release_shared|by apply release_tap]. }
  intros _ s3 H3. destruct (Z.eqb_spec e 0) as [->|He].
  - rewrite Ha in H3 by done. apply trip_ret. left. split_and!; [done..|]. by exists idx.
  - eapply trip_bind; [by apply (trip_set_errno _ _ _ _ _ _ _ (fun _ s' => s' = s3))|]. intros _ ? ->.
    apply trip_ret. right. split; [done|].
    split; [|naive_solver]. destruct a; [right; by exists idx|by left].
Qed.

Lemma trip_exit_listener_setup s g fuel dir id :
  trip s (exit_listener_setup g fuel dir id) (fun r s' =>
    k_net s' = k_net s /\ (r = 0 \/ r = -1 /\ refuses)).
Proof using Type.
  unfold exit_listener_setup. apply trip_sysc_bind; [done|]. intros _ x s' [_ ->].
  apply trip_call_bind; [done|]. intros _ [[fd0 fd1]|en] s' [-> H]; [|apply trip_ret; auto].
  destruct H as (H0 & H1 & Hu0 & Hu1).
  apply trip_call_bind; [done|]. intros _ [v|en] s' [-> H].
  2: { do 2 (apply trip_close; [done..|]; intros _). apply trip_ret. auto. }
  rewrite (proj2 (Z.eqb_neq v 0)) by lia. apply trip_close; [done..|]. intros _. apply trip_ret. auto.
Qed.

(** ** Cleaning up after a failure *)

(** What may be left behind: the bridge, if the kernel refuses to delete it,
    and the router's tap, if the router has it. *)
Definition residue (n n' : net) : Prop :=
  (forall a, a <> bridge_of -> a <> router_tap -> n' !! a = n !! a) /\
  (n' !! bridge_of = n !! bridge_of \/ refuses) /\
  (n' !! router_tap = n !! router_tap \/
   n !! router_tap = None /\ exists i, n' !! router_tap = Some i /\ what i = Tap None true).

Lemma residue_refl n : residue n n.
Proof using Type. repeat split; auto. Qed.

(** How far [net_setup] has got: there is a bridge, perhaps the client's tap
    with the descriptor [fd], and perhaps the router's. *)
Record underway (n : net) (idx fd : Z) (n1 : net) : Prop := {
  uw_free : n !! bridge_of = None;
  uw_index : fresh_index idx n;
  uw_bridge : exists u, n1 !! bridge_of = Some (Iface idx u None Bridge);
  uw_client : n1 !! client_tap = n !! client_tap /\ fd = -1 \/
    n !! client_tap = None /\ 0 <= fd /\ exists i, n1 !! client_tap = Some i /\ what i = Tap (Some fd) false;
  uw_router : n1 !! router_tap = n !! router_tap \/
    n !! router_tap = None /\ exists i, n1 !! router_tap = Some i /\ what i = Tap None true;
  uw_unheld : fd = -1 \/ unheld fd n;
  uw_others : forall a, a <> bridge_of -> a <> client_tap -> a <> router_tap -> n1 !! a = n !! a;
}.

#[local] Lemma names_differ :
  client_tap <> bridge_of /\ router_tap <> bridge_of /\ client_tap <> router_tap.
Proof using Type. by split_and!; intros H; apply (f_equal head) in H. Qed.

Lemma what_set_free idx i : what (set_free idx i) = what i.
Proof using Type. unfold set_free. by case_decide. Qed.

Lemma set_free_fresh idx (n : net) a i : fresh_index idx n -> n !! a = Some i -> set_free idx i = i.
Proof using Type. intros Hf Ha. unfold set_free. rewrite decide_False; [done|]. by apply (Hf a i Ha). Qed.

(** The devices other than the bridge after deleting it, or trying to, and
    closing the client's descriptor. *)
Definition swept (n : net) (idx fd : Z) (a : bytes) (x : option iface) : Prop :=
  exists f, (f = set_free idx \/ f = id) /\
    x = (n !! a ≫= fun i => if fd =? -1 then Some (f i) else release1 fd (f i)).

#[local] Lemma swept_same n n1 idx fd a x :
  fresh_index idx n -> fd = -1 \/ unheld fd n -> n1 !! a = n !! a -> swept n1 idx fd a x -> x = n !! a.
Proof using Type.
  intros Hf Hu Ha (f & Hff & ->). rewrite Ha. destruct (n !! a) as [i|] eqn:Hi; simpl; [|done].
  assert (f i = i) as -> by (destruct Hff as [-> | ->]; [by eapply set_free_fresh|done]).
  destruct Hu as [-> |Hu]; [done|]. unfold release1. rewrite (Hu a i Hi). by case_match.
Qed.

Lemma swept_residue n n1 n3 idx fd :
  underway n idx fd n1 -> (n3 !! bridge_of = None \/ refuses) ->
  (forall a, a <> bridge_of -> swept n1 idx fd a (n3 !! a)) -> residue n n3.
Proof using Type.
  intros [Hfree Hidx _ Hcl Hro Hu Hoth] Hbr Hsw. pose proof names_differ as (Hcb & Hrb & Hcr).
  split_and!.
  - intros a Hab Har. destruct (decide (a = client_tap)) as [->|Hac].
    + destruct Hcl as [[Hcl ->]|(Hn & Hfd & i & Hi & Hw)]; [by eapply swept_same; eauto|].
      destruct (Hsw client_tap Hcb) as (f & Hf & ->). rewrite Hi, Hn. simpl.
      rewrite (proj2 (Z.eqb_neq fd (-1))) by lia. unfold release1, held_by.
      assert (what (f i) = Tap (Some fd) false) as -> by (destruct Hf as [-> | ->]; [by rewrite what_set_free|done]).
      by rewrite Z.eqb_refl.
    + eapply swept_same; [exact Hidx|exact Hu|by apply Hoth|by apply Hsw].
  - destruct Hbr as [Hbr|?]; [left; congruence|by right].
  - destruct Hro as [Hro|(Hn & i & Hi & Hw)]; [left; by eapply swept_same; eauto|right].
    split; [done|]. destruct (Hsw router_tap Hrb) as (f & Hf & ->). rewrite Hi. simpl.
    assert (what (f i) = Tap None true) as Hwf by (destruct Hf as [-> | ->]; [by rewrite what_set_free|done]).
    exists (f i). split; [|done]. unfold release1, held_by. rewrite Hwf. by case_match.
Qed.

(** The label [fail_bridge] of [net_setup]. *)
Lemma trip_fail_bridge {A} s n idx fd bridge_name (a : A) :
  named bridge_name bridge_of -> underway n idx fd (k_net s) ->
  trip s (let* _ := bridge_delete bridge_name in let* _ := ccall (Close fd) in mret a)
    (fun r s' => r = a /\ residue n (k_net s')).
Proof using Type.
  intros Hb Huw. pose proof Huw as [Hfree Hidx (u & Hbr) _ _ _ _].
  eapply trip_bind; [by apply trip_bridge_delete|]. intros r s1 Hd.
  assert (Hs1 : (k_net s1 !! bridge_of = None \/ refuses) /\ exists f, (f = set_free idx \/ f = id) /\
    forall b, b <> bridge_of -> k_net s1 !! b = f <$> k_net s !! b).
  { destruct Hd as [(-> & i & Hi & Hw & ->)|(-> & Hch & Hr)]; simpl.
    - simplify_eq/=. split.
      + left. by rewrite lookup_fmap, lookup_delete_eq.
      + exists (set_free idx). split; [by left|]. intros b Hbb. by rewrite lookup_fmap, lookup_delete_ne.
    - split; [right; destruct Hr as [?|Hr]; [done|by destruct (Hr _ Hbr)]|].
      exists id. split; [by right|]. intros b Hbb. rewrite option_fmap_id.
      destruct Hch as [-> |(i & Hi & ->)]; [done|]. simpl. by rewrite lookup_insert_ne. }
  clear Hd. destruct Hs1 as [Hgone (f & Hf & Hlook)].
  apply trip_call_bind; [done|]. intros _ x s2 Hc. cbn [kstep_at] in Hc. apply trip_ret. split; [done|].
  eapply swept_residue; [exact Huw|..].
  - destruct Hgone as [Hgone|?]; [left|by right].
    destruct (fd =? -1); [by destruct Hc as [_ ->]|]. subst s2. simpl. unfold release.
    by rewrite lookup_omap, Hgone.
  - intros b Hbb. exists f. split; [done|]. destruct (fd =? -1).
    + destruct Hc as [_ ->]. rewrite Hlook by done. by destruct (k_net s !! b).
    + subst s2. simpl. unfold release. rewrite lookup_omap, Hlook by done. by destruct (k_net s !! b).
Qed.

Lemma underway_bridge n idx u :
  n !! bridge_of = None -> fresh_index idx n ->
  underway n idx (-1) (<[bridge_of := Iface idx u None Bridge]> n).
Proof using Type.
  intros Hn Hi. pose proof names_differ as (Hcb & Hrb & Hcr). split; auto.
  - exists u. by rewrite lookup_insert_eq.
  - left. by rewrite lookup_insert_ne.
  - left. by rewrite lookup_insert_ne.
  - intros a Ha _ _. by rewrite lookup_insert_ne.
Qed.

Lemma underway_client n idx n1 fd i :
  underway n idx (-1) n1 -> n1 !! client_tap = None -> unheld fd n1 -> 0 <= fd ->
  what i = Tap (Some fd) false -> underway n idx fd (<[client_tap := i]> n1).
Proof using Type.
  intros [Hfree Hidx (u & Hb) Hcl Hro _ Hoth] Hn Hu Hfd Hw.
  pose proof names_differ as (Hcb & Hrb & Hcr). destruct Hcl as [[Hcl _]|(_ & ? & _)]; [|lia].
  split; try done.
  - exists u. by rewrite lookup_insert_ne.
  - right. split_and!; [congruence|done|]. exists i. by rewrite lookup_insert_eq.
  - by rewrite lookup_insert_ne.
  - right. intros a j Ha. destruct (decide (a = bridge_of)) as [->|Hab]; [congruence|].
    destruct (decide (a = client_tap)) as [->|Hac]; [congruence|].
    destruct (decide (a = router_tap)) as [->|Har].
    + destruct Hro as [Hro|[Hro _]]; [|congruence]. eapply Hu. by rewrite Hro.
    + eapply Hu. by rewrite Hoth.
  - intros a Ha Hc Hr. rewrite lookup_insert_ne by done. by apply Hoth.
Qed.

Lemma underway_router n idx fd n1 i :
  underway n idx fd n1 -> n1 !! router_tap = None -> what i = Tap None true ->
  underway n idx fd (<[router_tap := i]> n1).
Proof using Type.
  intros [Hfree Hidx (u & Hb) Hcl Hro Hu Hoth] Hn Hw.
  pose proof names_differ as (Hcb & Hrb & Hcr). split; try done.
  - exists u. by rewrite lookup_insert_ne.
  - by rewrite lookup_insert_ne.
  - right. split; [|exists i; by rewrite lookup_insert_eq].
    destruct Hro as [Hro|(? & j & Hj & _)]; congruence.
  - intros a Ha Hc Hr. rewrite lookup_insert_ne by done. by apply Hoth.
Qed.

(** ** The network *)

(** A bridge with two taps in it, all of them up: the client's, which this
    process holds, and the router's, which the router holds. *)
Definition topology (n : net) (fd : Z) (n' : net) : Prop :=
  exists ib ic ir,
    n !! bridge_of = None /\ n !! client_tap = None /\ n !! router_tap = None /\
    fresh_index ib n /\ unheld fd n /\
    n' = <[router_tap := Iface ir true (Some ib) (Tap None true)]>
          (<[client_tap := Iface ic true (Some ib) (Tap (Some fd) false)]>
            (<[bridge_of := Iface ib true None Bridge]> n)).

(** Somebody else has an interface with one of the three names. *)
Definition taken (n : net) : Prop :=
  is_Some (n !! bridge_of) \/ is_Some (n !! client_tap) \/ is_Some (n !! router_tap).

(** The network, or a reason why there is none, with what the attempt left. *)
Definition settled (n : net) (c : NetConfigC) (n' : net) : Prop :=
  0 <= c_fd c /\ topology n (c_fd c) n' \/
  c_fd c = -1 /\ residue n n' /\ (refuses \/ declines \/ taken n).

Lemma trip_unsettled s s1 idx fd bridge_name (c : NetConfigC) :
  named bridge_name bridge_of -> underway (k_net s) idx fd (k_net s1) -> c_fd c = -1 ->
  refuses \/ declines \/ taken (k_net s) ->
  trip s1 (let* _ := bridge_delete bridge_name in let* _ := ccall (Close fd) in mret c)
    (fun c s' => settled (k_net s) c (k_net s')).
Proof using Type.
  intros Hb Huw Hc Hwhy. eapply trip_mono; [by apply (trip_fail_bridge s1 (k_net s) idx fd)|].
  intros ? ? [-> Hres]. by right.
Qed.

Lemma trip_net_setup s g fuel dir :
  trip s (net_setup g fuel dir) (fun c s' => settled (k_net s) c (k_net s')).
Proof using Hpid.
  pose proof names_differ as (Hcb & Hrb & Hcr).
  unfold net_setup. apply trip_sysc_bind; [done|]. intros _ x s' [-> ->].
  set (bridge_name := snprintf (g_buf g) _).
  assert (Hb : named bridge_name bridge_of) by (apply pid_name; [done|by_eval|apply owned_names]).
  eapply trip_bind; [apply trip_bridge_add; [done|by apply numbered_plain]|].
  intros a s1 [(-> & idx & Hfree & Hidx & ->)|(-> & -> & Hr)].
  2: { apply trip_ret. right. split_and!; [done|apply residue_refl|unfold taken; tauto]. }
  cbn [Z.eqb]. eapply trip_bind; [by apply trip_if_up|].
  intros u s2 [(-> & i & Hi & ->)|(-> & -> & Hr)].
  2: { apply (trip_unsettled s _ idx); [done|by apply underway_bridge|done|]. left. destruct Hr as [?|Hr]; [done|].
       simpl in Hr. by rewrite lookup_insert_eq in Hr. }
  simpl in Hi. rewrite lookup_insert_eq in Hi. simplify_eq. cbn [Z.eqb]. simpl.
  rewrite insert_insert_eq, in_net_twice. unfold with_up. simpl.
  set (ib := Iface idx true None Bridge). set (s2 := in_net s _).
  assert (Hib : k_net s2 !! bridge_of = Some ib) by apply lookup_insert_eq.
  assert (Huw : underway (k_net s) idx (-1) (k_net s2)) by by apply underway_bridge.
  assert (Htap : forall a, a <> bridge_of -> k_net s2 !! a = k_net s !! a)
    by (intros a Ha; by apply lookup_insert_ne).
  eapply trip_bind; [apply (trip_setup_tap s2 g bridge_name (B "client") _ ib); [done..|by_eval|apply owned_names]|].
  intros [fd id] s3 [(Hfd & _ & ic & Hcfree & _ & Hu & ->)|(-> & -> & Hr)].
  2: { apply (trip_unsettled s _ idx); [done..|]. rewrite Htap in Hr by done. unfold taken. tauto. }
  rewrite (proj2 (Z.eqb_neq fd (-1))) by lia. set (s3 := in_net s2 _).
  assert (Huw3 : underway (k_net s) idx fd (k_net s3)) by by apply underway_client.
  eapply trip_bind; [apply (trip_router_net_setup s3 g bridge_name dir _ ib); [done| |done]|].
  { simpl. by rewrite lookup_insert_ne. }
  intros [r device] s4 Hr.
  assert (Huw4 : underway (k_net s) idx fd (k_net s4)).
  { destruct Hr as [(_ & _ & ir & Hrf & _ & ->)|(_ & [-> |(ir & Hrf & _ & ->)] & _)]; [|done|];
      by apply underway_router. }
  assert (Hrt : k_net s3 !! router_tap = k_net s !! router_tap)
    by (simpl; by rewrite !lookup_insert_ne).
  destruct Hr as [(-> & _ & ir & Hrf & _ & Hn4)|(-> & _ & Hr)]; cbn [Z.eqb].
  2: { apply (trip_unsettled s _ idx); [done..|]. rewrite Hrt in Hr. unfold taken. tauto. }
  eapply trip_bind; [apply trip_exit_listener_setup|]. intros l s5 [Hn5 Hl].
  destruct Hl as [-> |[-> Hr]]; cbn [Z.eqb].
  - apply trip_ret. left. split; [done|]. exists idx, ic, ir.
    rewrite Hn5, Hn4. rewrite Htap in Hcfree by done. rewrite Hrt in Hrf. split_and!; try done.
    destruct Huw3 as [_ _ _ _ _ [?|?] _]; [lia|done].
  - apply (trip_unsettled s _ idx); [done|by rewrite Hn5|done|by left].
Qed.

End Topology.

(** ** The removal

    The exit listener, on a kernel that carries out whatever it can. *)

Section Teardown.
Variables (declines : Prop) (pid : Z) (stops : stop -> kstate -> Prop).
Hypothesis Hpid : 0 <= pid < 10 ^ 9.

#[local] Abbreviation trip := (NetKernel.trip False declines pid (owned pid) stops).
#[local] Abbreviation named := (NetKernel.named (owned pid)).

#[local] Lemma take_nul_index id : NUL ∉ id -> take (nul_index id) id = id.
Proof using Type.
  intros H. unfold nul_index. destruct (list_find _ id) as [[i c]|] eqn:Hf; [|apply firstn_all].
  apply list_find_Some in Hf as (Hi & -> & _). apply list_elem_of_lookup_2 in Hi. done.
Qed.

(** The router lets go of its tap, or will do so later. *)
Lemma trip_remove_device_c s dir id :
  NUL ∉ id -> owned pid id ->
  trip s (remove_device_c dir id) (fun e s' => (e = 0 \/ declines) /\
    (k_net s' = k_net s \/ k_net s' = delete id (k_net s))).
Proof using Type.
  clear Hpid. intros Hid Hown. unfold remove_device_c, remove_device. rewrite (take_nul_index id Hid).
  apply (trip_bind _ _ _ _ _ _ _ _ (fun r s' => (is_ok r = true \/ declines) /\
    (k_net s' = k_net s \/ k_net s' = delete id (k_net s)))).
  2: { intros r s' [Hr Hn]. destruct r; apply trip_ret; naive_solver. }
  apply trip_sysc_bind; [done|]. intros _ [child|e] s1 Hs1; [|by destruct Hs1 as [_ []]].
  simpl in Hs1. subst s1. apply trip_sysc_bind.
  { intros dir' a Hc. simpl in Hc. rewrite lookup_insert_eq in Hc. apply (inj Some) in Hc. by injection Hc as _ <-. }
  intros _ x s2 (P & L & -> & HL & Hst & HP & _). simpl in *.
  rewrite lookup_insert_eq in HL, HP.
  rewrite hand_none by (intros fd; destruct (P fd) eqn:HPf; [by destruct (HP fd HPf) as (d & n & _ & _ & ?)|done]).
  assert (Hnet : drop_named L (k_net s) = k_net s \/ drop_named L (k_net s) = delete id (k_net s)).
  { destruct (L id) eqn:Hl; [right|left].
    - apply map_eq. intros a. rewrite lookup_drop_named. destruct (decide (a = id)) as [->|Ha].
      + by rewrite Hl, lookup_delete_eq.
      + rewrite lookup_delete_ne by done. destruct (L a) eqn:Hla; [|done].
        destruct (HL a Hla) as (_ & dir' & [= _ ?]). congruence.
    - apply drop_named_none. intros a. destruct (L a) eqn:Hla; [|done].
      destruct (HL a Hla) as (_ & dir' & [= _ ?]). congruence. }
  destruct x as [st|e]; [destruct (success st) eqn:Hs|]; apply trip_ret; simpl; naive_solver.
Qed.

(** The router's tap is out of the way: it is gone, or is kept under another
    name, down and outside the bridge, until the router lets go of it. *)
Lemma trip_router_net_cleanup s g dir ib i :
  k_net s !! bridge_of pid = Some ib -> what ib = Bridge ->
  k_net s !! router_tap pid = Some i -> what i = Tap None true -> master i = Some (index ib) ->
  k_net s !! dead_tap pid = None ->
  trip s (router_net_cleanup g pid dir (router_tap pid)) (fun r s' =>
    r = 0 /\ k_net s' = <[dead_tap pid := Iface (index i) false None (Tap None true)]>
                          (delete (router_tap pid) (k_net s)) \/
    r = -1 /\ k_net s' = delete (router_tap pid) (k_net s) \/
    r = -1 /\ declines /\ k_net s' = k_net s).
Proof using Hpid.
  intros Hb Hbr Hr Hw Hm Hdead. unfold router_net_cleanup.
  pose proof (names_differ pid) as (_ & Hrb & _).
  assert (Hrd : router_tap pid <> dead_tap pid) by congruence.
  pose proof (pid_name pid Hpid (B "router") (g_buf g) eq_refl ltac:(by_eval) ltac:(apply owned_names) : named _ (router_tap pid)) as Hnr.
  pose proof (pid_name pid Hpid (B "_dead") (g_buf g) eq_refl ltac:(by_eval) ltac:(apply owned_names) : named _ (dead_tap pid)) as Hnd.
  pose proof (pid_name pid Hpid (B "br") (g_buf g) eq_refl ltac:(by_eval) ltac:(apply owned_names) : named _ (bridge_of pid)) as Hnb.
  eapply trip_bind; [apply trip_remove_device_c|].
  { rewrite <- (proj1 Hnr). apply cstr_no_nul. }
  { apply owned_names. }
  intros e s1 [He Hn]. destruct (Z.eqb_spec e 0) as [->|Hne]; cbn [negb].
  2: { destruct He as [?|Hdec]; [done|].
       eapply trip_bind; [by apply (trip_set_errno _ _ _ _ _ _ _ (fun _ s' => s' = s1))|]. intros _ ? ->.
       apply trip_ret. naive_solver. }
  eapply trip_bind; [by apply trip_bridge_remove_if|]. intros r s2 Hrm.
  apply (trip_bind _ _ _ _ _ _ _ _ (fun _ s' => s' = s2)).
  { case_match; [apply trip_sysc; [done|]; by intros _ x s' ->|by apply trip_ret]. }
  intros _ ? ->. eapply trip_bind; [by apply trip_if_down|]. intros d s3 Hd.
  destruct Hn as [Hn|Hn].
  - destruct Hrm as [(_ & ib' & i' & (H1 & _ & H3) & _ & ->)|(_ & _ & [[]|Hno])].
    2: { destruct (Hno ib i); [|done]. split_and!; congruence. }
    rewrite Hn in H1, H3. simplify_eq.
    destruct Hd as [(-> & j & Hj & ->)|(_ & _ & [[]|Hd])]; simpl in *; rewrite lookup_insert_eq in *; simplify_eq.
    cbn [Z.eqb]. eapply trip_mono; [apply trip_if_rename; [done..|by apply numbered_plain]|].
    intros x s' [(-> & j & Hj & _ & ->)|(-> & -> & [[]|Hx])].
    + simpl in *. rewrite lookup_insert_eq in Hj. simplify_eq. left. split; [done|].
      rewrite !insert_insert_eq, delete_insert_eq, Hn. destruct i. simpl in *. by subst.
    + simpl in Hx. rewrite !insert_insert_eq in Hx. destruct Hx as [[j Hj]|Hx].
      * rewrite lookup_insert_ne, Hn in Hj by done. congruence.
      * specialize (Hx _ (lookup_insert_eq _ _ _)). done.
  - assert (Hgone : k_net s1 !! router_tap pid = None) by (rewrite Hn; apply lookup_delete_eq).
    destruct Hrm as [(_ & ib' & i' & (_ & _ & H3) & _)|(_ & -> & _)];
      [congruence|].
    destruct Hd as [(_ & j & Hj & _)|(-> & -> & _)]; [congruence|].
    cbn [Z.eqb]. apply trip_ret. auto.
Qed.

Lemma trip_bridge_cleanup s g ib :
  k_net s !! bridge_of pid = Some ib -> what ib = Bridge ->
  trip s (bridge_cleanup g pid) (fun r s' =>
    r = 0 /\ k_net s' = set_free (index ib) <$> delete (bridge_of pid) (k_net s)).
Proof using Hpid.
  intros Hb Hbr. pose proof (pid_name pid Hpid (B "br") (g_buf g) eq_refl ltac:(by_eval) ltac:(apply owned_names) : named _ (bridge_of pid)) as Hnb.
  eapply trip_mono; [by apply trip_bridge_delete|].
  intros r s' [(-> & i & Hi & _ & ->)|(_ & _ & [[]|Hno])]; [|by destruct (Hno ib Hb)].
  simplify_eq. done.
Qed.

Lemma trip_poll_loop s fuel fd :
  stops NoFuel s -> trip s (poll_loop fuel fd) (fun revents s' => revents = POLLERR /\ s' = s).
Proof using Type.
  intros Hs. induction fuel as [|fuel IH]; simpl; [by apply trip_halt|].
  apply trip_call_bind; [done|]. intros _ [v|en] s' [-> H]; [by apply trip_ret|].
  destruct H as [-> |[-> |[]]]; exact IH.
Qed.

(** The three ends of the listener, from the network [n] with the router's tap [i]. *)
Definition listener_ends (ib i : iface) (n : net) (st : stop) (s' : kstate) : Prop :=
  st = NoFuel /\ k_net s' = n \/
  exists n1, k_net s' = set_free (index ib) <$> delete (bridge_of pid) n1 /\
    (st = Exit 0 /\ n1 = <[dead_tap pid := Iface (index i) false None (Tap None true)]>
                           (delete (router_tap pid) n) \/
     st = Exit 1 /\ n1 = delete (router_tap pid) n \/
     st = Exit 1 /\ declines /\ n1 = n).

Lemma trip_exit_listener_main s g fuel fd dir ib i :
  k_net s !! bridge_of pid = Some ib -> what ib = Bridge ->
  k_net s !! router_tap pid = Some i -> what i = Tap None true -> master i = Some (index ib) ->
  k_net s !! dead_tap pid = None ->
  (forall st s', listener_ends ib i (k_net s) st s' -> stops st s') ->
  trip s (exit_listener_main g fuel fd pid dir (router_tap pid)) (fun _ _ => False).
Proof using Hpid.
  intros Hb Hbr Hr Hw Hm Hdead Hstops. pose proof (names_differ pid) as (_ & Hrb & _).
  assert (Hbd : bridge_of pid <> dead_tap pid) by congruence.
  unfold exit_listener_main. eapply trip_bind; [apply trip_poll_loop, Hstops; by left|].
  intros revents ? [-> ->]. cbn [negb]. rewrite Z.eqb_refl. cbn [negb].
  eapply trip_bind; [by apply (trip_router_net_cleanup s g dir ib i)|]. intros r s1 Hcl.
  assert (Hb1 : k_net s1 !! bridge_of pid = Some ib).
  { destruct Hcl as [[_ ->]|[[_ ->]|(_ & _ & ->)]]; by rewrite ?lookup_insert_ne, ?lookup_delete_ne. }
  apply (trip_bind _ _ _ _ _ _ _ _ (fun v s' => v = (if r =? -1 then 1 else 0) /\ s' = s1)).
  { case_match; [apply trip_sysc_bind; [done|]; intros _ x s' ->; by apply trip_ret|by apply trip_ret]. }
  intros v ? [-> ->]. eapply trip_bind; [by apply (trip_bridge_cleanup s1 g ib)|]. intros b s2 [-> Hn2]. cbn [Z.eqb].
  apply (trip_bind _ _ _ _ _ _ _ _ (fun v s' => v = (if r =? -1 then 1 else 0) /\ s' = s2)); [by apply trip_ret|].
  intros v ? [-> ->]. apply trip_halt, Hstops. right. exists (k_net s1). split; [done|].
  destruct Hcl as [[-> ->]|[[-> ->]|(-> & ? & ->)]]; simpl; auto.
Qed.

End Teardown.

(** ** The removal, whatever the kernel refuses

    Nothing is then said of how it ends; but the listener asks for no device that
    is not the process's own. *)

Section AnyKernel.
Variables (refuses declines : Prop) (pid : Z).
Hypothesis Hpid : 0 <= pid < 10 ^ 9.

#[local] Abbreviation trip := (NetKernel.trip refuses declines pid (owned pid) (fun _ _ => True)).
#[local] Abbreviation anything := (fun _ _ => True).

#[local] Lemma trip_warn s msg : trip s (sysc (Warn msg)) anything.
Proof using Type. by apply trip_sysc. Qed.

#[local] Lemma trip_any_remove_device s dir id : NUL ∉ id -> owned pid id -> trip s (remove_device_c dir id) anything.
Proof using Type.
  intros Hid Hown. unfold remove_device_c, remove_device. rewrite (take_nul_index id Hid).
  apply (trip_bind _ _ _ _ _ _ _ _ anything); [|by intros [?|?] s' _; apply trip_ret].
  apply trip_sysc_bind; [done|]. intros _ [child|e] s1 Hs1; [|by apply trip_ret].
  simpl in Hs1. subst s1. apply trip_sysc_bind; [|by intros _ x s2 _; repeat case_match; apply trip_ret].
  intros dir' a Hc. simpl in Hc. rewrite lookup_insert_eq in Hc. apply (inj Some) in Hc. by injection Hc as _ <-.
Qed.

#[local] Lemma trip_any_poll_loop s fuel fd : trip s (poll_loop fuel fd) anything.
Proof using Type.
  revert s. induction fuel as [|fuel IH]; intros s; simpl; [by apply trip_halt|].
  apply trip_call_bind; [done|]. intros _ [v|en] s' _; [by apply trip_ret|]. case_match; [done|].
  eapply trip_bind; [apply trip_warn|]. intros ? ? _. by apply trip_halt.
Qed.

#[local] Lemma trip_any_router_net_cleanup s g dir :
  trip s (router_net_cleanup g pid dir (router_tap pid)) anything.
Proof using Hpid.
  pose proof (pid_name pid Hpid (B "router") (g_buf g) eq_refl ltac:(by_eval) ltac:(apply owned_names) : NetKernel.named _ _ (router_tap pid)) as Hnr.
  pose proof (pid_name pid Hpid (B "_dead") (g_buf g) eq_refl ltac:(by_eval) ltac:(apply owned_names) : NetKernel.named _ _ (dead_tap pid)) as Hnd.
  pose proof (pid_name pid Hpid (B "br") (g_buf g) eq_refl ltac:(by_eval) ltac:(apply owned_names) : NetKernel.named _ _ (bridge_of pid)) as Hnb.
  unfold router_net_cleanup. eapply trip_bind; [apply trip_any_remove_device|].
  { rewrite <- (proj1 Hnr). apply cstr_no_nul. }
  { apply owned_names. }
  intros e s1 _. case_match.
  { eapply (trip_bind _ _ _ _ _ _ _ _ anything); [by apply trip_set_errno|]. intros ? ? _. by apply trip_ret. }
  eapply trip_bind; [by apply trip_bridge_remove_if|]. intros r s2 _.
  eapply (trip_bind _ _ _ _ _ _ _ _ anything); [case_match; [apply trip_warn|by apply trip_ret]|]. intros ? ? _.
  eapply trip_bind; [by apply trip_if_down|]. intros d s3 _. case_match; [by apply trip_ret|].
  eapply trip_mono; [apply trip_if_rename; [done..|by apply numbered_plain]|]. done.
Qed.

Lemma trip_any_exit_listener_main s g fuel fd dir :
  trip s (exit_listener_main g fuel fd pid dir (router_tap pid)) (fun _ _ => False).
Proof using Hpid.
  pose proof (pid_name pid Hpid (B "br") (g_buf g) eq_refl ltac:(by_eval) ltac:(apply owned_names) : NetKernel.named _ _ (bridge_of pid)) as Hnb.
  unfold exit_listener_main. eapply trip_bind; [apply trip_any_poll_loop|]. intros v s0 _.
  case_match; [by apply trip_halt|]. eapply trip_bind; [apply trip_any_router_net_cleanup|]. intros r s1 _.
  eapply (trip_bind _ _ _ _ _ _ _ _ anything).
  { case_match; [|by apply trip_ret]. eapply trip_bind; [apply trip_warn|]. intros. by apply trip_ret. }
  intros st s2 _. eapply trip_bind; [by apply trip_bridge_delete|]. intros b s3 _.
  eapply (trip_bind _ _ _ _ _ _ _ _ anything).
  { case_match; [|by apply trip_ret]. eapply trip_bind; [apply trip_warn|]. intros. by apply trip_ret. }
  intros st' s4 _. by apply trip_halt.
Qed.

End AnyKernel.

(** The devices once the bridge and the client's tap are gone. *)
Lemma release_freed pid (n1 m : net) ib ic fd :
  n1 !! client_tap pid = Some (Iface ic true (Some ib) (Tap (Some fd) false)) ->
  m !! bridge_of pid = None -> m !! client_tap pid = None -> unheld fd m ->
  (forall a, a <> bridge_of pid -> a <> client_tap pid -> set_free ib <$> n1 !! a = m !! a) ->
  release fd (set_free ib <$> delete (bridge_of pid) n1) = m.
Proof.
  intros Hc Hmb Hmc Hu Hoth. pose proof (names_differ pid) as (Hcb & _).
  apply map_eq. intros a. unfold release. rewrite lookup_omap, lookup_fmap.
  destruct (decide (a = bridge_of pid)) as [->|Hab]; [by rewrite lookup_delete_eq|].
  rewrite lookup_delete_ne by done. destruct (decide (a = client_tap pid)) as [->|Hac].
  - rewrite Hc, Hmc. simpl. unfold release1, held_by. rewrite what_set_free. simpl.
    by rewrite Z.eqb_refl.
  - rewrite (Hoth a Hab Hac). destruct (m !! a) as [i|] eqn:Hi; simpl; [|done].
    unfold release1. by rewrite (Hu a i Hi).
Qed.

Lemma set_free_same ib (n : net) a : fresh_index ib n -> set_free ib <$> n !! a = n !! a.
Proof.
  intros Hf. destruct (n !! a) as [i|] eqn:Hi; simpl; [|done]. by rewrite (set_free_fresh ib n a).
Qed.

#[local] Lemma rest_after_delete pid ib (n : net) i j k a :
  fresh_index ib n -> n !! router_tap pid = None -> a <> bridge_of pid -> a <> client_tap pid ->
  set_free ib <$> delete (router_tap pid) (<[router_tap pid := i]>
    (<[client_tap pid := j]> (<[bridge_of pid := k]> n))) !! a = n !! a.
Proof.
  intros Hf Hr Hab Hac. destruct (decide (a = router_tap pid)) as [->|Har]; [by rewrite lookup_delete_eq, Hr|].
  rewrite lookup_delete_ne, !lookup_insert_ne by done. by apply set_free_same.
Qed.

(** What the three ends of the listener leave of the network. *)
Lemma listener_ends_restore declines pid n fd ib ic ir i (n' : net) st s' :
  n' = <[router_tap pid := i]>
        (<[client_tap pid := Iface ic true (Some ib) (Tap (Some fd) false)]>
          (<[bridge_of pid := Iface ib true None Bridge]> n)) ->
  i = Iface ir true (Some ib) (Tap None true) ->
  n !! bridge_of pid = None -> n !! client_tap pid = None -> n !! router_tap pid = None ->
  n !! dead_tap pid = None -> fresh_index ib n -> unheld fd n ->
  listener_ends declines pid (Iface ib true None Bridge) i n' st s' ->
  st = NoFuel /\ k_net s' = n' \/
  st = Exit 0 /\ release fd (k_net s') = <[dead_tap pid := Iface ir false None (Tap None true)]> n \/
  st = Exit 1 /\ release fd (k_net s') = n \/
  st = Exit 1 /\ declines /\ release fd (k_net s') = <[router_tap pid := Iface ir true None (Tap None true)]> n.
Proof.
  intros -> -> Hb Hc Hr Hd Hf Hu [?|(n1 & -> & Hn1)]; [by left|right].
  pose proof (names_differ pid) as (Hcb & Hrb & Hcr).
  assert (Hdn : dead_tap pid <> bridge_of pid /\ dead_tap pid <> client_tap pid /\ dead_tap pid <> router_tap pid)
    by (by split_and!; intros H; apply (f_equal head) in H).
  destruct Hdn as (Hdb & Hdc & Hdr).
  destruct Hn1 as [[-> ->]|[[-> ->]|(-> & Hdec & ->)]]; [left|right; left|right; right]; split_and!; try done;
    apply (release_freed pid _ _ ib ic); simpl;
    try (by rewrite ?lookup_insert_ne, ?lookup_delete_ne, ?lookup_insert_ne, ?lookup_insert_eq by done);
    try (by apply map_Forall_insert_2); intros a Hab Hac.
  - destruct (decide (a = dead_tap pid)) as [->|Had]; [by rewrite !lookup_insert_eq|].
    rewrite !(lookup_insert_ne _ (dead_tap pid)) by done. by apply rest_after_delete.
  - by apply rest_after_delete.
  - destruct (decide (a = router_tap pid)) as [->|Har].
    + rewrite !lookup_insert_eq. simpl. unfold set_free. by rewrite decide_True.
    + rewrite !lookup_insert_ne by done. by apply set_free_same.
Qed.

(** ** Whether the bridge was deleted *)

(** [bridge_delete] fails only if the kernel refuses to delete the bridge, or to
    open the socket for that. *)
Lemma bridge_delete_fails name e tr e' :
  exec (bridge_delete name e) tr (Done (-1, e')) ->
  (exists fd en, Event (BrDel fd (cstr name)) (Err en) ∈ tr) \/
  exists t en, tr = t ++ [Event Socket (Err en)].
Proof.
  intros H. unfold bridge_delete in H. apply exec_mbind_done in H as (d & e1 & t1 & t2 & -> & _ & H).
  apply exec_mbind_done in H as (u & e2 & t3 & t4 & -> & _ & H).
  apply exec_mbind_done in H as (x & e3 & t5 & t6 & -> & Hs & H). apply exec_ccall in Hs as (r & -> & Hr).
  simplify_eq. destruct r as [fd|en].
  2: { apply exec_mret in H as [-> _]. right. exists (t1 ++ t3), en. by rewrite <- !app_assoc. }
  apply exec_mbind_done in H as (x & e4 & t7 & t8 & -> & Hd & H). apply exec_ccall in Hd as (r & -> & Hr).
  simplify_eq. destruct r as [u'|en]; [by unfold close_return in H; msteps|].
  left. exists fd, en. rewrite !elem_of_app. right. right. right. left. left.
Qed.

(** The two ways in which [net_setup] fails: there is no bridge, or it ends with
    an attempt to delete it. *)
Lemma net_setup_fails g fuel dir e tr c e' :
  exec (net_setup g fuel dir e) tr (Done (c, e')) -> c_fd c = -1 ->
  exists pid t, tr = Event GetPid pid :: t /\
    let name := snprintf (g_buf g) (B "br" ++ dec pid) in
    ((exists e1, exec (bridge_add name e) t (Done (-1, e1))) \/
     exists a e1 ta tb td fd x r e2 e3, t = ta ++ tb ++ td ++ [Event (Close fd) x] /\
       exec (bridge_add name e) ta (Done (a, e1)) /\ a <> -1 /\ exec (bridge_delete name e2) td (Done (r, e3))).
Proof.
  intros H Hc. unfold net_setup in H.
  apply exec_mbind_done in H as (p0 & ? & ? & t & -> & Hp & H). apply exec_sysc in Hp as (pid & -> & ?).
  simplify_eq. exists pid, t. split; [done|]. cbv zeta. set (name := snprintf _ _) in *.
  apply exec_mbind_done in H as (a & e1 & ta & t1 & -> & Ha & H).
  destruct (Z.eqb_spec a (-1)) as [->|Hne].
  { apply exec_mret in H as [-> _]. rewrite app_nil_r. eauto. }
  right.
  assert (Hfail : forall tb fd (k : NetConfigC) e0 td,
    exec ((let* _ := bridge_delete name in let* _ := ccall (Close fd) in mret k) e0) td (Done (c, e')) ->
    t1 = tb ++ td -> exists a e1 ta' tb td fd x r e2 e3, ta ++ t1 = ta' ++ tb ++ td ++ [Event (Close fd) x] /\
      exec (bridge_add name e) ta' (Done (a, e1)) /\ a <> -1 /\ exec (bridge_delete name e2) td (Done (r, e3))).
  { intros tb fd k e0 td Hd ->. apply exec_mbind_done in Hd as (r & e2 & td1 & t2 & -> & Hd & Hcl).
    apply exec_mbind_done in Hcl as (x & ? & ? & ? & -> & Hx & Hm). apply exec_ccall in Hx as (y & -> & ?).
    apply exec_mret in Hm as [-> _]. exists a, e1, ta, tb, td1, fd, y, r, e0, e2. done. }
  apply exec_mbind_done in H as (u & e4 & t2 & t3 & -> & _ & H).
  destruct (u =? -1); [by eapply (Hfail t2); [exact H|]|].
  apply exec_mbind_done in H as ([fd id] & e5 & t4 & t5 & -> & _ & H).
  destruct (Z.eqb_spec fd (-1)) as [->|Hfd]; [eapply (Hfail (t2 ++ t4)); [exact H|by rewrite <- app_assoc]|].
  apply exec_mbind_done in H as ([rr dev] & e6 & t6 & t7 & -> & _ & H).
  destruct (rr =? -1); [eapply (Hfail (t2 ++ t4 ++ t6)); [exact H|by rewrite <- !app_assoc]|].
  apply exec_mbind_done in H as (l & e7 & t8 & t9 & -> & _ & H).
  destruct (l =? -1); [eapply (Hfail (t2 ++ t4 ++ t6 ++ t8)); [exact H|by rewrite <- !app_assoc]|].
  apply exec_mret in H as [_ ?]. by simplify_eq.
Qed.

(** The deletion of the bridge was refused. *)
Definition delete_refused (pid : Z) (tr : list (event sys)) : Prop :=
  (exists fd en, Event (BrDel fd (bridge_of pid)) (Err en) ∈ tr) \/
  exists t en fd x, tr = t ++ [Event Socket (Err en); Event (Close fd) x].

Lemma behaves_app refuses declines pid s t1 t2 s' :
  behaves refuses declines pid s (t1 ++ t2) s' <->
  exists s1, behaves refuses declines pid s t1 s1 /\ behaves refuses declines pid s1 t2 s'.
Proof.
  revert s. induction t1 as [|[X c x] t1 IH]; intros s; simpl; [naive_solver|]. setoid_rewrite IH. naive_solver.
Qed.

Lemma release_lookup_None fd (n : net) a : n !! a = None -> release fd n !! a = None.
Proof. intros H. unfold release. by rewrite lookup_omap, H. Qed.

(** The bridge is as it was unless its deletion was refused. *)
Lemma net_setup_bridge (refuses declines : Prop) pid s g fuel dir e tr c e' s' :
  0 <= pid < 10 ^ 9 -> wf (k_net s) ->
  exec (net_setup g fuel dir e) tr (Done (c, e')) -> behaves refuses declines pid s tr s' -> c_fd c = -1 ->
  k_net s' !! bridge_of pid = k_net s !! bridge_of pid \/ delete_refused pid tr.
Proof.
  intros Hpid Hw He Hb Hc. apply net_setup_fails in He as (pid' & t & -> & H); [|done].
  destruct Hb as (s0 & [Hs0 Hpp] & Hb). subst s0 pid'. cbv zeta in H. set (name := snprintf _ _) in *.
  pose proof (pid_name pid Hpid (B "br") (g_buf g) eq_refl ltac:(by_eval) ltac:(apply owned_names)
    : NetKernel.named _ name (bridge_of pid)) as Hn.
  pose proof (trip_bridge_add refuses declines pid _ (fun _ _ => True) s name (bridge_of pid) Hn
    ltac:(by apply numbered_plain)) as Hadd.
  destruct H as [(e1 & H)|(a & e1 & ta & tb & td & fd & x & r & e2 & e3 & -> & Ha & Hne & Hd)].
  { eapply trip_sound in H; [|exact Hadd|done..]. left. destruct H as [[? _]|(_ & -> & _)]; done. }
  apply behaves_app in Hb as (s1 & Hb1 & Hb). apply behaves_app in Hb as (s2 & Hb2 & Hb).
  apply behaves_app in Hb as (s3 & Hb3 & (s4 & Hcl & ->)).
  pose proof (behaves_wf _ _ _ _ _ _ _ Hb1 Hw) as Hw1. pose proof (behaves_wf _ _ _ _ _ _ _ Hb2 Hw1) as Hw2.
  eapply trip_sound in Ha; [|exact Hadd|done..]. destruct Ha as [(_ & idx & Hfree & _)|(? & _)]; [|done].
  pose proof (trip_sound _ _ _ _ _ _ _ _ _ _ _ _ _
    (trip_bridge_delete refuses declines pid _ (fun _ _ => True) s2 name (bridge_of pid) Hn) Hw2 Hd Hb3) as Hdel.
  destruct Hdel as [(-> & i & _ & _ & ->)|(-> & _)].
  - left. rewrite Hfree. cbn [kstep_at] in Hcl.
    assert (Hgone : (set_free (index i) <$> delete (bridge_of pid) (k_net s2)) !! bridge_of pid = None)
      by (by rewrite lookup_fmap, lookup_delete_eq).
    destruct (fd =? -1); [by destruct Hcl as [_ ->]|]. subst s4. by apply release_lookup_None.
  - right. apply bridge_delete_fails in Hd as [(fd' & en & Hin)|(t & en & ->)].
    + left. exists fd', en. rewrite (proj1 Hn) in Hin. rewrite !elem_of_cons, !elem_of_app. auto.
    + right. exists (Event GetPid pid :: ta ++ tb ++ t), en, fd, x. simpl. by rewrite <- !app_assoc.
Qed.

(** ** The theorems *)

(** What a failure leaves of the network: the router's tap, if the router has
    it, and the bridge, if its deletion was refused. *)
Definition left_behind (pid : Z) (tr : list (event sys)) (n n' : net) : Prop :=
  (forall a, a <> bridge_of pid -> a <> router_tap pid -> n' !! a = n !! a) /\
  (n' !! bridge_of pid = n !! bridge_of pid \/ delete_refused pid tr) /\
  (n' !! router_tap pid = n !! router_tap pid \/
   n !! router_tap pid = None /\ exists i, n' !! router_tap pid = Some i /\ what i = Tap None true).

(** C14. What [net_setup] makes of the host's network, whatever the kernel and
    the router answer.  If it returns a descriptor, there are exactly three new
    interfaces: a bridge [brPID] that is up, a tap [clientPID] that is up, in the
    bridge and held by that descriptor, and a tap [routerPID] that is up, in the
    bridge and held by the router.  If it returns -1, then the kernel or the
    router refused something, or one of the names was taken; no other interface
    has been touched, the client's tap is gone, and so is the bridge unless its
    deletion was tried and refused: the request to delete it failed, or the very
    last socket, opened for that request, could not be opened.  Only a tap that
    the router has already been given can remain. *)
Theorem net_setup_topology (refuses declines : Prop) pid s g fuel dir e tr c e' s' :
  0 <= pid < 10 ^ 9 -> wf (k_net s) ->
  exec (net_setup g fuel dir e) tr (Done (c, e')) -> behaves refuses declines pid s tr s' ->
  0 <= c_fd c /\ topology pid (k_net s) (c_fd c) (k_net s') \/
  c_fd c = -1 /\ left_behind pid tr (k_net s) (k_net s') /\
    (refuses \/ declines \/ taken pid (k_net s)).
Proof.
  intros Hpid Hw He Hb. pose proof (net_setup_bridge refuses declines pid s g fuel dir e tr c e' s' Hpid Hw He Hb) as Hbr.
  destruct (trip_sound _ _ _ _ _ _ _ _ _ _ _ _ _ (trip_net_setup refuses declines pid Hpid s g fuel dir) Hw He Hb)
    as [?|(Hc & (Hoth & _ & Hr) & Hwhy)]; [by left|right].
  split_and!; [done| |done]. split_and!; [done|by apply Hbr|done].
Qed.

(** An empty network, process 1234, and a router that accepts its interface. *)
Definition nothing : kstate := KState ∅ ∅.
Definition vm_dir0 : bytes := B "/run/vm/netvm".
Definition router_net : NetConfig :=
  {| net_fd := 6; net_id := B "router1234"; net_mac := router_mac 1234 |}.

Definition sim_run {A} (m : M A) (s : kstate) := run (sim 1234 vm_dir0 router_net) (m 0) s.
Definition set_up := sim_run (net_setup no_garbage 1 vm_dir0) nothing.

Lemma wf_nothing : wf (k_net nothing).
Proof. by intros a b i j ?. Qed.

Lemma net_setup_topology_witness : topology 1234 ∅ 3 (k_net set_up.2).
Proof.
  destruct (net_setup_topology False True 1234 nothing no_garbage 1 vm_dir0 0 set_up.1.2
    {| c_fd := 3; c_id := B "client1234" ++ replicate 6 NUL; c_mac := client_mac 1234 |} 0 set_up.2)
    as [[_ H]|[H _]].
  - done.
  - exact wf_nothing.
  - assert (H : set_up.1.1 = Done ({| c_fd := 3; c_id := B "client1234" ++ replicate 6 NUL;
      c_mac := client_mac 1234 |}, 0)) by (vm_compute; reflexivity).
    rewrite <- H. apply exec_run.
  - apply sim_behaves; [done..|exact wf_nothing].
  - exact H.
  - discriminate H.
Defined.


Definition torn_down := sim_run (exit_listener_main no_garbage 1 7 1234 vm_dir0 (router_tap 1234)) set_up.2.

Lemma wf_set_up : wf (k_net set_up.2).
Proof.
  eapply behaves_wf; [|exact wf_nothing]. apply (sim_behaves 1234 (fun fd => fd) vm_dir0 router_net); [done..|exact wf_nothing].
Qed.


End Topology.
