(* ===== verification/Concurrent.v ===== *)
(** * Concurrent: several [start-vmm] on one host

    Each VM has a [start-vmm] of its own, and they make their networks at the
    same time.  Here the calls of any number of processes are interleaved on one
    kernel of [NetKernel], whose devices all of them see.  What is proved of one
    process in [Topology] is shown to hold of each: a process is only concerned
    with the devices that carry its process id, so that it cannot tell whether
    others are at work. *)

From stdpp Require Import functions.
From S2P Require Import Prelude Effects Wp RustStd Sys Scenario Mac Ch NetUtil FdLogic NetSetup NetKernel NetSim Topology.

Module Concurrent.
Import Mac Ch NetUtil NetSetup NetKernel NetSim Topology.

(** ** Whose descriptor, whose device *)

(** The descriptor or child [fd] of process [p]. *)
Definition tag (p fd : Z) : Z := fd * 10 ^ 9 + p.

Definition is_pid (p : Z) : Prop := 0 <= p < 10 ^ 9.

Lemma tag_inj p q a b : is_pid p -> is_pid q -> tag p a = tag q b -> p = q /\ a = b.
Proof. unfold is_pid, tag. lia. Qed.

Lemma untag p fd : is_pid p -> tag p fd / 10 ^ 9 = fd.
Proof. unfold is_pid, tag. intros Hp. symmetry. apply (Z.div_unique_pos _ _ fd p); lia. Qed.

Lemma tag_up p fd : 0 <= p -> 0 <= fd -> fd <= tag p fd.
Proof. unfold tag. lia. Qed.

Global Instance owned_dec p n : Decision (owned p n).
Proof. unfold owned. apply _. Defined.

Lemma owned_apart p q n : 0 <= p -> 0 <= q -> owned p n -> owned q n -> p = q.
Proof.
  intros Hp Hq. unfold owned, bridge_of, client_tap, router_tap, dead_tap.
  intros [-> |[-> |[-> | ->]]] [H|[H|[H|H]]]; try (by apply (f_equal head) in H);
    apply app_inv_head in H; by apply dec_inj.
Qed.

(** ** What a process sees of the devices: its own *)

Definition see1 (i : iface) : iface :=
  match what i with Tap (Some h) w => with_kind (Tap (Some (h / 10 ^ 9)) w) i | _ => i end.

Definition seen (p : Z) (n : net) : net := see1 <$> filter (fun x => owned p x.1) n.

Lemma lookup_seen p (n : net) a : seen p n !! a = if decide (owned p a) then see1 <$> n !! a else None.
Proof.
  unfold seen. rewrite lookup_fmap, map_lookup_filter. destruct (n !! a); simpl; [|by case_decide].
  unfold guard. by repeat case_decide.
Qed.

Lemma seen_owned p (n : net) a : owned p a -> seen p n !! a = see1 <$> n !! a.
Proof. intros H. by rewrite lookup_seen, decide_True. Qed.

Lemma seen_Some p (n : net) a i' : seen p n !! a = Some i' ->
  owned p a /\ exists i, n !! a = Some i /\ i' = see1 i.
Proof.
  rewrite lookup_seen. case_decide; [|done]. intros (i & -> & ?)%fmap_Some. eauto.
Qed.

Lemma seen_ext p (n n' : net) : (forall a, owned p a -> n' !! a = n !! a) -> seen p n' = seen p n.
Proof. intros H. apply map_eq. intros a. rewrite !lookup_seen. case_decide; [by rewrite H|done]. Qed.

Lemma see1_index i : index (see1 i) = index i.
Proof. unfold see1. by repeat case_match. Qed.
Lemma see1_up i : up (see1 i) = up i.
Proof. unfold see1. by repeat case_match. Qed.
Lemma see1_master i : master (see1 i) = master i.
Proof. unfold see1. by repeat case_match. Qed.
Lemma see1_bridge i : what (see1 i) = Bridge <-> what i = Bridge.
Proof. destruct i as [? ? ? [|[|]]]; split; (done || by intros [=]). Qed.
Lemma see1_away i : what (see1 i) = Tap None true <-> what i = Tap None true.
Proof. destruct i as [? ? ? [|[|]]]; split; (done || by intros [=]). Qed.
Lemma see1_with_up b i : see1 (with_up b i) = with_up b (see1 i).
Proof. unfold see1. simpl. by repeat case_match. Qed.
Lemma see1_with_master m i : see1 (with_master m i) = with_master m (see1 i).
Proof. unfold see1. simpl. by repeat case_match. Qed.
Lemma see1_set_free idx i : see1 (set_free idx i) = set_free idx (see1 i).
Proof. unfold set_free. rewrite see1_master. case_decide; [apply see1_with_master|done]. Qed.

(** The devices that [p] holds carry its tag. *)
Definition tagged (p : Z) (i : iface) : Prop :=
  forall h w, what i = Tap (Some h) w -> exists fd, h = tag p fd.

Lemma held_seen p fd i : is_pid p -> tagged p i -> held_by fd (see1 i) = held_by (tag p fd) i.
Proof.
  intros Hp Ht. unfold held_by, see1. destruct (what i) as [|[h|] w] eqn:Hw; simpl; rewrite ?Hw; [done| |done].
  destruct (Ht h w Hw) as [fd' ->]. rewrite untag by done.
  destruct (Z.eqb_spec fd' fd) as [-> |Hne]; [by rewrite Z.eqb_refl|].
  symmetry. apply Z.eqb_neq. intros H. apply Hne. by destruct (tag_inj p p fd' fd Hp Hp H).
Qed.

Lemma release1_seen p fd i : is_pid p -> tagged p i ->
  see1 <$> release1 (tag p fd) i = release1 fd (see1 i).
Proof.
  intros Hp Ht. unfold release1. rewrite (held_seen p) by done. destruct (held_by _ i) eqn:Hh; [|done].
  unfold held_by in Hh. unfold see1. destruct (what i) as [|[h|] [|]] eqn:Hw; simpl; rewrite ?Hw; try done.
Qed.

Lemma hand1_seen p P i : is_pid p -> tagged p i ->
  see1 (hand1 P i) = hand1 (fun fd => P (tag p fd)) (see1 i).
Proof.
  intros Hp Ht. unfold hand1, see1. destruct (what i) as [|[h|] w] eqn:Hw; simpl; rewrite ?Hw; simpl; rewrite ?Hw; try done.
  destruct (Ht h w Hw) as [fd ->]. by rewrite untag.
Qed.

(** ** Devices change by the calls of one process *)

Section Apart.
Variable P : Z -> Prop.

(** What the processes hold, and what is in their bridges, is theirs. *)
Record apart (n : net) : Prop := {
  ap_holder : forall p a i fd, P p -> n !! a = Some i -> held_by (tag p fd) i = true -> owned p a;
  ap_tagged : forall p a i, P p -> owned p a -> n !! a = Some i -> tagged p i;
  ap_members : forall p a b i j, P p -> owned p a -> n !! a = Some i -> n !! b = Some j ->
    master j = Some (index i) -> owned p b;
}.

(** The change from [n] to [n'] concerns the devices of [p] only. *)
Record concerns (p : Z) (n n' : net) : Prop := {
  co_frame : forall a, ~ owned p a -> n' !! a = n !! a;
  co_tagged : forall a i, owned p a -> n' !! a = Some i -> tagged p i;
  co_index : forall a i, owned p a -> n' !! a = Some i ->
    fresh_index (index i) n \/ exists b j, owned p b /\ n !! b = Some j /\ index j = index i;
  co_master : forall a i m, owned p a -> n' !! a = Some i -> master i = Some m ->
    exists b j, owned p b /\ n !! b = Some j /\ (master j = Some m \/ index j = m);
}.

Lemma apart_concerns p (n n' : net) :
  (forall q, P q -> is_pid q) -> P p -> wf n -> apart n -> concerns p n n' -> apart n'.
Proof.
  intros HP Hp Hw [Hh Ht Hm] [Cf Ct Ci Cm].
  assert (Hown : forall q a, P q -> owned p a -> owned q a -> q = p).
  { intros q a Hq H1 H2. eapply owned_apart; [apply HP..| |]; done. }
  split.
  - intros q a i fd Hq Ha Hi. destruct (decide (owned p a)) as [Hpa|Hpa].
    2: { rewrite Cf in Ha by done. eauto. }
    unfold held_by in Hi. destruct (what i) as [|[h|] w] eqn:Hwh; try done. apply Z.eqb_eq in Hi as ->.
    destruct (Ct a i Hpa Ha _ _ Hwh) as [fd' Hfd]. by apply tag_inj in Hfd as [-> _]; [|apply HP..].
  - intros q a i Hq Hqa Ha. destruct (decide (owned p a)) as [Hpa|Hpa].
    + rewrite (Hown q a) by done. eauto.
    + rewrite Cf in Ha by done. eauto.
  - intros q a b i j Hq Hqa Ha Hb Hj.
    destruct (decide (owned p a)) as [Hpa|Hpa], (decide (owned p b)) as [Hpb|Hpb].
    + by rewrite (Hown q a).
    + rewrite (Hown q a) by done. rewrite Cf in Hb by done.
      destruct (Ci a i Hpa Ha) as [Hf|(a' & i' & Ha' & Hi' & Hidx)]; [by destruct (Hf b j Hb)|].
      eapply Hm; [exact Hp|exact Ha'|exact Hi'|exact Hb|congruence].
    + rewrite Cf in Ha by done. destruct (Cm b j _ Hpb Hb Hj) as (b' & j' & Hb' & Hj' & [Hmas|Hidx]).
      * assert (owned q b') by (by eapply Hm). by rewrite (Hown q b').
      * destruct Hpa. assert (b' = a) as -> by (by eapply Hw). done.
    + rewrite Cf in Ha, Hb by done. eauto.
Qed.

(** A device that comes from another, with no new bridge and no new holder. *)
Definition from (j i : iface) : Prop :=
  index i = index j /\ (master i = master j \/ master i = None) /\
  forall h w, what i = Tap (Some h) w -> exists w', what j = Tap (Some h) w'.

Lemma from_refl i : from i i.
Proof. split_and!; eauto. Qed.

Lemma concerns_from p (n n' : net) :
  P p -> apart n -> (forall a, ~ owned p a -> n' !! a = n !! a) ->
  (forall a i, owned p a -> n' !! a = Some i -> exists b j, owned p b /\ n !! b = Some j /\ from j i) ->
  concerns p n n'.
Proof.
  intros Hp Hap Hf H. split; [done|..].
  - intros a i Ha (b & j & Hb & Hj & _ & _ & Hw)%H h w Hi; [|done]. destruct (Hw h w Hi) as [w' Hw'].
    by eapply ap_tagged.
  - intros a i Ha (b & j & Hb & Hj & Hidx & _)%H; [|done]. right. by exists b, j.
  - intros a i m Ha (b & j & Hb & Hj & _ & Hmas & _)%H Hm; [|done]. exists b, j. split_and!; [done..|].
    left. destruct Hmas; congruence.
Qed.

Lemma concerns_refl p (n : net) : P p -> apart n -> concerns p n n.
Proof. intros Hp Hap. apply concerns_from; [done..|]. intros a i Ha Hi. exists a, i. auto using from_refl. Qed.

Lemma concerns_insert p (n : net) a i :
  P p -> apart n -> owned p a -> tagged p i ->
  fresh_index (index i) n \/ (exists b j, owned p b /\ n !! b = Some j /\ index j = index i) ->
  (forall m, master i = Some m -> exists b j, owned p b /\ n !! b = Some j /\ (master j = Some m \/ index j = m)) ->
  concerns p n (<[a := i]> n).
Proof.
  intros Hp Hap Ha Ht Hidx Hmas. pose proof (concerns_refl p n Hp Hap) as [Cf Ct Ci Cm]. split.
  - intros b Hb. rewrite lookup_insert_ne; [done|]. by intros ->.
  - intros b j Hb [[<- <-]|[_ Hj]]%lookup_insert_Some; eauto.
  - intros b j Hb [[<- <-]|[_ Hj]]%lookup_insert_Some; eauto.
  - intros b j m Hb [[<- <-]|[_ Hj]]%lookup_insert_Some; eauto.
Qed.

End Apart.

(** *** The calls, on all devices and on those that are seen *)

Lemma seen_insert p (n : net) a i : owned p a -> seen p (<[a := i]> n) = <[a := see1 i]> (seen p n).
Proof.
  intros Ha. apply map_eq. intros b. rewrite lookup_seen. destruct (decide (b = a)) as [->|Hb].
  - by rewrite decide_True, !lookup_insert_eq.
  - by rewrite !lookup_insert_ne, lookup_seen.
Qed.

Lemma seen_delete p (n : net) a : seen p (delete a n) = delete a (seen p n).
Proof.
  apply map_eq. intros b. rewrite lookup_seen. destruct (decide (b = a)) as [->|Hb].
  - rewrite !lookup_delete_eq. by case_decide.
  - by rewrite !lookup_delete_ne, lookup_seen.
Qed.

Lemma seen_set_free p idx (n : net) : seen p (set_free idx <$> n) = set_free idx <$> seen p n.
Proof.
  apply map_eq. intros b. rewrite lookup_fmap, !lookup_seen, lookup_fmap. case_decide; [|done].
  destruct (n !! b); simpl; [|done]. by rewrite see1_set_free.
Qed.

Lemma seen_drop_named p L (n : net) : seen p (drop_named L n) = drop_named L (seen p n).
Proof.
  apply map_eq. intros b. rewrite lookup_drop_named, !lookup_seen, lookup_drop_named. by repeat case_match.
Qed.

Section Seen.
Variables (P : Z -> Prop) (p : Z) (n : net).
Hypotheses (Hpid : is_pid p) (Hp : P p) (Hap : apart P n).

#[local] Lemma own_tagged a i : owned p a -> n !! a = Some i -> tagged p i.
Proof using Hap Hp. intros Ha Hi. by eapply ap_tagged. Qed.

Lemma seen_release fd : seen p (release (tag p fd) n) = release fd (seen p n).
Proof using Hap Hp Hpid.
  apply map_eq. intros b. unfold release. rewrite lookup_omap, !lookup_seen, lookup_omap.
  case_decide as Hb; [|done]. destruct (n !! b) as [i|] eqn:Hi; simpl; [|done].
  apply release1_seen; [done|]. by eapply own_tagged.
Qed.

Lemma seen_hand H : seen p (hand1 H <$> n) = hand1 (fun fd => H (tag p fd)) <$> seen p n.
Proof using Hap Hp Hpid.
  apply map_eq. intros b. rewrite lookup_fmap, !lookup_seen, lookup_fmap.
  case_decide as Hb; [|done]. destruct (n !! b) as [i|] eqn:Hi; simpl; [|done].
  f_equal. apply hand1_seen; [done|]. by eapply own_tagged.
Qed.

Lemma unheld_seen fd : unheld (tag p fd) n <-> unheld fd (seen p n).
Proof using Hap Hp Hpid.
  split.
  - intros Hu a i' [Ha (i & Hi & ->)]%seen_Some.
    rewrite (held_seen p) by (done || by eapply own_tagged). by apply (Hu a).
  - intros Hu a i Hi. destruct (held_by (tag p fd) i) eqn:Hh; [|done].
    assert (Ha : owned p a) by (by eapply ap_holder). specialize (Hu a (see1 i)). cbv beta in Hu.
    rewrite (held_seen p), Hh in Hu by (done || by eapply own_tagged). apply Hu.
    by rewrite seen_owned, Hi.
Qed.

Lemma fresh_seen idx : fresh_index idx n -> fresh_index idx (seen p n).
Proof.
  intros Hf a i' [Ha (i & Hi & ->)]%seen_Some. rewrite see1_index, see1_master. by apply (Hf a).
Qed.

Lemma seen_wf : wf n -> wf (seen p n).
Proof.
  intros Hw a b i j [_ (i' & Hi & ->)]%seen_Some [_ (j' & Hj & ->)]%seen_Some. rewrite !see1_index. by eapply Hw.
Qed.

(** Devices of others are left alone. *)
Lemma release_concerns fd : concerns p n (release (tag p fd) n).
Proof using Hap Hp.
  apply (concerns_from P); [done..| |].
  - intros a Ha. unfold release. rewrite lookup_omap. destruct (n !! a) as [i|] eqn:Hi; simpl; [|done].
    unfold release1. destruct (held_by _ i) eqn:Hh; [|done]. destruct Ha. by eapply ap_holder.
  - intros a i Ha (j & Hj & Hi)%lookup_omap_Some. exists a, j. split_and!; [done..|].
    unfold release1 in Hj. repeat case_match; simplify_eq; [|apply from_refl]. split_and!; simpl; auto. done.
Qed.

Lemma set_free_concerns a i :
  owned p a -> n !! a = Some i -> concerns p n (set_free (index i) <$> delete a n).
Proof using Hap Hp.
  intros Ha Hi. apply (concerns_from P); [done..| |].
  - intros b Hb. rewrite lookup_fmap, lookup_delete_ne by (by intros ->).
    destruct (n !! b) as [j|] eqn:Hj; simpl; [|done]. unfold set_free. case_decide as Hm; [|done].
    destruct Hb. by eapply (ap_members P n Hap p a b).
  - intros b j' Hb (j & <- & [_ Hj]%lookup_delete_Some)%lookup_fmap_Some. exists b, j. split_and!; [done..|].
    unfold set_free. case_decide; [|apply from_refl]. split_and!; simpl; eauto.
Qed.

Lemma rename_concerns a b i :
  owned p a -> owned p b -> n !! a = Some i -> concerns p n (<[b := i]> (delete a n)).
Proof using Hap Hp.
  intros Ha Hb Hi. apply (concerns_from P); [done..| |].
  - intros c Hc. rewrite lookup_insert_ne, lookup_delete_ne; [done|by intros ->..].
  - intros c j Hc [[<- <-]|[_ [_ Hj]%lookup_delete_Some]]%lookup_insert_Some.
    + exists a, i. auto using from_refl.
    + exists c, j. auto using from_refl.
Qed.

Lemma update_concerns a i i' :
  owned p a -> n !! a = Some i -> from i i' -> concerns p n (<[a := i']> n).
Proof using Hap Hp.
  intros Ha Hi Hf. apply (concerns_from P); [done..| |].
  - intros c Hc. rewrite lookup_insert_ne; [done|by intros ->].
  - intros c j Hc [[<- <-]|[_ Hj]]%lookup_insert_Some.
    + by exists a, i.
    + exists c, j. auto using from_refl.
Qed.

Lemma hand_concerns H L :
  (forall h, H h = true -> exists fd, h = tag p fd) -> (forall a, L a = true -> owned p a) ->
  concerns p n (drop_named L (hand1 H <$> n)).
Proof using Hap Hp.
  intros HH HL. apply (concerns_from P); [done..| |].
  - intros a Ha. rewrite lookup_drop_named, lookup_fmap. destruct (L a) eqn:HLa; [by destruct Ha; auto|].
    destruct (n !! a) as [i|] eqn:Hi; simpl; [|done]. f_equal. unfold hand1.
    destruct (what i) as [|[h|] w] eqn:Hw; [done| |done]. destruct (H h) eqn:Hh.
    + destruct (HH h Hh) as [fd ->]. destruct Ha. eapply (ap_holder P n Hap); [done..|].
      unfold held_by. rewrite Hw. apply Z.eqb_refl.
    + destruct i. simpl in *. by rewrite orb_false_r, <- Hw.
  - intros a i' Ha. rewrite lookup_drop_named, lookup_fmap. destruct (L a); [done|].
    intros (i & Hi & ->)%fmap_Some. exists a, i. split_and!; [done..|]. unfold hand1.
    repeat case_match; try apply from_refl. split_and!; simpl; auto. intros h w' [= <- <-]. eauto.
Qed.

End Seen.

(** ** One call of one process *)

(** The devices and children of [p], as it sees them when all there is is [g]. *)
Definition views (p : Z) (l g : kstate) : Prop :=
  k_net l = seen p (k_net g) /\ forall child, k_children l !! child = k_children g !! tag p child.

(** The first name that is meant. *)
Lemma meant_first wanted n : wanted = n /\ PERCENT ∉ n \/ zeroth wanted n -> meant wanted n.
Proof.
  intros [[-> Hn]|(prefix & Hp & -> & ->)]; unfold meant.
  - split_and!; [done..|]. intros prefix _ ->. destruct Hn. apply elem_of_app. right. by_eval.
  - rewrite !not_elem_of_app. split_and!; [done|by_eval| |].
    + intros _ [_ H]. destruct H. by_eval.
    + intros prefix' _ H%app_inv_tail. subst prefix'. by exists 0.
Qed.

Section Step.
Variables (refuses declines : Prop) (P : Z -> Prop) (p : Z) (n : net) (ch lch : gmap Z Sys.command).
Hypotheses (Hpid : is_pid p) (Hp : P p) (Hap : apart P n) (Hw : wf n).
Hypothesis Hch : forall child, lch !! child = ch !! tag p child.

#[local] Abbreviation g := (KState n ch).
#[local] Abbreviation l := (KState (seen p n) lch).

(** The call concerns the process alone, and is what it takes it for. *)
Record local_step {X} (c : sys X) (x : X) (g' : kstate) : Prop := {
  ls_net : concerns p n (k_net g');
  ls_children : forall k, (forall child, k <> tag p child) -> k_children g' !! k = ch !! k;
  ls_seen : exists l', kstep refuses declines p l c x l' /\ views p l' g';
}.

#[local] Lemma local_net {X} (c : sys X) x n' :
  concerns p n n' -> kstep refuses declines p l c x (in_net l (seen p n')) -> local_step c x (in_net g n').
Proof using Hch. intros Hc Hk. split; [done..|]. by exists (in_net l (seen p n')). Qed.

#[local] Lemma local_same {X} (c : sys X) x : kstep refuses declines p l c x l -> local_step c x g.
Proof using Hap Hch Hp. intros Hk. apply (local_net c x n); [|done]. by eapply concerns_refl. Qed.

Lemma local_port {X} (c : sys X) x g' br idx can f (r : result unit Z) :
  (forall s', port_step refuses l br idx can f r s' -> kstep refuses declines p l c x s') ->
  owned p br -> (exists a i, owned p a /\ seen p n !! a = Some i /\ index i = idx) ->
  (forall ib i, can (see1 ib) (see1 i) <-> can ib i) ->
  (forall ib i, see1 (f ib i) = f (see1 ib) (see1 i)) ->
  (forall ib b a i, owned p b -> n !! b = Some ib -> owned p a -> n !! a = Some i ->
     concerns p n (<[a := f ib i]> n)) ->
  port_step refuses g br idx can f r g' -> local_step c x g'.
Proof using Hap Hch Hp Hw.
  intros Hc Hbr (a0 & i0 & Ha0 & Hi0 & Hidx0) Hcan Hf Hco H. destruct r as [u|e].
  - destruct H as (ib & a & i & (H1 & H2 & H3 & H4) & H5 & ->). simpl in *.
    apply seen_Some in Hi0 as [_ (i0' & Hi0 & ->)]. rewrite see1_index in Hidx0.
    assert (a0 = a) as -> by (eapply Hw; [done..|congruence]). simplify_eq.
    apply local_net; [by eapply (Hco ib br a)|]. apply Hc. exists (see1 ib), a, (see1 i0'). split_and!; simpl.
    + split_and!; simpl; [by rewrite seen_owned, H1|by apply see1_bridge|by rewrite seen_owned, Hi0|by rewrite see1_index].
    + by apply Hcan.
    + by rewrite seen_insert, Hf.
  - destruct H as [-> H]. apply local_same, Hc. split; [done|]. destruct H as [?|H]; [by left|right].
    intros ib a i (H1 & H2 & H3 & H4). simpl in *.
    apply seen_Some in H1 as [_ (ib' & H1 & ->)]. apply seen_Some in H3 as [_ (i' & H3 & ->)].
    rewrite Hcan. eapply (H ib' a i'). split_and!; simpl; [done|by apply see1_bridge|done|].
    by rewrite see1_index in H4.
Qed.

Lemma local_add_if fd br idx x g' :
  own (owned p) l (BrAddIf fd br idx) -> kstep_at refuses declines p (tag p) g (BrAddIf fd br idx) x g' ->
  local_step (BrAddIf fd br idx) x g'.
Proof using Hap Hch Hp Hw.
  intros [Hbr Hown]. apply (local_port _ _ _ (cstr br)); try done.
  - intros ib i. unfold can_join. by rewrite see1_bridge, see1_master.
  - intros ib i. by rewrite see1_with_master, see1_index.
  - intros ib b a i Hb Hib Ha Hi. apply (concerns_insert P); [done..| | |].
    + exact (ap_tagged P n Hap p a i Hp Ha Hi).
    + right. by exists a, i.
    + intros m [= <-]. exists b, ib. auto.
Qed.

Lemma local_remove_if fd br idx x g' :
  own (owned p) l (BrDelIf fd br idx) -> kstep_at refuses declines p (tag p) g (BrDelIf fd br idx) x g' ->
  local_step (BrDelIf fd br idx) x g'.
Proof using Hap Hch Hp Hw.
  intros [Hbr Hown]. apply (local_port _ _ _ (cstr br)); try done.
  - intros ib i. unfold is_in. by rewrite see1_index, see1_master.
  - intros ib i. by rewrite see1_with_master.
  - intros ib b a i Hb Hib Ha Hi. apply (update_concerns P p n Hp Hap a i); [done..|].
    split_and!; simpl; eauto.
Qed.

Lemma local_tun fd name flags x g' :
  own (owned p) l (TunSetIff fd name flags) ->
  kstep_at refuses declines p (tag p) g (TunSetIff fd name flags) x g' ->
  local_step (TunSetIff fd name flags) x g'.
Proof using Hap Hch Hp Hpid.
  cbn [own kstep_at]. set (wanted := cstr _). intros Hown H. destruct x as [ifr|e].
  - destruct H as (idx & Hv & Hm & Hn & Hf & Hu & ->). pose proof (Hown _ Hm) as Ho. apply local_net.
    + apply (concerns_insert P); simpl; try done; [|by left]. intros h w [= <- <-]. eauto.
    + cbn [kstep_at]. exists idx. fold wanted. split_and!; [done..| | | |].
      * simpl in *. by rewrite seen_owned, Hn.
      * by apply fresh_seen.
      * by apply (unheld_seen P).
      * rewrite seen_insert by done. unfold see1. simpl. by rewrite untag.
  - destruct H as [-> H]. apply local_same. cbn [kstep_at]. split; [done|]. fold wanted.
    destruct H as [?|H]; [by left|right]. intros a Ha Hv Hu. simpl in *.
    rewrite seen_owned by (by apply Hown, meant_first). apply fmap_is_Some. apply H; [done..|].
    by apply (unheld_seen P).
Qed.

Lemma local_wait child x g' :
  own (owned p) l (WaitChild child) -> kstep_at refuses declines p (tag p) g (WaitChild child) x g' ->
  local_step (WaitChild child) x g'.
Proof using Hap Hch Hp Hpid.
  intros Hown (H & L & -> & HL & Hx & HH & Hok). simpl in Hown, HL, HH, Hok.
  assert (HLo : forall a, L a = true -> owned p a).
  { intros a (_ & dir & Hd)%HL. apply (Hown dir). by rewrite Hch. }
  apply local_net.
  - apply (hand_concerns P); [done..| |done]. intros h (dir & m & -> & _)%HH. eauto.
  - exists (fun fd => H (tag p fd)), L. simpl. rewrite Hch. split_and!; [| |done| |done].
    + by rewrite seen_drop_named, (seen_hand P).
    + intros a Ha. destruct (HL a Ha) as [(i & Hi & Hwh) Hd]. split; [|done]. exists (see1 i).
      rewrite seen_owned, Hi by auto. split; [done|]. by apply see1_away.
    + intros fd (dir & m & Hm & Hpos & Hd)%HH. exists dir, m. split_and!; [|done..].
      by apply tag_inj in Hm as [_ ->].
Qed.

Lemma local_rename fd name newname x g' :
  own (owned p) l (SetIfName fd name newname) ->
  kstep_at refuses declines p (tag p) g (SetIfName fd name newname) x g' ->
  local_step (SetIfName fd name newname) x g'.
Proof using Hap Hch Hp.
  intros [Ho Ho'] H. simpl in H. destruct x as [u|e].
  - destruct H as (i & Hi & Hn & ->). apply local_net; [by eapply rename_concerns|].
    exists (see1 i). simpl. by rewrite !seen_owned, Hi, Hn, seen_insert, seen_delete.
  - destruct H as [-> H]. apply local_same. split; [done|]. simpl. rewrite !seen_owned by done.
    destruct H as [?|[?|[?|H]]]; [by left|right..]; [by left|right; left; by apply fmap_is_Some|].
    right. right. intros i' (i & Hi & ->)%fmap_Some. rewrite see1_up. by apply H.
Qed.

Lemma local_bridge_delete fd name x g' :
  own (owned p) l (BrDel fd name) -> kstep_at refuses declines p (tag p) g (BrDel fd name) x g' ->
  local_step (BrDel fd name) x g'.
Proof using Hap Hch Hp.
  intros Ho H. simpl in Ho, H. destruct x as [u|e].
  - destruct H as (i & Hi & Hb & Hu & ->). apply local_net; [by apply (set_free_concerns P)|].
    exists (see1 i). simpl. rewrite seen_owned, Hi, see1_bridge, see1_up, see1_index by done.
    by rewrite seen_set_free, seen_delete.
  - destruct H as [-> H]. apply local_same. split; [done|]. simpl. rewrite seen_owned by done.
    destruct H as [?|H]; [by left|right]. intros i' (i & Hi & ->)%fmap_Some.
    rewrite see1_bridge, see1_up. by apply H.
Qed.

Lemma local_flags fd name z x g' :
  own (owned p) l (SetIfFlags fd name z) -> kstep_at refuses declines p (tag p) g (SetIfFlags fd name z) x g' ->
  local_step (SetIfFlags fd name z) x g'.
Proof using Hap Hch Hp.
  intros Ho H. simpl in Ho, H. destruct x as [u|e].
  - destruct H as (i & Hi & ->). apply local_net.
    + apply (update_concerns P p n Hp Hap _ i); [done..|]. split_and!; simpl; eauto.
    + exists (see1 i). simpl. by rewrite seen_owned, Hi, seen_insert, see1_with_up.
  - destruct H as [-> H]. apply local_same. split; [done|]. simpl. rewrite seen_owned by done.
    destruct H as [?|H]; [by left|right]. by rewrite H.
Qed.

Lemma local_bridge_add fd name x g' :
  own (owned p) l (BrAdd fd name) -> kstep_at refuses declines p (tag p) g (BrAdd fd name) x g' ->
  local_step (BrAdd fd name) x g'.
Proof using Hap Hch Hp.
  intros Ho H. simpl in Ho, H. destruct x as [u|e].
  - destruct H as (idx & Hn & Hf & ->). apply local_net.
    + apply (concerns_insert P); simpl; try done. by left.
    + exists idx. simpl. rewrite seen_owned, Hn, seen_insert by done. split_and!; [done| |done]. by apply fresh_seen.
  - destruct H as [-> H]. apply local_same. split; [done|]. simpl. by rewrite seen_owned, fmap_is_Some.
Qed.

Lemma local_spawn cmd x g' :
  kstep_at refuses declines p (tag p) g (Spawn cmd) x g' -> local_step (Spawn cmd) x g'.
Proof using Hap Hch Hp Hpid.
  intros H. destruct x as [child|e]; simpl in H.
  2: { destruct H as [-> ?]. by apply local_same. }
  subst g'. split; simpl.
  - by apply (concerns_refl P).
  - intros k Hk. rewrite lookup_insert_ne; [done|]. intros H. by destruct (Hk child).
  - exists (KState (seen p n) (<[child := cmd]> lch)). split; [done|]. split; [done|]. simpl. intros child'.
    destruct (decide (child' = child)) as [->|Hne]; [by rewrite !lookup_insert_eq|].
    rewrite !lookup_insert_ne; [done| |done]. intros H. by apply tag_inj in H as [_ <-].
Qed.

Lemma local_close fd x g' :
  kstep_at refuses declines p (tag p) g (Close fd) x g' -> local_step (Close fd) x g'.
Proof using Hap Hch Hp Hpid.
  intros H. simpl in H. destruct (fd =? -1) eqn:Hfd.
  - destruct H as [-> ->]. apply local_same. simpl. by rewrite Hfd.
  - subst g'. apply local_net; [by apply (release_concerns P)|]. simpl. by rewrite Hfd, (seen_release P).
Qed.

(** Every call is local: the process sees a kernel that serves it alone. *)
Lemma kstep_local X (c : sys X) x g' :
  own (owned p) l c -> kstep_at refuses declines p (tag p) g c x g' -> local_step c x g'.
Proof using Hap Hch Hp Hpid Hw.
  intros Ho H. pose proof (fun fd => proj1 (unheld_seen P p n Hpid Hp Hap fd)) as Hu.
  destruct c; first
    [by apply local_wait|by apply local_tun|by apply local_add_if|by apply local_remove_if
    |by apply local_rename|by apply local_bridge_delete|by apply local_flags|by apply local_bridge_add
    |by apply local_spawn|by apply local_close
    |simpl in H; subst g'; by apply local_same|simpl in Ho, H];
    try (destruct H as [? ->]; by apply local_same);
    destruct H as [-> H]; apply local_same; (split; [done|]); try done;
    try (repeat case_match; naive_solver).
  all: destruct x as [v|e]; simpl; rewrite seen_owned by done;
    [destruct H as (i & Hi & Hv); exists (see1 i); by rewrite Hi, ?see1_up, ?see1_index
    |destruct H as [?|H]; [by left|right]; by rewrite H].
Qed.

End Step.

(** ** Interleavings *)

Section Interleave.
Variables (refuses declines : Prop).

(** The calls of several processes, each with the process that makes it. *)
Fixpoint shared (s : kstate) (tr : list (Z * event sys)) (s' : kstate) : Prop :=
  match tr with
  | [] => s' = s
  | (p, Event c x) :: tr' =>
      exists s1, kstep_at refuses declines p (tag p) s c x s1 /\ shared s1 tr' s'
  end.

(** Those of one process. *)
Fixpoint part (p : Z) (tr : list (Z * event sys)) : list (event sys) :=
  match tr with
  | [] => []
  | (q, ev) :: tr' => if decide (q = p) then ev :: part p tr' else part p tr'
  end.

Lemma after_cons_inv {A} (m : prog sys A) ev tr m' : after m (ev :: tr) m' ->
  exists X (c : sys X) k x, m = Vis c k /\ ev = Event c x /\ after (k x) tr m'.
Proof. inversion 1; subst. by eexists _, _, _, _. Qed.

Lemma after_nil_inv {A} (m m' : prog sys A) : after m [] m' -> m' = m.
Proof. by inversion 1. Qed.

Variables (P : Z -> Prop) (A : Type) (stops : Z -> stop -> kstate -> Prop) (Q : Z -> A -> kstate -> Prop).
Hypothesis HP : forall p, P p -> is_pid p.

Definition ready (m : prog sys A) (p : Z) (g : kstate) : Prop :=
  exists l, views p l g /\
    wp (SPEC := NetKernel.devices refuses declines p (owned p) (stops p)) m l (Q p).

(** The calls of a process leave the others' view as it is. *)
Lemma views_frame l p q (g g' : kstate) :
  P p -> P q -> p <> q -> concerns q (k_net g) (k_net g') ->
  (forall k, (forall child, k <> tag q child) -> k_children g' !! k = k_children g !! k) ->
  views p l g -> views p l g'.
Proof using HP.
  intros Hp Hq Hne Hco Hch [Hn Hc]. split.
  - rewrite Hn. symmetry. apply seen_ext. intros a Ha. apply (co_frame q _ _ Hco). intros Hqa. apply Hne.
    eapply owned_apart; [apply HP..| |]; done.
  - intros child. rewrite Hc, Hch; [done|]. intros child' H. apply Hne.
    by apply tag_inj in H as [-> _]; [|apply HP..].
Qed.

Lemma ready_frame m p q (g g' : kstate) :
  P p -> P q -> p <> q -> concerns q (k_net g) (k_net g') ->
  (forall k, (forall child, k <> tag q child) -> k_children g' !! k = k_children g !! k) ->
  ready m p g -> ready m p g'.
Proof using HP. intros ? ? ? ? ? (l & ? & ?). exists l. split; [|done]. by apply (views_frame l p q g). Qed.

(** There is only one view. *)
Lemma views_unique p l l' (g : kstate) : views p l g -> views p l' g -> l = l'.
Proof.
  destruct l as [n ch], l' as [n' ch']. intros [Hn Hc] [Hn' Hc']. simpl in *. f_equal; [congruence|].
  apply map_eq. intros child. by rewrite Hc, Hc'.
Qed.

Lemma ready_step p (g g' : kstate) X (c : sys X) k x :
  P p -> apart P (k_net g) -> wf (k_net g) -> ready (Vis c k) p g ->
  kstep_at refuses declines p (tag p) g c x g' ->
  ready (k x) p g' /\ concerns p (k_net g) (k_net g') /\
  (forall k, (forall child, k <> tag p child) -> k_children g' !! k = k_children g !! k) /\
  forall l, views p l g -> exists l', kstep refuses declines p l c x l' /\ views p l' g'.
Proof using HP.
  intros Hp Hap Hw (l & [Hn Hc] & Hown & Hwp) H.
  destruct g as [n ch], l as [n' lch]. simpl in Hn, Hc. subst n'.
  destruct (kstep_local refuses declines P p n ch lch (HP p Hp) Hp Hap Hw Hc X c x g' Hown H)
    as [Hco Hch (l' & Hk & Hv)]. split_and!; [|done..|].
  - exists l'. split; [done|]. apply Hwp; [|done]. by apply seen_wf.
  - intros l Hl. rewrite (views_unique p l (KState (seen p n) lch) (KState n ch)); [by exists l'|done..].
Qed.

(** What is proved of each process alone holds when they are interleaved, and
    its calls are a run of it alone, on the devices that it sees. *)
Lemma shared_sound tr (ms rest : Z -> prog sys A) (g g' : kstate) :
  apart P (k_net g) -> wf (k_net g) -> (forall p, P p -> ready (ms p) p g) ->
  shared g tr g' -> Forall (fun x => P x.1) tr -> (forall p, P p -> after (ms p) (part p tr) (rest p)) ->
  apart P (k_net g') /\ wf (k_net g') /\ (forall p, P p -> ready (rest p) p g') /\
  (forall p l, P p -> views p l g ->
     exists l', views p l' g' /\ behaves refuses declines p l (part p tr) l') /\
  forall a, (forall p, P p -> ~ owned p a) -> k_net g' !! a = k_net g !! a.
Proof using HP.
  revert ms g. induction tr as [|[q ev] tr IH]; intros ms g Hap Hw Hr Hs HF Ha.
  - simpl in Hs. subst g'. split_and!; [done..| | |done].
    + intros p Hp. specialize (Ha p Hp). apply after_nil_inv in Ha as ->. by apply Hr.
    + intros p l _ Hl. by exists l.
  - apply Forall_cons in HF as [Hq HF]. simpl in Hq.
    pose proof (Ha q Hq) as Haq. simpl in Haq. rewrite decide_True in Haq by done.
    apply after_cons_inv in Haq as (X & c & k & x & Hm & -> & Haq). destruct Hs as (g1 & Hstep & Hs).
    pose proof (Hr q Hq) as Hrq. rewrite Hm in Hrq.
    destruct (ready_step q g g1 X c k x Hq Hap Hw Hrq Hstep) as (Hrq1 & Hco & Hch & Hv).
    destruct (IH (<[q := k x]> ms) g1) as (H1 & H2 & H3 & H4 & H5); [..|split_and!; [done..| |]].
    + eapply apart_concerns; eauto.
    + by eapply wf_kstep.
    + intros p Hp. destruct (decide (p = q)) as [->|Hne]; [by rewrite fn_lookup_insert|].
      rewrite fn_lookup_insert_ne by done. apply (ready_frame _ p q g); auto.
    + done.
    + done.
    + intros p Hp. destruct (decide (p = q)) as [->|Hne]; [by rewrite fn_lookup_insert|].
      rewrite fn_lookup_insert_ne by done. specialize (Ha p Hp). simpl in Ha. by rewrite decide_False in Ha.
    + intros p l Hp Hl. simpl. case_decide as Hpq.
      * subst q. destruct (Hv l Hl) as (l1 & Hk & Hl1). destruct (H4 p l1 Hp Hl1) as (l' & ? & ?). exists l'. split; [done|]. by exists l1.
      * apply H4; [done|]. by apply (views_frame l p q g).
    + intros a Hno. rewrite (H5 a Hno). apply (co_frame q _ _ Hco). by apply Hno.
Qed.

End Interleave.

(** ** Networks that are made and removed *)

(** Back from what is seen to what there is. *)
Definition tag1 (p : Z) (i : iface) : iface :=
  match what i with Tap (Some fd) w => with_kind (Tap (Some (tag p fd)) w) i | _ => i end.

Lemma tag1_see1 p i : is_pid p -> tagged p i -> tag1 p (see1 i) = i.
Proof.
  intros Hp Ht. unfold tag1, see1. destruct i as [idx u m [|[h|] w]]; [done| |done]. simpl.
  destruct (Ht h w eq_refl) as [fd ->]. unfold with_kind. simpl. by rewrite untag.
Qed.

Lemma seen_back P p (n : net) a :
  is_pid p -> P p -> apart P n -> owned p a -> n !! a = tag1 p <$> seen p n !! a.
Proof.
  intros Hpid Hp Hap Ha. rewrite seen_owned by done. destruct (n !! a) as [i|] eqn:Hi; simpl; [|done].
  rewrite tag1_see1; [done..|]. by eapply ap_tagged.
Qed.

(** The network of process [p], with nothing else in it. *)
Definition network_of (p fd : Z) (n : net) : Prop :=
  exists ib ic ir,
    n !! bridge_of p = Some (Iface ib true None Bridge) /\
    n !! client_tap p = Some (Iface ic true (Some ib) (Tap (Some (tag p fd)) false)) /\
    n !! router_tap p = Some (Iface ir true (Some ib) (Tap None true)) /\
    n !! dead_tap p = None /\
    forall a i, n !! a = Some i -> master i = Some ib -> a = client_tap p \/ a = router_tap p.

(** No network: of it, at most a tap that the router has is left, and, if its
    deletion was refused among the calls [tr], the bridge. *)
Definition no_network (p : Z) (tr : list (event sys)) (n : net) : Prop :=
  (n !! bridge_of p = None \/ delete_refused p tr) /\ n !! client_tap p = None /\ n !! dead_tap p = None /\
  (n !! router_tap p = None \/ exists i, n !! router_tap p = Some i /\ what i = Tap None true).

(** The network has been removed, with the end [st] of the listener. *)
Definition removed (declines : Prop) (p : Z) (st : stop) (n : net) : Prop :=
  n !! bridge_of p = None /\ n !! client_tap p = None /\
  (st = Exit 0 /\ n !! router_tap p = None /\
     (exists ir, n !! dead_tap p = Some (Iface ir false None (Tap None true))) \/
   st = Exit 1 /\ n !! dead_tap p = None /\ n !! router_tap p = None \/
   st = Exit 1 /\ n !! dead_tap p = None /\ declines /\
     exists ir, n !! router_tap p = Some (Iface ir true None (Tap None true))).

(** What a process is doing: making its network, or, as the listener that it
    left behind, removing it; the client's tap is then held by [fd]. *)
Inductive job :=
| Starting (g : garbage) (fuel : nat) (dir : bytes)
| Ending (g : garbage) (fuel : nat) (pipe : Z) (dir : bytes) (fd : Z).

Definition code (p : Z) (j : job) : M NetConfigC :=
  match j with
  | Starting g fuel dir => net_setup g fuel dir
  | Ending g fuel pipe dir _ =>
      let* _ := exit_listener_main g fuel pipe p dir (router_tap p) in halt Panic
  end.

Definition before (p : Z) (j : job) (n : net) : Prop :=
  match j with
  | Starting _ _ _ => forall a, owned p a -> n !! a = None
  | Ending _ _ _ _ fd => network_of p fd n
  end.

Lemma seen_nothing p (n : net) : (forall a, owned p a -> n !! a = None) -> seen p n = ∅.
Proof.
  intros H. apply map_empty. intros a. rewrite lookup_seen. case_decide; [|done]. by rewrite H.
Qed.

(** The names are different. *)
Ltac other_name := by intros Hname; apply (f_equal head) in Hname.

Section Views.
Variables (P : Z -> Prop) (p : Z) (n : net).
Hypotheses (Hpid : is_pid p) (Hp : P p) (Hap : apart P n).

Lemma network_seen fd : network_of p fd n -> topology p ∅ fd (seen p n).
Proof using Hpid.
  intros (ib & ic & ir & Hb & Hc & Hr & Hd & _). exists ib, ic, ir. split_and!; [done..|].
  apply map_eq. intros a.
  rewrite lookup_seen. case_decide as Ha.
  - destruct Ha as [-> |[-> |[-> | ->]]].
    + rewrite Hb, !lookup_insert_ne, lookup_insert_eq by (done || other_name). done.
    + rewrite Hc, !lookup_insert_ne, lookup_insert_eq by (done || other_name). simpl. unfold see1, with_kind. simpl. by rewrite untag.
    + by rewrite Hr, lookup_insert_eq.
    + rewrite Hd, !lookup_insert_ne by (done || other_name). done.
  - rewrite !lookup_insert_ne by (intros <-; destruct Ha; apply owned_names). done.
Qed.

Lemma seen_network fd : topology p ∅ fd (seen p n) -> network_of p fd n.
Proof using Hap Hp Hpid.
  intros (ib & ic & ir & _ & _ & _ & _ & _ & Hn). exists ib, ic, ir.
 
  pose proof (owned_names p) as (Ob & Oc & Or & Od).
  assert (Hb : n !! bridge_of p = Some (Iface ib true None Bridge)).
  { rewrite (seen_back P p n), Hn, !lookup_insert_ne, lookup_insert_eq by (done || other_name). done. }
  split_and!.
  - done.
  - rewrite (seen_back P p n), Hn, lookup_insert_ne, lookup_insert_eq by (done || other_name). done.
  - rewrite (seen_back P p n), Hn, lookup_insert_eq by (done || other_name). done.
  - rewrite (seen_back P p n), Hn, !lookup_insert_ne by (done || other_name). done.
  - intros a i Ha Hm. assert (Ho : owned p a) by (by eapply (ap_members P n Hap p (bridge_of p))).
    assert (Hs : seen p n !! a = Some (see1 i)) by (by rewrite seen_owned, Ha).
    destruct Ho as [-> |[-> |[-> | ->]]]; [|by auto..|].
    + by simplify_eq/=.
    + rewrite Hn, !lookup_insert_ne in Hs by (done || other_name). done.
Qed.

End Views.

Lemma own_children p (ch : gmap Z Sys.command) :
  is_pid p -> exists lch : gmap Z Sys.command, forall child, lch !! child = ch !! tag p child.
Proof.
  intros Hp. induction ch as [|k c ch _ _ [lch IH]] using map_first_key_ind.
  { exists ∅. intros child. by rewrite !lookup_empty. }
  destruct (decide (k = tag p (k / 10 ^ 9))) as [Hk|Hk].
  - exists (<[k / 10 ^ 9 := c]> lch). intros child. rewrite Hk, untag by done.
    destruct (decide (child = k / 10 ^ 9)) as [->|Hne]; [by rewrite !lookup_insert_eq|].
    rewrite !lookup_insert_ne; [done| |done]. intros H. by apply tag_inj in H as [_ <-].
  - exists lch. intros child. rewrite lookup_insert_ne; [done|]. intros ->. by rewrite untag in Hk.
Qed.

(** How a job ends, as the process sees it. *)
Definition ends (declines : Prop) (p fd : Z) (st : stop) (n : net) : Prop :=
  st = NoFuel /\ topology p ∅ fd n \/
  st = Exit 0 /\ (exists ir, release fd n = <[dead_tap p := Iface ir false None (Tap None true)]> ∅) \/
  st = Exit 1 /\ release fd n = ∅ \/
  st = Exit 1 /\ declines /\ exists ir, release fd n = <[router_tap p := Iface ir true None (Tap None true)]> ∅.

(** What is promised of the listener if the kernel refuses nothing. *)
Definition job_stops (refuses declines : Prop) (p : Z) (j : job) (st : stop) (l : kstate) : Prop :=
  match j with
  | Starting _ _ _ => True
  | Ending _ _ _ _ fd => ~ refuses -> ends declines p fd st (k_net l)
  end.

Definition job_returns (refuses declines : Prop) (p : Z) (j : job) (r : NetConfigC * Z) (l : kstate) : Prop :=
  match j with
  | Starting _ _ _ => settled refuses declines p ∅ r.1 (k_net l)
  | Ending _ _ _ _ _ => False
  end.

(** A kernel that refuses nothing. *)
Lemma kstep_unless (refuses declines : Prop) p h s X (c : sys X) x s' :
  ~ refuses -> kstep_at refuses declines p h s c x s' -> kstep_at False declines p h s c x s'.
Proof. intros Hn. destruct c; simpl; unfold port_step; repeat case_match; try done; naive_solver. Qed.

Lemma wp_unless {A} (refuses declines : Prop) p mine stops (Q Q' : A -> kstate -> Prop) (m : prog sys A) l :
  wp (SPEC := NetKernel.devices refuses declines p mine (fun _ _ => True)) m l Q ->
  (~ refuses -> wp (SPEC := NetKernel.devices False declines p mine stops) m l Q') ->
  wp (SPEC := NetKernel.devices refuses declines p mine (fun st l => ~ refuses -> stops st l)) m l Q.
Proof.
  revert l. induction m as [a|st|X c k IH]; intros l H H'; [done..|].
  destruct H as [Ho H]. split; [done|]. intros Hw x l' Hk. apply IH; [by apply H|].
  intros Hn. apply (proj2 (H' Hn)); [done|]. by eapply kstep_unless.
Qed.

Lemma trip_listener declines p l g fuel pipe dir fd :
  is_pid p -> topology p ∅ fd (k_net l) ->
  NetKernel.trip False declines p (owned p) (fun st l => ends declines p fd st (k_net l)) l
    (code p (Ending g fuel pipe dir fd)) (fun _ _ => False).
Proof.
  intros Hpid Ht. pose proof Ht as (ib & ic & ir & Hb & Hc & Hr & Hf & Hu & Hn).
  eapply (trip_bind _ _ _ _ _ _ _ _ (fun _ _ => False)); [|by intros ? ? []].
  apply (trip_exit_listener_main declines p _ Hpid l g fuel pipe dir (Iface ib true None Bridge)
    (Iface ir true (Some ib) (Tap None true))); try done;
    try (rewrite Hn; by rewrite ?lookup_insert_ne, ?lookup_insert_eq by (done || other_name)).
  intros st s' H. eapply (listener_ends_restore declines p ∅ fd ib ic ir) in H; [|done..].
  destruct H as [[-> H]|[[-> H]|[[-> H]|(-> & Hd & H)]]].
  - left. split; [done|]. by rewrite H.
  - right. left. split; [done|]. by exists ir.
  - right. right. left. done.
  - right. right. right. split_and!; [done..|]. by exists ir.
Qed.

Lemma trip_any_listener refuses declines p l g fuel pipe dir fd :
  is_pid p ->
  NetKernel.trip refuses declines p (owned p) (fun _ _ => True) l
    (code p (Ending g fuel pipe dir fd)) (fun _ _ => False).
Proof.
  intros Hpid. eapply trip_bind; [by apply trip_any_exit_listener_main|]. done.
Qed.

Lemma ready_job refuses declines p (jobs : Z -> job) e (s : kstate) :
  is_pid p -> before p (jobs p) (k_net s) ->
  ready refuses declines (NetConfigC * Z) (fun p => job_stops refuses declines p (jobs p))
    (fun p => job_returns refuses declines p (jobs p)) (code p (jobs p) e) p s.
Proof.
  intros Hpid Hb. destruct (own_children p (k_children s) Hpid) as [lch Hch].
  exists (KState (seen p (k_net s)) lch). split; [done|]. destruct (jobs p) as [g fuel dir|g fuel pipe dir fd]; simpl in Hb.
  - rewrite (seen_nothing p _ Hb). exact (trip_net_setup refuses declines p Hpid (KState ∅ lch) g fuel dir e).
  - eapply wp_unless; [exact (trip_any_listener refuses declines p _ g fuel pipe dir fd Hpid e)|]. intros _.
    exact (trip_listener declines p (KState (seen p (k_net s)) lch) g fuel pipe dir fd Hpid
      (network_seen p _ Hpid fd Hb) e).
Qed.

(** How it ends, for everybody; [tr] are the calls of the process. *)
Definition after_start (refuses declines : Prop) (p : Z) (tr : list (event sys)) (fd : Z) (n : net) : Prop :=
  0 <= fd /\ network_of p fd n \/ fd = -1 /\ (refuses \/ declines) /\ no_network p tr n.

Definition after_end (declines : Prop) (p fd : Z) (st : stop) (n : net) : Prop :=
  st = NoFuel /\ network_of p fd n \/ removed declines p st (release (tag p fd) n).

Section Ends.
Variables (refuses declines : Prop) (P : Z -> Prop) (p : Z) (n : net).
Hypotheses (Hpid : is_pid p) (Hp : P p) (Hap : apart P n).

Lemma settled_seen tr (c : NetConfigC) :
  settled refuses declines p ∅ c (seen p n) ->
  (c_fd c = -1 -> seen p n !! bridge_of p = None \/ delete_refused p tr) ->
  after_start refuses declines p tr (c_fd c) n.
Proof using Hap Hp Hpid.
  intros [[Hfd Ht]|(Hfd & (Ho & _ & Hr) & Hd)] Hb; [left; split; [done|]; by apply (seen_network P)|right].
  pose proof (owned_names p) as (Ob & Oc & Or & Od). split_and!; [done| |].
  - destruct Hd as [?|[?|[H|[H|H]]]]; [by left|by right|by destruct H..].
  - split_and!; rewrite (seen_back P p n) by done.
    + destruct (Hb Hfd) as [-> |?]; [by left|by right].
    + rewrite Ho by other_name. done.
    + rewrite Ho by other_name. done.
    + destruct Hr as [-> |(_ & i & -> & Hi)]; [by left|right]. exists (tag1 p i). split; [done|].
      unfold tag1. by rewrite Hi.
Qed.

Lemma ends_seen fd st : ends declines p fd st (seen p n) -> after_end declines p fd st n.
Proof using Hap Hp Hpid.
  intros [[-> Ht]|H]; [left; split; [done|]; by apply (seen_network P)|right].
  assert (Hap' : forall a, owned p a -> release (tag p fd) n !! a = tag1 p <$> release fd (seen p n) !! a).
  { intros a Ha. rewrite <- (seen_release P) by done. rewrite seen_owned by done.
    unfold release. rewrite lookup_omap. destruct (n !! a) as [i|] eqn:Hi; simpl; [|done].
    destruct (release1 (tag p fd) i) as [i'|] eqn:Hr; simpl; [|done]. f_equal. symmetry. apply tag1_see1; [done|].
    pose proof (ap_tagged P n Hap p a i Hp Ha Hi) as Ht. unfold release1 in Hr.
    repeat case_match; simplify_eq; [|done]. by intros h w [=]. }
  pose proof (owned_names p) as (Ob & Oc & Or & Od). unfold removed. rewrite !Hap' by done.
  destruct H as [[-> (ir & ->)]|[[-> ->]|(-> & Hd & ir & ->)]];
    rewrite ?lookup_insert_eq, ?lookup_insert_ne by other_name; rewrite ?lookup_empty; simpl; split_and!; try done; eauto 10.
Qed.

End Ends.

(** The bridge of a process that got no network. *)
Lemma bridge_when_shared refuses declines p j e c e' tr l l' (n : net) :
  is_pid p -> before p j n -> wf n -> k_net l = seen p n ->
  (forall g fuel pipe dir fd, j <> Ending g fuel pipe dir fd) ->
  exec (code p j e) tr (Done (c, e')) -> behaves refuses declines p l tr l' -> c_fd c = -1 ->
  k_net l' !! bridge_of p = None \/ delete_refused p tr.
Proof.
  intros Hpid Hb Hw Hl Hj He Hbe Hc. destruct j as [g fuel dir|g fuel pipe dir fd]; [|by destruct (Hj g fuel pipe dir fd)].
  simpl in Hb, He. eapply (net_setup_bridge refuses declines p l) in He as [He|He]; [|by right|done| |done..].
  - left. rewrite He, Hl, (seen_nothing p n Hb). done.
  - rewrite Hl. by apply seen_wf.
Qed.

(** C16. Any number of VMs can start and end at the same time.  Processes [P],
    with different ids, make their networks with [net_setup], or, as the exit
    listeners of VMs that have gone, remove them; their calls to one kernel, which
    may refuse what it likes, are interleaved in any way, and some may be still
    under way.  Whoever has made its network has got its own bridge, with its own
    two taps in it and nothing else of anybody's; whoever was refused something
    by the kernel or by the router has no client's tap, no bridge unless its
    deletion was refused, and at most a tap that the router holds.  If the kernel
    refuses nothing, the listener of a VM that has gone has removed the bridge
    and the taps, except for a tap that the router still holds.  Throughout, the
    interfaces of nobody in [P] are as they were, and the processes remain
    apart. *)
Theorem networks_coexist (refuses declines : Prop) (P : Z -> Prop) (jobs : Z -> job) (errno : Z -> Z)
    tr (rest : Z -> prog sys (NetConfigC * Z)) s s' :
  (forall p, P p -> is_pid p) -> wf (k_net s) -> apart P (k_net s) ->
  (forall p, P p -> before p (jobs p) (k_net s)) ->
  shared refuses declines s tr s' -> Forall (fun x => P x.1) tr ->
  (forall p, P p -> after (code p (jobs p) (errno p)) (part p tr) (rest p)) ->
  (forall p c e, P p -> rest p = Ret (c, e) ->
     after_start refuses declines p (part p tr) (c_fd c) (k_net s')) /\
  (forall p g fuel pipe dir fd st, P p -> jobs p = Ending g fuel pipe dir fd -> rest p = Halt st ->
     ~ refuses -> after_end declines p fd st (k_net s')) /\
  (forall a, (forall p, P p -> ~ owned p a) -> k_net s' !! a = k_net s !! a) /\
  wf (k_net s') /\ apart P (k_net s').
Proof.
  intros HP Hw Hap Hbef Hs HF Haf.
  destruct (shared_sound refuses declines P _ _ _ HP tr (fun p => code p (jobs p) (errno p)) rest s s' Hap Hw
    (fun p Hp => ready_job refuses declines p jobs (errno p) s (HP p Hp) (Hbef p Hp)) Hs HF Haf)
    as (Hap' & Hw' & Hr & Hv & Hf).
  split_and!; [| |done..].
  - intros p c e Hp Hret. destruct (Hr p Hp) as (l & [Hl Hlc] & H). rewrite Hret in H. simpl in H.
    unfold job_returns in H. destruct (jobs p) as [g fuel dir|] eqn:Hj; [|done]. rewrite Hl in H.
    apply (settled_seen _ _ P p _ (HP p Hp) Hp Hap' _ c H). intros Hc. rewrite <- Hl.
    destruct (own_children p (k_children s) (HP p Hp)) as [lch Hch].
    destruct (Hv p (KState (seen p (k_net s)) lch) Hp) as (l' & [Hl' _] & Hbe); [done|]. rewrite Hl, <- Hl'.
    eapply (bridge_when_shared refuses declines p (jobs p) (errno p) c e _ (KState (seen p (k_net s)) lch));
      [by apply HP|by apply Hbef|done|done|by rewrite Hj| |exact Hbe|done].
    rewrite <- (app_nil_r (part p tr)). eapply after_exec; [by apply Haf|]. by rewrite Hret.
  - intros p g fuel pipe dir fd st Hp Hj Hh Hn. destruct (Hr p Hp) as (l & [Hl _] & H). rewrite Hh in H. simpl in H.
    rewrite Hj in H. specialize (H Hn). rewrite Hl in H. exact (ends_seen _ P p _ (HP p Hp) Hp Hap' fd st H).
Qed.

(** ** An example *)

(** The kernel of [NetSim] serves whoever is scheduled next.  The router
    accepts one interface of each process. *)
Section Schedule.
Variables (A : Type) (accepts : Z -> NetConfig).

Fixpoint go (sched : list Z) (ms : Z -> prog sys A) (s : kstate) :
    list (Z * event sys) * (Z -> prog sys A) * kstate :=
  match sched with
  | [] => ([], ms, s)
  | p :: sched' =>
      match ms p with
      | Vis c k =>
          let '(x, s1) := sim_at p (tag p) vm_dir0 (accepts p) _ c s in
          let '(tr, ms', s') := go sched' (<[p := k x]> ms) s1 in ((p, Event c x) :: tr, ms', s')
      | _ => go sched' ms s
      end
  end.

Lemma go_runs sched ms s :
  Forall (fun p => 0 <= p /\ 0 <= net_fd (accepts p)) sched -> wf (k_net s) ->
  shared False True s (go sched ms s).1.1 (go sched ms s).2 /\
  Forall (fun x => x.1 ∈ sched) (go sched ms s).1.1 /\
  forall p, after (ms p) (part p (go sched ms s).1.1) ((go sched ms s).1.2 p).
Proof.
  revert ms s. induction sched as [|p sched IH]; intros ms s Hs Hw.
  { split_and!; [done..|]. intros p. constructor. }
  apply Forall_cons in Hs as [[Hp Hfd] Hs].
  assert (Hskip : forall tr, Forall (fun x : Z * event sys => x.1 ∈ sched) tr -> Forall (fun x => x.1 ∈ p :: sched) tr).
  { intros tr Htr. eapply Forall_impl; [exact Htr|]. intros x. by right. }
  simpl. destruct (ms p) as [a|st|X c k] eqn:Hm; [destruct (IH ms s Hs Hw) as (? & ? & ?); auto..|].
  pose proof (sim_obeys p (tag p) vm_dir0 (accepts p) (fun fd => tag_up p fd Hp) X c s Hp Hfd Hw) as Hstep.
  unfold obeys in Hstep. destruct (sim_at p (tag p) vm_dir0 (accepts p) X c s) as [x s1]. simpl in Hstep.
  destruct (IH (<[p := k x]> ms) s1 Hs (wf_kstep _ _ _ _ _ _ _ _ _ Hw Hstep)) as (H1 & H2 & H3).
  destruct (go sched (<[p := k x]> ms) s1) as [[tr ms'] s']. simpl in *. split_and!.
  - eauto.
  - constructor; [by left|auto].
  - intros q. specialize (H3 q). destruct (decide (p = q)) as [<-|Hne].
    + rewrite fn_lookup_insert in H3. rewrite Hm. by constructor.
    + by rewrite fn_lookup_insert_ne in H3.
Qed.

End Schedule.

(** Process 1234 makes its network, and 1235 has not begun.  Then 1234 has gone,
    and its listener and 1235 take turns. *)
Definition two (p : Z) : Prop := p ∈ [1234; 1235].

Definition accepted (p : Z) : NetConfig :=
  {| net_fd := if p =? 1234 then 3000001237 else 3000001237000001238;
     net_id := router_tap p; net_mac := router_mac p |}.

Definition first_jobs (p : Z) : job := Starting no_garbage 1 vm_dir0.
Definition then_jobs (p : Z) : job :=
  if p =? 1234 then Ending no_garbage 1 7 vm_dir0 3 else Starting no_garbage 1 vm_dir0.

Definition phase (jobs : Z -> job) (sched : list Z) (s : kstate) :=
  go _ accepted sched (fun p => code p (jobs p) 0) s.
Definition phase1 := phase first_jobs (replicate 80 1234) nothing.
Definition phase2 := phase then_jobs (concat (replicate 80 [1234; 1235])) phase1.2.

Definition client_net (p fd : Z) : NetConfigC :=
  {| c_fd := fd; c_id := client_tap p ++ replicate 6 NUL; c_mac := client_mac p |}.

Lemma two_pids p : two p -> is_pid p.
Proof. unfold two, is_pid. rewrite !elem_of_cons, elem_of_nil. lia. Qed.

Lemma phase_runs jobs sched s r :
  r = phase jobs sched s -> Forall two sched -> wf (k_net s) ->
  shared False True s r.1.1 r.2 /\ Forall (fun x => two x.1) r.1.1 /\
  forall p, two p -> after (code p (jobs p) 0) (part p r.1.1) (r.1.2 p).
Proof.
  intros -> Hs Hw. destruct (go_runs _ accepted sched (fun p => code p (jobs p) 0) s) as (H1 & H2 & H3); [|done|].
  - eapply Forall_impl; [exact Hs|]. intros p Hp. split; [by apply two_pids in Hp as []|].
    unfold accepted. simpl. by case_match.
  - split_and!; [done| |by intros p _; apply H3]. eapply Forall_impl; [exact H2|].
    intros x Hx. by eapply Forall_forall in Hs.
Qed.

Lemma phase1_eq : phase1 = phase first_jobs (replicate 80 1234) nothing.
Proof. unfold phase1. apply eq_refl. Qed.
Lemma phase2_eq : phase2 = phase then_jobs (concat (replicate 80 [1234; 1235])) phase1.2.
Proof. unfold phase2. apply eq_refl. Qed.

Lemma two_sched1 : Forall two (replicate 80 1234).
Proof. apply Forall_forall. intros p [-> _]%elem_of_replicate. left. Qed.

Lemma two_sched2 k : Forall two (concat (replicate k [1234; 1235])).
Proof. induction k as [|k IH]; simpl; [done|]. apply Forall_cons. split; [left|].
  apply Forall_cons. split; [right; left|exact IH]. Qed.

Lemma apart_nothing : apart two (k_net nothing).
Proof. by split. Qed.

Lemma before_nothing p : before p (first_jobs p) (k_net nothing).
Proof. by intros a _. Qed.

Lemma networks_coexist_witness :
  network_of 1234 3 (k_net phase1.2) /\ network_of 1235 3000001237 (k_net phase2.2) /\
  removed True 1234 (Exit 0) (release (tag 1234 3) (k_net phase2.2)).
Proof.
  destruct (phase_runs first_jobs (replicate 80 1234) nothing phase1 phase1_eq two_sched1 wf_nothing)
    as (Hs & HF & Ha).
  destruct (networks_coexist False True two first_jobs (fun _ => 0) phase1.1.1 phase1.1.2 nothing phase1.2
    two_pids wf_nothing apart_nothing (fun p _ => before_nothing p) Hs HF Ha) as (H1 & _ & _ & Hw & Hap).
  assert (Hn : network_of 1234 3 (k_net phase1.2)).
  { destruct (H1 1234 (client_net 1234 3) 0) as [[_ H]|[H _]]; [left|vm_compute; reflexivity|exact H|discriminate H]. }
  split; [exact Hn|]. clear Hs HF Ha.
  destruct (phase_runs then_jobs (concat (replicate 80 [1234; 1235])) phase1.2 phase2 phase2_eq (two_sched2 80) Hw)
    as (Hs & HF & Ha).
  assert (Hb : forall p, two p -> before p (then_jobs p) (k_net phase1.2)).
  { intros p Hp. unfold two in Hp. rewrite !elem_of_cons, elem_of_nil in Hp.
    destruct Hp as [-> |[-> |[]]]; [exact Hn|]. intros a [-> |[-> |[-> | ->]]]; vm_compute; reflexivity. }
  destruct (networks_coexist False True two then_jobs (fun _ => 0) phase2.1.1 phase2.1.2 phase1.2 phase2.2
    two_pids Hw Hap Hb Hs HF Ha) as (H2 & H3 & _).
  split.
  - destruct (H2 1235 (client_net 1235 3000001237) 0) as [[_ H]|[H _]];
      [right; left|vm_compute; reflexivity|exact H|discriminate H].
  - destruct (H3 1234 no_garbage 1%nat 7 vm_dir0 3 (Exit 0)) as [[H _]|H];
      [left|reflexivity|vm_compute; reflexivity|intros []|discriminate H|exact H].
Defined.

End Concurrent.
