(* ===== verification/Schema.v ===== *)
(** * Schema: the types of what is sent to Cloud Hypervisor

    A schema language for miniserde's data model, and the schema of each
    configuration structure of [ch.rs], tied to its [Serialize] implementation
    by a class.  The theorem is that what [vm_config] builds, and [create_vm]
    sends, always has the schema's shape, with valid UTF-8 in every string and
    every number in the range of its Rust type. *)

From S2P Require Import Prelude Effects RustStd Sys Scenario Mac Ch NetUtil Fork NetSetup StartVmm.

Module Schema.
Import Ch StartVmm.

Inductive ty :=
| TBool
| TStr
| TU32
| TI64
| TOption (t : ty)
| TSeq (t : ty)
| TStruct (fields : list (bytes * ty)).

(** A fragment has a type: structures have exactly their fields, in order. *)
Fixpoint conforms (t : ty) (f : Fragment) {struct t} : bool :=
  match t, f with
  | TBool, FBool _ => true
  | TStr, FStr s => Utf8.valid s
  | TU32, FU64 n => (0 <=? n) && (n <? 2 ^ 32)
  | TI64, FI64 n => (- 2 ^ 63 <=? n) && (n <? 2 ^ 63)
  | TOption _, FNull => true
  | TOption t, f => conforms t f
  | TSeq t, FSeq l => forallb (conforms t) l
  | TStruct fields, FMap l =>
      (fix go (fields : list (bytes * ty)) (l : list (bytes * Fragment)) : bool :=
         match fields, l with
         | [], [] => true
         | (k, t) :: fields', (k', f) :: l' =>
             bool_decide (k = k') && conforms t f && go fields' l'
         | _, _ => false
         end) fields l
  | _, _ => false
  end.

(** The values of [A] that satisfy [valid] serialise to [schema]. *)
Class Typed (A : Type) `{Serialize A} := {
  schema : ty;
  valid : A -> Prop;
  typed a : valid a -> conforms schema (begin a) = true;
}.
Arguments schema A {_ _}.

#[export] Program Instance Typed_bool : Typed bool := {| schema := TBool; valid _ := True |}.
Next Obligation. done. Qed.

#[export] Program Instance Typed_str : Typed bytes :=
  {| schema := TStr; valid s := Utf8.valid s = true |}.
Next Obligation. done. Qed.

(** [Option<T>] for a [T] that is not itself serialised as [null]. *)
#[export] Program Instance Typed_option {A} `{Typed A} : Typed (option A) :=
  {| schema := TOption (schema A); valid o := match o with Some a => valid a | None => True end |}.
Next Obligation.
  intros A S T [a|] Ha; [|done]. apply typed in Ha. change (begin (Some a)) with (begin a).
  cbn [conforms]. by destruct (begin a).
Qed.

#[export] Program Instance Typed_Vec {A} `{Typed A} : Typed (list A) | 10 :=
  {| schema := TSeq (schema A); valid l := Forall valid l |}.
Next Obligation.
  intros A S T l Hl. change (begin l) with (FSeq (begin <$> l)). cbn [conforms].
  induction Hl as [|a l Ha Hl IH]; [done|]. cbn. by rewrite typed.
Qed.

Lemma conforms_nil : conforms (TStruct []) (FMap []) = true.
Proof. done. Qed.
Lemma conforms_cons k t fields f l :
  conforms t f = true -> conforms (TStruct fields) (FMap l) = true ->
  conforms (TStruct ((k, t) :: fields)) (FMap ((k, f) :: l)) = true.
Proof. intros Hf Hl. cbn in *. rewrite bool_decide_true, Hf by done. exact Hl. Qed.
Lemma conforms_singleton t f : conforms t f = true -> conforms (TSeq t) (FSeq [f]) = true.
Proof. intros H. cbn. by rewrite H. Qed.

(** Check a derived implementation field by field. *)
Ltac unfold_begin :=
  lazymatch goal with
  | |- conforms ?t (begin ?a) = true => let f := eval hnf in (begin a) in change (conforms t f = true)
  | _ => idtac
  end.
Ltac derive_typed :=
  intros; cbv beta in *; destruct_and?; unfold_begin;
  repeat (apply conforms_cons; [first [by apply typed | done | by apply conforms_singleton, typed]|]);
  apply conforms_nil.

#[export] Program Instance Typed_MacAddress : Typed Mac.MacAddress :=
  {| schema := TStr; valid _ := True |}.
Next Obligation.
  intros m _. apply Utf8.valid_ascii.
  assert (H : forall b, forallb Utf8.ascii (hex2 b) = true) by by intros [].
  destruct m. unfold Mac.to_string. repeat (rewrite forallb_app || cbn [forallb]). by rewrite !H.
Qed.

#[export] Program Instance Typed_ConsoleConfig : Typed ConsoleConfig := {|
  schema := TStruct [(B "mode", schema bytes); (B "file", schema (option bytes))];
  valid c := valid (console_mode c) /\ valid (console_file c) |}.
Next Obligation. derive_typed. Qed.

#[export] Program Instance Typed_DiskConfig : Typed DiskConfig := {|
  schema := TStruct [(B "path", schema bytes); (B "readonly", schema bool)];
  valid c := valid (disk_path c) |}.
Next Obligation. derive_typed. Qed.

#[export] Program Instance Typed_FsConfig : Typed FsConfig := {|
  schema := TStruct [(B "socket", schema bytes); (B "tag", schema bytes)];
  valid c := valid (fs_socket c) /\ valid (fs_tag c) |}.
Next Obligation. derive_typed. Qed.

#[export] Program Instance Typed_GpuConfig : Typed GpuConfig := {|
  schema := TStruct [(B "socket", schema bytes)]; valid c := valid (gpu_socket c) |}.
Next Obligation. derive_typed. Qed.

(** Numbers that fit their Rust types. *)
Lemma i64_conforms n : - 2 ^ 63 <= n < 2 ^ 63 -> conforms TI64 (FI64 n) = true.
Proof. intros H. cbn [conforms]. lia. Qed.
Lemma u32_conforms n : 0 <= n < 2 ^ 32 -> conforms TU32 (FU64 n) = true.
Proof. intros H. cbn [conforms]. lia. Qed.

#[export] Program Instance Typed_NetConfig : Typed NetConfig := {|
  schema := TStruct [(B "fd", TI64); (B "id", schema bytes); (B "mac", schema Mac.MacAddress)];
  valid c := - 2 ^ 31 <= net_fd c < 2 ^ 31 /\ valid (net_id c) |}.
Next Obligation.
  intros c [Hf Hi]. unfold_begin. apply conforms_cons; [apply i64_conforms; lia|]. derive_typed.
Qed.

#[export] Program Instance Typed_MemoryConfig : Typed MemoryConfig := {|
  schema := TStruct [(B "size", TI64); (B "shared", schema bool)];
  valid c := - 2 ^ 63 <= memory_size c < 2 ^ 63 |}.
Next Obligation. intros c Hs. unfold_begin. apply conforms_cons; [by apply i64_conforms|]. derive_typed. Qed.

#[export] Program Instance Typed_PayloadConfig : Typed PayloadConfig := {|
  schema := TStruct [(B "kernel", schema bytes); (B "cmdline", schema bytes)];
  valid c := valid (payload_kernel c) /\ valid (payload_cmdline c) |}.
Next Obligation. derive_typed. Qed.

#[export] Program Instance Typed_VsockConfig : Typed VsockConfig := {|
  schema := TStruct [(B "cid", TU32); (B "socket", schema bytes)];
  valid c := 0 <= vsock_cid c < 2 ^ 32 /\ valid (vsock_socket c) |}.
Next Obligation. intros c [Hc Hs]. unfold_begin. apply conforms_cons; [by apply u32_conforms|]. derive_typed. Qed.

#[export] Program Instance Typed_VmConfig : Typed VmConfig := {|
  schema := TStruct
    [(B "console", schema ConsoleConfig); (B "disks", schema (list DiskConfig));
     (B "fs", TSeq (schema FsConfig)); (B "gpu", schema (list GpuConfig));
     (B "memory", schema MemoryConfig); (B "net", schema (list NetConfig));
     (B "payload", schema PayloadConfig); (B "serial", schema ConsoleConfig);
     (B "vsock", schema VsockConfig)];
  valid c := valid (console c) /\ valid (disks c) /\ valid (fs c) /\ valid (gpu c) /\
    valid (memory c) /\ valid (net c) /\ valid (payload c) /\ valid (serial c) /\
    valid (vsock c) |}.
Next Obligation. derive_typed. Qed.

(** ** What [vm_config] builds *)

Section Config.
Context {FMT : Fmt} {JSON : Json}.

Lemma utf8_between pre s post :
  Utf8.valid pre = true -> Utf8.valid s = true -> Utf8.valid post = true ->
  Utf8.valid (pre ++ s ++ post) = true.
Proof. intros H1 H2 H3. by rewrite !Utf8.valid_app. Qed.

Lemma disks_valid blk_dir e tr ds e' :
  exec (read_disks blk_dir e) tr (Done (Ok ds, e')) -> valid ds.
Proof.
  intros H. unfold read_disks in H. apply exec_mbind_done in H as (l & e1 & t1 & t2 & -> & _ & H).
  destruct l as [entries|err]; [|by apply exec_mret in H as [_ ?]].
  apply collect_disks_spec in H as (_ & _ & names & _ & -> & Hu). apply Forall_fmap.
  eapply Forall_impl; [exact Hu|]. by intros n [Hv _].
Qed.

(** A descriptor that was opened is an [int]. *)
Definition int_fds (tr : list (event sys)) : Prop := Forall (fun fd => fd < 2 ^ 31) (opened tr).

Lemma nets_valid E vm_dir dir e tr nets e' :
  exec (read_nets E vm_dir dir e) tr (Done (Ok nets, e')) -> kernel_ok tr -> int_fds tr -> valid nets.
Proof.
  intros H Hok Hfd. apply first_provider_only in H as [[-> _]|(name & rest & vms & c & cfg & e1 & tr' & H)];
    [by apply Forall_nil_2|]. destruct H as (-> & -> & _ & H & Hc & Hne).
  apply kernel_ok_cons in Hok as [_ Hok]. apply Forall_singleton.
  destruct (NetSetup.holds_net_setup _ _ _ _ _ _ H Hok) as (l & Hp & Hl).
  unfold try_from in Hc. destruct (Utf8.valid _) eqn:Hv; simplify_eq. cbn in Hne |- *. split; [|exact Hv].
  destruct Hl as [[? _]|(Hpos & p & ->)]; [done|]. split; [lia|].
  unfold int_fds in Hfd. rewrite Forall_forall in Hfd. apply Hfd.
  change (c_fd c ∈ opened tr'). change (opened tr') with ([] ++ opened tr'). rewrite Hp. right. left.
Qed.

(** C12. What is sent to Cloud Hypervisor is well typed.  A configuration that
    [vm_config] returns is valid in the sense of the Rust types of [ch.rs]: its
    strings are UTF-8 and its numbers in range, those of its network device
    included, whose descriptor is one that the kernel has given.  It serialises
    to exactly the fields of [VmConfig] with values of their types, and so does
    the document that [create_vm] sends of it, with no network devices.  This
    holds for every VM directory, whatever the file system contains. *)
Theorem config_well_typed E vm_dir e tr cfg e' :
  exec (vm_config E vm_dir e) tr (Done (Ok cfg, e')) -> kernel_ok tr -> int_fds tr ->
  valid cfg /\ conforms (schema VmConfig) (begin cfg) = true /\
  conforms (schema VmConfig) (document cfg) = true.
Proof.
  intros H Hok Hfd. apply vm_config_ok in H as (name & _ & Hn & _ & Hfs & Hgpu & Hlog & _ & _ & Hk & Hv &
    (Hcon & Hmem & Hcmd & Hser & Hcid) & e1 & e2 & t1 & t2 & -> & Hd & Hnet).
  apply kernel_ok_app in Hok as [_ Hok]. unfold int_fds in Hfd. rewrite opened_app, Forall_app in Hfd.
  destruct Hfd as [_ Hfd]. apply nets_valid in Hnet; [|done..].
  assert (Hval : valid cfg).
  { cbn. rewrite Hfs, Hgpu, Hcon, Hmem, Hcmd, Hser, Hlog, Hcid. cbn.
    split_and!; try done; try (by vm_compute); try lia.
    all: try (by eapply disks_valid); try (by apply utf8_between; [vm_compute|..|vm_compute]).
    - constructor; [|done]. by apply utf8_between; [vm_compute|..|vm_compute].
    - unfold cmdline. destruct (x86_64 E); by vm_compute. }
  split_and!; [done|by apply typed|]. rewrite <- document_sent. apply typed.
  cbn in Hval |- *. destruct_and! Hval. by split_and!.
Qed.

End Config.

(** ** Example *)

#[local] Existing Instance plain_fmt.
#[local] Existing Instance no_json.

Definition web_config := vm_config web_env (B "/run/vm/web").

Lemma config_well_typed_witness :
  exists cfg, config_in web_dirs (B "/run/vm/web") = Some cfg /\ length (net cfg) = 1%nat /\ valid (net cfg).
Proof.
  destruct (outcome_in web_dirs web_config) as [[[cfg|m] e']|s] eqn:Ho;
    [|vm_compute in Ho; discriminate Ho..].
  assert (Hc : config_in web_dirs (B "/run/vm/web") = Some cfg)
    by (unfold config_in; fold web_config; rewrite Ho; reflexivity).
  exists cfg. split; [exact Hc|]. split.
  - assert (H : (length ∘ net) <$> config_in web_dirs (B "/run/vm/web") = Some 1%nat) by (vm_compute; reflexivity).
    rewrite Hc in H. injection H as H. exact H.
  - apply (config_well_typed web_env (B "/run/vm/web") 0 (trace_in web_dirs web_config) cfg e').
    + rewrite <- Ho. apply exec_in.
    + apply kernel_ok_in; by_eval.
    + unfold int_fds. by_eval.
Defined.

End Schema.
