(* ===== verification/RunSpectrumVm.v ===== *)
(** * RunSpectrumVm: running one VM for development ([scripts/run-spectrum-vm.c])

    The program prepares a temporary root directory, starts [virtiofsd] in it,
    and runs [start-vmm] there.  A process that it leaves behind removes the
    directory when everything else is gone.  The paths of the programs are
    constants of the build. *)

From S2P Require Import Prelude Effects Wp RustStd Sys Scenario Mac Ch NetUtil Fork NetSetup StartVmm.

Module RunSpectrumVm.

Definition EINTR : Z := 4.
Definition EWOULDBLOCK : Z := 11.
Definition POLLERR : Z := 8.
Definition SIGINT : Z := 2.
Definition SIGTERM : Z := 15.
Definition MS_BIND : Z := 4096.
Definition MS_REC : Z := 16384.
Definition CLONE_NEWNS : Z := 131072.
Definition CLONE_NEWUSER : Z := 268435456.
Definition O_WRONLY : Z := 1.
Definition O_CREAT : Z := 64.
Definition O_EXCL : Z := 128.
Definition O_CLOEXEC : Z := 524288.
Definition O_PATH : Z := 2097152.

(** What is executed: a program found in [PATH], a file, or a descriptor. *)
Inductive target := InPath (name : bytes) | AtPath (path : bytes) | OfFd (fd : Z).

(** [Exec] answers [None] when it succeeds, and else the error. *)
Inductive runner : Type -> Type :=
| GetEnv (name : bytes) : runner (option bytes)
| Asprintf (text : bytes) : runner bool
| Mkdtemp (template : bytes) : runner (result bytes Z)
| Pipe : runner (result (Z * Z) Z)
| Fork : runner (result Z Z)
| Close (fd : Z) : runner unit
| Ignore (signal : Z) : runner bool
| Poll (fd : Z) : runner (result Z Z)
| Exec (t : target) (argv : list bytes) (envp : option (list bytes)) : runner (option Z)
| GetPid : runner Z
| GetPpid : runner Z
| SetPdeathsig (signal : Z) : runner (result unit Z)
| SigEmptySet : runner (result unit Z)
| SigAddSet (signal : Z) : runner (result unit Z)
| SigBlock : runner (result unit Z)
| Chdir (path : bytes) : runner (result unit Z)
| Mkdir (path : bytes) (mode : Z) : runner (result unit Z)
| Symlink (to path : bytes) : runner (result unit Z)
| Open (path : bytes) (flags : Z) : runner (result Z Z)
| Dup2 (fd fd' : Z) : runner (result Z Z)
| Unshare (flags : Z) : runner (result unit Z)
| Mount (source on : bytes) (flags : Z) : runner (result unit Z)
| Chroot (path : bytes) : runner (result unit Z)
| Warn (text : bytes) : runner unit.

(** [err(EXIT_FAILURE, ...)]. *)
Definition err {A} (text : bytes) : prog runner A :=
  let* _ := call (Warn text) in Halt (Exit 1).

(** [if (c == -1) err(EXIT_FAILURE, ...)]. *)
Definition must {X} (c : runner (result X Z)) (text : bytes) : prog runner X :=
  let* r := call c in
  match r with Ok x => mret x | Err _ => err text end.

(** A call that replaces the process, or else an error. *)
Definition exec_or_err {A} (t : target) (argv : list bytes) (envp : option (list bytes))
    (text : bytes) : prog runner A :=
  let* r := call (Exec t argv envp) in
  match r with None => Halt Replaced | Some _ => err text end.

Section Program.
Variables APPVM_PATH CONFIG_PATH CLOUD_HYPERVISOR_PATH START_VMM_PATH VIRTIOFSD_PATH : bytes.

Definition tmpdir : prog runner bytes :=
  let* d := call (GetEnv (B "TMPDIR")) in
  mret (default (B "/tmp") d).

(** The loop of [exit_listener_main]: the [revents] found. *)
Fixpoint poll_loop (fuel : nat) (fd : Z) : prog runner Z :=
  match fuel with
  | O => Halt NoFuel
  | S fuel' =>
      let* r := call (Poll fd) in
      match r with
      | Ok revents => mret revents
      | Err errno =>
          if (errno =? EINTR) || (errno =? EWOULDBLOCK) then poll_loop fuel' fd
          else err (B "poll")
      end
  end.

Definition ignore_signal (signal : Z) (text : bytes) : prog runner unit :=
  let* ok := call (Ignore signal) in
  if ok : bool then mret tt else call (Warn text).

(** It does not return; a failed assertion is a panic. *)
Definition exit_listener_main {A} (fuel : nat) (fd : Z) (dir_path : bytes) : prog runner A :=
  let* _ := ignore_signal SIGINT (B "ignoring SIGINT") in
  let* _ := ignore_signal SIGTERM (B "ignoring SIGTERM") in
  let* revents := poll_loop fuel fd in
  if negb (revents =? POLLERR) then Halt Panic
  else exec_or_err (InPath (B "rm")) [B "rm"; B "-rf"; B "--"; dir_path] None (B "exec rm").

Definition exit_listener_setup (fuel : nat) (dir_path : bytes) : prog runner unit :=
  let* fds := must Pipe (B "pipe") in
  let '(fd0, fd1) := fds in
  let* child := call Fork in
  match child with
  | Err _ =>
      let* _ := call (Close fd0) in
      let* _ := call (Close fd1) in
      err (B "fork")
  | Ok pid =>
      if pid =? 0 then
        let* _ := call (Close fd0) in
        exit_listener_main fuel fd1 dir_path
      else call (Close fd1)
  end.

Definition virtiofsd_argv : list bytes :=
  [B "virtiofsd"; B "--socket-path"; B "../vm-fs-virtiofs0/env/virtiofsd.sock";
   B "--sandbox"; B "none"; B "--shared-dir"; B "/"].

Definition spawn_virtiofsd : prog runner unit :=
  let* ppid := call GetPid in
  let* child := call Fork in
  match child with
  | Err _ => err (B "fork")
  | Ok pid =>
      if pid =? 0 then
        let* _ := must (SetPdeathsig SIGTERM) (B "prctl PR_SET_DEATHSIG") in
        let* parent := call GetPpid in
        if negb (parent =? ppid) then Halt (Exit 0)
        else
          let* _ := must SigEmptySet (B "sigemptyset") in
          let* _ := must (SigAddSet SIGINT) (B "sigaddset") in
          let* _ := must SigBlock (B "sigprocmask") in
          exec_or_err (AtPath VIRTIOFSD_PATH) virtiofsd_argv None (B "exec " ++ VIRTIOFSD_PATH)
      else mret tt
  end.

Fixpoint mkdirs (paths : list bytes) : prog runner unit :=
  match paths with
  | [] => mret tt
  | p :: rest => let* _ := must (Mkdir p 511) (B "mkdir " ++ p) in mkdirs rest
  end.

Definition root_dirs : list bytes :=
  [B "bin"; B "dev"; B "nix"; B "proc"; B "run"; B "vm-fs-virtiofs0"; B "vm-fs-virtiofs0/env"; B "vm"].

Fixpoint mounts (ms : list (bytes * bytes * Z)) : prog runner unit :=
  match ms with
  | [] => mret tt
  | (source, on, flags) :: rest =>
      let* _ := must (Mount source on flags) (B "bind mount " ++ source ++ B " -> " ++ on) in
      mounts rest
  end.

Definition root_mounts : list (bytes * bytes * Z) :=
  [(CLOUD_HYPERVISOR_PATH, B "../bin/cloud-hypervisor", MS_BIND);
   (B "/dev", B "../dev", Z.lor MS_BIND MS_REC);
   (B "/nix", B "../nix", Z.lor MS_BIND MS_REC);
   (B "/proc", B "../proc", Z.lor MS_BIND MS_REC)].

Definition start_vmm_argv : list bytes := [B "start-vmm"].

Definition main (fuel : nat) : prog runner Z :=
  let* tmp := tmpdir in
  let template := tmp ++ B "/run-spectrum-vm.XXXXXX" in
  let* ok := call (Asprintf template) in
  if negb ok then err []
  else
    let* dir_path := must (Mkdtemp template) (B "mkdtemp") in
    let* _ := exit_listener_setup fuel dir_path in
    let* _ := must (Chdir dir_path) (B "chdir " ++ dir_path) in
    let* _ := mkdirs root_dirs in
    let* _ := must (Open (B "bin/cloud-hypervisor") (Z.lor O_CLOEXEC (Z.lor O_CREAT O_EXCL)))
                (B "create bin/cloud-hypervisor") in
    let* _ := must (Chdir (B "vm")) (B "chdir vm") in
    let* _ := mkdirs [B "env"; B "data"] in
    let* _ := must (Symlink CONFIG_PATH (B "data/config")) (B "symlink data/config -> " ++ CONFIG_PATH) in
    let* _ := must (Symlink APPVM_PATH (B "../usr")) (B "symlink ../usr -> " ++ APPVM_PATH) in
    let* _ := spawn_virtiofsd in
    let* fd := must (Open (B "/dev/null") O_WRONLY) (B "open /dev/null") in
    let* _ := must (Dup2 fd 3) (B "dup2 " ++ dec fd ++ B " -> 3") in
    let* _ := if negb (fd =? 3) then call (Close fd) else mret tt in
    let* fd := must (Open START_VMM_PATH (Z.lor O_PATH O_CLOEXEC)) (B "open " ++ START_VMM_PATH) in
    let* _ := must (Unshare (Z.lor CLONE_NEWUSER CLONE_NEWNS)) (B "unshare") in
    let* _ := mounts root_mounts in
    let* _ := must (Chroot dir_path) (B "chroot") in
    exec_or_err (OfFd fd) start_vmm_argv (Some [B "PATH=/bin"]) (B "exec " ++ START_VMM_PATH).

(** ** What is done, and in which order *)

(** The calls that act on the outside, and succeeded. *)
Inductive deed :=
| Entered (path : bytes)
| Made (path : bytes)
| Linked (to path : bytes)
| Opened (path : bytes) (flags : Z) (fd : Z)
| Readied (fd : Z)          (** descriptor 3 is the readiness descriptor *)
| Isolated (flags : Z)
| Mounted (source on : bytes) (flags : Z)
| Rooted (path : bytes)
| Became (t : target) (argv : list bytes) (envp : option (list bytes)).

Definition deed_of (ev : event runner) : list deed :=
  match ev with
  | Event e x =>
      match e in runner X return X -> list deed with
      | Chdir p => fun r => if is_ok r then [Entered p] else []
      | Mkdir p _ => fun r => if is_ok r then [Made p] else []
      | Symlink t p => fun r => if is_ok r then [Linked t p] else []
      | Open p flags => fun r => match r with Ok fd => [Opened p flags fd] | Err _ => [] end
      | Dup2 fd 3 => fun r => if is_ok r then [Readied fd] else []
      | Unshare flags => fun r => if is_ok r then [Isolated flags] else []
      | Mount s o flags => fun r => if is_ok r then [Mounted s o flags] else []
      | Chroot p => fun r => if is_ok r then [Rooted p] else []
      | Exec t argv envp => fun r => match r with None => [Became t argv envp] | Some _ => [] end
      | _ => fun _ => []
      end x
  end.
Definition deeds (tr : list (event runner)) : list deed := tr ≫= deed_of.

Definition made_dir_of (ev : event runner) : list bytes :=
  match ev with
  | Event e x => match e in runner X return X -> list bytes with
                 | Mkdtemp _ => fun r => match r with Ok d => [d] | Err _ => [] end
                 | _ => fun _ => []
                 end x
  end.
Definition made_dirs (tr : list (event runner)) : list bytes := tr ≫= made_dir_of.

Definition layout (dir : bytes) (fd0 : Z) : list deed :=
  [Entered dir] ++ (Made <$> root_dirs) ++
  [Opened (B "bin/cloud-hypervisor") (Z.lor O_CLOEXEC (Z.lor O_CREAT O_EXCL)) fd0;
   Entered (B "vm"); Made (B "env"); Made (B "data");
   Linked CONFIG_PATH (B "data/config"); Linked APPVM_PATH (B "../usr")].

Definition confinement (dir : bytes) (fd1 fd2 : Z) : list deed :=
  [Opened (B "/dev/null") O_WRONLY fd1; Readied fd1;
   Opened START_VMM_PATH (Z.lor O_PATH O_CLOEXEC) fd2; Isolated (Z.lor CLONE_NEWUSER CLONE_NEWNS)] ++
  ((fun '(s, o, f) => Mounted s o f) <$> root_mounts) ++ [Rooted dir].

Lemma deeds_cons ev tr : deeds (ev :: tr) = deed_of ev ++ deeds tr.
Proof. done. Qed.
Lemma deeds_app t1 t2 : deeds (t1 ++ t2) = deeds t1 ++ deeds t2.
Proof. apply bind_app. Qed.
Lemma made_dirs_cons ev tr : made_dirs (ev :: tr) = made_dir_of ev ++ made_dirs tr.
Proof. done. Qed.
Lemma made_dirs_app t1 t2 : made_dirs (t1 ++ t2) = made_dirs t1 ++ made_dirs t2.
Proof. apply bind_app. Qed.

(** *** Processes that become another program

    The ghost state is what the process has done and the directories it has
    made; nothing is asked of a process that does not get to [Exec]. *)

Definition progress : Type := list deed * list bytes.

#[local] Program Instance deeds_spec (final : progress -> Prop) : EventSpec runner progress := {|
  ev X e s K := forall x, K x (s.1 ++ deed_of (Event e x), s.2 ++ made_dir_of (Event e x));
  halted st s := st = Replaced -> final s |}.
Next Obligation. intros final X e s K K' H HK x. by apply H. Qed.

Lemma wp_replaced {A} final (p : prog runner A) s Q tr :
  wp (SPEC := deeds_spec final) p s Q -> exec p tr (Stopped Replaced) ->
  final (s.1 ++ deeds tr, s.2 ++ made_dirs tr).
Proof.
  revert s tr. induction p as [a|st|X e k IH]; intros s tr Hw H; [by destruct H| |].
  - destruct H as [-> [= <-]]. rewrite !app_nil_r. destruct s. by apply Hw.
  - destruct H as (x & t & -> & H). rewrite deeds_cons, made_dirs_cons, !app_assoc.
    exact (IH x (_, _) t (Hw x) H).
Qed.

Section Runner.
Variable final : progress -> Prop.
#[local] Existing Instance deeds_spec.
Abbreviation wpf := (wp (SPEC := deeds_spec final)).

Lemma wpf_err {A} text s (Q : A -> progress -> Prop) : wpf (err text) s Q.
Proof. by intros []. Qed.

Lemma wpf_must {X} (c : runner (result X Z)) text ds dirs Q :
  (forall x, Q x (ds ++ deed_of (Event c (Ok x)), dirs ++ made_dir_of (Event c (Ok x)))) ->
  wpf (must c text) (ds, dirs) Q.
Proof. intros H [x|e]; [apply H|apply wpf_err]. Qed.

Lemma wpf_exec {A} t argv envp text ds dirs (Q : A -> progress -> Prop) :
  final (ds ++ [Became t argv envp], dirs) -> wpf (exec_or_err t argv envp text) (ds, dirs) Q.
Proof. intros H [e|]; [apply wpf_err|]. intros _. cbn. by rewrite app_nil_r. Qed.

Lemma wpf_mkdirs paths ds dirs (Q : unit -> progress -> Prop) :
  Q tt (ds ++ (Made <$> paths), dirs) -> wpf (mkdirs paths) (ds, dirs) Q.
Proof.
  revert ds. induction paths as [|p paths IH]; intros ds H; [by rewrite app_nil_r in H|].
  cbn [mkdirs]. apply wp_bind, wpf_must. intros []. rewrite app_nil_r. apply IH. by rewrite <- app_assoc.
Qed.

Lemma wpf_mounts ms ds dirs (Q : unit -> progress -> Prop) :
  Q tt (ds ++ ((fun '(a, o, f) => Mounted a o f) <$> ms), dirs) -> wpf (mounts ms) (ds, dirs) Q.
Proof.
  revert ds. induction ms as [|[[a o] f] ms IH]; intros ds H; [by rewrite app_nil_r in H|].
  cbn [mounts]. apply wp_bind, wpf_must. intros []. rewrite app_nil_r. apply IH. by rewrite <- app_assoc.
Qed.

(** Calls that are no deeds. *)
Lemma wpf_aside {X} (c : runner X) s (Q : X -> progress -> Prop) :
  (forall x, deed_of (Event c x) = [] /\ made_dir_of (Event c x) = []) -> (forall x, Q x s) ->
  wpf (call c) s Q.
Proof. intros Hc HQ x. destruct (Hc x) as [-> ->]. rewrite !app_nil_r. destruct s. apply HQ. Qed.

Lemma wpf_must_aside {X} (c : runner (result X Z)) text s (Q : X -> progress -> Prop) :
  (forall x, deed_of (Event c x) = [] /\ made_dir_of (Event c x) = []) -> (forall x, Q x s) ->
  wpf (must c text) s Q.
Proof.
  intros Hc HQ. destruct s as [ds dirs]. apply wpf_must. intros x.
  destruct (Hc (Ok x)) as [-> ->]. rewrite !app_nil_r. apply HQ.
Qed.

Lemma wpf_poll_loop n fd s (Q : Z -> progress -> Prop) :
  (forall r, Q r s) -> wpf (poll_loop n fd) s Q.
Proof.
  intros HQ. induction n as [|n IH]; [done|]. cbn [poll_loop].
  apply wp_bind, wpf_aside; [done|]. intros [r|e]; [apply HQ|].
  destruct (_ || _); [exact IH|apply wpf_err].
Qed.

Lemma wpf_ignore_signal sig text s (Q : unit -> progress -> Prop) :
  Q tt s -> wpf (ignore_signal sig text) s Q.
Proof.
  intros HQ. apply wp_bind, wpf_aside; [done|]. intros [|]; [done|].
  apply wpf_aside; [done|]. by intros [].
Qed.

(** The exit listener, and the process that goes on. *)
Lemma wpf_exit_listener fuel dir ds dirs (Q : unit -> progress -> Prop) :
  final (ds ++ [Became (InPath (B "rm")) [B "rm"; B "-rf"; B "--"; dir] None], dirs) ->
  Q tt (ds, dirs) -> wpf (exit_listener_setup fuel dir) (ds, dirs) Q.
Proof.
  intros Hf HQ. apply wp_bind, wpf_must_aside; [done|]. intros [fd0 fd1].
  apply wp_bind, wpf_aside; [done|]. intros [pid|e].
  - destruct (pid =? 0); [|apply wpf_aside; [done|by intros []]].
    apply wp_bind, wpf_aside; [done|]. intros _.
    apply wp_bind, wpf_ignore_signal, wp_bind, wpf_ignore_signal, wp_bind, wpf_poll_loop.
    intros r. destruct (negb _); [done|]. by apply wpf_exec.
  - do 2 (apply wp_bind, wpf_aside; [done|intros _]). apply wpf_err.
Qed.

Lemma wpf_spawn_virtiofsd ds dirs (Q : unit -> progress -> Prop) :
  final (ds ++ [Became (AtPath VIRTIOFSD_PATH) virtiofsd_argv None], dirs) ->
  Q tt (ds, dirs) -> wpf spawn_virtiofsd (ds, dirs) Q.
Proof.
  intros Hf HQ. apply wp_bind, wpf_aside; [done|]. intros ppid.
  apply wp_bind, wpf_aside; [done|]. intros [pid|e]; [|apply wpf_err].
  destruct (pid =? 0); [|done].
  apply wp_bind, wpf_must_aside; [done|]. intros _.
  apply wp_bind, wpf_aside; [done|]. intros parent. destruct (negb _); [done|].
  do 3 (apply wp_bind, wpf_must_aside; [done|intros _]). by apply wpf_exec.
Qed.

End Runner.

(** The three processes that become another program, and what each has done
    before. *)
Definition as_intended (s : progress) : Prop :=
  exists dir, s.2 = [dir] /\
    (s.1 = [Became (InPath (B "rm")) [B "rm"; B "-rf"; B "--"; dir] None] \/
     exists fd0,
       s.1 = layout dir fd0 ++ [Became (AtPath VIRTIOFSD_PATH) virtiofsd_argv None] \/
       exists fd1 fd2,
         s.1 = layout dir fd0 ++ confinement dir fd1 fd2 ++
               [Became (OfFd fd2) start_vmm_argv (Some [B "PATH=/bin"])]).

Lemma main_as_intended fuel : wp (SPEC := deeds_spec as_intended) (main fuel) ([], []) (fun _ _ => True).
Proof.
  unfold main, tmpdir. apply wp_bind, wp_bind, wpf_aside; [done|]. intros d. apply wp_ret.
  apply wp_bind, wpf_aside; [done|]. intros [|]; [|apply wpf_err].
  apply wp_bind, wpf_must. intros dir. apply wp_bind, wpf_exit_listener; [by exists dir; auto|].
  apply wp_bind, wpf_must. intros ?. apply wp_bind, wpf_mkdirs.
  apply wp_bind, wpf_must. intros fd0. do 1 (apply wp_bind, wpf_must; intros ?).
  apply wp_bind, wpf_mkdirs. do 2 (apply wp_bind, wpf_must; intros ?).
  apply wp_bind, wpf_spawn_virtiofsd; [exists dir; split; [reflexivity|right; exists fd0; left; reflexivity]|].
  apply wp_bind, wpf_must. intros fd1. apply wp_bind, wpf_must. intros ?.
  apply wp_bind. destruct (negb (fd1 =? 3)); [apply wpf_aside; [done|intros ?]|apply wp_ret].
  all: apply wp_bind, wpf_must; intros fd2; apply wp_bind, wpf_must; intros ?;
    apply wp_bind, wpf_mounts, wp_bind, wpf_must; intros ?; apply wpf_exec.
  all: exists dir; split; [reflexivity|right; exists fd0; right; exists fd1, fd2; reflexivity].
Qed.

(** C25. [run-spectrum-vm] runs other programs only after everything they need
    is in place.  A process of it that becomes another program is one of three.
    The exit listener removes the temporary directory, and only that.  The
    process that becomes [virtiofsd] has laid out the directory.  And the process
    that becomes [start-vmm] has done so, has made descriptor 3 the readiness
    descriptor, and then, in this order, left the user and mount namespaces, made
    the mounts in the directory, and changed its root to it. *)
Theorem prepared_before_exec fuel tr :
  exec (main fuel) tr (Stopped Replaced) -> as_intended (deeds tr, made_dirs tr).
Proof. intros H. exact (wp_replaced _ _ ([], []) _ _ (main_as_intended fuel) H). Qed.

(** C38. But [start-vmm] is run without the name of a VM: if [run-spectrum-vm]
    gets as far as becoming it, all it does is print its usage and exit with
    status 1, without starting a hypervisor. *)
Theorem start_vmm_gets_no_name {FMT : Fmt} {JSON : Ch.Json} fuel tr fd argv envp E e tr' o :
  exec (main fuel) tr (Stopped Replaced) -> Became (OfFd fd) argv envp ∈ deeds tr ->
  StartVmm.argv E = argv -> exec (StartVmm.main E e) tr' o ->
  tr' = [Event (Eprintln (B "Usage: start-vmm vm")) tt] /\ o = Stopped (Exit 1).
Proof.
  intros H Hin Hargv Hs. pose proof (wp_replaced _ _ ([], []) _ _ (main_as_intended fuel) H) as Hd.
  assert (argv = start_vmm_argv) as ->.
  { destruct Hd as (dir & _ & Hd). cbn [fst app] in Hd. unfold layout, confinement in Hd.
    destruct Hd as [Hd|(fd0 & [Hd|(fd1 & fd2 & Hd)])]; rewrite Hd in Hin; set_solver. }
  unfold StartVmm.main, StartVmm.run in Hs. rewrite Hargv in Hs. cbn [tail start_vmm_argv] in Hs.
  unfold StartVmm.ex_usage in Hs. msteps. repeat match goal with u : unit |- _ => destruct u end. done.
Qed.

End Program.

(** ** Examples *)

(** Everything succeeds; [forks] are the answers to [fork], in order. *)
Definition all_fine (X : Type) (c : runner X) (forks : list Z) : X * list Z :=
  match c in runner X return X * list Z with
  | GetEnv _ => (None, forks)
  | Asprintf _ => (true, forks)
  | Mkdtemp _ => (Ok (B "/tmp/run-spectrum-vm.abcdef"), forks)
  | Pipe => (Ok (3, 4), forks)
  | Fork => (Ok (default 1 (head forks)), tail forks)
  | Ignore _ => (true, forks)
  | Poll _ => (Ok POLLERR, forks)
  | Exec _ _ _ => (None, forks)
  | GetPid => (100, forks)
  | GetPpid => (100, forks)
  | SetPdeathsig _ | SigEmptySet | SigAddSet _ | SigBlock | Chdir _ | Mkdir _ _ | Symlink _ _
  | Unshare _ | Mount _ _ _ | Chroot _ => (Ok tt, forks)
  | Open _ _ => (Ok 5, forks)
  | Dup2 _ fd => (Ok fd, forks)
  | Close _ | Warn _ => (tt, forks)
  end.

(** The program as it might be built, and its trace for some answers to [fork]. *)
Definition built : prog runner Z :=
  main (B "/nix/appvm") (B "/nix/config") (B "/nix/ch") (B "/nix/start-vmm") (B "/nix/virtiofsd") 3.
Definition trace_of (forks : list Z) : list (event runner) := (run all_fine built forks).1.2.

Lemma replaced_built forks :
  (run all_fine built forks).1.1 = Stopped Replaced -> exec built (trace_of forks) (Stopped Replaced).
Proof. intros <-. apply exec_run. Qed.

Lemma prepared_before_exec_witness :
  as_intended (B "/nix/appvm") (B "/nix/config") (B "/nix/ch") (B "/nix/start-vmm") (B "/nix/virtiofsd")
    (deeds (trace_of [0]), made_dirs (trace_of [0])) /\
  as_intended (B "/nix/appvm") (B "/nix/config") (B "/nix/ch") (B "/nix/start-vmm") (B "/nix/virtiofsd")
    (deeds (trace_of [7; 8]), made_dirs (trace_of [7; 8])) /\
  length (deeds (trace_of [7; 8])) = 25%nat.
Proof.
  split; [|split].
  - apply (prepared_before_exec _ _ _ _ _ 3). apply replaced_built. vm_compute. reflexivity.
  - apply (prepared_before_exec _ _ _ _ _ 3). apply replaced_built. vm_compute. reflexivity.
  - vm_compute. reflexivity.
Defined.

#[local] Existing Instance plain_fmt.
#[local] Existing Instance Ch.no_json.

(** [start-vmm] as it is run. *)
Definition nameless_env : StartVmm.env := {|
  StartVmm.argv := start_vmm_argv; StartVmm.x86_64 := true;
  StartVmm.garbage := NetSetup.no_garbage; StartVmm.uninit_v := replicate 4 NUL; StartVmm.fuel := 4 |}.

Lemma start_vmm_gets_no_name_witness :
  trace_in all_well (StartVmm.main nameless_env) = [Event (Eprintln (B "Usage: start-vmm vm")) tt] /\
  outcome_in all_well (StartVmm.main nameless_env) = Stopped (Exit 1).
Proof.
  apply (start_vmm_gets_no_name (B "/nix/appvm") (B "/nix/config") (B "/nix/ch") (B "/nix/start-vmm")
           (B "/nix/virtiofsd") 3 (trace_of [7; 8]) 5 start_vmm_argv (Some [B "PATH=/bin"]) nameless_env 0).
  - apply replaced_built. vm_compute. reflexivity.
  - assert (Hl : last (deeds (trace_of [7; 8])) = Some (Became (OfFd 5) start_vmm_argv (Some [B "PATH=/bin"])))
      by (vm_compute; reflexivity).
    apply last_Some in Hl as [l ->]. apply elem_of_app. right. left.
  - reflexivity.
  - apply exec_in.
Defined.

End RunSpectrumVm.
