(* ===== verification/HostSys.v ===== *)
(** * HostSys: the outside of [xdg-desktop-portal-spectrum-host]

    The calls that the portal host ([tools/xdg-desktop-portal-spectrum-host])
    makes: stream I/O, the D-Bus connections of [zbus], the file system, and
    the executor with its [OnceLock] statics.  D-Bus values, errors and their
    renderings belong to third-party crates and are parameters. *)


From S2P Require Import Prelude Effects RustStd.

(** What is used of [zbus] and [zvariant]: their value and error types. *)
Class Zbus := {
  Value : Type;                           (** [zvariant::OwnedValue] *)
  ZError : Type;                          (** [zbus::Error] *)
  zerror_display : ZError -> bytes;
  (** an [InputOutput(e)] with [e.kind() == ErrorKind::BrokenPipe] *)
  is_broken_pipe : ZError -> bool;
  errno_display : Z -> bytes;             (** [rustix::io::Errno] *)
}.

(** [BTreeMap<String, OwnedValue>]. *)
Abbreviation vardict := (gmap bytes Value).

(** The arguments of a file chooser request. *)
Record request `{Zbus} := {
  rq_handle : bytes;
  rq_app_id : bytes;
  rq_parent_window : bytes;
  rq_title : bytes;
  rq_options : vardict;
}.

(** The [OnceLock] statics: [VSOCK_UNIX_PATH] of [main.rs] and the [PROXY]s of
    [documents.rs] and [file_chooser.rs]; a proxy is named by its bus. *)
Inductive lock : Type -> Type :=
| VSOCK_UNIX_PATH : lock bytes
| DOCUMENTS_PROXY : lock Z
| FILE_CHOOSER_PROXY : lock Z.

Inductive host `{Zbus} : Type -> Type :=
(* streams, named by their descriptor *)
| ReadExact (c : Z) (n : nat) : host (result bytes io_error)
| WriteAll (c : Z) (data : bytes) : host (result unit io_error)
| ConnectUnix (path : bytes) : host (result Z io_error)
| Drop (c : Z) : host unit
(* the listening socket *)
| AsyncNew (fd : Z) : host (result unit io_error)
| LocalAddr (fd : Z) : host (result (option bytes) io_error)
| Accept (fd : Z) : host (result Z io_error)
(* D-Bus *)
| BuildConnection (vsock : Z) (name path share_root : bytes) : host (result Z ZError)
| NextMessage (bus : Z) : host (result unit ZError)
| SessionBus : host (result Z ZError)
| NewProxy (l : lock Z) (bus : Z) : host (result Z ZError)
| AddNamedFull (proxy fd : Z) (filename : bytes) (flags : Z) (app_id : bytes)
    (permissions : list bytes) : host (result (bytes * vardict) ZError)
| BackendOpenFile (proxy : Z) (rq : request) : host (result (Z * vardict) ZError)
| BackendSaveFile (proxy : Z) (rq : request) : host (result (Z * vardict) ZError)
(* the file system *)
| Exists (path : bytes) : host bool
| IsFile (path : bytes) : host bool
| OpenDirPath (path : bytes) : host (result Z Z)
(* the executor, the statics and the terminal *)
| SpawnTask (conn : Z) : host unit
| OnceGet {V : Type} (l : lock V) : host (option V)
| OnceSet {V : Type} (l : lock V) (v : V) : host bool
| Eprint (text : bytes) : host unit.

(** The command line of the process. *)
Class Args := args_os : list bytes.

Section Host.
Context `{ZB : Zbus}.

Definition map_err {A E F} (f : E -> F) (p : prog host (result A E))
  : prog host (result A F) :=
  let* r := p in Ret (result_map_err f r).

(** [OnceLock::get().unwrap()] and [OnceLock::set(v).unwrap()]. *)
Definition get_unwrap {V} (l : lock V) : prog host V :=
  let* o := call (OnceGet l) in unwrap_opt o.
Definition set_unwrap {V} (l : lock V) (v : V) : prog host unit :=
  let* fresh := call (OnceSet l v) in
  if fresh : bool then Ret tt else Halt Panic.

(** *** Executions *)

Lemma exec_ret {A} (a : A) tr o :
  exec (Ret a : prog host A) tr o <-> tr = [] /\ o = Done a.
Proof. done. Qed.

Lemma exec_hhalt {A} s tr o :
  exec (Halt s : prog host A) tr o <-> tr = [] /\ o = Stopped s.
Proof. done. Qed.

Lemma exec_hmap_err {A E F} (f : E -> F) (p : prog host (result A E)) tr o :
  exec (map_err f p) tr o <->
  (exists r, exec p tr (Done r) /\ o = Done (result_map_err f r)) \/
  (exists s, exec p tr (Stopped s) /\ o = Stopped s).
Proof.
  unfold map_err. rewrite exec_bind. split.
  - intros [(r & tr1 & tr2 & -> & H & [-> ->])|H]; [left|by right].
    rewrite app_nil_r. eauto.
  - intros [(r & H & ->)|H]; [left|by right].
    exists r, tr, []. by rewrite app_nil_r.
Qed.

Lemma exec_bind_done {A C} (p : prog host A) (k : A -> prog host C) tr c :
  exec (p ≫= k) tr (Done c) ->
  exists a tr1 tr2, tr = tr1 ++ tr2 /\ exec p tr1 (Done a) /\ exec (k a) tr2 (Done c).
Proof. intros [H|(s & _ & ?)]%exec_bind; done. Qed.

Lemma exec_call_bind {X C} (e : host X) (k : X -> prog host C) tr o :
  exec (let* x := call e in k x) tr o -> exists x t, tr = Event e x :: t /\ exec (k x) t o.
Proof. done. Qed.

Lemma exec_get_unwrap {V} (l : lock V) tr o :
  exec (get_unwrap l) tr o <->
  (exists v, tr = [Event (OnceGet l) (Some v)] /\ o = Done v) \/
  (tr = [Event (OnceGet l) None] /\ o = Stopped Panic).
Proof.
  unfold get_unwrap. rewrite exec_bind. split.
  - intros [(a & t1 & t2 & -> & (x & -> & [= ->])%exec_call & H)
           |(s & (x & -> & ?)%exec_call & _)]; [|done].
    destruct x as [v|]; destruct H as [-> ->]; eauto.
  - intros [(v & -> & ->)|[-> ->]]; left;
      eexists _, [_], []; (split; [reflexivity|]); (split; [by apply exec_call; eauto|done]).
Qed.

End Host.

Global Arguments exec : simpl never.
Global Arguments mbind {_ _ _ _} _ _ : simpl never.
Global Arguments map_err : simpl never.

(** Take apart the executions in the hypotheses, one construct at a time. *)
Ltac hstep :=
  match goal with
  | H : exec (_ ≫= _) _ _ |- _ => apply exec_bind in H
  | H : exec (Ret _) _ _ |- _ => apply (proj1 (exec_ret _ _ _)) in H
  | H : exec (mret _) _ _ |- _ => apply (proj1 (exec_ret _ _ _)) in H
  | H : exec (Halt _) _ _ |- _ => apply (proj1 (exec_hhalt _ _ _)) in H
  | H : exec (call _) _ _ |- _ => apply exec_call in H
  | H : exec (map_err _ _) _ _ |- _ => apply exec_hmap_err in H
  | H : exec (get_unwrap _) _ _ |- _ => apply exec_get_unwrap in H
  | H : exec (match ?r with Ok _ => _ | Err _ => _ end) _ _ |- _ => destruct r eqn:?
  | H : exec (if ?c then _ else _) _ _ |- _ => destruct c eqn:?
  | H : exec (match ?c with Some _ => _ | None => _ end) _ _ |- _ => destruct c eqn:?
  | H : exec (let (_, _) := ?c in _) _ _ |- _ => destruct c
  | H : result_map_err _ ?r = Ok _ |- _ => destruct r; simpl in H
  | H : result_map_err _ ?r = Err _ |- _ => destruct r; simpl in H
  | H : Ok _ = result_map_err _ ?r |- _ => destruct r; simpl in H
  | H : Err _ = result_map_err _ ?r |- _ => destruct r; simpl in H
  | H : exists _, _ |- _ => destruct H
  | H : _ /\ _ |- _ => destruct H
  | H : _ \/ _ |- _ => destruct H
  end; simplify_eq/=.

Ltac hsteps := repeat hstep.

(** ** Reading a trace *)

Section Traces.
Context `{ZB : Zbus}.

(** What was received on the stream [c], and what was sent on it. *)
Definition received_of (c : Z) (ev : event host) : bytes :=
  match ev with
  | Event e x => match e in host X return X -> bytes with
                 | ReadExact c' _ => fun r => match r with
                                              | Ok d => if c' =? c then d else []
                                              | Err _ => []
                                              end
                 | _ => fun _ => []
                 end x
  end.
Definition received (c : Z) (tr : list (event host)) : bytes := tr ≫= received_of c.

Definition sent_of (c : Z) (ev : event host) : list bytes :=
  match ev with
  | Event (WriteAll c' d) _ => if c' =? c then [d] else []
  | _ => []
  end.
Definition sent (c : Z) (tr : list (event host)) : list bytes := tr ≫= sent_of c.

Lemma received_app c t1 t2 : received c (t1 ++ t2) = received c t1 ++ received c t2.
Proof. apply bind_app. Qed.
Lemma sent_app c t1 t2 : sent c (t1 ++ t2) = sent c t1 ++ sent c t2.
Proof. apply bind_app. Qed.

Lemma received_cons c ev tr : received c (ev :: tr) = received_of c ev ++ received c tr.
Proof. done. Qed.
Lemma sent_cons c ev tr : sent c (ev :: tr) = sent_of c ev ++ sent c tr.
Proof. done. Qed.
Lemma received_nil c : received c [] = [].
Proof. done. Qed.
Lemma sent_nil c : sent c [] = [].
Proof. done. Qed.

(** A read or a write on [c] that failed. *)
Definition io_failed_of (c : Z) (ev : event host) : bool :=
  match ev with
  | Event e x => match e in host X return X -> bool with
                 | ReadExact c' _ => fun r => (c' =? c) && is_err r
                 | WriteAll c' _ => fun r => (c' =? c) && is_err r
                 | _ => fun _ => false
                 end x
  end.
Definition io_failed (c : Z) (tr : list (event host)) : bool := existsb (io_failed_of c) tr.

Lemma io_failed_app c t1 t2 : io_failed c (t1 ++ t2) = io_failed c t1 || io_failed c t2.
Proof. apply existsb_app. Qed.
Lemma io_failed_cons c ev tr : io_failed c (ev :: tr) = io_failed_of c ev || io_failed c tr.
Proof. done. Qed.
Lemma io_failed_nil c : io_failed c [] = false.
Proof. done. Qed.

(** [read_exact] fills its buffer when it succeeds. *)
Definition read_answer (ev : event host) : Prop :=
  match ev with
  | Event e x => match e in host X return X -> Prop with
                 | ReadExact _ n => fun r => match r with
                                             | Ok d => length d = n
                                             | Err _ => True
                                             end
                 | _ => fun _ => True
                 end x
  end.
Definition reads_ok (tr : list (event host)) : Prop := Forall read_answer tr.

Lemma reads_ok_app t1 t2 : reads_ok (t1 ++ t2) <-> reads_ok t1 /\ reads_ok t2.
Proof. apply Forall_app. Qed.
Lemma reads_ok_cons ev tr : reads_ok (ev :: tr) <-> read_answer ev /\ reads_ok tr.
Proof. unfold reads_ok. by rewrite Forall_cons. Qed.

(** The streams opened with [connect], and the buses that were set up, each
    with the share root it serves. *)
Definition connected_of (ev : event host) : list Z :=
  match ev with
  | Event e x => match e in host X return X -> list Z with
                 | ConnectUnix _ => fun r => match r with Ok v => [v] | Err _ => [] end
                 | _ => fun _ => []
                 end x
  end.
Definition connected (tr : list (event host)) : list Z := tr ≫= connected_of.

Definition served_of (ev : event host) : list (Z * bytes) :=
  match ev with
  | Event e x => match e in host X return X -> list (Z * bytes) with
                 | BuildConnection _ _ _ root =>
                     fun r => match r with Ok bus => [(bus, root)] | Err _ => [] end
                 | _ => fun _ => []
                 end x
  end.
Definition served (tr : list (event host)) : list (Z * bytes) := tr ≫= served_of.

Lemma connected_app t1 t2 : connected (t1 ++ t2) = connected t1 ++ connected t2.
Proof. apply bind_app. Qed.
Lemma served_app t1 t2 : served (t1 ++ t2) = served t1 ++ served t2.
Proof. apply bind_app. Qed.
Lemma connected_cons ev tr : connected (ev :: tr) = connected_of ev ++ connected tr.
Proof. done. Qed.
Lemma served_cons ev tr : served (ev :: tr) = served_of ev ++ served tr.
Proof. done. Qed.
Lemma connected_nil : connected [] = [].
Proof. done. Qed.
Lemma served_nil : served [] = [].
Proof. done. Qed.

(** *** Programs that never make a certain kind of call *)

Definition quiet {T A} (f : event host -> list T) (p : prog host A) : Prop :=
  forall tr o, exec p tr o -> tr ≫= f = [].

Lemma quiet_ret {T A} (f : event host -> list T) (a : A) : quiet f (Ret a).
Proof. by intros tr o [-> _]. Qed.
Lemma quiet_halt {T A} (f : event host -> list T) s : quiet f (Halt s : prog host A).
Proof. by intros tr o [-> _]. Qed.
Lemma quiet_call {T X} (f : event host -> list T) (e : host X) :
  (forall x, f (Event e x) = []) -> quiet f (call e).
Proof. intros Hf tr o (x & -> & _)%exec_call. unfold mbind. simpl. by rewrite Hf. Qed.
Lemma quiet_bind {T A C} (f : event host -> list T) (p : prog host A) (k : A -> prog host C) :
  quiet f p -> (forall a, quiet f (k a)) -> quiet f (p ≫= k).
Proof.
  intros Hp Hk tr o [(a & t1 & t2 & -> & H1 & H2)|(s & H1 & ->)]%exec_bind.
  - rewrite bind_app. by rewrite (Hp _ _ H1), (Hk _ _ _ H2).
  - by apply Hp in H1.
Qed.
Lemma quiet_map_err {T A E F} (f : event host -> list T) (g : E -> F)
    (p : prog host (result A E)) :
  quiet f p -> quiet f (map_err g p).
Proof. intros Hp. apply quiet_bind; [done|]. intros. apply quiet_ret. Qed.
Lemma quiet_get_unwrap {T V} (f : event host -> list T) (l : lock V) :
  (forall x, f (Event (OnceGet l) x) = []) -> quiet f (get_unwrap l).
Proof.
  intros Hf. apply quiet_bind; [by apply quiet_call|].
  intros [v|]; [apply quiet_ret|apply quiet_halt].
Qed.

End Traces.

Global Arguments received : simpl never.
Global Arguments sent : simpl never.
Global Arguments io_failed : simpl never.
Global Arguments connected : simpl never.
Global Arguments served : simpl never.

(** Compute what an explicit trace shows of a stream. *)
Create Rewrite HintDb trace.
#[export] Hint Rewrite @received_app @received_cons @received_nil @sent_app @sent_cons @sent_nil
  @io_failed_app @io_failed_cons @io_failed_nil @connected_app @connected_cons @connected_nil
  @served_app @served_cons @served_nil : trace.

Ltac read_trace := autorewrite with trace; cbn; rewrite ?Z.eqb_refl; cbn.

Create HintDb quiet discriminated.

(** Follow the structure of a program, using the hints for what it calls. *)
Ltac quieten :=
  cbv beta;
  lazymatch goal with
  | |- quiet _ (mbind _ _) => apply quiet_bind; [quieten|intros; quieten]
  | |- quiet _ (mret _) => apply quiet_ret
  | |- quiet _ (Ret _) => apply quiet_ret
  | |- quiet _ (Halt _) => apply quiet_halt
  | |- quiet _ (map_err _ _) => apply quiet_map_err; quieten
  | |- quiet _ (call _) => apply quiet_call; intros; try reflexivity; auto
  | |- quiet _ (get_unwrap _) => apply quiet_get_unwrap; intros; try reflexivity; auto
  | |- quiet _ (match ?x with _ => _ end) => destruct x; quieten
  | _ => solve [auto with quiet nocore]
  end.
