(* ===== verification/HostScenario.v ===== *)
(** * HostScenario: a concrete outside for evaluating the portal host

    Plain D-Bus values, and a handler for the calls of [HostSys] in which the
    guest's stream and the vsock stream deliver given bytes.  It is used to
    exhibit executions: the general theorems are proved for every outside. *)

From S2P Require Import Prelude Effects RustStd HostSys.

Inductive plain_value := PBool (b : bool) | PStrings (l : list bytes) | POther.

(** An error of the bus is whether it is a broken pipe. *)
Definition plain_zbus : Zbus := {|
  Value := plain_value;
  ZError := bool;
  zerror_display := fun b => if b then B "broken pipe" else B "bus error";
  is_broken_pipe := fun b => b;
  errno_display := fun e => B "os error " ++ dec e |}.
#[export] Existing Instance plain_zbus | 100.

Record host_scenario := {
  hs_conn : bytes;                        (** what the guest sends *)
  hs_vsock : bytes;                       (** what arrives on the vsock stream *)
  hs_response : Z;                        (** the file chooser's answer *)
  hs_results : gmap bytes plain_value;
}.

Definition CONN : Z := 7.
Definition VSOCK : Z := 8.

(** [read_exact] on a stream that ends after [s]. *)
Definition read_from (s : bytes) (n : nat) : result bytes io_error * bytes :=
  if decide (n <= length s)%nat then (Ok (take n s), drop n s) else (Err UnexpectedEof, []).

(** The world is what is left on the two streams. *)
Definition outside (h : host_scenario) (X : Type) (c : host X) (w : bytes * bytes)
  : X * (bytes * bytes) :=
  match c in host X return X * (bytes * bytes) with
  | ReadExact c n =>
      if c =? CONN then let '(r, s) := read_from w.1 n in (r, (s, w.2))
      else let '(r, s) := read_from w.2 n in (r, (w.1, s))
  | WriteAll _ _ => (Ok tt, w)
  | ConnectUnix _ => (Ok VSOCK, w)
  | Drop _ => (tt, w)
  | AsyncNew _ => (Ok tt, w)
  | LocalAddr _ => (Ok (Some (B "/run/vm/web/vsock_219")), w)
  | Accept _ => (Ok CONN, w)
  | BuildConnection _ _ _ _ => (Ok 9, w)
  | NextMessage _ => (Err true, w)
  | SessionBus => (Ok 10, w)
  | NewProxy _ bus => (Ok bus, w)
  | AddNamedFull _ _ _ _ _ _ => (Ok (B "d1", ∅), w)
  | BackendOpenFile _ _ => (Ok (hs_response h, hs_results h), w)
  | BackendSaveFile _ _ => (Ok (hs_response h, hs_results h), w)
  | Exists _ => (true, w)
  | IsFile _ => (true, w)
  | OpenDirPath _ => (Ok 13, w)
  | SpawnTask _ => (tt, w)
  | OnceGet l => (match l in lock V return option V with
                  | VSOCK_UNIX_PATH => Some (B "/run/vm/web/vsock")
                  | DOCUMENTS_PROXY => Some 10
                  | FILE_CHOOSER_PROXY => Some 10
                  end, w)
  | OnceSet _ _ => (true, w)
  | Eprint _ => (tt, w)
  end.

Definition host_outcome {A} (h : host_scenario) (p : prog host A) : outcome A :=
  (run (outside h) p (hs_conn h, hs_vsock h)).1.1.
Definition host_trace {A} (h : host_scenario) (p : prog host A) : list (event host) :=
  (run (outside h) p (hs_conn h, hs_vsock h)).1.2.

Lemma exec_host {A} h (p : prog host A) : exec p (host_trace h p) (host_outcome h p).
Proof. apply exec_run. Qed.

Lemma exec_host_outcome {A} h (p : prog host A) o :
  host_outcome h p = o -> exec p (host_trace h p) o.
Proof. intros <-. apply exec_host. Qed.

Lemma read_from_answer s n : match (read_from s n).1 with Ok d => length d = n | Err _ => True end.
Proof. unfold read_from. case_decide; [|done]. simpl. rewrite length_take. lia. Qed.

(** Its streams read exactly. *)
Lemma reads_ok_run {A} h (p : prog host A) w : reads_ok (run (outside h) p w).1.2.
Proof.
  revert w. induction p as [a|s|X c k IH]; intros w; [apply Forall_nil_2..|].
  simpl. destruct (outside h X c w) as [x w'] eqn:E.
  destruct (run (outside h) (k x) w') as [[o tr] w2] eqn:Er. simpl.
  apply reads_ok_cons. split; [|specialize (IH x w'); by rewrite Er in IH].
  destruct c; try done. simpl in E.
  destruct (_ =? _);
    [pose proof (read_from_answer w.1 n); destruct (read_from w.1 n)
    |pose proof (read_from_answer w.2 n); destruct (read_from w.2 n)]; by simplify_eq.
Qed.

Lemma reads_ok_host {A} h (p : prog host A) : reads_ok (host_trace h p).
Proof. apply reads_ok_run. Qed.
