(* ===== verification/HostProto.v ===== *)
(** * HostProto: the portal host's side of a guest connection ([main.rs])

    Receiving the guest's handshake, connecting back to the guest through
    Cloud Hypervisor's vsock socket, serving the file chooser on the guest's
    bus and reporting the result ([receive_u32] to [run_guest_connection]). *)

From S2P Require Import Prelude Effects RustStd HostSys HostScenario.

Module Proto.

(** ** Big-endian integers *)

(** [u32::from_be_bytes], and its inverse [u32::to_be_bytes] ([htonl]). *)
Definition from_be_bytes (b : bytes) : Z := fold_left (fun acc x => 256 * acc + u8_val x) b 0.
Definition to_be_bytes (n : Z) : bytes :=
  [u8_of (n / 2 ^ 24); u8_of (n / 2 ^ 16); u8_of (n / 2 ^ 8); u8_of n].

(** [{:?}] of bytes and [{:#x?}] of a non-empty array of bytes. *)
Definition debug_u8s (l : bytes) : bytes :=
  B "[" ++ foldr (fun s acc => match acc with
                               | [] => s
                               | _ => s ++ B ", " ++ acc
                               end) [] (dec ∘ u8_val <$> l) ++ B "]".
Definition lower_hex (b : byte) : bytes :=
  let nibble d := if d <? 10 then u8_of (48 + d) else u8_of (87 + d) in
  (if u8_val b <? 16 then [] else [nibble (u8_val b / 16)]) ++ [nibble (u8_val b mod 16)].
Definition debug_hex (l : bytes) : bytes :=
  B "[" ++ [NL] ++ (l ≫= fun b => B "    0x" ++ lower_hex b ++ B "," ++ [NL]) ++ B "]".

Section Protocol.
Context {FMT : Fmt} `{ZB : Zbus} {ARGS : Args}.

(** [msg] prints a line to standard error. *)
Definition msg (e : bytes) : prog host unit :=
  let* _ := match head args_os with
            | Some p => match Path.file_name p with
                        | Some name => call (Eprint (to_string_lossy name ++ B ": "))
                        | None => mret tt
                        end
            | None => mret tt
            end in
  call (Eprint (e ++ [NL])).

Definition receive_u32 (conn : Z) : prog host (result Z io_error) :=
  let? buf := call (ReadExact conn 4) in
  mret (Ok (from_be_bytes buf)).

Definition receive_bytestring (conn : Z) : prog host (result bytes bytes) :=
  let? len := map_err (fun e => B "reading length: " ++ io_display e) (receive_u32 conn) in
  let? buf := map_err (fun e => B "reading contents: " ++ io_display e)
                (call (ReadExact conn (Z.to_nat len))) in
  mret (Ok buf).

Definition negotiate_version (conn : Z) : prog host (result unit bytes) :=
  let? num_versions :=
    map_err (fun e => B "reading number of versions supported by client: " ++ io_display e)
      (call (ReadExact conn 1)) in
  let? client_versions :=
    map_err (fun e => B "reading versions supported by client: " ++ io_display e)
      (call (ReadExact conn (Z.to_nat (from_be_bytes num_versions)))) in
  if negb (has_byte Byte.x01 client_versions) then
    mret (Err (B "no supported protocol versions offered by client: "
               ++ debug_u8s client_versions))
  else
    let? _ :=
      map_err (fun e => B "communicating chosen protocol version to client: " ++ io_display e)
        (call (WriteAll conn [Byte.x01])) in
    mret (Ok tt).

(** The three writes of [CONNECT port\n]. *)
Fixpoint write_parts (vsock : Z) (parts : list bytes) : prog host (result unit bytes) :=
  match parts with
  | [] => mret (Ok tt)
  | part :: rest =>
      let? _ := map_err (fun e => B "writing to VSOCK UNIX socket: " ++ io_display e)
                  (call (WriteAll vsock part)) in
      write_parts vsock rest
  end.

Definition RESPONSE_LEN : nat := 14.
Definition min_response_len : nat := length (B "OK 0" ++ [NL]).

(** [response_len.checked_sub(1).and_then(|i| response.get(i))]. *)
Definition last_read (response : bytes) (response_len : nat) : option byte :=
  match response_len with O => None | S i => response !! i end.

(** Fill part of a buffer. *)
Definition splice (buf : bytes) (at_ : nat) (data : bytes) : bytes :=
  take at_ buf ++ data ++ drop (at_ + length data) buf.

(** The loop that reads the response to [CONNECT]. *)
Fixpoint read_response (fuel : nat) (vsock : Z) (response : bytes) (response_len : nat)
  : prog host (result bytes bytes) :=
  if bool_decide (last_read response response_len <> Some NL)
     && bool_decide (response_len < length response)%nat
  then
    match fuel with
    | O => Halt NoFuel
    | S fuel' =>
        let min_remaining := (min_response_len - response_len)%nat in
        let end_ := Nat.max min_remaining (response_len + 1) in
        if bool_decide (response_len <= end_)%nat && bool_decide (end_ <= length response)%nat
        then
          let dest_len := (end_ - response_len)%nat in
          let? data :=
            map_err (fun e => B "reading VSOCK connection response: " ++ io_display e)
              (call (ReadExact vsock dest_len)) in
          read_response fuel' vsock (splice response response_len data)
            (response_len + dest_len)
        else Halt Panic
    end
  else mret (Ok response).

Definition connect_to_guest (port : Z) : prog host (result Z bytes) :=
  let* vsock_unix_path := get_unwrap VSOCK_UNIX_PATH in
  let? vsock :=
    map_err (fun e => B "connecting to " ++ debug_path vsock_unix_path ++ B ": " ++ io_display e)
      (call (ConnectUnix vsock_unix_path)) in
  let? _ := write_parts vsock [B "CONNECT "; dec port; [NL]] in
  let? response := read_response RESPONSE_LEN vsock (replicate RESPONSE_LEN NUL) 0 in
  if negb (starts_with (B "OK ") response) then
    mret (Err (B "unexpected response from Cloud Hypervisor VSOCK handshake: "
               ++ debug_hex response))
  else mret (Ok vsock).

Definition BUS_NAME : bytes := B "org.freedesktop.impl.portal.desktop.spectrum".
Definition PORTAL_PATH : bytes := B "/org/freedesktop/portal/desktop".

(** The deferred part of [run_guest_connection]: its [async] block. *)
Definition guest_dbus_conn (port : Z) (guest_share_root : bytes) : prog host (result Z bytes) :=
  if Path.is_relative guest_share_root then
    mret (Err (B "guest provided a non-absolute share root: " ++ debug_path guest_share_root))
  else
    let? vsock := connect_to_guest port in
    map_err (fun e => B "setting up connection to guest bus: " ++ zerror_display e)
      (call (BuildConnection vsock BUS_NAME PORTAL_PATH guest_share_root)).

(** The final loop, until the guest's bus goes away. *)
Fixpoint message_loop (fuel : nat) (bus : Z) : prog host (result unit bytes) :=
  match fuel with
  | O => Halt NoFuel
  | S fuel' =>
      let* m := call (NextMessage bus) in
      match m with
      | Ok _ => message_loop fuel' bus
      | Err e => if is_broken_pipe e then mret (Ok tt)
                 else mret (Err (B "communicating with guest bus: " ++ zerror_display e))
      end
  end.

(** [u8::from(r.is_err())]. *)
Definition status_byte {A E} (r : result A E) : byte :=
  if is_err r then Byte.x01 else Byte.x00.

(** The end of [run_guest_connection]: the guest has been [told] the result,
    or the attempt to tell it failed. *)
Definition after_report (fuel : nat) (conn : Z) (guest_dbus_conn_result : result Z bytes)
    (told : result unit io_error) : prog host (result unit bytes) :=
  let? _ := match told with
            | Ok _ => mret (Ok tt)
            | Err e =>
                let e := B "sending setup response to guest: " ++ io_display e in
                if is_err guest_dbus_conn_result then let* _ := msg e in mret (Ok tt)
                else mret (Err e)
            end in
  let* _ := call (Drop conn) in
  let? bus := mret guest_dbus_conn_result in
  let* _ := msg (B "Created org.freedesktop.impl.portal.desktop.spectrum.host on guest bus") in
  message_loop fuel bus.

Definition run_guest_connection (fuel : nat) (conn : Z) : prog host (result unit bytes) :=
  let? _ := negotiate_version conn in
  let? port := map_err (fun e => B "receiving port: " ++ io_display e) (receive_u32 conn) in
  let? guest_share_root :=
    map_err (fun e => B "receiving guest share root: " ++ e) (receive_bytestring conn) in
  let* guest_dbus_conn_result := guest_dbus_conn port guest_share_root in
  let* told := call (WriteAll conn [status_byte guest_dbus_conn_result]) in
  after_report fuel conn guest_dbus_conn_result told.

(** ** Integers on the wire *)

Lemma from_be_bytes_snoc s b : from_be_bytes (s ++ [b]) = 256 * from_be_bytes s + u8_val b.
Proof. unfold from_be_bytes. by rewrite fold_left_app. Qed.

Lemma from_be_bytes_range s : 0 <= from_be_bytes s < 256 ^ Z.of_nat (length s).
Proof.
  induction s as [|b s IH] using rev_ind; [by vm_compute|].
  rewrite from_be_bytes_snoc, length_app, Nat2Z.inj_add, Z.pow_add_r by lia.
  change (256 ^ Z.of_nat (length [b])) with 256. pose proof (u8_val_range b). lia.
Qed.

Lemma from_to_be_bytes n : 0 <= n < 2 ^ 32 -> from_be_bytes (to_be_bytes n) = n.
Proof.
  intros Hn. unfold from_be_bytes, to_be_bytes. simpl fold_left. rewrite !u8_val_of.
  assert (n / 2 ^ 24 < 256) by (apply Z.div_lt_upper_bound; lia).
  assert (0 <= n / 2 ^ 24) by (apply Z.div_pos; lia).
  rewrite (Z.mod_small (n / 2 ^ 24)) by lia.
  replace (n / 2 ^ 24) with (n / 2 ^ 8 / 2 ^ 8 / 2 ^ 8) by (rewrite !Z.div_div by lia; done).
  replace (n / 2 ^ 16) with (n / 2 ^ 8 / 2 ^ 8) by (rewrite !Z.div_div by lia; done).
  change (2 ^ 8) with 256.
  pose proof (Z.div_mod (n / 256 / 256) 256). pose proof (Z.div_mod (n / 256) 256).
  pose proof (Z.div_mod n 256). lia.
Qed.

Lemma to_be_bytes_inj_4 b : length b = 4%nat -> to_be_bytes (from_be_bytes b) = b.
Proof.
  intros Hl. destruct b as [|b3 [|b2 [|b1 [|b0 [|]]]]]; try done.
  unfold from_be_bytes, to_be_bytes. simpl fold_left.
  pose proof (u8_val_range b3). pose proof (u8_val_range b2).
  pose proof (u8_val_range b1). pose proof (u8_val_range b0).
  set (n := 256 * _ + u8_val b0).
  assert (n / 2 ^ 8 = 256 * (256 * (256 * 0 + u8_val b3) + u8_val b2) + u8_val b1) as H8
    by (unfold n; rewrite Z.mul_comm, Z.div_add_l, Z.div_small; lia).
  assert (n / 2 ^ 16 = 256 * (256 * 0 + u8_val b3) + u8_val b2) as H16.
  { change (2 ^ 16) with (2 ^ 8 * 2 ^ 8). rewrite <- Z.div_div, H8 by lia.
    rewrite Z.mul_comm, Z.div_add_l, Z.div_small; lia. }
  assert (n / 2 ^ 24 = u8_val b3) as ->.
  { change (2 ^ 24) with (2 ^ 16 * 2 ^ 8). rewrite <- Z.div_div, H16 by lia.
    rewrite Z.mul_comm, Z.div_add_l, Z.div_small; lia. }
  assert (Hlow : forall m b, u8_of (256 * m + u8_val b) = b).
  { intros m b. apply u8_val_inj. rewrite u8_val_of, Z.add_comm, Z.mul_comm, Z.mod_add by lia.
    apply Z.mod_small, u8_val_range. }
  rewrite H16, H8, u8_of_val. unfold n. by rewrite !Hlow.
Qed.

Lemma length_to_be_bytes n : length (to_be_bytes n) = 4%nat.
Proof. done. Qed.

(** A byte string as it travels: its length as a big-endian [u32], then its
    contents. *)
Definition frame (s : bytes) : bytes := to_be_bytes (Z.of_nat (length s)) ++ s.

Lemma receive_u32_exec conn tr o :
  exec (receive_u32 conn) tr o -> reads_ok tr ->
  exists r, o = Done r /\ sent conn tr = [] /\
    match r with
    | Ok n => received conn tr = to_be_bytes n /\ 0 <= n < 2 ^ 32 /\ io_failed conn tr = false
    | Err _ => received conn tr = [] /\ io_failed conn tr = true
    end.
Proof.
  intros H Hr. unfold receive_u32 in H. hsteps; apply reads_ok_cons in Hr as [Hl _]; simpl in Hl;
    (eexists; split; [done|]); read_trace; (split; [done|]); try done.
  rewrite app_nil_r, to_be_bytes_inj_4 by done. split; [done|]. split; [|done].
  pose proof (from_be_bytes_range a) as Ha. by rewrite Hl in Ha.
Qed.

Lemma receive_bytestring_exec conn tr o :
  exec (receive_bytestring conn) tr o -> reads_ok tr ->
  exists r, o = Done r /\ sent conn tr = [] /\
    match r with
    | Ok s => received conn tr = frame s /\ Z.of_nat (length s) < 2 ^ 32 /\
              io_failed conn tr = false
    | Err _ => io_failed conn tr = true
    end.
Proof.
  intros H Hr. unfold receive_bytestring in H.
  hsteps.
  all: try (apply reads_ok_app in Hr as [Hr Hr2]).
  all: match goal with H : exec (receive_u32 _) _ _ |- _ =>
         apply receive_u32_exec in H as (r & Ho & Hs & Hu); [|done] end; simplify_eq/=;
       (eexists; split; [done|]). all: read_trace; rewrite Hs; (split; [done|]).
  all: try by rewrite ?orb_true_r.
  all: try (apply reads_ok_cons in Hr2 as [Hl _]; simpl in Hl).
  - destruct Hu as (-> & Hu & ->). unfold frame. rewrite app_nil_r, Hl, Z2Nat.id by lia.
    split_and!; [done|lia|done].
  - rewrite orb_false_r. by destruct Hu as [_ ->].
Qed.

(** A count of one byte, followed by that many bytes. *)
Definition counted (vs s : bytes) : Prop :=
  s = u8_of (Z.of_nat (length vs)) :: vs /\ (length vs < 256)%nat.

Lemma count_prefix (n vs : bytes) :
  length n = 1%nat -> length vs = Z.to_nat (from_be_bytes n) -> counted vs (n ++ vs).
Proof.
  intros H1 Hl. destruct n as [|b [|]]; try done. unfold from_be_bytes in Hl. simpl fold_left in Hl.
  pose proof (u8_val_range b). split; [|lia]. rewrite Hl. simpl. f_equal.
  rewrite Z2Nat.id by lia. by rewrite Z.mul_0_r, Z.add_0_l, u8_of_val.
Qed.

Lemma negotiate_version_exec conn tr o :
  exec (negotiate_version conn) tr o -> reads_ok tr ->
  exists r, o = Done r /\
    match r with
    | Ok _ => exists vs, counted vs (received conn tr) /\
        Byte.x01 ∈ vs /\ sent conn tr = [[Byte.x01]] /\ io_failed conn tr = false
    | Err _ => (io_failed conn tr = true /\
                (sent conn tr = [] \/ sent conn tr = [[Byte.x01]])) \/
        exists vs, counted vs (received conn tr) /\
          Byte.x01 ∉ vs /\ sent conn tr = []
    end.
Proof.
  intros H Hr. unfold negotiate_version in H. hsteps; eexists; (split; [done|]);
    unfold reads_ok in Hr; rewrite ?Forall_cons in Hr; simpl in Hr;
    read_trace; rewrite ?app_nil_r, ?orb_true_r; try by (left; auto).
  all: match goal with H : negb (has_byte _ _) = _ |- _ =>
         unfold has_byte in H; rewrite ?negb_true_iff, ?negb_false_iff in H;
         rewrite ?bool_decide_eq_true, ?bool_decide_eq_false in H end.
  all: try right; eexists; split_and!; [by apply count_prefix; naive_solver|done..].
Qed.

(** ** The vsock handshake *)

(** The response buffer after the bytes [got]. *)
Definition buffer (got : bytes) : bytes := got ++ replicate (RESPONSE_LEN - length got) NUL.

Lemma length_buffer got : (length got <= RESPONSE_LEN)%nat -> length (buffer got) = RESPONSE_LEN.
Proof. intros H. unfold buffer. rewrite length_app, length_replicate. lia. Qed.

Lemma last_read_buffer got : last_read (buffer got) (length got) = last got.
Proof.
  destruct got as [|b got] using rev_ind; [done|]. unfold buffer.
  rewrite last_snoc, length_app, Nat.add_1_r. rewrite <- app_assoc. simpl.
  by rewrite list_lookup_middle.
Qed.

Lemma splice_buffer got d :
  (length (got ++ d) <= RESPONSE_LEN)%nat ->
  splice (buffer got) (length got) d = buffer (got ++ d).
Proof.
  rewrite length_app. intros H. unfold splice, buffer.
  rewrite take_app_length, drop_app_ge by lia.
  replace (length got + length d - length got)%nat with (length d) by lia.
  rewrite drop_replicate, <- app_assoc, length_app. do 3 f_equal. lia.
Qed.

(** When the loop stops: at a newline, or with a full buffer. *)
Definition complete (all : bytes) : Prop :=
  last all = Some NL \/ length all = RESPONSE_LEN.
#[local] Instance complete_dec all : Decision (complete all).
Proof. unfold complete. apply _. Defined.

Lemma guard_complete got :
  (length got <= RESPONSE_LEN)%nat ->
  bool_decide (last_read (buffer got) (length got) <> Some NL)
    && bool_decide (length got < length (buffer got))%nat
  = bool_decide (~ complete got).
Proof.
  intros H. rewrite last_read_buffer, length_buffer by done.
  rewrite <- bool_decide_and. apply bool_decide_ext. unfold complete.
  split; [intros [H1 H2] [H3|H3]; [done|lia]|]. intros Hn. split; [naive_solver|].
  destruct (decide (length got = RESPONSE_LEN)); [naive_solver|lia].
Qed.

(** One turn of the loop, when it goes on. *)
Definition next_read (got : bytes) : nat :=
  (Nat.max (min_response_len - length got) (length got + 1) - length got)%nat.

Lemma next_read_cases got :
  got = [] \/ (min_response_len <= length got < RESPONSE_LEN)%nat ->
  (length got <= Nat.max (min_response_len - length got) (length got + 1) <= RESPONSE_LEN)%nat /\
  (got = [] /\ next_read got = min_response_len \/
   (min_response_len <= length got)%nat /\ next_read got = 1%nat).
Proof.
  assert (Hmin : min_response_len = 5%nat) by by vm_compute.
  assert (Hmax : RESPONSE_LEN = 14%nat) by done. unfold next_read.
  rewrite Hmin, Hmax. intros [->|H]; cbn [length]; [split; [lia|by left]|].
  split; [lia|right; split; lia].
Qed.

(** A read whose failure is reported to the caller. *)
Lemma exec_read_or_fail {A} (f : io_error -> bytes) c n (k : bytes -> prog host (result A bytes))
    tr o :
  exec (let? d := map_err f (call (ReadExact c n)) in k d) tr o ->
  (exists d t2, tr = Event (ReadExact c n) (Ok d) :: t2 /\ exec (k d) t2 o) \/
  (exists e, tr = [Event (ReadExact c n) (Err e)] /\ o = Done (Err (f e))).
Proof. intros H. hsteps; eauto. Qed.

Lemma read_response_exec fuel vsock got tr o :
  exec (read_response fuel vsock (buffer got) (length got)) tr o -> reads_ok tr ->
  (RESPONSE_LEN - length got <= fuel)%nat ->
  got = [] \/ (min_response_len <= length got <= RESPONSE_LEN)%nat ->
  exists r, o = Done r /\ sent vsock tr = [] /\
    (length (got ++ received vsock tr) <= RESPONSE_LEN)%nat /\
    match r with
    | Ok resp => resp = buffer (got ++ received vsock tr) /\
        (min_response_len <= length (got ++ received vsock tr))%nat /\
        complete (got ++ received vsock tr) /\
        (forall j, (min_response_len <= j)%nat ->
           (length got <= j < length (got ++ received vsock tr))%nat ->
           ~ complete (take j (got ++ received vsock tr)))
    | Err _ => io_failed vsock tr = true
    end.
Proof.
  assert (Hmin : min_response_len = 5%nat) by by vm_compute.
  assert (Hmax : RESPONSE_LEN = 14%nat) by done.
  revert got tr. induction fuel as [|fuel IH]; intros got tr H Hr Hf Hg;
    assert (Hlen : (length got <= RESPONSE_LEN)%nat)
      by (destruct Hg as [->|]; simpl in *; lia);
    cbn [read_response] in H; rewrite guard_complete in H by done;
    destruct (decide (complete got)) as [Hc|Hc].
  1, 3: rewrite bool_decide_false in H by naive_solver;
    apply (proj1 (exec_ret _ _ _)) in H as [-> ->];
    eexists; (split; [done|]); read_trace; rewrite app_nil_r; split_and!;
    [done|done|done| |done|intros; lia];
    destruct Hc as [Hc|Hc], Hg as [->|Hg]; simpl in *; try done; lia.
  all: rewrite bool_decide_true in H by done.
  { destruct Hc. right. lia. }
  assert (Hg' : got = [] \/ (min_response_len <= length got < RESPONSE_LEN)%nat).
  { destruct Hg as [->|Hg]; [by left|right]. split; [lia|].
    destruct (decide (length got = RESPONSE_LEN)); [by destruct Hc; right|lia]. }
  destruct (next_read_cases got Hg') as [[Hb1 Hb2] Hn].
  rewrite length_buffer in H by done. rewrite !bool_decide_true in H by done.
  cbn [andb] in H. fold (next_read got) in H.
  apply exec_read_or_fail in H as [(d & t2 & -> & H)|(e & -> & ->)].
  2: { eexists. split; [done|]. read_trace. by rewrite app_nil_r. }
  apply reads_ok_cons in Hr as [Hl Hr]; simpl in Hl.
  assert (Hd : (min_response_len <= length (got ++ d) <= RESPONSE_LEN)%nat /\
               (RESPONSE_LEN - length (got ++ d) <= fuel)%nat).
  { rewrite length_app, Hl. destruct Hn as [[-> Hn]|[Hge Hn]]; simpl in *; lia. }
  destruct Hd as [Hd Hf'].
  rewrite splice_buffer, <- Hl, <- length_app in H by lia.
  apply IH in H as (r & -> & Hs & Hle & Hm); [|done..|by right].
  exists r. split; [done|]. read_trace. rewrite Hs. rewrite <- app_assoc in Hle, Hm.
  split_and!; [done..|]. destruct r as [resp|]; [|done].
  destruct Hm as (-> & Hge & Hcomp & Hj).
  split_and!; [done..|]. intros j Hj1 Hj2.
  destruct (decide (length (got ++ d) <= j)%nat) as [Hjd|Hjd].
  { apply Hj; [done|]. lia. }
  rewrite length_app in Hd, Hjd.
  assert (j = length got) as -> by (destruct Hn as [[-> Hn]|[_ Hn]]; simpl in *; lia).
  by rewrite take_app_length.
Qed.

Lemma write_parts_exec v parts tr o :
  exec (write_parts v parts) tr o ->
  exists r, o = Done r /\ sent v tr `prefix_of` parts /\ received v tr = [] /\
    match r with
    | Ok _ => sent v tr = parts /\ io_failed v tr = false
    | Err _ => io_failed v tr = true
    end.
Proof.
  revert tr. induction parts as [|part rest IH]; intros tr H; cbn [write_parts] in H.
  - hsteps. eexists. split_and!; [done..|]. by read_trace.
  - apply exec_bind in H as [(r & t1 & t2 & -> & H1 & H)|(s & H1 & ->)]; [|by hsteps].
    destruct r as [u|m]; hsteps.
    + apply IH in H as (r & -> & Hp & Hr & Hm). exists r. read_trace. split; [done|].
      split; [by apply prefix_cons|]. split; [done|].
      destruct r; [|done]. destruct Hm as [-> Hm]. done.
    + eexists. read_trace. split_and!; [done| |done|done]. by apply prefix_cons, prefix_nil.
Qed.

Global Arguments read_response : simpl never.
Global Arguments write_parts : simpl never.

Section OneStream.
Context {T : Type} (f : event host -> list T).

(** An observation that ignores the stream [v]. *)
Definition ignores (v : Z) : Prop :=
  (forall d x, f (Event (WriteAll v d) x) = []) /\ (forall n x, f (Event (ReadExact v n) x) = []).

Lemma write_parts_quiet v parts : ignores v -> quiet f (write_parts v parts).
Proof.
  intros [Hw _]. induction parts; unfold write_parts; fold write_parts; quieten.
Qed.

Lemma read_response_quiet fuel v resp n : ignores v -> quiet f (read_response fuel v resp n).
Proof.
  intros [_ Hr]. revert resp n.
  induction fuel; intros; unfold read_response; fold read_response; quieten.
Qed.

End OneStream.

(** The request to Cloud Hypervisor to connect to [port] in the guest. *)
Definition connect_request (port : Z) : list bytes := [B "CONNECT "; dec port; [NL]].

(** What is taken from the stream as the response to [CONNECT]: at least five
    bytes, at most fourteen, up to a newline; never more than needed. *)
Definition response_taken (d : bytes) : Prop :=
  (min_response_len <= length d <= RESPONSE_LEN)%nat /\ complete d /\
  forall j, (min_response_len <= j < length d)%nat -> ~ complete (take j d).

Lemma connect_to_guest_exec port tr o :
  exec (connect_to_guest port) tr o -> reads_ok tr ->
  (tr = [Event (OnceGet VSOCK_UNIX_PATH) None] /\ o = Stopped Panic) \/
  exists path t, tr = Event (OnceGet VSOCK_UNIX_PATH) (Some path) :: t /\
    ((exists e m, t = [Event (ConnectUnix path) (Err e)] /\ o = Done (Err m)) \/
     exists v t' r, t = Event (ConnectUnix path) (Ok v) :: t' /\ o = Done r /\
       sent v t' `prefix_of` connect_request port /\
       (length (received v t') <= RESPONSE_LEN)%nat /\ connected t' = [] /\
       match r with
       | Ok v' => v' = v /\ sent v t' = connect_request port /\
           response_taken (received v t') /\ B "OK " `prefix_of` received v t'
       | Err _ => io_failed v t' = true \/
           sent v t' = connect_request port /\ response_taken (received v t') /\
           ~ B "OK " `prefix_of` received v t'
       end).
Proof.
  intros H Hr. unfold connect_to_guest in H.
  apply exec_bind in H as [(p & t0 & t1 & -> & H0 & H)|(s & H0 & ->)];
    apply exec_get_unwrap in H0 as [(v & -> & Ho)|[-> Ho]]; simplify_eq; [right|by left].
  exists v, t1. split; [done|]. apply reads_ok_cons in Hr as [_ Hr].
  apply exec_bind in H as [(r & t2 & t3 & -> & H0 & H)|(s & H0 & ->)]; [|by hsteps].
  destruct r as [vs|m]; [right|left; hsteps; by do 2 eexists].
  assert (t2 = [Event (ConnectUnix v) (Ok vs)]) as -> by (clear H; by hsteps). clear H0.
  apply reads_ok_cons in Hr as [_ Hr]. exists vs, t3.
  apply exec_bind in H as [(r & t4 & t5 & -> & H0 & H)|(s & H0 & ->)];
    pose proof (write_parts_quiet connected_of vs _ (conj (fun _ _ => eq_refl) (fun _ _ => eq_refl))
                  _ _ H0) as Hn1;
    apply write_parts_exec in H0 as (r' & Ho & Hp & Hrc & Hw); simplify_eq.
  fold (connected t4) in Hn1. destruct r' as [u|m].
  2: { hsteps. eexists. rewrite app_nil_r, Hrc. split_and!; [done..|simpl; lia|done|by left]. }
  destruct Hw as [Hw Hio]. apply reads_ok_app in Hr as [_ Hr].
  apply exec_bind in H as [(r & t6 & t7 & -> & H0 & H)|(s & H0 & ->)];
    pose proof (read_response_quiet connected_of _ vs _ _
                  (conj (fun _ _ => eq_refl) (fun _ _ => eq_refl)) _ _ H0) as Hn2;
    (apply (read_response_exec _ _ []) in H0 as (r' & Ho & Hs & Hl & Hm);
      [|by apply reads_ok_app in Hr as [Hr _] || done|done|by left]); simplify_eq.
  fold (connected t6) in Hn2. simpl in Hl, Hm.
  rewrite received_app, sent_app, io_failed_app, connected_app, Hw, Hrc, Hio, Hn1.
  assert (t7 = []) as -> by (destruct r'; [destruct (negb _)|]; by apply exec_ret in H as [-> _]).
  rewrite app_nil_r, Hs, Hn2. cbn [app orb]. destruct r' as [resp|m].
  2: { hsteps. eexists. split_and!; [done..|by left]. }
  destruct Hm as (-> & Hge & Hc & Hj).
  assert (Ht : response_taken (received vs t6)).
  { split_and!; [done..|]. intros j [Hj1 Hj2]. apply Hj; [done|lia]. }
  unfold buffer in H. rewrite starts_with_long in H by (vm_compute in Hge |- *; lia).
  destruct (starts_with _ (received vs t6)) eqn:Hok; cbn [negb] in H;
    apply exec_ret in H as [_ ->]; eexists; (split_and!; [done..|]).
  - split_and!; [done..|]. by apply starts_with_true.
  - right. split_and!; [done..|]. intros Hp'%starts_with_true. congruence.
Qed.

(** What a successful connection exchanged on its own stream. *)
Lemma connect_to_guest_ok port tr v :
  exec (connect_to_guest port) tr (Done (Ok v)) -> reads_ok tr ->
  v ∈ connected tr /\ sent v tr = connect_request port /\ response_taken (received v tr) /\
  B "OK " `prefix_of` received v tr.
Proof.
  intros H Hr.
  apply connect_to_guest_exec in H as
    [[_ Ho]|(path & t & -> & [(e & m & _ & Ho)|(v' & t' & r & -> & Ho & _ & _ & _ & Hm)])];
    [done..|simplify_eq|done].
  destruct Hm as (-> & Hs & Ht & Hp). read_trace. split; [set_solver|done].
Qed.

(** The line with which Cloud Hypervisor accepts a connection. *)
Definition ok_line (port : Z) : bytes := B "OK " ++ dec port ++ [NL].

Lemma ok_line_length port :
  0 <= port < 2 ^ 32 ->
  (min_response_len <= length (ok_line port) <= RESPONSE_LEN)%nat.
Proof.
  intros Hp. pose proof (dec_length_le port 10 ltac:(lia) ltac:(lia)).
  pose proof (dec_nonempty port ltac:(lia)) as Hne.
  assert (0 < length (dec port))%nat by (destruct (dec port); simpl; [done|lia]).
  unfold ok_line. rewrite !length_app.
  assert (min_response_len = 5%nat) as -> by by vm_compute.
  assert (length (B "OK ") = 3%nat) as -> by by vm_compute. unfold RESPONSE_LEN. simpl. lia.
Qed.

(** Its only newline is its last byte. *)
Lemma ok_line_incomplete port j :
  0 <= port < 2 ^ 32 -> (j < length (ok_line port))%nat -> ~ complete (take j (ok_line port)).
Proof.
  intros Hp Hj. pose proof (ok_line_length port Hp) as [_ Hmax].
  intros [Hc|Hc]; [|rewrite length_take in Hc; lia].
  assert (Hnl : NL ∉ B "OK " ++ dec port).
  { rewrite not_elem_of_app. split; [by_eval|]. by apply not_in_dec. }
  unfold ok_line in Hj, Hc. rewrite app_assoc, length_app in Hj. simpl in Hj.
  rewrite app_assoc, take_app_le in Hc by lia.
  apply last_Some in Hc as [l Hc]. apply Hnl.
  rewrite <- (take_drop j (B "OK " ++ dec port)), Hc. set_solver.
Qed.

Lemma ok_line_complete port : complete (ok_line port).
Proof. left. unfold ok_line. by rewrite app_assoc, last_snoc. Qed.

(** The response is delimited exactly: from a stream that begins with an
    acceptance line, that line is taken and nothing after it. *)
Lemma response_taken_ok_line port d rest :
  0 <= port < 2 ^ 32 -> response_taken d -> d `prefix_of` ok_line port ++ rest ->
  d = ok_line port.
Proof.
  intros Hp (Hl & Hc & Hj) Hd. pose proof (ok_line_length port Hp).
  destruct (prefix_weak_total d (ok_line port) _ Hd ltac:(by eexists)) as [[x Hx]|[x Hx]].
  - destruct x as [|b x]; [by rewrite Hx, app_nil_r|]. exfalso.
    apply (ok_line_incomplete port (length d)); [done|rewrite Hx, length_app; simpl; lia|].
    by rewrite Hx, take_app_length.
  - destruct x as [|b x]; [by rewrite Hx, app_nil_r|]. exfalso.
    apply (Hj (length (ok_line port))); [rewrite Hx, length_app; simpl; lia|].
    rewrite Hx, take_app_length. apply ok_line_complete.
Qed.

(** ** Serving a guest *)

Section Elsewhere.
Context {T : Type} (f : event host -> list T).

Lemma receive_u32_quiet v : ignores f v -> quiet f (receive_u32 v).
Proof. intros [_ Hr]. unfold receive_u32. quieten. Qed.
Lemma receive_bytestring_quiet v : ignores f v -> quiet f (receive_bytestring v).
Proof. intros [_ Hr]. unfold receive_bytestring, receive_u32. quieten. Qed.
Lemma negotiate_version_quiet v : ignores f v -> quiet f (negotiate_version v).
Proof. intros [Hw Hr]. unfold negotiate_version. quieten. Qed.

(** Connecting to the guest involves no stream but the one it opens. *)
Lemma connect_to_guest_quiet port tr o :
  (forall x, f (Event (OnceGet VSOCK_UNIX_PATH) x) = []) ->
  (forall p x, f (Event (ConnectUnix p) x) = []) ->
  exec (connect_to_guest port) tr o -> (forall v, v ∈ connected tr -> ignores f v) ->
  tr ≫= f = [].
Proof.
  intros Ho Hc H Hi. unfold connect_to_guest in H.
  apply exec_bind in H as [(p & t0 & t1 & -> & H0 & H)|(s & H0 & ->)];
    [|by eapply quiet_get_unwrap in H0].
  rewrite bind_app, (quiet_get_unwrap _ _ Ho _ _ H0).
  apply exec_bind in H as [(r & t2 & t3 & -> & H1 & H)|(s & H1 & ->)]; [|by hsteps].
  rewrite bind_app. destruct r as [v|m]; [|hsteps; unfold mbind; simpl; by rewrite Hc].
  assert (Hv : ignores f v) by (apply Hi; clear -H1; hsteps; read_trace; set_solver).
  assert (Hq : quiet f (call (ConnectUnix p))) by by apply quiet_call.
  rewrite (quiet_map_err _ _ _ Hq _ _ H1).
  apply exec_bind in H as [(r & t4 & t5 & -> & H2 & H)|(s & H2 & ->)];
    [|by eapply write_parts_quiet in H2].
  rewrite bind_app, (write_parts_quiet _ _ _ Hv _ _ H2).
  destruct r; [|by hsteps].
  apply exec_bind in H as [(r & t6 & t7 & -> & H3 & H)|(s & H3 & ->)];
    [|by eapply read_response_quiet in H3].
  rewrite bind_app, (read_response_quiet _ _ _ _ _ Hv _ _ H3).
  destruct r; [destruct (negb _)|]; by hsteps.
Qed.

End Elsewhere.

(** How the attempt to reach the guest's bus ends. *)
Lemma guest_dbus_conn_exec conn port root tr o :
  exec (guest_dbus_conn port root) tr o -> reads_ok tr -> conn ∉ connected tr ->
  sent conn tr = [] /\ received conn tr = [] /\
  (Path.is_relative root = true -> tr = []) /\
  match o with
  | Done (Ok bus) => served tr = [(bus, root)] /\ Path.is_absolute root = true /\
      exists v, v ∈ connected tr /\ sent v tr = connect_request port
  | Done (Err _) => served tr = []
  | Stopped s => s = Panic /\ served tr = [] /\ Event (OnceGet VSOCK_UNIX_PATH) None ∈ tr
  end.
Proof.
  intros H Hr Hc. unfold guest_dbus_conn in H.
  destruct (Path.is_relative root) eqn:Hrel; [by hsteps; read_trace|].
  assert (Path.is_absolute root = true) as Habs
    by (unfold Path.is_relative in Hrel; by apply negb_false_iff in Hrel).
  assert (Hq : forall t o', exec (connect_to_guest port) t o' -> conn ∉ connected t ->
    sent conn t = [] /\ received conn t = [] /\ served t = []).
  { intros t o' He Hn. split_and!;
      (eapply connect_to_guest_quiet; [done|done|exact He|]); intros v Hv; split; intros;
      try done; simpl; (destruct (Z.eqb_spec v conn); [by subst|by repeat case_match]). }
  apply exec_bind in H as [(r & t1 & t2 & -> & H1 & H)|(s & H1 & ->)].
  - rewrite connected_app, not_elem_of_app in Hc. destruct Hc as [Hc _].
    destruct (Hq _ _ H1 Hc) as (Hs & Hrc & Hsv). rewrite sent_app, received_app, served_app, Hs, Hrc, Hsv.
    assert (Hv : forall v, r = Ok v -> v ∈ connected t1 /\ sent v t1 = connect_request port).
    { intros v ->. apply reads_ok_app in Hr as [Hr _].
      apply connect_to_guest_ok in H1 as (? & ? & _); done. }
    clear Hq H1 Hs Hrc Hsv Hr. destruct r as [v|m].
    2: { apply exec_ret in H as [-> ->]. by read_trace. }
    destruct (Hv v eq_refl) as [Hin Hreq]. hsteps. read_trace. split_and!; try done.
    match goal with x : result Z ZError |- _ => destruct x end; [|done]. split_and!; try done.
    exists v. read_trace. by rewrite !app_nil_r.
  - destruct (Hq _ _ H1 Hc) as (-> & -> & ->). do 3 (split; [done|]).
    apply connect_to_guest_exec in H1 as [[-> Ho]|(path & t & _ & [(? & ? & _ & Ho)|(? & ? & ? & _ & Ho & _)])];
      [|done..|done]. simplify_eq. split_and!; [done..|left].
Qed.

Lemma msg_quiet {T} (f : event host -> list T) e :
  (forall t x, f (Event (Eprint t) x) = []) -> quiet f (msg e).
Proof. intros Hf. unfold msg. quieten. Qed.

Lemma message_loop_quiet {T} (f : event host -> list T) fuel bus :
  (forall x, f (Event (NextMessage bus) x) = []) -> quiet f (message_loop fuel bus).
Proof. intros Hf. induction fuel; cbn [message_loop]; quieten. Qed.

(** What a guest sends: the protocol versions it speaks, its port, and its
    share root. *)
Definition handshake (vs : bytes) (port : Z) (root : bytes) : bytes :=
  (u8_of (Z.of_nat (length vs)) :: vs) ++ to_be_bytes port ++ frame root.

Definition wf_handshake (vs : bytes) (port : Z) (root : bytes) : Prop :=
  (length vs < 256)%nat /\ 0 <= port < 2 ^ 32 /\ Z.of_nat (length root) < 2 ^ 32.

(** How a connection went, as seen on the guest's stream [conn]. *)
Inductive served_guest (conn : Z) (tr : list (event host)) (o : outcome (result unit bytes)) : Prop :=
| NoHandshake m :
    (** an operation on the stream failed, or version 1 was not offered *)
    io_failed conn tr = true \/ (exists vs, counted vs (received conn tr) /\ Byte.x01 ∉ vs) ->
    sent conn tr = [] \/ sent conn tr = [[Byte.x01]] ->
    served tr = [] -> connected tr = [] -> o = Done (Err m) ->
    served_guest conn tr o
| NoSocketPath vs port root :
    received conn tr = handshake vs port root -> wf_handshake vs port root -> Byte.x01 ∈ vs ->
    Event (OnceGet VSOCK_UNIX_PATH) None ∈ tr -> sent conn tr = [[Byte.x01]] -> served tr = [] ->
    o = Stopped Panic ->
    served_guest conn tr o
| ToldOk vs port root bus :
    received conn tr = handshake vs port root -> wf_handshake vs port root -> Byte.x01 ∈ vs ->
    sent conn tr = [[Byte.x01]; [Byte.x00]] ->
    served tr = [(bus, root)] -> Path.is_absolute root = true ->
    (exists v, v <> conn /\ sent v tr = connect_request port) ->
    served_guest conn tr o
| ToldFailed vs port root m :
    received conn tr = handshake vs port root -> wf_handshake vs port root -> Byte.x01 ∈ vs ->
    sent conn tr = [[Byte.x01]; [Byte.x01]] ->
    served tr = [] -> o = Done (Err m) ->
    (Path.is_relative root = true -> connected tr = []) ->
    served_guest conn tr o.

Lemma msg_done e tr o : exec (msg e) tr o -> o = Done tt.
Proof.
  intros H. unfold msg in H. hsteps; try done; by match goal with u : unit |- _ => destruct u end.
Qed.

Lemma after_report_quiet {T} (f : event host -> list T) fuel conn r told :
  (forall t x, f (Event (Eprint t) x) = []) -> (forall b x, f (Event (NextMessage b) x) = []) ->
  (forall x, f (Event (Drop conn) x) = []) ->
  quiet f (after_report fuel conn r told).
Proof.
  intros Hm Hn Hd. pose proof (fun e => msg_quiet f e Hm). unfold after_report.
  assert (forall b, quiet f (message_loop fuel b)) by (intros; by apply message_loop_quiet).
  quieten.
Qed.

Lemma after_report_failed fuel conn m told tr o :
  exec (after_report fuel conn (Err m) told) tr o -> o = Done (Err m).
Proof.
  intros H. unfold after_report in H.
  destruct told; hsteps; try done; by match goal with H : exec (msg _) _ _ |- _ => apply msg_done in H end.
Qed.

Lemma ignores_served v : ignores served_of v.
Proof. done. Qed.
Lemma ignores_connected v : ignores connected_of v.
Proof. done. Qed.

Lemma ignores_sent v conn : v <> conn -> ignores (sent_of v) conn.
Proof.
  intros H. split; [|done]. intros d x. simpl. by rewrite (proj2 (Z.eqb_neq conn v)).
Qed.

(** A part of a trace that involves no stream but [conn]. *)
Definition only_on (conn : Z) (tr : list (event host)) : Prop :=
  served tr = [] /\ connected tr = [] /\ forall v, v <> conn -> sent v tr = [].

Lemma quiet_only_on {A} conn (p : prog host A) tr o :
  (forall T (f : event host -> list T), ignores f conn -> quiet f p) ->
  exec p tr o -> only_on conn tr.
Proof.
  intros Hq H. split_and!; [|..|intros v Hv]; eapply Hq; try exact H.
  - apply ignores_served.
  - apply ignores_connected.
  - by apply ignores_sent.
Qed.

Lemma only_on_app conn t1 t2 : only_on conn t1 -> only_on conn t2 -> only_on conn (t1 ++ t2).
Proof.
  intros (H1 & H2 & H3) (H4 & H5 & H6). unfold only_on.
  rewrite served_app, connected_app, H1, H2. split_and!; [done..|]. intros v Hv.
  by rewrite sent_app, H3, H6.
Qed.

(** [p.map_err(g)?]. *)
Lemma exec_try {A E C} (g : E -> bytes) (p : prog host (result A E))
    (k : A -> prog host (result C bytes)) tr o :
  exec (let? a := map_err g p in k a) tr o ->
  (exists a t1 t2, tr = t1 ++ t2 /\ exec p t1 (Done (Ok a)) /\ exec (k a) t2 o) \/
  (exists e, exec p tr (Done (Err e)) /\ o = Done (Err (g e))) \/
  (exists s, exec p tr (Stopped s) /\ o = Stopped s).
Proof.
  intros [(r & t1 & t2 & -> & H1 & H)|(s & H1 & ->)]%exec_bind;
    apply exec_hmap_err in H1 as [(r' & H1 & Hr)|(s' & H1 & Hr)]; simplify_eq.
  - destruct r' as [a|e]; [left; eauto 6|]. simpl in H. right. left.
    apply exec_ret in H as [-> ->]. rewrite app_nil_r. eauto.
  - right. right. eauto.
Qed.

(** What the setup of a guest's connection says to the guest, and does. *)
Definition setup_told (conn port : Z) (root : bytes) (tr : list (event host))
    (o : outcome (result unit bytes)) : Prop :=
  received conn tr = [] /\
  ((sent conn tr = [] /\ served tr = [] /\ Event (OnceGet VSOCK_UNIX_PATH) None ∈ tr /\ o = Stopped Panic) \/
   (exists bus v, sent conn tr = [[Byte.x00]] /\ served tr = [(bus, root)] /\
      Path.is_absolute root = true /\ v <> conn /\ sent v tr = connect_request port) \/
   (sent conn tr = [[Byte.x01]] /\ served tr = [] /\
    (Path.is_relative root = true -> connected tr = []) /\ exists m, o = Done (Err m))).

(** Trying to reach the guest's bus, and reporting the result. *)
Lemma setup_exec fuel conn port root tr o :
  exec (let* r := guest_dbus_conn port root in
        let* told := call (WriteAll conn [status_byte r]) in
        after_report fuel conn r told) tr o ->
  reads_ok tr -> conn ∉ connected tr ->
  setup_told conn port root tr o.
Proof.
  intros H Hr Hc. unfold setup_told.
  apply exec_bind in H as [(r & t1 & t2 & -> & H1 & H)|(s & H1 & ->)].
  2: { apply (guest_dbus_conn_exec conn) in H1 as (Hs & Hrc & _ & -> & Hsv & Hin); [|done..].
       split; [done|]. by left. }
  apply reads_ok_app in Hr as [Hr _].
  rewrite connected_app, not_elem_of_app in Hc. destruct Hc as [Hc _].
  apply (guest_dbus_conn_exec conn) in H1 as (Hs & Hrc & Hrel & Hsv); [|done..].
  apply exec_bind in H as [(told & t3 & t4 & -> & H1 & H)|(s & H1 & ->)]; [|by hsteps].
  assert (t3 = [Event (WriteAll conn [status_byte r]) told]) as -> by (clear H; by hsteps).
  assert (Hq : forall (T : Type) (f : event host -> list T), _ -> _ -> _ -> t4 ≫= f = [])
    by (intros T f Q1 Q2 Q3; exact (after_report_quiet f _ _ _ _ Q1 Q2 Q3 _ _ H)).
  read_trace. rewrite Hs, Hrc. unfold sent, received, served, connected in *.
  rewrite !Hq by done. cbn [app]. split; [done|right].
  destruct r as [bus|m]; [left|right].
  - destruct Hsv as (-> & Ha & v & Hv & Hreq). exists bus, v.
    assert (v <> conn) by by intros ->.
    split_and!; try done. fold (sent v t1) in Hreq.
    change (sent v (t1 ++ [Event (WriteAll conn [Byte.x00]) told] ++ t4) = connect_request port).
    read_trace. rewrite Hreq, (proj2 (Z.eqb_neq conn v)) by done. cbn [app].
    unfold sent. by rewrite Hq, app_nil_r.
  - rewrite Hsv. split_and!; [done..| |apply after_report_failed in H; eauto].
    intros Hx. by rewrite (Hrel Hx).
Qed.

(** What precedes the setup, on the guest's connection only. *)
Lemma setup_reported conn vs port root t0 t o :
  only_on conn t0 -> sent conn t0 = [[Byte.x01]] -> Byte.x01 ∈ vs -> wf_handshake vs port root ->
  received conn t0 = handshake vs port root ->
  setup_told conn port root t o ->
  served_guest conn (t0 ++ t) o.
Proof.
  intros (Hsv0 & Hc0 & Ho0) Hs0 Hvs Hwf Hr0 [Hr H].
  assert (Hhs : received conn (t0 ++ t) = handshake vs port root)
    by (read_trace; by rewrite Hr0, Hr, app_nil_r).
  destruct H as [(Hs & Hsv & Hin & ->)|[(bus & v & Hs & Hsv & Ha & Hv & Hreq)|(Hs & Hsv & Hrel & m & ->)]].
  - eapply (NoSocketPath _ _ _ vs port root); try done; read_trace; rewrite ?Hsv0, ?Hs0, ?Hs, ?Hsv; try done.
    apply elem_of_app. by right.
  - eapply (ToldOk _ _ _ vs port root bus); try done; read_trace;
      rewrite ?Hsv0, ?Hs0, ?Hs, ?Hsv; try done.
    exists v. split; [done|]. by rewrite sent_app, Hreq, Ho0.
  - eapply (ToldFailed _ _ _ vs port root m); try done; read_trace;
      rewrite ?Hsv0, ?Hs0, ?Hs, ?Hsv; try done.
    intros Hx. by rewrite Hc0, (Hrel Hx).
Qed.

Lemma run_guest_connection_exec fuel conn tr o :
  exec (run_guest_connection fuel conn) tr o -> reads_ok tr -> conn ∉ connected tr ->
  served_guest conn tr o.
Proof.
  intros H Hr Hc. unfold run_guest_connection in H.
  apply exec_bind in H as [(r & t1 & t2 & -> & H1 & H)|(s & H1 & ->)].
  2: { apply negotiate_version_exec in H1 as (? & ? & _); [|done]; done. }
  pose proof (quiet_only_on conn _ _ _ (fun T f => negotiate_version_quiet f conn) H1) as Ho1.
  apply reads_ok_app in Hr as [Hr1 Hr]. rewrite connected_app, not_elem_of_app in Hc.
  apply negotiate_version_exec in H1 as (? & [= <-] & H1); [|done].
  destruct r as [[]|m].
  2: { apply exec_ret in H as [-> ->]. rewrite app_nil_r. destruct Ho1 as (Hsv & Hcn & _).
       apply (NoHandshake _ _ _ m); [naive_solver..|done|done|done]. }
  destruct H1 as (vs & [Hv Hvl] & Hvs & Hsent & _), Hc as [_ Hc].
  apply exec_try in H as [(port & t3 & t4 & -> & H1 & H)|[(e & H1 & ->)|(s & H1 & ->)]];
    pose proof (only_on_app _ _ _ Ho1
      (quiet_only_on conn _ _ _ (fun T f => receive_u32_quiet f conn) H1)) as Ho2;
    (apply receive_u32_exec in H1 as (? & Ho & Hsent2 & H1);
      [|by apply reads_ok_app in Hr as [Hr _] || done]); simplify_eq.
  2: { destruct Ho2 as (Hsv & Hcn & _), H1 as [_ Hio]. eapply NoHandshake; [|..|done]; try done.
       - left. by rewrite io_failed_app, Hio, orb_true_r.
       - right. by rewrite sent_app, Hsent, Hsent2. }
  apply reads_ok_app in Hr as [_ Hr].
  rewrite connected_app, not_elem_of_app in Hc. destruct Hc as [_ Hc].
  apply exec_try in H as [(root & t5 & t6 & -> & H2 & H)|[(e & H2 & ->)|(s & H2 & ->)]];
    pose proof (only_on_app _ _ _ Ho2
      (quiet_only_on conn _ _ _ (fun T f => receive_bytestring_quiet f conn) H2)) as Ho3;
    (apply receive_bytestring_exec in H2 as (? & Ho & Hsent3 & H2);
      [|by apply reads_ok_app in Hr as [Hr _] || done]); simplify_eq; rewrite app_assoc.
  2: { destruct Ho3 as (Hsv & Hcn & _). eapply NoHandshake; [|..|done]; try done.
       - left. by rewrite io_failed_app, H2, orb_true_r.
       - right. by rewrite !sent_app, Hsent, Hsent2, Hsent3. }
  apply reads_ok_app in Hr as [_ Hr].
  rewrite connected_app, not_elem_of_app in Hc. destruct Hc as [_ Hc].
  apply setup_exec in H; [|done..].
  destruct H1 as (Hport & Hprange & _), H2 as (Hroot & Hrlen & _).
  rewrite app_assoc. apply (setup_reported conn vs port root); try done.
  - by rewrite !sent_app, Hsent, Hsent2, Hsent3.
  - read_trace. by rewrite Hv, Hport, Hroot, <- app_assoc.
Qed.

(** ** Properties *)

(** [receive_bytestring] is the inverse of the framing.  When it returns
    a string, what it consumed is exactly that string's frame, so the next
    message starts where it should; every string shorter than [2^32] bytes is
    received back from its frame. *)
Theorem receive_bytestring_frames conn :
  (forall tr s, exec (receive_bytestring conn) tr (Done (Ok s)) -> reads_ok tr ->
     received conn tr = frame s) /\
  (forall s, Z.of_nat (length s) < 2 ^ 32 ->
     exec (receive_bytestring conn)
       [Event (ReadExact conn 4) (Ok (to_be_bytes (Z.of_nat (length s))));
        Event (ReadExact conn (length s)) (Ok s)] (Done (Ok s))).
Proof.
  split.
  - intros tr s H Hr. apply receive_bytestring_exec in H as (r & Ho & _ & H); [|done].
    simplify_eq. by destruct H.
  - intros s Hs. hnf. do 2 eexists. split; [reflexivity|]. hnf.
    change (fold_left _ (to_be_bytes _) 0) with (from_be_bytes (to_be_bytes (Z.of_nat (length s)))).
    exists (Ok s), []. split; [|hnf; split; reflexivity].
    rewrite from_to_be_bytes by lia. by rewrite Nat2Z.id.
Qed.

(** Version negotiation: the host accepts exactly the clients that offer
    version 1, and answers an accepted client with the single byte 1.  A client
    that does not offer it gets no answer.  It consumes the counted list of
    versions and nothing else, and always returns. *)
Theorem version_negotiation conn tr o :
  exec (negotiate_version conn) tr o -> reads_ok tr ->
  exists r, o = Done r /\
    match r with
    | Ok _ => exists vs, counted vs (received conn tr) /\
        Byte.x01 ∈ vs /\ sent conn tr = [[Byte.x01]] /\ io_failed conn tr = false
    | Err _ => (io_failed conn tr = true /\
                (sent conn tr = [] \/ sent conn tr = [[Byte.x01]])) \/
        exists vs, counted vs (received conn tr) /\
          Byte.x01 ∉ vs /\ sent conn tr = []
    end.
Proof. apply negotiate_version_exec. Qed.

(** C9. [connect_to_guest] asks for the port it was given, and takes exactly
    the acceptance line [OK PORT\n] from the stream, whichever of the [2^32]
    ports Cloud Hypervisor reports: everything after the newline, which already
    belongs to the guest's bus, is left there. *)
Theorem connect_takes_response_line port peer tr v rest :
  exec (connect_to_guest port) tr (Done (Ok v)) -> reads_ok tr ->
  0 <= peer < 2 ^ 32 -> received v tr `prefix_of` ok_line peer ++ rest ->
  received v tr = ok_line peer /\ sent v tr = [B "CONNECT "; dec port; [NL]].
Proof.
  intros H Hr Hp Hd. apply connect_to_guest_ok in H as (_ & Hs & Ht & _); [|done].
  split; [by eapply response_taken_ok_line|done].
Qed.

(** C28. Whatever arrives on the vsock stream, [connect_to_guest] returns: the
    loop ends within its bound, no index is out of range, and never more than
    the 14 bytes of the buffer are read.  A connection is accepted only if the
    response begins with [OK ].  The one way to panic is to call it before
    [VSOCK_UNIX_PATH] is set. *)
Theorem connect_to_guest_bounded port tr o :
  exec (connect_to_guest port) tr o -> reads_ok tr ->
  (tr = [Event (OnceGet VSOCK_UNIX_PATH) None] /\ o = Stopped Panic) \/
  exists r, o = Done r /\
    (forall v, (length (received v tr) <= 14)%nat) /\
    (forall v, r = Ok v -> B "OK " `prefix_of` received v tr).
Proof.
  intros H Hr. destruct (connect_to_guest_exec _ _ _ H Hr) as
    [?|(path & t & -> & [(e & m & -> & ->)|(v & t' & r & -> & -> & _ & Hl & Hcn & Hm)])];
    [by left|right..].
  - exists (Err m). split; [done|]. split; [intros v; read_trace; lia|done].
  - exists r. split; [done|]. split.
    + intros v'. destruct (decide (v' = v)) as [->|Hne]; [by read_trace|].
      assert (Hi : forall u, u ∈ connected (Event (OnceGet VSOCK_UNIX_PATH) (Some path)
                     :: Event (ConnectUnix path) (Ok v) :: t') -> ignores (received_of v') u);
        [|unfold received; rewrite (connect_to_guest_quiet (received_of v') _ _ _
            (fun _ => eq_refl) (fun _ _ => eq_refl) H Hi);
          simpl; lia].
      intros u. read_trace. rewrite Hcn. intros ->%list_elem_of_singleton.
      split; [done|]. intros n x. simpl. rewrite (proj2 (Z.eqb_neq _ _)) by done. by destruct x.
    + intros v' ->. destruct Hm as (-> & _ & _ & Hp). by read_trace.
Qed.

(** C2. A guest is always told the truth.  Each connection on which the
    handshake was received gets exactly one status byte after the version: 0 if
    and only if the file chooser is being served on the guest's bus, under the
    absolute share root the guest sent, and 1 otherwise, in which case the
    connection ends with an error.  A guest whose share root is not absolute is
    not connected to.  No status byte is written only if the handshake was not
    received, because the stream failed or the guest does not speak version 1, and
    then the connection ends with an error, before anything else is connected to;
    or if the process panics, for want of the socket's path. *)
Theorem guest_told_result fuel conn tr o :
  exec (run_guest_connection fuel conn) tr o -> reads_ok tr -> conn ∉ connected tr ->
  served_guest conn tr o.
Proof. apply run_guest_connection_exec. Qed.

End Protocol.

(** ** Examples *)

#[local] Existing Instance plain_fmt.
#[local] Instance web_args : Args := [B "/usr/bin/xdg-desktop-portal-spectrum-host"].

(** A guest on port 1024; Cloud Hypervisor reports port 5678, and the guest's
    bus starts talking at once. *)
Definition guest_connects : host_scenario := {|
  hs_conn := handshake [Byte.x02; Byte.x01] 1024 (B "/run/share");
  hs_vsock := ok_line 5678 ++ B "AUTH ANONYMOUS";
  hs_response := 0; hs_results := ∅ |}.

Lemma version_negotiation_witness :
  sent CONN (host_trace guest_connects (negotiate_version CONN)) = [[Byte.x01]].
Proof.
  destruct (version_negotiation CONN _ _ (exec_host guest_connects (negotiate_version CONN))
              (reads_ok_host _ _)) as (r & Ho & Hr).
  destruct r as [u|m]; [destruct Hr as (_ & _ & _ & Hs & _); exact Hs|].
  vm_compute in Ho. discriminate Ho.
Defined.

Lemma connect_takes_response_line_witness :
  received VSOCK (host_trace guest_connects (connect_to_guest 1024)) = ok_line 5678.
Proof.
  apply (connect_takes_response_line 1024 5678 _ VSOCK (B "AUTH ANONYMOUS")).
  - apply exec_host_outcome. vm_compute. reflexivity.
  - apply reads_ok_host.
  - lia.
  - exists (B "AUTH ANONYMOUS"). vm_compute. reflexivity.
Defined.

Lemma connect_to_guest_bounded_witness :
  (length (received VSOCK (host_trace guest_connects (connect_to_guest 1024))) <= 14)%nat.
Proof.
  destruct (connect_to_guest_bounded 1024 _ _ (exec_host guest_connects (connect_to_guest 1024))
              (reads_ok_host _ _)) as [[_ Ho]|(r & _ & Hl & _)].
  - vm_compute in Ho. discriminate Ho.
  - apply Hl.
Defined.

Lemma guest_told_result_witness :
  served_guest CONN (host_trace guest_connects (run_guest_connection 1 CONN))
    (host_outcome guest_connects (run_guest_connection 1 CONN)) /\
  sent CONN (host_trace guest_connects (run_guest_connection 1 CONN)) = [[Byte.x01]; [Byte.x00]].
Proof.
  split; [|vm_compute; reflexivity].
  apply (guest_told_result 1 CONN); [apply exec_host|apply reads_ok_host|by_eval].
Defined.

End Proto.
