(* ===== verification/Guest.v ===== *)
(** * Guest: the guest's half of the portal protocol
    ([tools/xdg-desktop-portal-spectrum/xdg-desktop-portal-spectrum.c])

    The program that D-Bus starts in a guest: it tells the host the vsock port
    of the guest's bus and where the guest sees shared files, and waits for the
    host's verdict.  [HOST_FS_ROOT_DIR] is a constant of the build. *)

From S2P Require Import Prelude Effects RustStd HostSys HostScenario HostProto.

Module Guest.
Import Proto.

Definition HOST_PORT : Z := 219.
Definition VMADDR_CID_HOST : Z := 2.
Definition LONG_MAX : Z := 2 ^ 63 - 1.

(** A [DBusAddressEntry], as its accessors show it. *)
Record entry := { entry_method : bytes; entry_value : bytes -> option bytes }.

Inductive guest : Type -> Type :=
| GetEnv : guest (option bytes)
| ParseAddress (addr : bytes) : guest (option (list entry))
| VsockSocket : guest (result Z Z)
| VsockConnect (fd cid port : Z) : guest (result unit Z)
| Write (fd : Z) (data : bytes) : guest (result Z Z)
| Read (fd : Z) (n : nat) : guest (result bytes Z)
| Complain (text : bytes) : guest unit.

(** [err] and [errx]. *)
Definition err {A} (text : bytes) : prog guest A :=
  let* _ := call (Complain text) in Halt (Exit 1).

(** *** [parse_u32] *)

(** [strtol(s, &end, 10)] for a string that starts with a digit: the digits
    are taken, and a value that is too large is [ERANGE]. *)
Fixpoint digits (s : bytes) : bytes :=
  match s with
  | [] => []
  | c :: s' => if is_digit c then c :: digits s' else []
  end.

Definition strtol (s : bytes) : option Z * bytes :=
  let ds := digits s in
  let v := dec_value ds in
  (if v <=? LONG_MAX then Some v else None, drop (length ds) s).

(** The value is converted to a [uint32_t]. *)
Definition parse_u32 (s : bytes) : option Z :=
  match s with
  | c :: _ =>
      if is_digit c then
        match strtol s with
        | (None, _) => None
        | (Some v, []) => Some (v mod 2 ^ 32)
        | (Some _, _ :: _) => None
        end
      else None
  | [] => None
  end.

(** *** Talking to the host *)

(** [write_all]: false is -1. *)
Fixpoint write_all (fuel : nat) (fd : Z) (buf : bytes) : prog guest bool :=
  match fuel with
  | O => Halt NoFuel
  | S fuel' =>
      let* r := call (Write fd buf) in
      match r with
      | Err _ => mret false
      | Ok n =>
          match drop (Z.to_nat n) buf with
          | [] => mret true
          | rest => write_all fuel' fd rest
          end
      end
  end.

(** One byte is read into a local variable: at the end of the input it keeps
    what it had. *)
Definition read_byte (garbage : byte) (fd : Z) : prog guest (option byte) :=
  let* r := call (Read fd 1) in
  match r with
  | Err _ => mret None
  | Ok [] => mret (Some garbage)
  | Ok (b :: _) => mret (Some b)
  end.

Section Program.
Variable HOST_FS_ROOT_DIR : bytes.
(** What the uninitialised [version] and [r] contain. *)
Variables garbage_version garbage_r : byte.

(** A bound for the loop of [write_all]. *)
Definition enough (data : bytes) : nat := S (length data).

Definition connect_to_host : prog guest Z :=
  let* s := call VsockSocket in
  match s with
  | Err _ => err (B "creating vsock socket")
  | Ok sock =>
      let* c := call (VsockConnect sock VMADDR_CID_HOST HOST_PORT) in
      match c with
      | Err _ => err (B "connecting to cid 2 port 219")
      | Ok _ =>
          let handshake := [Byte.x01; Byte.x01] in
          let* w := write_all (enough handshake) sock handshake in
          if negb w then err (B "writing handshake to vsock socket")
          else
            let* v := read_byte garbage_version sock in
            match v with
            | None => err (B "reading handshake version")
            | Some version =>
                if decide (version = Byte.x01) then mret sock
                else err (B "unexpected protocol version")
            end
      end
  end.

Definition send_info (sock port : Z) : prog guest unit :=
  let port := to_be_bytes port in
  let len := to_be_bytes (Z.of_nat (length HOST_FS_ROOT_DIR)) in
  let* w := write_all (enough port) sock port in
  if negb w then err (B "writing port to vsock socket")
  else
    let* w := write_all (enough len) sock len in
    if negb w then err (B "writing fs root length to vsock socket")
    else
      let* w := write_all (enough HOST_FS_ROOT_DIR) sock HOST_FS_ROOT_DIR in
      if negb w then err (B "writing fs root to vsock socket")
      else mret tt.

Definition check_result (sock : Z) : prog guest unit :=
  let* b := read_byte garbage_r sock in
  match b with
  | None => err (B "reading result")
  | Some r => if decide (r = NUL) then mret tt else err (B "host sent bad result")
  end.

(** The body of [main]'s loop for a vsock entry, after the port is known. *)
Definition talk (port : Z) : prog guest unit :=
  let* sock := connect_to_host in
  let* _ := send_info sock port in
  check_result sock.

(** The loop over the entries; the result is [main]'s. *)
Fixpoint try_entries (addr : bytes) (entries : list entry) : prog guest Z :=
  match entries with
  | [] => mret 0
  | e :: rest =>
      if decide (entry_method e = B "vsock") then
        match entry_value e (B "port") with
        | None => err (B "missing vsock port in D-Bus address '" ++ addr ++ B "'")
        | Some port_str =>
            match parse_u32 port_str with
            | None => err (B "D-Bus address vsock port")
            | Some port => let* _ := talk port in mret 0
            end
        end
      else try_entries addr rest
  end.

Definition main : prog guest Z :=
  let* a := call GetEnv in
  match a with
  | None => err (B "DBUS_STARTER_ADDRESS not set")
  | Some addr =>
      let* entries := call (ParseAddress addr) in
      match entries with
      | None => err (B "parsing D-Bus address '" ++ addr ++ B "'")
      | Some entries => try_entries addr entries
      end
  end.

End Program.

(** ** The port *)

Lemma digits_all s : Forall (fun b => is_digit b = true) s -> digits s = s.
Proof. induction 1 as [|c s Hc Hs IH]; simpl; [done|]. by rewrite Hc, IH. Qed.

Lemma digits_Forall s : Forall (fun b => is_digit b = true) (digits s).
Proof. induction s as [|c s IH]; simpl; [done|]. destruct (is_digit c) eqn:Hc; by constructor. Qed.

Lemma digits_prefix s : exists r, s = digits s ++ r.
Proof.
  induction s as [|c s [r IH]]; simpl; [by exists []|].
  destruct (is_digit c); [exists r; by rewrite IH at 1|by exists (c :: s)].
Qed.

Lemma parse_u32_Some s v :
  parse_u32 s = Some v <->
  s <> [] /\ Forall (fun b => is_digit b = true) s /\ dec_value s <= LONG_MAX /\
  v = dec_value s mod 2 ^ 32.
Proof.
  unfold parse_u32, strtol. split.
  - destruct s as [|c s0]; [done|]. intros H. destruct (is_digit c) eqn:Hc; [|done].
    set (s := c :: s0) in *. destruct (digits_prefix s) as [r Hr].
    destruct (Z.leb_spec (dec_value (digits s)) LONG_MAX); [|done].
    assert (Hdr : drop (length (digits s)) s = r)
      by (clearbody s; rewrite Hr at 2; apply drop_app_length).
    rewrite Hdr in H. destruct r; [|done].
    rewrite app_nil_r in Hr. pose proof (digits_Forall s) as Hd. rewrite <- Hr in *.
    simplify_eq. done.
  - intros (Hne & Hd & Hm & ->). rewrite (digits_all s Hd).
    destruct s as [|c s]; [done|]. apply Forall_cons in Hd as [-> _].
    apply Z.leb_le in Hm. rewrite Hm. by rewrite drop_all.
Qed.

(** C39. [parse_u32] accepts exactly the non-empty strings of digits whose
    value fits into a [long], and delivers that value modulo [2^32].  So it reads
    back every port that can be written as a [u32]; but it also accepts, and
    silently truncates, numbers that are not: 4294967297 is taken for port 1. *)
Theorem parse_u32_truncates :
  (forall s v, parse_u32 s = Some v <->
     s <> [] /\ Forall (fun b => is_digit b = true) s /\ dec_value s <= LONG_MAX /\
     v = dec_value s mod 2 ^ 32) /\
  (forall port, 0 <= port < 2 ^ 32 -> parse_u32 (dec port) = Some port) /\
  parse_u32 (B "4294967297") = Some 1.
Proof.
  split_and!; [exact parse_u32_Some| |by vm_compute].
  intros port Hp. apply parse_u32_Some. rewrite dec_value_dec by lia.
  split_and!; [by apply dec_nonempty; lia|by apply dec_all_digits; lia|unfold LONG_MAX; lia|].
  by rewrite Z.mod_small.
Qed.

(** ** What the host is told *)

(** The bytes that reached the socket. *)
Definition written_of (ev : event guest) : bytes :=
  match ev with
  | Event e x => match e in guest X return X -> bytes with
                 | Write _ data => fun r => match r with
                                            | Ok n => take (Z.to_nat n) data
                                            | Err _ => []
                                            end
                 | _ => fun _ => []
                 end x
  end.
Definition written (tr : list (event guest)) : bytes := tr ≫= written_of.

Lemma written_app t1 t2 : written (t1 ++ t2) = written t1 ++ written t2.
Proof. apply bind_app. Qed.
Lemma written_cons ev tr : written (ev :: tr) = written_of ev ++ written tr.
Proof. done. Qed.

(** [write_all] succeeds only after the whole buffer has been written, however
    the kernel cuts it up. *)
Lemma write_all_exec fuel fd buf tr :
  exec (write_all fuel fd buf) tr (Done true) -> written tr = buf.
Proof.
  revert buf tr. induction fuel as [|fuel IH]; intros buf tr H; [by destruct H|].
  destruct H as (r & t & -> & H). rewrite written_cons. destruct r as [n|e]; [|by destruct H].
  simpl in *. destruct (drop (Z.to_nat n) buf) as [|b rest] eqn:Hd.
  - destruct H as [-> _]. apply (f_equal length) in Hd. rewrite length_drop in Hd. simpl in Hd.
    rewrite app_nil_r. apply take_ge. lia.
  - apply IH in H. rewrite H, <- Hd. apply take_drop.
Qed.

Lemma err_never_returns {A} text tr (a : A) : ~ exec (err text) tr (Done a).
Proof. by intros (x & t & _ & _ & ?). Qed.

Lemma exec_gbind_done {A C} (p : prog guest A) (k : A -> prog guest C) tr c :
  exec (p ≫= k) tr (Done c) ->
  exists a t1 t2, tr = t1 ++ t2 /\ exec p t1 (Done a) /\ exec (k a) t2 (Done c).
Proof. intros [H|(s & _ & ?)]%exec_bind; done. Qed.

(** A step that must have written its buffer for the program to go on. *)
Lemma write_or_err {A} fuel fd buf text (k : prog guest A) tr a :
  exec (let* w := write_all fuel fd buf in if negb w then err text else k) tr (Done a) ->
  exists t1 t2, tr = t1 ++ t2 /\ written t1 = buf /\ exec k t2 (Done a).
Proof.
  intros H. apply exec_gbind_done in H as (w & t1 & t2 & -> & H1 & H).
  destruct w; [|by apply err_never_returns in H]. exists t1, t2.
  by apply write_all_exec in H1.
Qed.

Lemma read_byte_written g fd tr o : exec (read_byte g fd) tr o -> written tr = [].
Proof. intros (r & t & -> & H). rewrite written_cons. by destruct r as [[|b l]|e]; destruct H as [-> _]. Qed.

Lemma connect_to_host_written g tr sock :
  exec (connect_to_host g) tr (Done sock) -> written tr = [Byte.x01; Byte.x01].
Proof.
  intros (s & t & -> & H). rewrite written_cons. destruct s as [fd|e]; [|by apply err_never_returns in H].
  destruct H as (c & t' & -> & H). rewrite written_cons.
  destruct c as [u|e]; [|by apply err_never_returns in H].
  apply write_or_err in H as (t1 & t2 & -> & Hw & H).
  apply exec_gbind_done in H as (v & t3 & t4 & -> & H1 & H). apply read_byte_written in H1.
  rewrite !written_app, Hw, H1.
  destruct v as [v|]; [|by apply err_never_returns in H].
  case_decide; [by destruct H as [-> _]|by apply err_never_returns in H].
Qed.

Lemma send_info_written root sock port tr :
  exec (send_info root sock port) tr (Done tt) -> written tr = to_be_bytes port ++ frame root.
Proof.
  intros H. apply write_or_err in H as (t1 & t2 & -> & H1 & H).
  apply write_or_err in H as (t3 & t4 & -> & H2 & H).
  apply write_or_err in H as (t5 & t6 & -> & H3 & [-> _]).
  by rewrite !written_app, H1, H2, H3, app_nil_r.
Qed.

Lemma talk_written root gv gr port tr :
  exec (talk root gv gr port) tr (Done tt) -> written tr = handshake [Byte.x01] port root.
Proof.
  intros H. apply exec_gbind_done in H as (sock & t1 & t2 & -> & H1 & H).
  apply exec_gbind_done in H as (u & t3 & t4 & -> & H2 & H). destruct u.
  apply exec_gbind_done in H as (b & t5 & t6 & -> & H3 & H).
  apply connect_to_host_written in H1. apply send_info_written in H2. apply read_byte_written in H3.
  rewrite !written_app, H1, H2, H3. destruct b as [b|]; [|by apply err_never_returns in H].
  case_decide; [|by apply err_never_returns in H]. destruct H as [-> _]. by rewrite !app_nil_r.
Qed.

#[local] Opaque to_be_bytes.

(** No handshake is a proper prefix of another: the messages cannot be cut up
    in two ways. *)
Lemma handshake_prefix_inj vs port root vs' port' root' :
  wf_handshake vs port root -> wf_handshake vs' port' root' ->
  handshake vs port root `prefix_of` handshake vs' port' root' ->
  vs = vs' /\ port = port' /\ root = root'.
Proof.
  intros (Hv & Hp & Hr) (Hv' & Hp' & Hr') [x Hx]. unfold handshake, frame in Hx.
  rewrite <- !app_assoc in Hx. cbn [app] in Hx. injection Hx as Hc Hx.
  apply u8_of_inj in Hc; [|lia..].
  apply app_inj_1 in Hx as [-> Hx]; [|lia].
  apply app_inj_1 in Hx as [Hpp Hx]; [|by rewrite !length_to_be_bytes].
  apply app_inj_1 in Hx as [Hll Hx]; [|by rewrite !length_to_be_bytes].
  apply (f_equal from_be_bytes) in Hpp, Hll. rewrite !from_to_be_bytes in Hpp, Hll by lia.
  assert (x = []) as -> by (apply (f_equal length) in Hx; rewrite length_app in Hx; destruct x; [done|simpl in Hx; lia]).
  by rewrite app_nil_r in Hx.
Qed.

#[local] Transparent to_be_bytes.

(** C8. The two programs agree on the protocol.  Take a guest that finished
    its conversation and a host connection that read from what the guest wrote.
    If the host serves a file chooser, then under exactly the share root the
    guest was built with, and it asked Cloud Hypervisor for exactly the port the
    guest announced. *)
Theorem guest_and_host_agree {FMT : Fmt} {ZB : Zbus} {ARGS : Args}
    root gv gr port trg fuel conn trh o bus root' :
  exec (talk root gv gr port) trg (Done tt) ->
  0 <= port < 2 ^ 32 -> Z.of_nat (length root) < 2 ^ 32 ->
  exec (run_guest_connection fuel conn) trh o -> reads_ok trh -> conn ∉ connected trh ->
  received conn trh `prefix_of` written trg -> served trh = [(bus, root')] ->
  root' = root /\ exists v, v <> conn /\ sent v trh = connect_request port.
Proof.
  intros Hg Hp Hl Hh Hr Hc Hpre Hs. apply talk_written in Hg. rewrite Hg in Hpre.
  apply run_guest_connection_exec in Hh; [|done..].
  destruct Hh as [m _ _ Hs' _ _|? ? ? _ _ _ _ _ Hs' _|vs port' root'' bus' Hrc Hwf _ _ Hs' _ Hv|? ? ? ? _ _ _ _ Hs' _ _];
    rewrite Hs in Hs'; simplify_eq.
  rewrite Hrc in Hpre. apply handshake_prefix_inj in Hpre as (-> & -> & ->);
    [done|done|by split; [simpl; lia|]].
Qed.

(** The first entry for vsock. *)
Definition is_vsock (e : entry) : Prop := entry_method e = B "vsock".
#[local] Instance is_vsock_dec e : Decision (is_vsock e).
Proof. unfold is_vsock. apply _. Defined.

Lemma try_entries_exec root gv gr addr entries tr c :
  exec (try_entries root gv gr addr entries) tr (Done c) ->
  c = 0 /\
  match snd <$> list_find is_vsock entries with
  | None => tr = []
  | Some e => exists s port, entry_value e (B "port") = Some s /\ parse_u32 s = Some port /\
      written tr = handshake [Byte.x01] port root
  end.
Proof.
  induction entries as [|e rest IH]; cbn [try_entries list_find]; intros H.
  { destruct H as [-> [= <-]]. done. }
  unfold is_vsock at 1. destruct (decide (entry_method e = B "vsock")) as [Hv|Hv].
  - simpl. destruct (entry_value e (B "port")) as [s|] eqn:Hs; [|by apply err_never_returns in H].
    destruct (parse_u32 s) as [port|] eqn:Hp; [|by apply err_never_returns in H].
    apply exec_gbind_done in H as ([] & t1 & t2 & -> & H1 & H). apply talk_written in H1.
    destruct H as [-> [= <-]]. split; [done|]. exists s, port. by rewrite app_nil_r.
  - apply IH in H as [-> H]. split; [done|].
    by destruct (list_find is_vsock rest) as [[i e']|].
Qed.

(** C34. When the guest's program ends without complaint, it has used the first
    vsock entry of its bus address: it announced that entry's port, as parsed,
    and the share root.  An address without a vsock entry is not an error: the
    program then succeeds without having contacted the host. *)
Theorem guest_announces_first_vsock root gv gr tr c :
  exec (main root gv gr) tr (Done c) ->
  c = 0 /\ exists addr entries t,
    tr = Event GetEnv (Some addr) :: Event (ParseAddress addr) (Some entries) :: t /\
    match snd <$> list_find is_vsock entries with
    | None => t = []
    | Some e => exists s port, entry_value e (B "port") = Some s /\ parse_u32 s = Some port /\
        written t = handshake [Byte.x01] port root
    end.
Proof.
  intros (a & t & -> & H). destruct a as [addr|]; [|by apply err_never_returns in H].
  destruct H as (es & t' & -> & H). destruct es as [entries|]; [|by apply err_never_returns in H].
  apply try_entries_exec in H as [-> H]. split; [done|]. by exists addr, entries, t'.
Qed.

(** C40. The guest reports failure if the host answers with a status other than
    0 or reading fails; but the end of the stream is not noticed.  If the host
    closes the connection without an answer, what the guest reports is decided
    by the uninitialised variable alone, and may be success. *)
Theorem guest_result_at_eof gr sock tr o :
  exec (check_result gr sock) tr o ->
  exists r, head tr = Some (Event (Read sock 1) r) /\
    match r with
    | Ok (b :: _) => o = Done tt <-> b = NUL
    | Ok [] => o = Done tt <-> gr = NUL
    | Err _ => o = Stopped (Exit 1)
    end.
Proof.
  intros H. apply exec_bind in H as [(b & t1 & t2 & -> & H1 & H)|(s & H1 & ->)].
  - destruct H1 as (r & t & -> & H1). exists r. split; [done|].
    assert (Herr : forall text t, exec (err text) t o -> o = Stopped (Exit 1))
      by (by intros text t' (x & t'' & _ & _ & ->)).
    destruct r as [[|b' l]|e]; destruct H1 as [_ H1]; simplify_eq;
      [case_decide..|by eapply Herr]; first [destruct H as [_ ->]|apply Herr in H as ->];
      naive_solver.
  - destruct H1 as (r & t & _ & H1). by destruct r as [[|]|]; destruct H1.
Qed.

(** ** Examples *)

#[local] Existing Instance plain_fmt.
#[local] Instance host_args : Args := [].

(** A kernel that takes at most three bytes per [write]; the world is what the
    host sends. *)
Definition guest_outside (X : Type) (c : guest X) (w : bytes) : X * bytes :=
  match c in guest X return X * bytes with
  | GetEnv => (Some (B "vsock:port=1024"), w)
  | ParseAddress _ =>
      (Some [{| entry_method := B "vsock"; entry_value := fun _ => Some (B "1024") |}], w)
  | VsockSocket => (Ok 3, w)
  | VsockConnect _ _ _ => (Ok tt, w)
  | Write _ data => (Ok (Z.min 3 (Z.of_nat (length data))), w)
  | Read _ n => (Ok (take n w), drop n w)
  | Complain _ => (tt, w)
  end.

(** The guest's half of a conversation. *)
Definition guest_side : list (event guest) :=
  (run guest_outside (talk (B "/share") NUL NUL 1024) [Byte.x01; NUL]).1.2.

Definition host_side : host_scenario := {|
  hs_conn := written guest_side; hs_vsock := ok_line 5678;
  hs_response := 0; hs_results := ∅ |}.

Lemma guest_and_host_agree_witness :
  B "/share" = B "/share" /\ exists v, v <> CONN /\
    sent v (host_trace host_side (run_guest_connection 1 CONN)) = connect_request 1024.
Proof.
  apply (guest_and_host_agree (B "/share") NUL NUL 1024 guest_side 1 CONN
           (host_trace host_side (run_guest_connection 1 CONN))
           (host_outcome host_side (run_guest_connection 1 CONN)) 9).
  - assert (Ho : (run guest_outside (talk (B "/share") NUL NUL 1024) [Byte.x01; NUL]).1.1 = Done tt)
      by (vm_compute; reflexivity).
    rewrite <- Ho. apply exec_run.
  - lia.
  - vm_compute. reflexivity.
  - apply exec_host.
  - apply reads_ok_host.
  - by_eval.
  - exists []. vm_compute. reflexivity.
  - vm_compute. reflexivity.
Defined.

Lemma guest_announces_first_vsock_witness :
  exists addr entries t,
    (run guest_outside (main (B "/share") NUL NUL) [Byte.x01; NUL]).1.2 =
    Event GetEnv (Some addr) :: Event (ParseAddress addr) (Some entries) :: t.
Proof.
  destruct (guest_announces_first_vsock (B "/share") NUL NUL
              (run guest_outside (main (B "/share") NUL NUL) [Byte.x01; NUL]).1.2 0)
    as (_ & addr & entries & t & Ht & _).
  - assert (Ho : (run guest_outside (main (B "/share") NUL NUL) [Byte.x01; NUL]).1.1 = Done 0)
      by (vm_compute; reflexivity).
    rewrite <- Ho. apply exec_run.
  - exists addr, entries, t. exact Ht.
Defined.

Lemma guest_result_at_eof_witness :
  exists r, head [Event (Read 3 1) (Ok [])] = Some (Event (Read 3 1) r) /\
    match r with
    | Ok (b :: _) => Done tt = Done tt <-> b = NUL
    | Ok [] => Done tt = Done tt <-> NUL = NUL
    | Err _ => Done tt = Stopped (Exit 1)
    end.
Proof.
  apply (guest_result_at_eof NUL 3 [Event (Read 3 1) (Ok [])] (Done tt)). exec_trace.
Defined.

End Guest.
