(* ===== verification/Conversation.v ===== *)
(** * Conversation: the guest's program and the host's, talking to each other

    The guest's program ([Guest.main]) and the task the host runs for it
    ([run_guest_connection]) as two processes that share a connection: two
    byte streams, one in each direction.  A step is one call of one of the two;
    the kernel may cut the guest's writes up as it likes, and what Cloud
    Hypervisor and the guest's bus answer to the host is arbitrary.  The theorem
    is that the conversation always comes to its end, with both sides agreed. *)

From S2P Require Import Prelude Effects Wp RustStd HostSys HostScenario HostProto Guest.

Module Conversation.
Import Proto Guest.

Section Conversation.
Context {FMT : Fmt} {ZB : Zbus} {ARGS : Args}.
(** The constants of the guest's program; the host's loop bound, its
    descriptor for the guest and the path of the vsock socket; and the address
    of the guest's bus. *)
Variables (root : bytes) (garbage_version garbage_r : byte).
Variables (fuel : nat) (conn : Z) (path : bytes).
Variables (addr : bytes) (entries : list entry).

(** ** The system *)

Record state := State {
  c_guest : prog guest Z;
  c_host : option (prog host (result unit bytes));  (** once the guest has connected *)
  c_up : bytes;                  (** written by the guest, not yet read *)
  c_down : bytes;                (** written by the host, not yet read *)
  c_trace : list (event host);   (** the host's calls so far *)
}.

(** The host has closed the connection: explicitly, or by returning. *)
Definition drops (ev : event host) : bool :=
  match ev with Event (Drop c) _ => c =? conn | _ => false end.
Definition closed (h : option (prog host (result unit bytes))) (tr : list (event host)) : Prop :=
  existsb drops tr = true \/ exists r, h = Some (Ret r).

(** A call of the guest, its answer, and the streams before and after. *)
Inductive guest_call (eof : Prop) : forall X, guest X -> X -> bytes * bytes -> bytes * bytes -> Prop :=
| DoGetEnv w : guest_call eof _ GetEnv (Some addr) w w
| DoParse w : guest_call eof _ (ParseAddress addr) (Some entries) w w
| DoSocket fd w : guest_call eof _ VsockSocket (Ok fd) w w
| DoWrite fd data n up down :
    (0 < n <= length data)%nat \/ (n = 0%nat /\ data = []) ->
    guest_call eof _ (Write fd data) (Ok (Z.of_nat n)) (up, down) (up ++ take n data, down)
| DoRead fd n data up down :
    data <> [] -> (length data <= n)%nat ->
    guest_call eof _ (Read fd n) (Ok data) (up, data ++ down) (up, down)
| DoReadEof fd n up :
    eof -> guest_call eof _ (Read fd n) (Ok []) (up, []) (up, [])
| DoComplain text w : guest_call eof _ (Complain text) tt w w.

(** A call of the host.  Reading from the guest waits until there is enough. *)
Inductive host_call : forall X, host X -> X -> bytes * bytes -> bytes * bytes -> Prop :=
| DoReadExact n data up down :
    length data = n -> host_call _ (ReadExact conn n) (Ok data) (data ++ up, down) (up, down)
| DoWriteAll data up down :
    host_call _ (WriteAll conn data) (Ok tt) (up, down) (up, down ++ data)
| DoOnceGet w : host_call _ (OnceGet VSOCK_UNIX_PATH) (Some path) w w
| DoConnectUnix p r w : r <> Ok conn -> host_call _ (ConnectUnix p) r w w
| DoReadVsock c n r w :
    c <> conn -> read_answer (Event (ReadExact c n) r) -> host_call _ (ReadExact c n) r w w
| DoWriteVsock c data r w : c <> conn -> host_call _ (WriteAll c data) r w w
| DoBuild v name p share r w : host_call _ (BuildConnection v name p share) r w w
| DoMessage bus r w : host_call _ (NextMessage bus) r w w
| DoDrop c w : host_call _ (Drop c) tt w w
| DoEprint text w : host_call _ (Eprint text) tt w w.

Inductive step : state -> state -> Prop :=
| GuestConnects fd cid port k tr :
    step (State (Vis (VsockConnect fd cid port) k) None [] [] tr)
         (State (k (Ok tt)) (Some (run_guest_connection fuel conn)) [] [] tr)
| GuestStep X (e : guest X) k x h w w' tr :
    guest_call (closed h tr) X e x w w' ->
    step (State (Vis e k) h w.1 w.2 tr) (State (k x) h w'.1 w'.2 tr)
| HostStep g X (e : host X) k x w w' tr :
    host_call X e x w w' ->
    step (State g (Some (Vis e k)) w.1 w.2 tr)
         (State g (Some (k x)) w'.1 w'.2 (tr ++ [Event e x])).

Definition start : state := State (main root garbage_version garbage_r) None [] [] [].

(** The end: the guest reports success and is served, or it reports failure
    and is not. *)
Inductive completed (port : Z) : state -> Prop :=
| Served h tr bus v :
    (h = Halt NoFuel \/ exists r, h = Ret r) ->
    served tr = [(bus, root)] -> v <> conn -> sent v tr = connect_request port ->
    completed port (State (Ret 0) (Some h) [] [] tr)
| Refused m tr :
    served tr = [] -> completed port (State (Halt (Exit 1)) (Some (Ret (Err m))) [] [] tr).

(** *** No run goes on forever: every call makes a process smaller. *)

Definition smaller {E : Type -> Type} {A} (p' p : prog E A) : Prop :=
  match p with Vis e k => exists x, p' = k x | _ => False end.

Lemma smaller_wf {E : Type -> Type} {A} (p : prog E A) : Acc smaller p.
Proof.
  induction p as [a|st|X e k IH]; constructor; intros p'; [done..|]. intros [x ->]. apply IH.
Qed.

Lemma step_smaller s s' :
  step s s' ->
  smaller (c_guest s') (c_guest s) \/
  c_guest s' = c_guest s /\ exists h h', c_host s = Some h /\ c_host s' = Some h' /\ smaller h' h.
Proof.
  intros [fd cid port k tr|X e k x h w w' tr _|g X e k x w w' tr _]; simpl;
    [left; eauto..|right]. split; [done|]. eexists _, _. split_and!; [done..|]. simpl. eauto.
Qed.

Lemma step_terminates s : sn step s.
Proof.
  remember (c_guest s) as g eqn:Hg. revert s Hg.
  induction (smaller_wf g) as [g _ IHg]. intros s ->.
  assert (Hnone : c_host s = None -> sn step s).
  { intros Hn. constructor. intros s' Hs.
    destruct (step_smaller _ _ Hs) as [Hlt|(_ & h & h' & Hh & _)]; [by eapply IHg|congruence]. }
  destruct (c_host s) as [h|] eqn:Hh; [clear Hnone|by apply Hnone].
  revert s IHg Hh. induction (smaller_wf h) as [h _ IHh]. intros s IHg Hh.
  constructor. intros s' Hs.
  destruct (step_smaller _ _ Hs) as [Hlt|(Hg & h0 & h' & Hh0 & Hh' & Hlt)]; [by eapply IHg|].
  assert (h0 = h) as -> by congruence. eapply IHh; [exact Hlt| |exact Hh']. rewrite Hg. exact IHg.
Qed.

(** ** What the two processes follow *)

(** The conversation, byte by byte: [Up] is the guest's, [Down] the host's. *)
Inductive act := Connect | Up (b : byte) | Down (b : byte).

Definition ups (s : list act) : bytes := s ≫= fun a => match a with Up b => [b] | _ => [] end.
Definition downs (s : list act) : bytes := s ≫= fun a => match a with Down b => [b] | _ => [] end.

(** The guest, which is going to be told [v]: the ghost state is what is left
    of the conversation. *)
#[local] Program Instance guest_spec (v : byte) : EventSpec guest (list act) := {|
  ev X e s := match e in guest X return (X -> list act -> Prop) -> Prop with
    | GetEnv => fun K => K (Some addr) s
    | ParseAddress a => fun K => a = addr /\ K (Some entries) s
    | VsockSocket => fun K => forall fd, K (Ok fd) s
    | VsockConnect _ _ _ => fun K => exists s', s = Connect :: s' /\ K (Ok tt) s'
    | Write _ data => fun K =>
        data <> [] /\ exists s', s = (Up <$> data) ++ s' /\
        forall n, (0 < n <= length data)%nat -> K (Ok (Z.of_nat n)) (drop n s)
    | Read _ n => fun K => n = 1%nat /\ exists b s', s = Down b :: s' /\ K (Ok [b]) s'
    | Complain _ => fun K => K tt s
    end;
  halted st s := s = [] /\ st = Exit 1 /\ v <> NUL |}.
Next Obligation. intros v X e s K K' H. destruct e; naive_solver. Qed.

(** The host: what is left of the conversation before the verdict, or [None]
    after it. *)
#[local] Program Instance host_spec : EventSpec host (option (list act)) := {|
  ev X e s := match e in host X return (X -> option (list act) -> Prop) -> Prop with
    | ReadExact c n => fun K =>
        if decide (c = conn) then
          exists data s', s = Some ((Up <$> data) ++ s') /\ length data = n /\ K (Ok data) (Some s')
        else forall r, read_answer (Event (ReadExact c n) r) -> K r s
    | WriteAll c data => fun K =>
        if decide (c = conn) then
          (exists s', s = Some ((Down <$> data) ++ s') /\ data <> [] /\ K (Ok tt) (Some s')) \/
          (exists v, s = Some [] /\ data = [v] /\ K (Ok tt) None)
        else forall r, K r s
    | OnceGet l =>
        match l in lock V return (option V -> option (list act) -> Prop) -> Prop with
        | VSOCK_UNIX_PATH => fun K => K (Some path) s
        | _ => fun _ => False
        end
    | ConnectUnix _ => fun K => forall r, r <> Ok conn -> K r s
    | BuildConnection _ _ _ _ => fun K => forall r, K r s
    | NextMessage _ => fun K => forall r, K r s
    | Drop _ => fun K => s = None /\ K tt s
    | Eprint _ => fun K => K tt s
    | _ => fun _ => False
    end;
  halted st s := s = None /\ st = NoFuel |}.
Next Obligation.
  intros X e s K K' H. destruct e as [c n|c data| | | | | | | | | | | | | | | | |V l|V l v|]; try naive_solver.
  - simpl. case_decide; naive_solver.
  - simpl. case_decide; naive_solver.
  - destruct l; naive_solver.
Qed.

Definition guest_ends (v : byte) (c : Z) (s : list act) : Prop := s = [] /\ c = 0 /\ v = NUL.
Definition host_ends (r : result unit bytes) (s : option (list act)) : Prop := s = None.

Definition guest_follows (v : byte) (g : prog guest Z) (s : list act) : Prop :=
  wp (SPEC := guest_spec v) g s (guest_ends v).
Definition host_follows (h : prog host (result unit bytes)) (s : option (list act)) : Prop :=
  wp (SPEC := host_spec) h s host_ends.

(** *** The guest *)

Definition announcement (port : Z) : bytes := to_be_bytes port ++ frame root.

(** All that is said before the verdict. *)
Definition script (port : Z) : list act :=
  (Up <$> [Byte.x01; Byte.x01]) ++ Down Byte.x01 :: (Up <$> announcement port).

Section Guest.
Variable v : byte.
#[local] Existing Instance guest_spec.

(** However the kernel cuts the buffer up, [write_all] gets through it, within
    its bound. *)
Lemma write_all_follows n fd data s :
  (length data < n)%nat -> data <> [] ->
  wp (SPEC := guest_spec v) (write_all n fd data) ((Up <$> data) ++ s) (fun b s' => b = true /\ s' = s).
Proof.
  revert data. induction n as [|n IH]; intros data Hl Hne; [lia|]. cbn [write_all].
  split; [done|]. exists s. split; [done|]. intros m Hm. unfold prog_mbind. cbn [prog_bind].
  rewrite Nat2Z.id, drop_app_le, <- fmap_drop by (rewrite length_fmap; lia).
  pose proof (length_drop data m) as Hd. destruct (drop m data) as [|b rest]; [done|].
  apply IH; [simpl in *; lia|done].
Qed.

Lemma err_follows {A} text (Q : A -> list act -> Prop) :
  v <> NUL -> wp (SPEC := guest_spec v) (err text) [] Q.
Proof. intros Hv. cbn. done. Qed.

(** A write that must succeed. *)
Lemma write_or_err_follows {A} fd data text (k : prog guest A) s Q :
  data <> [] -> wp (SPEC := guest_spec v) k s Q ->
  wp (SPEC := guest_spec v)
    (let* w := write_all (enough data) fd data in if negb w then err text else k)
    ((Up <$> data) ++ s) Q.
Proof.
  intros Hne Hk. apply wp_bind. eapply wp_mono; [|apply write_all_follows; [unfold enough; lia|done]].
  by intros w s' [-> ->].
Qed.

Lemma script_pieces port s :
  script port ++ s = (Up <$> [Byte.x01; Byte.x01]) ++ Down Byte.x01 ::
    (Up <$> to_be_bytes port) ++ (Up <$> to_be_bytes (Z.of_nat (length root))) ++ (Up <$> root) ++ s.
Proof.
  unfold script, announcement, frame. by rewrite !fmap_app, <- !app_assoc, <- app_comm_cons, <- !app_assoc.
Qed.

(** One byte is read. *)
Lemma read_byte_follows {A} g fd b (k : option byte -> prog guest A) s Q :
  wp (SPEC := guest_spec v) (k (Some b)) s Q ->
  wp (SPEC := guest_spec v) (let* r := read_byte g fd in k r) (Down b :: s) Q.
Proof. intros H. split; [done|]. by exists b, s. Qed.

Lemma talk_follows port :
  root <> [] ->
  wp (SPEC := guest_spec v) (talk root garbage_version garbage_r port)
    (Connect :: script port ++ [Down v]) (fun _ s => s = [] /\ v = NUL).
Proof.
  intros Hr. rewrite script_pieces. apply wp_bind. intros fd. eexists. split; [done|].
  apply write_or_err_follows; [done|]. apply read_byte_follows.
  destruct (decide (Byte.x01 = Byte.x01)); [|done].
  apply wp_bind. unfold send_info. do 3 (apply write_or_err_follows; [done|]).
  apply read_byte_follows. case_decide; [done|by apply err_follows].
Qed.

End Guest.

(** The port that the guest finds in the address of its bus. *)
Definition announced_port : option Z :=
  list_find is_vsock entries ≫= fun e => entry_value e.2 (B "port") ≫= parse_u32.

Lemma main_follows v port :
  root <> [] -> announced_port = Some port ->
  guest_follows v (main root garbage_version garbage_r) (Connect :: script port ++ [Down v]).
Proof.
  intros Hr Hp. split; [done|]. cbn. fold (@prog_mbind guest).
  unfold announced_port in Hp. induction entries as [|e es IH]; [done|]. cbn [try_entries].
  cbn [list_find] in Hp. unfold is_vsock at 1 in Hp.
  destruct (decide (entry_method e = B "vsock")) as [Hv|Hv].
  - cbv [mbind option_bind] in Hp. cbn in Hp.
    destruct (entry_value e (B "port")) as [sp|]; [|done]. rewrite Hp.
    apply wp_bind. eapply wp_mono; [|by apply talk_follows]. intros _ s [-> ->]. by repeat split.
  - apply IH. by destruct (list_find is_vsock es) as [[i e']|].
Qed.

(** *** The host *)

Section Host.
#[local] Existing Instance host_spec.

(** A program that leaves the conversation where it is. *)
Definition neutral {A} (p : prog host A) : Prop := forall s, wp p s (fun _ s' => s' = s).

Lemma neutral_bind {A C} (p : prog host A) (k : A -> prog host C) s Q :
  neutral p -> (forall a, wp (k a) s Q) -> wp (p ≫= k) s Q.
Proof. intros Hp Hk. apply wp_bind. eapply wp_mono; [|apply Hp]. by intros a s' ->. Qed.

Lemma neutral_ret {A} (a : A) : neutral (Ret a).
Proof. done. Qed.

Lemma neutral_map_err {A E F} (f : E -> F) (p : prog host (result A E)) :
  neutral p -> neutral (map_err f p).
Proof. intros Hp s. by apply neutral_bind. Qed.

Lemma neutral_msg e : neutral (msg e).
Proof.
  intros s. apply neutral_bind; [|done]. intros s'.
  destruct (head args_os) as [p|]; [|done]. by destruct (Path.file_name p).
Qed.

Lemma neutral_write_parts v parts : v <> conn -> neutral (write_parts v parts).
Proof.
  intros Hv. induction parts as [|part rest IH]; intros s; [done|]. cbn [write_parts].
  apply neutral_bind; [|by intros [u|m]; [apply IH|]]. apply neutral_map_err. intros s'.
  cbn. by destruct (decide (v = conn)).
Qed.

Lemma length_splice buf n data :
  (n + length data <= length buf)%nat -> length (splice buf n data) = length buf.
Proof. intros H. unfold splice. rewrite !length_app, length_take, length_drop. lia. Qed.

(** The loop that reads the response ends within its bound, in range. *)
Lemma neutral_read_response n v response len :
  v <> conn -> length response = RESPONSE_LEN ->
  len = 0%nat \/ (min_response_len <= len <= RESPONSE_LEN)%nat -> (RESPONSE_LEN - len <= n)%nat ->
  neutral (read_response n v response len).
Proof.
  intros Hv. assert (Hmin : min_response_len = 5%nat) by by vm_compute.
  assert (Hmax : RESPONSE_LEN = 14%nat) by done.
  revert response len. induction n as [|n IH]; intros response len Hr Hlen Hn s;
    unfold read_response; fold read_response.
  - rewrite (bool_decide_eq_false_2 (len < _)%nat) by lia. by rewrite andb_false_r.
  - destruct (bool_decide (_ <> _)); [|done]. destruct (bool_decide_reflect (len < length response)%nat); [|done].
    cbn [andb]. rewrite !bool_decide_eq_true_2 by lia. cbn [andb].
    apply wp_bind, wp_bind. cbn. destruct (decide (v = conn)); [done|].
    intros [data|e] Hd; [|done]. simpl in Hd. cbn. apply IH.
    + rewrite length_splice; [done|]. rewrite Hd. lia.
    + lia.
    + lia.
Qed.

Lemma neutral_connect_to_guest port : neutral (connect_to_guest port).
Proof.
  intros s. unfold connect_to_guest. apply neutral_bind; [by intros s'|]. intros p.
  apply wp_bind, wp_bind. cbn. intros [v|e] Hv; [|done]. cbn.
  assert (v <> conn) by congruence.
  apply neutral_bind; [by apply neutral_write_parts|]. intros [u|m]; [|done].
  apply neutral_bind; [by apply neutral_read_response; [..|left|lia]|].
  intros [response|m]; [|done]. by destruct (negb _).
Qed.

Lemma neutral_guest_dbus_conn port share : neutral (guest_dbus_conn port share).
Proof.
  intros s. unfold guest_dbus_conn. destruct (Path.is_relative share); [done|].
  apply neutral_bind; [apply neutral_connect_to_guest|]. intros [v|m]; [|done].
  by apply neutral_map_err.
Qed.

Lemma message_loop_follows n bus : wp (message_loop n bus) None host_ends.
Proof.
  induction n as [|n IH]; [done|]. cbn [message_loop]. intros [u|e]; [exact IH|].
  cbn. by destruct (is_broken_pipe e).
Qed.

(** After the verdict, only the guest's bus is served. *)
Lemma after_report_follows r : wp (after_report fuel conn r (Ok tt)) None host_ends.
Proof.
  split; [done|]. destruct r as [bus|m]; [|done].
  apply wp_bind, wp_ret, neutral_bind; [apply neutral_msg|]. intros _. apply message_loop_follows.
Qed.

(** Reading from the guest what it is going to send. *)
Lemma read_follows {A} n data (f : io_error -> bytes) (k : bytes -> prog host (result A bytes)) s Q :
  length data = n -> wp (k data) (Some s) Q ->
  wp (let? buf := map_err f (call (ReadExact conn n)) in k buf) (Some ((Up <$> data) ++ s)) Q.
Proof.
  intros Hl Hk. apply wp_bind, wp_bind. cbn. destruct (decide (conn = conn)); [|done].
  by exists data, s.
Qed.

(** Sending what the guest waits for. *)
Lemma write_follows {A} data (f : io_error -> bytes) (k : unit -> prog host (result A bytes)) s Q :
  data <> [] -> wp (k tt) (Some s) Q ->
  wp (let? u := map_err f (call (WriteAll conn data)) in k u) (Some ((Down <$> data) ++ s)) Q.
Proof.
  intros Hl Hk. apply wp_bind, wp_bind. cbn. destruct (decide (conn = conn)); [|done].
  left. by exists s.
Qed.

Lemma receive_u32_follows {A} n (f : io_error -> bytes) (k : Z -> prog host (result A bytes)) s Q :
  0 <= n < 2 ^ 32 -> wp (k n) (Some s) Q ->
  wp (let? x := map_err f (receive_u32 conn) in k x) (Some ((Up <$> to_be_bytes n) ++ s)) Q.
Proof.
  intros Hn Hk. apply wp_bind, wp_bind, wp_bind. cbn. destruct (decide (conn = conn)); [|done].
  exists (to_be_bytes n), s. split_and!; [done..|].
  change (wp (k (from_be_bytes (to_be_bytes n))) (Some s) Q). by rewrite from_to_be_bytes.
Qed.

Lemma run_follows port :
  0 <= port < 2 ^ 32 -> Z.of_nat (length root) < 2 ^ 32 ->
  host_follows (run_guest_connection fuel conn) (Some (script port)).
Proof.
  intros Hp Hl. rewrite <- (app_nil_r (script port)), script_pieces. cbn [fmap list_fmap app].
  apply wp_bind. apply (read_follows 1 [Byte.x01]); [done|].
  apply (read_follows _ [Byte.x01]); [done|].
  change (has_byte Byte.x01 [Byte.x01]) with true. cbn [negb].
  apply (write_follows [Byte.x01]); [done|]. apply wp_ret.
  apply receive_u32_follows; [done|]. apply wp_bind, wp_bind. unfold receive_bytestring.
  apply receive_u32_follows; [lia|]. apply read_follows; [lia|]. apply wp_ret, wp_ret.
  apply neutral_bind; [apply neutral_guest_dbus_conn|]. intros r. apply wp_bind. cbn.
  destruct (decide (conn = conn)); [|done]. right. eexists. split; [done|]. split; [done|].
  apply after_report_follows.
Qed.

End Host.

(** ** The invariant *)

(** What is in flight is what the one process is ahead of the other. *)
Definition apart (up down : bytes) (gs hs : list act) : Prop :=
  (hs = (Up <$> up) ++ gs /\ down = []) \/ (gs = (Down <$> down) ++ hs /\ up = []).

(** The host's trace leads to where it is, and is well behaved. *)
Definition host_at (tr : list (event host)) (h : prog host (result unit bytes)) : Prop :=
  after (run_guest_connection fuel conn) tr h /\ reads_ok tr /\ conn ∉ connected tr.

Inductive coupled (port : Z) : state -> Prop :=
| NotConnected g :
    (forall v, guest_follows v g (Connect :: script port ++ [Down v])) ->
    coupled port (State g None [] [] [])
| Talking g h up down tr gs hs :
    (forall v, guest_follows v g (gs ++ [Down v])) -> host_follows h (Some hs) ->
    apart up down gs hs -> Connect ∉ gs -> host_at tr h -> existsb drops tr = false ->
    received conn tr ++ ups hs = handshake [Byte.x01] port root ->
    concat (sent conn tr) ++ downs hs = [Byte.x01] ->
    coupled port (State g (Some h) up down tr)
| Told g h v down tr :
    guest_follows v g (Down <$> down) -> host_follows h None -> host_at tr h ->
    received conn tr = handshake [Byte.x01] port root ->
    concat (sent conn tr) = [Byte.x01; v] ->
    coupled port (State g (Some h) [] down tr).

Lemma host_at_snoc tr X (e : host X) k x w w' :
  host_call X e x w w' -> host_at tr (Vis e k) -> host_at (tr ++ [Event e x]) (k x).
Proof.
  intros Hc (Ha & Hr & Hn). split; [by apply after_snoc|]. split.
  - apply reads_ok_app. split; [done|]. apply reads_ok_cons. split; [|by apply Forall_nil_2].
    by destruct Hc.
  - rewrite connected_app, not_elem_of_app. split; [done|]. read_trace.
    destruct Hc as [| | |p r w Hr'| | | | | |]; cbn; try (intros []%not_elem_of_nil).
    destruct r as [v|]; [|intros []%not_elem_of_nil].
    intros ->%list_elem_of_singleton. done.
Qed.

(** What a call of the host does to the conversation. *)
Inductive host_move {X} (e : host X) (x : X) (s : option (list act))
    (K : X -> option (list act) -> Prop) (up down : bytes) : bytes -> bytes -> Prop :=
| MoveRead data data' s' up' :
    up = data ++ up' -> s = Some ((Up <$> data') ++ s') -> length data = length data' ->
    (data = data' -> K x (Some s')) ->
    received_of conn (Event e x) = data -> sent_of conn (Event e x) = [] -> drops (Event e x) = false ->
    host_move e x s K up down up' down
| MoveWrite data s' :
    s = Some ((Down <$> data) ++ s') -> data <> [] -> K x (Some s') ->
    received_of conn (Event e x) = [] -> sent_of conn (Event e x) = [data] ->
    drops (Event e x) = false ->
    host_move e x s K up down up (down ++ data)
| MoveVerdict v :
    s = Some [] -> K x None ->
    received_of conn (Event e x) = [] -> sent_of conn (Event e x) = [[v]] ->
    host_move e x s K up down up (down ++ [v])
| MoveAside :
    K x s -> received_of conn (Event e x) = [] -> sent_of conn (Event e x) = [] ->
    (s = None \/ drops (Event e x) = false) ->
    host_move e x s K up down up down.

Lemma host_call_moves X (e : host X) x w w' s K :
  host_call X e x w w' -> ev (EventSpec := host_spec) e s K ->
  host_move e x s K w.1 w.2 w'.1 w'.2.
Proof.
  intros Hc. destruct Hc as [n data up down Hl|data up down|w|p r w Hr|c n r w Hcn Hr
    |c data r w Hcn|v name p share r w|bus r w|c w|text w]; cbn.
  - destruct (decide (conn = conn)); [|done]. intros (data' & s' & -> & Hl' & HK).
    apply (MoveRead _ _ _ _ _ _ data data' s'); try done; [congruence|by intros ->|].
    cbn. by rewrite Z.eqb_refl.
  - destruct (decide (conn = conn)); [|done].
    intros [(s' & -> & Hne & HK)|(v & -> & -> & HK)];
      [apply (MoveWrite _ _ _ _ _ _ data s')|apply (MoveVerdict _ _ _ _ _ _ v)]; try done;
      cbn; by rewrite Z.eqb_refl.
  - intros HK. apply MoveAside; auto.
  - intros HK. apply MoveAside; auto.
  - destruct (decide (c = conn)); [done|]. intros HK.
    assert (c =? conn = false) as Hf by by apply Z.eqb_neq.
    apply MoveAside; cbn; auto. rewrite Hf. by destruct r.
  - destruct (decide (c = conn)); [done|]. intros HK.
    assert (c =? conn = false) as Hf by by apply Z.eqb_neq.
    apply MoveAside; cbn; rewrite ?Hf; auto.
  - intros HK. apply MoveAside; auto.
  - intros HK. apply MoveAside; auto.
  - intros [-> HK]. apply MoveAside; auto.
  - intros HK. apply MoveAside; auto.
Qed.

Lemma ups_app s s' : ups (s ++ s') = ups s ++ ups s'.
Proof. apply bind_app. Qed.
Lemma downs_app s s' : downs (s ++ s') = downs s ++ downs s'.
Proof. apply bind_app. Qed.
Lemma acts_of data :
  ups (Up <$> data) = data /\ downs (Up <$> data) = [] /\
  ups (Down <$> data) = [] /\ downs (Down <$> data) = data.
Proof.
  induction data as [|b data (Hu & Hd & Hu' & Hd')]; [done|].
  unfold ups, downs in *. cbn in *. unfold mbind in *. cbn. rewrite Hu, Hd, Hu', Hd'. done.
Qed.

#[local] Instance Up_inj : Inj (=) (=) Up.
Proof. by intros ?? [= ->]. Qed.

Lemma apart_read data data' up down gs s :
  apart (data ++ up) down gs ((Up <$> data') ++ s) -> length data = length data' ->
  data = data' /\ apart up down gs s.
Proof.
  intros [[H ->]|[-> H]] Hl.
  - rewrite fmap_app, <- app_assoc in H. apply app_inj_1 in H as [H ->]; [|by rewrite !length_fmap].
    apply (inj (fmap Up)) in H. split; [done|by left].
  - apply app_nil in H as [-> ->]. destruct data' as [|]; [|done]. split; [done|by right].
Qed.

Lemma apart_write up down gs data s :
  apart up down gs ((Down <$> data) ++ s) -> data <> [] -> apart up (down ++ data) gs s.
Proof.
  intros [[H ->]|[-> ->]] Hne.
  - destruct up as [|b up]; [|by destruct data]. right. split; [exact (eq_sym H)|done].
  - right. by rewrite fmap_app, <- app_assoc.
Qed.

Lemma apart_end up down gs : apart up down gs [] -> up = [] /\ gs = Down <$> down.
Proof.
  intros [[H ->]|[-> ->]]; [|by rewrite app_nil_r].
  symmetry in H. apply app_nil in H as [H ->]. by destruct up.
Qed.

Lemma observed_snoc tr (ev : event host) :
  received conn (tr ++ [ev]) = received conn tr ++ received_of conn ev /\
  sent conn (tr ++ [ev]) = sent conn tr ++ sent_of conn ev /\
  existsb drops (tr ++ [ev]) = existsb drops tr || drops ev.
Proof.
  rewrite received_app, sent_app, existsb_app. split_and!; [f_equal; apply app_nil_r..|].
  cbn. by rewrite orb_false_r.
Qed.

Lemma host_step_coupled port g X (e : host X) k x w w' tr :
  host_call X e x w w' -> coupled port (State g (Some (Vis e k)) w.1 w.2 tr) ->
  coupled port (State g (Some (k x)) w'.1 w'.2 (tr ++ [Event e x])).
Proof.
  intros Hc Hi. remember (State g (Some (Vis e k)) w.1 w.2 tr) as st eqn:Est.
  destruct (observed_snoc tr (Event e x)) as (Hr & Hs & Hd).
  destruct Hi as [|g' h up down tr' gs hs Hg Hh Hap Hcon Hat Hdr Hrc Hst
                 |g' h v down tr' Hg Hh Hat Hrc Hst]; simplify_eq;
    pose proof (host_at_snoc _ _ _ _ _ _ _ Hc Hat) as Hat';
    apply (host_call_moves _ _ _ _ _ _ _ Hc) in Hh.
  - destruct Hh as [data data' s' up' Hup [= ->] Hl HK Hr1 Hs1 Hd1|data s' [= ->] Hne HK Hr1 Hs1 Hd1
                   |v [= ->] HK Hr1 Hs1|HK Hr1 Hs1 [?|Hd1]]; [..|done|].
    + rewrite Hup in Hap. apply apart_read in Hap as [<- Hap]; [|done].
      apply (Talking _ _ _ _ _ _ gs s'); try done; rewrite ?Hr, ?Hs, ?Hd, ?Hr1, ?Hs1, ?Hd1.
      * by apply HK.
      * by rewrite Hdr.
      * rewrite <- Hrc, ups_app, <- app_assoc. by destruct (acts_of data) as (-> & _).
      * rewrite app_nil_r, <- Hst, downs_app. by destruct (acts_of data) as (_ & -> & _).
    + apply apart_write in Hap; [|done].
      apply (Talking _ _ _ _ _ _ gs s'); try done; rewrite ?Hr, ?Hs, ?Hd, ?Hr1, ?Hs1, ?Hd1.
      * by rewrite Hdr.
      * rewrite app_nil_r, <- Hrc, ups_app. by destruct (acts_of data) as (_ & _ & -> & _).
      * rewrite concat_app, <- app_assoc, <- Hst, downs_app. cbn. rewrite app_nil_r.
        by destruct (acts_of data) as (_ & _ & _ & ->).
    + apply apart_end in Hap as [-> ->].
      apply (Told _ _ _ v); try done; rewrite ?Hr, ?Hs, ?Hr1, ?Hs1.
      * specialize (Hg v). by rewrite fmap_app.
      * by rewrite app_nil_r, <- Hrc, app_nil_r.
      * rewrite concat_app. cbn in *. by rewrite app_nil_r in Hst; rewrite Hst.
    + apply (Talking _ _ _ _ _ _ gs hs); try done; rewrite ?Hr, ?Hs, ?Hd, ?Hr1, ?Hs1, ?Hd1, ?app_nil_r;
        [by rewrite Hdr|done..].
  - destruct Hh as [? ? ? ? ? [=]|? ? [=]|? [=]|HK Hr1 Hs1 _].
    match goal with H : [] = w.1 |- _ => rewrite <- H end.
    apply (Told _ _ _ v); try done; by rewrite ?Hr, ?Hs, ?Hr1, ?Hs1, app_nil_r.
Qed.

(** What the guest writes comes before the verdict. *)
Lemma ups_before_verdict v data gs s :
  gs ++ [Down v] = (Up <$> data) ++ s -> exists gs', gs = (Up <$> data) ++ gs'.
Proof.
  revert gs. induction data as [|b data IH]; intros gs H; [by exists gs|].
  destruct gs as [|a gs]; [done|]. cbn in H. injection H as -> H.
  apply IH in H as [gs' ->]. by exists gs'.
Qed.

Lemma apart_up up down data gs hs n :
  apart up down ((Up <$> data) ++ gs) hs -> data <> [] ->
  apart (up ++ take n data) down ((Up <$> drop n data) ++ gs) hs.
Proof.
  intros [[-> ->]|[H ->]] Hne; left.
  - split; [|done]. by rewrite fmap_app, <- app_assoc, (app_assoc (Up <$> take n data)), <- fmap_app, take_drop.
  - destruct down; [|by destruct data]. split; [|done]. cbn in H |- *.
    by rewrite app_assoc, <- fmap_app, take_drop.
Qed.

Lemma apart_down up b down gs hs :
  apart up (b :: down) gs hs -> exists gs', gs = Down b :: gs' /\ apart up down gs' hs.
Proof. intros [[_ ?]|[-> ->]]; [done|]. exists ((Down <$> down) ++ hs). split; [done|by right]. Qed.

(** One call of a guest that talks, whatever the verdict is going to be. *)
Lemma guest_talks X (e : guest X) k x eof up down w' gs hs :
  guest_call eof X e x (up, down) w' -> (eof -> False) ->
  (forall v, guest_follows v (Vis e k) (gs ++ [Down v])) -> apart up down gs hs -> Connect ∉ gs ->
  exists gs', (forall v, guest_follows v (k x) (gs' ++ [Down v])) /\ apart w'.1 w'.2 gs' hs /\
    Connect ∉ gs'.
Proof.
  intros Hc Heof Hg Hap Hcon. remember (up, down) as w eqn:Ew.
  destruct Hc as [w|w|fd w|fd data n up' down' Hn|fd n data up' down' Hne Hl|fd n up' He|text w];
    simplify_eq/=.
  - exists gs. split_and!; [|done..]. intros v. apply (Hg v).
  - exists gs. split_and!; [|done..]. intros v. apply (Hg v).
  - exists gs. split_and!; [|done..]. intros v. apply (Hg v).
  - destruct (Hg NUL) as (Hne & s & Hs & _). apply ups_before_verdict in Hs as [gs' ->].
    destruct Hn as [Hn|[_ ->]]; [|done].
    exists ((Up <$> drop n data) ++ gs'). split_and!; [|by apply apart_up|].
    + intros v. destruct (Hg v) as (_ & _ & _ & HK). specialize (HK n Hn).
      rewrite <- !app_assoc, drop_app_le, <- fmap_drop in HK by (rewrite length_fmap; lia).
      by rewrite <- app_assoc.
    + rewrite not_elem_of_app in Hcon |- *. destruct Hcon as [_ Hcon]. split; [|done].
      by intros (b & ? & _)%list_elem_of_fmap.
  - destruct (Hg NUL) as (-> & b & s & Hs & _).
    destruct data as [|b' [|]]; [done| |simpl in Hl; lia].
    apply apart_down in Hap as (gs' & -> & Hap). exists gs'.
    rewrite not_elem_of_cons in Hcon. split_and!; [|done|by destruct Hcon].
    intros v. destruct (Hg v) as (_ & b1 & s1 & [= <- <-] & HK). exact HK.
  - by destruct (Heof He).
  - exists gs. split_and!; [|done..]. intros v. apply (Hg v).
Qed.

Lemma guest_told X (e : guest X) k x eof down w' v :
  guest_call eof X e x ([], down) w' -> guest_follows v (Vis e k) (Down <$> down) ->
  w'.1 = [] /\ guest_follows v (k x) (Down <$> w'.2).
Proof.
  intros Hc Hg. remember ([], down) as w eqn:Ew.
  destruct Hc as [w|w|fd w|fd data n up' down' Hn|fd n data up' down' Hne Hl|fd n up' He|text w];
    simplify_eq/=; try (split; [done|]; by apply Hg).
  - destruct Hg as (Hne & s & Hs & _). by destruct down, data.
  - destruct Hg as (-> & b & s & Hs & HK). destruct data as [|b' [|]]; [done| |simpl in Hl; lia].
    by injection Hs as <- <-.
  - by destruct Hg as (_ & b & s & Hs & _).
Qed.

Lemma guest_before X (e : guest X) k x eof w' s :
  guest_call eof X e x ([], []) w' -> (forall v, guest_follows v (Vis e k) (Connect :: s v)) ->
  w' = ([], []) /\ forall v, guest_follows v (k x) (Connect :: s v).
Proof.
  intros Hc Hg. remember ([], []) as w eqn:Ew.
  destruct Hc as [w|w|fd w|fd data n up' down' Hn|fd n data up' down' Hne Hl|fd n up' He|text w];
    simplify_eq/=; try (split; [done|]; intros v; by apply (Hg v)).
  - destruct (Hg NUL) as (Hne & s' & Hs & _). by destruct data.
  - by destruct data.
  - by destruct (Hg NUL) as (_ & b & s' & Hs & _).
Qed.

Lemma talking_not_closed h hs tr :
  host_follows h (Some hs) -> existsb drops tr = false -> ~ closed (Some h) tr.
Proof. intros Hh Hd [?|[r [= ->]]]; [congruence|discriminate Hh]. Qed.

Lemma script_acts port :
  ups (script port) = handshake [Byte.x01] port root /\ downs (script port) = [Byte.x01].
Proof.
  unfold script. rewrite ups_app, downs_app.
  change (ups (Down Byte.x01 :: ?s)) with (ups s).
  change (downs (Down Byte.x01 :: ?s)) with (Byte.x01 :: downs s).
  destruct (acts_of (announcement port)) as (-> & -> & _). done.
Qed.

Lemma init_coupled port :
  root <> [] -> announced_port = Some port -> coupled port start.
Proof. intros Hr Hp. constructor. intros v. by apply main_follows. Qed.

Lemma step_coupled port s s' :
  0 <= port < 2 ^ 32 -> Z.of_nat (length root) < 2 ^ 32 ->
  step s s' -> coupled port s -> coupled port s'.
Proof.
  intros Hp Hl [fd cid p k tr|X e k x h w w' tr Hc|g X e k x w w' tr Hc] Hi;
    [..|by eapply host_step_coupled].
  - remember (State _ _ _ _ _) as st eqn:Est in Hi.
    destruct Hi as [g Hg| |]; simplify_eq.
    apply (Talking _ _ _ _ _ _ (script port) (script port)).
    + intros v. by destruct (Hg v) as (s1 & [= <-] & H).
    + by apply run_follows.
    + by left.
    + unfold script. rewrite not_elem_of_app, not_elem_of_cons.
      split_and!; [|done|]; by intros (b & ? & _)%list_elem_of_fmap.
    + split; [constructor|]. split; [by apply Forall_nil_2|by apply not_elem_of_nil].
    + done.
    + apply script_acts.
    + apply script_acts.
  - remember (State _ _ _ _ _) as st eqn:Est in Hi.
    destruct w as [up down], Hi as [g Hg|g h' up' down' tr' gs hs Hg Hh Hap Hcon Hat Hdr Hrc Hst
                 |g h' v down' tr' Hg Hh Hat Hrc Hst]; simplify_eq/=.
    + apply (guest_before _ _ _ _ _ _ _ Hc) in Hg as [-> Hg]. by constructor.
    + destruct (guest_talks _ _ _ _ _ _ _ _ _ _ Hc (talking_not_closed _ _ _ Hh Hdr) Hg Hap Hcon)
        as (gs' & Hg' & Hap' & Hcon'). by apply (Talking _ _ _ _ _ _ gs' hs).
    + apply (guest_told _ _ _ _ _ _ _ _ Hc) in Hg as [-> Hg]. by apply (Told _ _ _ v).
Qed.

(** ** Progress *)

(** The host waits only for bytes of the guest. *)
Lemma host_can_call X (e : host X) s K up down :
  ev (EventSpec := host_spec) e s K ->
  (forall data s', s = Some ((Up <$> data) ++ s') -> exists up', up = data ++ up') ->
  exists x w', host_call X e x (up, down) w'.
Proof.
  intros He Hs. destruct e as [c n|c data|p|c| | | |v name p share|bus| | | | | | | | | |V l|V l v|text];
    cbn in He; try done.
  - destruct (decide (c = conn)) as [->|Hc].
    + destruct He as (data & s' & -> & <- & _). destruct (Hs data s' eq_refl) as [up' ->].
      eexists _, (_, _). by apply DoReadExact.
    + eexists (Err UnexpectedEof), _. by apply DoReadVsock.
  - destruct (decide (c = conn)) as [->|Hc]; eexists (Ok tt), _; [apply DoWriteAll|by apply DoWriteVsock].
  - eexists (Err UnexpectedEof), _. by apply DoConnectUnix.
  - eexists _, _. apply DoDrop.
  - eexists (Ok 0), _. apply DoBuild.
  - eexists (Ok tt), _. apply DoMessage.
  - destruct l; try done. eexists _, _. apply DoOnceGet.
  - eexists _, _. apply DoEprint.
Qed.

(** A guest that waits finds the host able to go on. *)
Lemma apart_enough up gs hs data s :
  apart up [] gs hs -> (forall b gs', gs <> Up b :: gs') -> hs = (Up <$> data) ++ s ->
  exists up', up = data ++ up'.
Proof.
  intros Hap Hgs ->.
  assert (H : (Up <$> data) ++ s = (Up <$> up) ++ gs) by by destruct Hap as [[? _]|[-> ->]].
  clear Hap. revert up H. induction data as [|b data IH]; intros up H; [by exists up|].
  destruct up as [|b' up]; cbn in H; [by destruct (Hgs b ((Up <$> data) ++ s))|].
  injection H as -> H. apply IH in H as [up' ->]. by exists up'.
Qed.

(** What an unfinished guest can do. *)
Lemma guest_can_call X (e : guest X) k eof s up down v :
  guest_follows v (Vis e k) s ->
  (exists fd n, match e with Read fd' n' => fd = fd' /\ n = n' | _ => False end /\ down = [] /\
     exists b s', s = Down b :: s') \/
  (exists s', s = Connect :: s' /\ match e with VsockConnect _ _ _ => True | _ => False end) \/
  (exists x w', guest_call eof X e x (up, down) w').
Proof.
  intros Hg. destruct e as [|a| |fd cid port|fd data|fd n|text].
  - right. right. eexists _, _. apply DoGetEnv.
  - destruct Hg as [-> _]. right. right. eexists _, _. apply DoParse.
  - right. right. eexists (Ok 3), _. apply DoSocket.
  - destruct Hg as (s' & -> & _). right. left. by exists s'.
  - destruct Hg as (Hne & _). right. right. eexists _, _. apply (DoWrite _ _ _ (length data)).
    left. destruct data; [done|simpl; lia].
  - destruct Hg as (-> & b & s' & -> & _). destruct down as [|b' down].
    + left. eexists _, _. split; [done|]. split; [done|]. eauto.
    + right. right. eexists _, _. by apply (DoRead _ _ _ [b']).
  - right. right. eexists _, _. apply DoComplain.
Qed.

(** A verdict that has been read ends the conversation. *)
Lemma told_completed port g h v tr :
  0 <= port < 2 ^ 32 -> Z.of_nat (length root) < 2 ^ 32 ->
  match g with Ret _ | Halt _ => True | _ => False end ->
  match h with Ret _ | Halt _ => True | _ => False end ->
  guest_follows v g [] -> host_follows h None -> host_at tr h ->
  received conn tr = handshake [Byte.x01] port root -> concat (sent conn tr) = [Byte.x01; v] ->
  completed port (State g (Some h) [] [] tr).
Proof.
  intros Hp Hl Hg Hh Hgf Hhf (Ha & Hr & Hn) Hrc Hst.
  assert (exists o, exec (run_guest_connection fuel conn) tr o /\
    (h = Halt NoFuel /\ o = Stopped NoFuel \/ exists r, h = Ret r /\ o = Done r)) as (o & Hx & Ho).
  { rewrite <- (app_nil_r tr). destruct h as [r|st|]; [|destruct Hhf as [_ ->]|done];
      (eexists; split; [eapply after_exec; [exact Ha|by split]|]); eauto. }
  apply run_guest_connection_exec in Hx; [|done..].
  destruct Hx as [m _ [Hs|Hs] _ _ _|? ? ? _ _ _ _ Hs _ _|vs port' root' bus Hrc' Hwf _ Hs Hsv _ (u & Hu & Hq)
                 |vs port' root' m Hrc' Hwf _ Hs Hsv -> _]; rewrite Hs in Hst; simplify_eq/=.
  - assert (g = Ret 0) as ->.
    { destruct g as [c|st|]; [by destruct Hgf as (_ & -> & _)|by destruct Hgf as (_ & _ & [])|done]. }
    rewrite Hrc in Hrc'. apply (f_equal (fun l => l `prefix_of` handshake vs port' root')) in Hrc'.
    destruct (handshake_prefix_inj [Byte.x01] port root vs port' root') as (_ & <- & <-);
      [by split; [simpl; lia|]|done|by rewrite Hrc'|].
    eapply Served; [|done..]. naive_solver.
  - assert (g = Halt (Exit 1)) as ->.
    { destruct g as [c|st|]; [by destruct Hgf as (_ & _ & ?)|by destruct Hgf as (_ & -> & _)|done]. }
    assert (h = Ret (Err m)) as -> by (destruct Ho as [[_ ?]|(r & -> & [= <-])]; done).
    by apply Refused.
Qed.

Lemma progress port s :
  0 <= port < 2 ^ 32 -> Z.of_nat (length root) < 2 ^ 32 ->
  coupled port s -> (exists s', step s s') \/ completed port s.
Proof.
  intros Hp Hl [g Hg|g h up down tr gs hs Hg Hh Hap Hcon Hat Hdr Hrc Hst|g h v down tr Hg Hh Hat Hrc Hst].
  - left. destruct g as [c|st|X e k]; [by destruct (Hg NUL) as [? _]..|].
    destruct (guest_can_call _ _ _ (closed None []) _ [] [] _ (Hg NUL)) as
      [(fd & n & _ & _ & b & s' & ?)|[(s' & _ & He)|(x & w' & Hc)]]; [done| |].
    + destruct e; try done. eexists. apply GuestConnects.
    + eexists. exact (GuestStep _ _ _ _ _ ([], []) _ _ Hc).
  - left. destruct g as [c|st|X e k]; [destruct (Hg NUL) as [? _]; by destruct gs..|].
    destruct (guest_can_call _ _ _ (closed (Some h) tr) _ up down _ (Hg NUL)) as
      [(fd & n & _ & -> & b & s' & Hs)|[(s' & Hs & _)|(x & w' & Hc)]].
    + destruct h as [r|st|Y f k']; [discriminate Hh|by destruct Hh as [? _]|].
      destruct (host_can_call Y f (Some hs) _ up [] Hh) as (x & w' & Hc).
      { intros data s1 [= ->]. eapply apart_enough; [exact Hap| |done]. by intros b' gs' ->. }
      eexists. exact (HostStep _ _ _ _ _ (up, []) _ _ Hc).
    + destruct gs as [|a gs]; [done|]. injection Hs as -> _. by destruct Hcon; left.
    + eexists. exact (GuestStep _ _ _ _ _ (up, down) _ _ Hc).
  - destruct g as [c|st|X e k].
    3: { left. destruct (guest_can_call _ _ _ (closed (Some h) tr) _ [] down _ Hg) as
           [(fd & n & _ & -> & b & s' & ?)|[(s' & ? & _)|(x & w' & Hc)]]; [done|by destruct down|].
         eexists. exact (GuestStep _ _ _ _ _ ([], down) _ _ Hc). }
    all: assert (down = []) as -> by (destruct down; [done|by destruct Hg]).
    all: destruct h as [r|st'|Y f k']; [right; by eapply told_completed..|left].
    all: destruct (host_can_call Y f None _ [] [] Hh) as (x & w' & Hc); [done|].
    all: eexists; exact (HostStep _ _ _ _ _ ([], []) _ _ Hc).
Qed.

Lemma announced_port_range port : announced_port = Some port -> 0 <= port < 2 ^ 32.
Proof.
  unfold announced_port. intros H. apply bind_Some in H as (e & _ & H).
  apply bind_Some in H as (sp & _ & H). apply parse_u32_Some in H as (_ & _ & _ & ->).
  apply Z.mod_pos_bound. lia.
Qed.

Lemma coupled_reachable port s :
  root <> [] -> Z.of_nat (length root) < 2 ^ 32 -> announced_port = Some port ->
  rtc step start s -> coupled port s.
Proof.
  intros Hr Hl Hp H. pose proof (announced_port_range _ Hp).
  apply rtc_ind_r with (P := coupled port) in H; [done|by apply init_coupled|].
  intros x y _ Hs Hi. by eapply step_coupled.
Qed.

(** Every state from which the conversation goes on can be brought to an end. *)
Lemma coupled_completes port s :
  0 <= port < 2 ^ 32 -> Z.of_nat (length root) < 2 ^ 32 ->
  coupled port s -> exists s', rtc step s s' /\ completed port s'.
Proof.
  intros Hp Hl. induction (step_terminates s) as [s _ IH]. intros Hc.
  destruct (progress port s Hp Hl Hc) as [[s' Hs]|Hd]; [|by exists s].
  destruct (IH s' Hs) as (s'' & Hrt & Hd); [by eapply step_coupled|].
  exists s''. split; [by eapply rtc_l|done].
Qed.

(** C4. The conversation between a guest and the host always comes to its
    end.  Take any guest whose bus address names a vsock port, and let the two
    programs run in any interleaving, with the guest's writes cut up in any way
    and with any answers of Cloud Hypervisor and of the guest's bus.  No run is
    infinite (once the guest is served, the host handles as many messages as its
    bound says); and a run that cannot be continued is not a deadlock: both have
    finished and agree.  Either the guest ends with success, and the host serves
    it under its share root and has asked for the port it announced; or the guest
    ends with an error, and the host serves nothing and ends with an error too. *)
Theorem conversation_completes port s :
  root <> [] -> Z.of_nat (length root) < 2 ^ 32 -> announced_port = Some port ->
  rtc step start s ->
  sn step s /\ ((exists s', step s s') \/ completed port s) /\
  exists s', rtc step s s' /\ completed port s'.
Proof.
  intros Hr Hl Hp H. pose proof (announced_port_range _ Hp).
  pose proof (coupled_reachable _ _ Hr Hl Hp H).
  split; [apply step_terminates|]. split; [by apply progress|by apply coupled_completes].
Qed.

End Conversation.

(** ** Example *)

#[local] Existing Instance plain_fmt.
#[local] Instance conv_args : Args := [].

Definition bus_entries : list entry :=
  [{| entry_method := B "unix"; entry_value := fun _ => None |};
   {| entry_method := B "vsock"; entry_value := fun _ => Some (B "1024") |}].

(** A conversation about port 1024 completes. *)
Lemma conversation_completes_witness :
  announced_port bus_entries = Some 1024 /\
  exists s', rtc (step 3 CONN (B "/run/vm/web/vsock") (B "unix:;vsock:port=1024") bus_entries)
                 (start (B "/share") NUL NUL) s' /\
             completed (B "/share") CONN 1024 s'.
Proof.
  split; [vm_compute; reflexivity|].
  refine (proj2 (proj2 (conversation_completes (B "/share") NUL NUL 3 CONN (B "/run/vm/web/vsock")
    (B "unix:;vsock:port=1024") bus_entries 1024 (start (B "/share") NUL NUL) _ _ _ _))).
  - intros H. vm_compute in H. discriminate H.
  - vm_compute. reflexivity.
  - vm_compute. reflexivity.
  - apply rtc_refl.
Defined.

End Conversation.
