(* ===== verification/Documents.v ===== *)
(** * Documents: sharing files through the document portal ([documents.rs]) *)

From S2P Require Import Prelude Effects RustStd HostSys HostScenario.

Module Documents.

Definition DOCUMENT_ADD_FLAGS_REUSE_EXISTING : Z := Z.shiftl 1 0.

Section Sharing.
Context {FMT : Fmt} `{ZB : Zbus}.

(** [DocumentsProxy::new(conn).await.unwrap()], then [PROXY.set]. *)
Definition init (conn : Z) : prog host unit :=
  let* r := call (NewProxy DOCUMENTS_PROXY conn) in
  match r with
  | Ok proxy => set_unwrap DOCUMENTS_PROXY proxy
  | Err _ => Halt Panic
  end.

Definition permissions (writable : bool) : list bytes :=
  if writable then [B "read"; B "write"; B "grant-permissions"]
  else [B "read"; B "grant-permissions"].

(** [source_path.exists() && !source_path.is_file()]. *)
Definition not_shareable (source_path : bytes) : prog host bool :=
  let* e := call (Exists source_path) in
  if e : bool then let* f := call (IsFile source_path) in Ret (negb f) else Ret false.

Definition share_file (source_path : bytes) (writable : bool) : prog host (result bytes bytes) :=
  let* bad := not_shareable source_path in
  if bad : bool then mret (Err (B "only regular files can currently be shared"))
  else
    let* parent := unwrap_opt (Path.parent source_path) in
    let? fd :=
      map_err (fun e => B "opening " ++ debug_path parent ++ B " O_PATH: " ++ errno_display e)
        (call (OpenDirPath parent)) in
    let* name := unwrap_opt (Path.file_name source_path) in
    let basename := name ++ [NUL] in
    let* proxy := get_unwrap DOCUMENTS_PROXY in
    let? doc :=
      map_err (fun e => B "AddNamedFull: " ++ zerror_display e)
        (call (AddNamedFull proxy fd basename DOCUMENT_ADD_FLAGS_REUSE_EXISTING []
                 (permissions writable))) in
    let '(doc_id, _) := doc in
    let basename := take (length basename - 1) basename in
    let r := B "doc" in
    let r := Path.join r doc_id in
    let r := Path.join r basename in
    mret (Ok r).

(** ** Properties *)

(** What was handed to the document portal: the descriptor, the file name, the
    application and the permissions. *)
Definition grant : Type := Z * bytes * bytes * list bytes.
Definition grant_of (ev : event host) : list grant :=
  match ev with
  | Event (AddNamedFull _ fd name _ app perms) _ => [(fd, name, app, perms)]
  | _ => []
  end.
Definition grants (tr : list (event host)) : list grant := tr ≫= grant_of.

Lemma grants_app t1 t2 : grants (t1 ++ t2) = grants t1 ++ grants t2.
Proof. apply bind_app. Qed.
Lemma grants_cons ev tr : grants (ev :: tr) = grant_of ev ++ grants tr.
Proof. done. Qed.

(** The guest's name for the document [doc_id] with the file name [name]. *)
Definition doc_path (doc_id name : bytes) : bytes :=
  Path.join (Path.join (B "doc") doc_id) name.

Lemma exec_unwrap_bind {A C} (x : option A) (k : A -> prog host C) tr o :
  exec (let* a := unwrap_opt x in k a) tr o ->
  match x with Some a => exec (k a) tr o | None => tr = [] /\ o = Stopped Panic end.
Proof. by destruct x. Qed.

(** The answers under which sharing goes on. *)
Definition may_share (source_path : bytes) (t : list (event host)) : Prop :=
  t = [Event (Exists source_path) false] \/
  t = [Event (Exists source_path) true; Event (IsFile source_path) true].

(** All there is to know of an execution of [share_file]. *)
Inductive shares (source_path : bytes) (writable : bool)
  : list (event host) -> outcome (result bytes bytes) -> Prop :=
| SharesNot m :
    shares source_path writable
      [Event (Exists source_path) true; Event (IsFile source_path) false] (Done (Err m))
| SharesNoParent t :
    Path.parent source_path = None -> grants t = [] ->
    shares source_path writable t (Stopped Panic)
| SharesNoDirectory t parent e m :
    Path.parent source_path = Some parent -> grants t = [] ->
    shares source_path writable (t ++ [Event (OpenDirPath parent) (Err e)]) (Done (Err m))
| SharesNoName t :
    Path.file_name source_path = None -> grants t = [] ->
    shares source_path writable t (Stopped Panic)
| SharesNoProxy t :
    grants t = [] ->
    shares source_path writable (t ++ [Event (OnceGet DOCUMENTS_PROXY) None]) (Stopped Panic)
| SharesAsked t parent name proxy fd r o :
    may_share source_path t ->
    Path.parent source_path = Some parent -> Path.file_name source_path = Some name ->
    o = match r with
        | Ok (doc_id, _) => Ok (doc_path doc_id name)
        | Err e => Err (B "AddNamedFull: " ++ zerror_display e)
        end ->
    shares source_path writable
      (t ++ [Event (OpenDirPath parent) (Ok fd); Event (OnceGet DOCUMENTS_PROXY) (Some proxy);
             Event (AddNamedFull proxy fd (name ++ [NUL]) 1 [] (permissions writable)) r])
      (Done o).

Lemma not_shareable_exec p tr o :
  exec (not_shareable p) tr o ->
  (o = Done true /\ tr = [Event (Exists p) true; Event (IsFile p) false]) \/
  (o = Done false /\ may_share p tr).
Proof.
  intros H. unfold not_shareable, may_share in *. hsteps; auto.
  match goal with b : bool |- _ => destruct b end; auto.
Qed.

Lemma may_share_grants p t : may_share p t -> grants t = [].
Proof. by intros [->| ->]. Qed.

Lemma share_file_exec source_path writable tr o :
  exec (share_file source_path writable) tr o -> shares source_path writable tr o.
Proof.
  intros H. unfold share_file in H.
  apply exec_bind in H as [(bad & t1 & t2 & -> & H1 & H)|(s & H1 & ->)];
    apply not_shareable_exec in H1 as [[Ho H1]|[Ho H1]]; simplify_eq.
  { apply exec_ret in H as [-> ->]. apply SharesNot. }
  pose proof (may_share_grants _ _ H1) as Hg.
  apply exec_unwrap_bind in H. destruct (Path.parent source_path) as [parent|] eqn:Hpar.
  2: { destruct H as [-> ->]. rewrite app_nil_r. by apply SharesNoParent. }
  apply exec_bind in H as [(r & t5 & t6 & -> & H2 & H)|(s & H2 & ->)]; [|by hsteps].
  assert (exists x, t5 = [Event (OpenDirPath parent) x] /\
    r = result_map_err (fun e => B "opening " ++ debug_path parent ++ B " O_PATH: " ++ errno_display e) x)
    as (x & -> & ->) by (clear H; hsteps; by eexists).
  clear H2. destruct x as [fd|e]; cbn [result_map_err] in H.
  2: { apply exec_ret in H as [-> ->]. by eapply SharesNoDirectory. }
  apply exec_unwrap_bind in H. destruct (Path.file_name source_path) as [name|] eqn:Hname.
  2: { destruct H as [-> ->]. apply SharesNoName; [done|]. by rewrite grants_app, Hg. }
  apply exec_bind in H as [(proxy & t5 & t7 & -> & H2 & H)|(s & H2 & ->)];
    apply exec_get_unwrap in H2 as [(v & -> & Ho)|[-> Ho]]; simplify_eq.
  2: { rewrite app_assoc. apply SharesNoProxy. by rewrite grants_app, Hg. }
  hsteps; eapply (SharesAsked _ _ t1 parent name v fd); try done.
  unfold doc_path. by rewrite length_app, Nat.add_sub, take_app_length.
Qed.

Lemma no_parent_no_name p : Path.parent p = None -> Path.file_name p = None.
Proof. unfold Path.parent, Path.file_name. by destruct (Path.rev_segments p). Qed.

(** The one grant that sharing [p] makes, if it makes any. *)
Definition grant_for (p : bytes) (writable : bool) (tr : list (event host)) (g : grant) : Prop :=
  exists parent name fd,
    Path.parent p = Some parent /\ Path.file_name p = Some name /\
    Event (OpenDirPath parent) (Ok fd) ∈ tr /\
    (exists t, may_share p t /\ t `prefix_of` tr) /\
    g = (fd, name ++ [NUL], [], permissions writable).

Lemma share_file_grants p w tr o :
  exec (share_file p w) tr o ->
  (grants tr = [] /\ forall r, o <> Done (Ok r)) \/
  exists g, grants tr = [g] /\ grant_for p w tr g.
Proof.
  intros H. apply share_file_exec in H. destruct H; try (left; by rewrite ?grants_app).
  - left. rewrite grants_app. by match goal with H : grants _ = [] |- _ => rewrite H end.
  - left. rewrite grants_app. by match goal with H : grants _ = [] |- _ => rewrite H end.
  - right. match goal with H : may_share _ _ |- _ => rename H into Hm end.
    eexists. split; [rewrite grants_app, (may_share_grants _ _ Hm); reflexivity|].
    eexists _, _, _. split_and!; [done..| |exists t; split; [done|by eexists]|done]. set_solver.
Qed.

(** Sharing a file asks the document portal for at most one grant, and
    returns a path only after asking.  The grant is for the file of that name in
    the directory opened from the path's parent, to no particular application,
    and with write permission exactly when the caller asked for a writable file.
    Anything that exists and is not a regular file is refused before that. *)
Theorem share_file_least_grant p w tr o :
  exec (share_file p w) tr o ->
  ((grants tr = [] /\ forall r, o <> Done (Ok r)) \/
   exists g, grants tr = [g] /\ grant_for p w tr g) /\
  (B "write" ∈ permissions w <-> w = true).
Proof.
  intros H. split; [by apply share_file_grants|]. destruct w; split; intros Hw; try done; [by_eval|].
  exfalso. revert Hw. by_eval.
Qed.

(** The identifiers of the documents that were made. *)
Definition doc_id_of (ev : event host) : list bytes :=
  match ev with
  | Event e x => match e in host X return X -> list bytes with
                 | AddNamedFull _ _ _ _ _ _ =>
                     fun r => match r with Ok (id, _) => [id] | Err _ => [] end
                 | _ => fun _ => []
                 end x
  end.
Definition doc_ids (tr : list (event host)) : list bytes := tr ≫= doc_id_of.

Lemma doc_ids_app t1 t2 : doc_ids (t1 ++ t2) = doc_ids t1 ++ doc_ids t2.
Proof. apply bind_app. Qed.

Lemma doc_ids_cons ev tr : doc_ids (ev :: tr) = doc_id_of ev ++ doc_ids tr.
Proof. done. Qed.

Lemma share_file_ok p w tr r :
  exec (share_file p w) tr (Done (Ok r)) ->
  exists id name, doc_ids tr = [id] /\ Path.file_name p = Some name /\ r = doc_path id name.
Proof.
  intros H. apply share_file_exec in H. inversion H; simplify_eq.
  match goal with x : result (bytes * _) _ |- _ => destruct x as [[id ?]|]; simplify_eq end.
  exists id, name. rewrite doc_ids_app.
  match goal with H : may_share _ _ |- _ => by destruct H as [->| ->] end.
Qed.

Lemma doc_path_entries id name :
  Path.entry_name id -> Path.entry_name name ->
  doc_path id name = B "doc" ++ SLASH :: id ++ SLASH :: name.
Proof.
  intros Hid Hn. unfold doc_path.
  assert (Hd : Path.no_trailing_slash (B "doc")) by by_eval.
  rewrite (Path.join_relative (Path.join _ _));
    [|by apply Path.join_no_trailing_slash|by apply Path.entry_name_relative].
  rewrite Path.join_relative by (done || by apply Path.entry_name_relative).
  by rewrite <- app_assoc.
Qed.

(** The path of a shared file, relative to the guest's share root, is
    [doc/ID/NAME], where [ID] is what the document portal answered and [NAME] is
    the name of the file: nothing else of the host's path is revealed, and, the
    identifier being one path component, it stays below [doc]. *)
Theorem share_file_path p w tr r :
  exec (share_file p w) tr (Done (Ok r)) -> Forall Path.entry_name (doc_ids tr) ->
  exists id name, doc_ids tr = [id] /\ Path.file_name p = Some name /\
    r = B "doc" ++ SLASH :: id ++ SLASH :: name /\ SLASH ∉ id /\ SLASH ∉ name.
Proof.
  intros H Hid. apply share_file_ok in H as (id & name & Hd & Hn & ->).
  rewrite Hd in Hid. apply Forall_cons in Hid as [Hid _].
  pose proof (Path.file_name_entry _ _ Hn) as Hne.
  exists id, name. rewrite doc_path_entries by done. split_and!; try done; [apply Hid|apply Hne].
Qed.

Lemma share_file_stops p w tr s :
  exec (share_file p w) tr (Stopped s) ->
  s = Panic /\ (Path.file_name p = None \/ Event (OnceGet DOCUMENTS_PROXY) None ∈ tr).
Proof.
  intros H. apply share_file_exec in H. inversion H; simplify_eq; (split; [done|]).
  - left. by apply no_parent_no_name.
  - by left.
  - right. set_solver.
Qed.

(** [share_file] panics only on a path without a file name, provided the
    proxy is there; the path of the URI [file://], which is empty, is one. *)
Theorem share_file_panics w :
  (forall p tr s, exec (share_file p w) tr (Stopped s) ->
     s = Panic /\ (Path.file_name p = None \/ Event (OnceGet DOCUMENTS_PROXY) None ∈ tr)) /\
  exec (share_file [] w) [Event (Exists []) false] (Stopped Panic).
Proof.
  split; [|exec_trace]. intros p tr s. apply share_file_stops.
Qed.

End Sharing.

(** ** Examples *)

#[local] Existing Instance plain_fmt.

Definition plain_outside : host_scenario :=
  {| hs_conn := []; hs_vsock := []; hs_response := 0; hs_results := ∅ |}.

Lemma share_file_least_grant_witness :
  grants (host_trace plain_outside (share_file (B "/home/user/a.txt") false)) =
  [(13, B "a.txt" ++ [NUL], [], [B "read"; B "grant-permissions"])].
Proof.
  destruct (share_file_least_grant (B "/home/user/a.txt") false _ _
              (exec_host plain_outside _)) as [[[_ Ho]|(g & Hg & _)] _].
  - exfalso. apply (Ho (B "doc/d1/a.txt")). vm_compute. reflexivity.
  - rewrite Hg. vm_compute in Hg. injection Hg as <-. reflexivity.
Defined.

Lemma share_file_path_witness :
  exists id name, Path.file_name (B "/home/user/a.txt") = Some name /\
    B "doc/d1/a.txt" = B "doc" ++ SLASH :: id ++ SLASH :: name.
Proof.
  destruct (share_file_path (B "/home/user/a.txt") false
              (host_trace plain_outside (share_file (B "/home/user/a.txt") false))
              (B "doc/d1/a.txt")) as (id & name & _ & Hn & Hr & _).
  - apply exec_host_outcome. vm_compute. reflexivity.
  - by_eval.
  - exists id, name. split; [exact Hn|exact Hr].
Defined.


End Documents.
