(* ===== verification/FileChooser.v ===== *)
(** * FileChooser: the file chooser served to guests ([file_chooser.rs])

    Requests are forwarded to the host's file chooser; the files the user
    selects are shared through the document portal and their URIs translated
    to where the guest sees them. *)

From S2P Require Import Prelude Effects RustStd HostSys HostScenario HostProto Documents.

Module FileChooser.
Import Proto Documents.

Definition XDG_DESKTOP_PORTAL_RESPONSE_SUCCESS : Z := 0.
Definition XDG_DESKTOP_PORTAL_RESPONSE_CANCELLED : Z := 1.
Definition XDG_DESKTOP_PORTAL_RESPONSE_OTHER : Z := 2.

(** What is used of the crates [zvariant], [percent_encoding] and [url].  The
    errors of [zvariant] appear as they are displayed. *)
Class Crates `{Zbus} := {
  Array : Type;
  from_bool : bool -> Value;                        (** [OwnedValue::from] *)
  downcast_bool : Value -> result bool bytes;       (** [downcast_ref::<bool>] *)
  downcast_array : Value -> result Array bytes;     (** [downcast_ref::<Array>] *)
  array_strings : Array -> result (list bytes) bytes;  (** [try_into::<Vec<String>>] *)
  array_of_strings : list bytes -> Array;           (** [Vec<String>::into] *)
  owned_value : Array -> option Value;              (** [OwnedValue::try_from] *)
  debug_results : vardict -> bytes;
  percent_decode : bytes -> bytes;
  url_from_file_path : bytes -> option bytes;       (** [Url::from_file_path] *)
}.

(** What the crates document of these functions and the code relies on:
    [from_file_path] refuses only paths that are not absolute; an array without
    file descriptors can be owned; a Boolean can be read back. *)
Class CratesLaws `{Crates} : Prop := {
  url_from_absolute p : Path.is_absolute p = true -> is_Some (url_from_file_path p);
  owned_strings l : is_Some (owned_value (array_of_strings l));
  downcast_from_bool b : downcast_bool (from_bool b) = Ok b;
}.

Section Chooser.
Context {FMT : Fmt} {ZB : Zbus} {CR : Crates} {ARGS : Args}.

Definition init (conn : Z) : prog host unit :=
  let* r := call (NewProxy FILE_CHOOSER_PROXY conn) in
  match r with
  | Ok proxy => set_unwrap FILE_CHOOSER_PROXY proxy
  | Err _ => Halt Panic
  end.

(** The body of the loop of [transform_uris]. *)
Definition transform_uri (guest_share_root : bytes) (writable : bool) (uri : bytes)
  : prog host (result bytes bytes) :=
  match strip_prefix (B "file://") uri with
  | None => mret (Err (B "member of uris is not a file:// URL: " ++ debug_str uri))
  | Some path =>
      let path := percent_decode path in
      let? path :=
        map_err (fun e => B "adding " ++ debug_path path ++ B " to document portal: " ++ e)
          (share_file path writable) in
      let guest_path := Path.join guest_share_root path in
      let* url := unwrap_opt (url_from_file_path guest_path) in
      mret (Ok url)
  end.

Fixpoint transform_all (guest_share_root : bytes) (writable : bool) (uris : list bytes)
  : prog host (result (list bytes) bytes) :=
  match uris with
  | [] => mret (Ok [])
  | uri :: rest =>
      let? uri := transform_uri guest_share_root writable uri in
      let? rest := transform_all guest_share_root writable rest in
      mret (Ok (uri :: rest))
  end.

Definition transform_uris (guest_share_root : bytes) (uris : Value) (writable : bool)
  : prog host (result Value bytes) :=
  let? uris := mret (result_map_err (fun e => B "uris: " ++ e) (downcast_array uris)) in
  let? uris := mret (result_map_err (fun e => B "members of uris: " ++ e) (array_strings uris)) in
  let? uris := transform_all guest_share_root writable uris in
  let* v := unwrap_opt (owned_value (array_of_strings uris)) in
  mret (Ok v).

Definition WRITABLE : bytes := B "writable".
Definition URIS : bytes := B "uris".

(** [if let Some(uris) = results.get("uris") { ... results.insert(...) }]. *)
Definition transform_results (guest_share_root : bytes) (results : vardict) (writable : bool)
  : prog host (result (option vardict) bytes) :=
  match results !! URIS with
  | Some uris =>
      let? uris := transform_uris guest_share_root uris writable in
      mret (Ok (Some (<[URIS := uris]> results)))
  | None => mret (Ok (Some results))
  end.

Definition ended (response : Z) (results : vardict) : bytes :=
  B "Interaction ended with response " ++ dec response ++ B ": " ++ debug_results results.

Definition open_file_impl (guest_share_root : bytes) (rq : request)
  : prog host (result (option vardict) bytes) :=
  let* proxy := get_unwrap FILE_CHOOSER_PROXY in
  let? answer := map_err (fun e => B "backend: " ++ zerror_display e)
                   (call (BackendOpenFile proxy rq)) in
  let '(response, results) := answer in
  if response =? XDG_DESKTOP_PORTAL_RESPONSE_SUCCESS then
    let? writable :=
      mret (result_map_err (fun e => B "writable from backend: " ++ e)
              (downcast_bool (default (from_bool false) (results !! WRITABLE)))) in
    transform_results guest_share_root results writable
  else if response =? XDG_DESKTOP_PORTAL_RESPONSE_CANCELLED then mret (Ok None)
  else mret (Err (ended response results)).

Definition save_file_impl (guest_share_root : bytes) (rq : request)
  : prog host (result (option vardict) bytes) :=
  let* proxy := get_unwrap FILE_CHOOSER_PROXY in
  let? answer := map_err (fun e => B "backend: " ++ zerror_display e)
                   (call (BackendSaveFile proxy rq)) in
  let '(response, results) := answer in
  if response =? XDG_DESKTOP_PORTAL_RESPONSE_SUCCESS then
    transform_results guest_share_root results true
  else if response =? XDG_DESKTOP_PORTAL_RESPONSE_CANCELLED then mret (Ok None)
  else mret (Err (ended response results)).

(** The D-Bus methods: the response code and the results. *)
Definition respond (r : result (option vardict) bytes) : prog host (Z * vardict) :=
  match r with
  | Ok (Some results) => mret (XDG_DESKTOP_PORTAL_RESPONSE_SUCCESS, results)
  | Ok None => mret (XDG_DESKTOP_PORTAL_RESPONSE_CANCELLED, ∅)
  | Err e => let* _ := msg e in mret (XDG_DESKTOP_PORTAL_RESPONSE_OTHER, ∅)
  end.

Definition open_file (guest_share_root : bytes) (rq : request) : prog host (Z * vardict) :=
  let* r := open_file_impl guest_share_root rq in respond r.

Definition save_file (guest_share_root : bytes) (rq : request) : prog host (Z * vardict) :=
  let* r := save_file_impl guest_share_root rq in respond r.

(** ** URIs *)

Lemma transform_uri_exec root w uri tr o :
  exec (transform_uri root w uri) tr o ->
  match strip_prefix (B "file://") uri with
  | None => tr = [] /\ exists m, o = Done (Err m)
  | Some p => exists o', exec (share_file (percent_decode p) w) tr o' /\
      match o' with
      | Done (Ok path) => o = match url_from_file_path (Path.join root path) with
                              | Some u => Done (Ok u)
                              | None => Stopped Panic
                              end
      | Done (Err _) => exists m, o = Done (Err m)
      | Stopped s => o = Stopped s
      end
  end.
Proof.
  intros H. unfold transform_uri in H. destruct (strip_prefix _ _) as [p|].
  - apply exec_try in H as [(path & t1 & t2 & -> & H1 & H)|[(e & H1 & ->)|(s & H1 & ->)]];
      [|by exists (Done (Err e)); eauto|by exists (Stopped s)].
    apply exec_unwrap_bind in H. exists (Done (Ok path)).
    destruct (url_from_file_path _); [apply exec_ret in H as [-> ->]|destruct H as [-> ->]];
      by rewrite app_nil_r.
  - apply exec_ret in H as [-> ->]. eauto.
Qed.

(** The grants of a trace are as restrictive as [w] asks. *)
Definition grants_within (w : bool) (tr : list (event host)) : Prop :=
  Forall (fun g : grant => g.2 = permissions w) (grants tr).

Lemma grants_within_app w t1 t2 :
  grants_within w (t1 ++ t2) <-> grants_within w t1 /\ grants_within w t2.
Proof. unfold grants_within. rewrite grants_app. apply Forall_app. Qed.

Lemma share_file_within p w tr o : exec (share_file p w) tr o -> grants_within w tr.
Proof.
  intros H. unfold grants_within.
  apply share_file_grants in H as [[-> _]|(g & -> & (? & ? & ? & _ & _ & _ & _ & ->))];
    by repeat constructor.
Qed.

Lemma transform_uri_within root w uri tr o :
  exec (transform_uri root w uri) tr o -> grants_within w tr.
Proof.
  intros H. apply transform_uri_exec in H. destruct (strip_prefix _ _) as [p|].
  - destruct H as (o' & H & _). by eapply share_file_within.
  - destruct H as [-> _]. apply Forall_nil_2.
Qed.

Lemma transform_all_within root w uris tr o :
  exec (transform_all root w uris) tr o -> grants_within w tr.
Proof.
  revert tr o. induction uris as [|uri rest IH]; intros tr o H; cbn [transform_all] in H.
  - apply exec_ret in H as [-> _]. apply Forall_nil_2.
  - apply exec_bind in H as [(r & t1 & t2 & -> & H1 & H)|(s & H1 & ->)];
      apply transform_uri_within in H1; [|done].
    apply grants_within_app. split; [done|]. destruct r as [u|m].
    2: { apply exec_ret in H as [-> _]. apply Forall_nil_2. }
    apply exec_bind in H as [(r & t3 & t4 & -> & H2 & H)|(s & H2 & ->)];
      apply IH in H2; [|done].
    apply grants_within_app. split; [done|].
    destruct r; apply exec_ret in H as [-> _]; apply Forall_nil_2.
Qed.

(** The host URI [uri], shared as the document [id], is [url] for the guest. *)
Definition shared_as (root uri id url : bytes) : Prop :=
  exists p name, uri = B "file://" ++ p /\
    Path.file_name (percent_decode p) = Some name /\
    url_from_file_path (Path.join root (doc_path id name)) = Some url.

Lemma transform_uri_ok root w uri tr url :
  exec (transform_uri root w uri) tr (Done (Ok url)) ->
  exists id, doc_ids tr = [id] /\ shared_as root uri id url.
Proof.
  intros H. apply transform_uri_exec in H.
  destruct (strip_prefix _ _) as [p|] eqn:Hp; [|by destruct H as (_ & m & ?)].
  apply strip_prefix_Some in Hp. destruct H as (o' & H & Ho).
  destruct o' as [[path|e]|s]; [|by destruct Ho|done].
  apply share_file_ok in H as (id & name & Hid & Hn & ->).
  exists id. split; [done|]. exists p, name.
  destruct (url_from_file_path _) eqn:Hu; by simplify_eq.
Qed.

Lemma transform_all_ok root w uris tr urls :
  exec (transform_all root w uris) tr (Done (Ok urls)) ->
  Forall3 (shared_as root) uris (doc_ids tr) urls.
Proof.
  revert tr urls. induction uris as [|uri rest IH]; intros tr urls H; cbn [transform_all] in H.
  - apply exec_ret in H as [-> ?]. simplify_eq. constructor.
  - apply exec_bind_done in H as (r & t1 & t2 & -> & H1 & H).
    destruct r as [u|m]; [|by apply exec_ret in H as [_ ?]].
    apply exec_bind_done in H as (r & t3 & t4 & -> & H2 & H).
    destruct r as [us|m]; apply exec_ret in H as [-> ?]; simplify_eq.
    apply transform_uri_ok in H1 as (id & Hid & Hs). apply IH in H2.
    rewrite app_nil_r, doc_ids_app, Hid. by constructor.
Qed.

(** Why sharing one of [uris] can panic. *)
Definition crash_cause (root : bytes) (uris : list bytes) (tr : list (event host)) : Prop :=
  Event (OnceGet DOCUMENTS_PROXY) None ∈ tr \/
  exists p, B "file://" ++ p ∈ uris /\ Path.file_name (percent_decode p) = None.

Lemma transform_uri_stops {LAWS : CratesLaws} root w uri tr s :
  exec (transform_uri root w uri) tr (Stopped s) -> Path.is_absolute root = true ->
  s = Panic /\ crash_cause root [uri] tr.
Proof.
  intros H Hr. apply transform_uri_exec in H.
  destruct (strip_prefix _ _) as [p|] eqn:Hp; [|by destruct H as (_ & m & ?)].
  apply strip_prefix_Some in Hp. destruct H as (o' & H & Ho).
  destruct o' as [[path|e]|s']; [|by destruct Ho|].
  - destruct (url_from_absolute (Path.join root path)) as [u Hu];
      [by apply Path.is_absolute_join|]. by rewrite Hu in Ho.
  - simplify_eq. apply share_file_stops in H as [-> [Hn|Hin]]; (split; [done|]).
    + right. exists p. split; [set_solver|done].
    + by left.
Qed.

Lemma transform_all_stops {LAWS : CratesLaws} root w uris tr s :
  exec (transform_all root w uris) tr (Stopped s) -> Path.is_absolute root = true ->
  s = Panic /\ crash_cause root uris tr.
Proof.
  intros H Hr. revert tr H. induction uris as [|uri rest IH]; intros tr H; cbn [transform_all] in H.
  - by apply exec_ret in H as [_ ?].
  - apply exec_bind in H as [(r & t1 & t2 & -> & H1 & H)|(s' & H1 & ?)]; simplify_eq.
    + destruct r as [u|m]; [|by apply exec_ret in H as [_ ?]].
      apply exec_bind in H as [(r & t3 & t4 & -> & H2 & H)|(s' & H2 & ?)]; simplify_eq.
      * by destruct r; apply exec_ret in H as [_ ?].
      * apply IH in H2 as [-> Hc]. split; [done|]. unfold crash_cause in *. set_solver.
    + apply transform_uri_stops in H1 as [-> Hc]; [|done]. split; [done|].
      unfold crash_cause in *. set_solver.
Qed.

(** The URIs of a value, when it is an array of strings. *)
Definition uris_of (v : Value) : option (list bytes) :=
  match downcast_array v with
  | Ok a => match array_strings a with Ok l => Some l | Err _ => None end
  | Err _ => None
  end.

Lemma exec_pure_try {A C E} (r : result A E) (k : A -> prog host (result C E)) tr o :
  exec (let? a := mret r in k a) tr o ->
  match r with Ok a => exec (k a) tr o | Err e => tr = [] /\ o = Done (Err e) end.
Proof. by destruct r. Qed.

Lemma transform_uris_exec root v w tr o :
  exec (transform_uris root v w) tr o ->
  match uris_of v with
  | None => tr = [] /\ exists m, o = Done (Err m)
  | Some uris => exists o', exec (transform_all root w uris) tr o' /\
      match o' with
      | Done (Ok urls) => o = match owned_value (array_of_strings urls) with
                              | Some v' => Done (Ok v')
                              | None => Stopped Panic
                              end
      | Done (Err _) => exists m, o = Done (Err m)
      | Stopped s => o = Stopped s
      end
  end.
Proof.
  intros H. unfold transform_uris in H. unfold uris_of.
  apply exec_pure_try in H. destruct (downcast_array v) as [a|e]; [|naive_solver].
  cbn [result_map_err] in H. apply exec_pure_try in H.
  destruct (array_strings a) as [uris|e]; [|naive_solver]. cbn [result_map_err] in H.
  apply exec_bind in H as [(r & t1 & t2 & -> & H1 & H)|(s & H1 & ->)]; [|by exists (Stopped s)].
  exists (Done r). destruct r as [urls|m].
  - apply exec_unwrap_bind in H.
    destruct (owned_value _); [apply exec_ret in H as [-> ->]|destruct H as [-> ->]];
      by rewrite app_nil_r.
  - apply exec_ret in H as [-> ->]. rewrite app_nil_r. eauto.
Qed.

Lemma transform_results_exec root results w tr o :
  exec (transform_results root results w) tr o ->
  grants_within w tr /\
  (forall r, o = Done (Ok r) -> exists res, r = Some res /\
     (forall k, k <> URIS -> res !! k = results !! k) /\
     match results !! URIS with
     | None => res = results
     | Some v => exists uris urls v', uris_of v = Some uris /\
         Forall3 (shared_as root) uris (doc_ids tr) urls /\
         owned_value (array_of_strings urls) = Some v' /\ res !! URIS = Some v'
     end).
Proof.
  intros H. unfold transform_results in H. destruct (results !! URIS) as [v|] eqn:Hu.
  2: { apply exec_ret in H as [-> ->]. split; [apply Forall_nil_2|].
       intros r [= <-]. eauto. }
  apply exec_bind in H as [(r & t1 & t2 & -> & H1 & H)|(s & H1 & ->)];
    apply transform_uris_exec in H1;
    (destruct (uris_of v) as [uris|] eqn:Huv;
     [destruct H1 as (o' & H1 & Ho); pose proof (transform_all_within _ _ _ _ _ H1) as Hw
     |destruct H1 as (-> & m & ?)]); simplify_eq.
  - assert (t2 = []) as -> by (destruct r; by apply exec_ret in H as [-> _]).
    rewrite app_nil_r. split; [done|]. intros res ->.
    destruct r as [v'|m]; apply exec_ret in H as [_ ?]; simplify_eq.
    destruct o' as [[urls|m]|s]; [|by destruct Ho|done].
    destruct (owned_value _) eqn:Hov; simplify_eq. eexists. split; [done|].
    split; [by intros k Hk; rewrite lookup_insert_ne|].
    exists uris, urls. eexists. rewrite lookup_insert_eq. eauto using transform_all_ok.
  - apply exec_ret in H as [-> ->]. split; [apply Forall_nil_2|done].
  - done.
Qed.

Lemma transform_results_stops {LAWS : CratesLaws} root results w tr s :
  exec (transform_results root results w) tr (Stopped s) -> Path.is_absolute root = true ->
  s = Panic /\ exists v uris, results !! URIS = Some v /\ uris_of v = Some uris /\
    crash_cause root uris tr.
Proof.
  intros H Hr. unfold transform_results in H.
  destruct (results !! URIS) as [v|] eqn:Hu; [|by apply exec_ret in H as [_ ?]].
  apply exec_bind in H as [(r & t1 & t2 & -> & H1 & H)|(s' & H1 & ?)]; simplify_eq.
  { by destruct r; apply exec_ret in H as [_ ?]. }
  apply transform_uris_exec in H1.
  destruct (uris_of v) as [uris|] eqn:Huv; [|by destruct H1 as (_ & m & ?)].
  destruct H1 as (o' & H1 & Ho). destruct o' as [[urls|m]|s].
  - destruct (owned_strings urls) as [v' Hv']. by rewrite Hv' in Ho.
  - by destruct Ho.
  - simplify_eq. apply transform_all_stops in H1 as [-> Hc]; [|done]. split; [done|]. eauto.
Qed.

(** ** Requests *)

(** The common shape of the two methods: the backend call [be], and whether
    what it selected may be written. *)
Definition forward (root : bytes) (be : Z -> host (result (Z * vardict) ZError))
    (writable : vardict -> result bool bytes) : prog host (result (option vardict) bytes) :=
  let* proxy := get_unwrap FILE_CHOOSER_PROXY in
  let? answer := map_err (fun e => B "backend: " ++ zerror_display e) (call (be proxy)) in
  let '(response, results) := answer in
  if response =? XDG_DESKTOP_PORTAL_RESPONSE_SUCCESS then
    let? w := mret (writable results) in transform_results root results w
  else if response =? XDG_DESKTOP_PORTAL_RESPONSE_CANCELLED then mret (Ok None)
  else mret (Err (ended response results)).

Definition open_writable (results : vardict) : result bool bytes :=
  result_map_err (fun e => B "writable from backend: " ++ e)
    (downcast_bool (default (from_bool false) (results !! WRITABLE))).

Lemma open_file_forward root rq :
  open_file root rq =
  let* r := forward root (fun proxy => BackendOpenFile proxy rq) open_writable in respond r.
Proof. done. Qed.

Lemma save_file_forward root rq :
  save_file root rq =
  let* r := forward root (fun proxy => BackendSaveFile proxy rq) (fun _ => Ok true) in respond r.
Proof. done. Qed.

Lemma forward_exec root be writable tr o :
  exec (forward root be writable) tr o ->
  (tr = [Event (OnceGet FILE_CHOOSER_PROXY) None] /\ o = Stopped Panic) \/
  exists proxy x t,
    tr = Event (OnceGet FILE_CHOOSER_PROXY) (Some proxy) :: Event (be proxy) x :: t /\
    match x with
    | Err _ => t = [] /\ exists m, o = Done (Err m)
    | Ok (response, results) =>
        response = 0 /\
          match writable results with
          | Ok w => exec (transform_results root results w) t o
          | Err _ => t = [] /\ exists m, o = Done (Err m)
          end \/
        response = 1 /\ t = [] /\ o = Done (Ok None) \/
        response <> 0 /\ response <> 1 /\ t = [] /\ exists m, o = Done (Err m)
    end.
Proof.
  intros H. unfold forward in H.
  apply exec_bind in H as [(proxy & t1 & t2 & -> & H1 & H)|(s & H1 & ->)];
    apply exec_get_unwrap in H1 as [(v & -> & Ho)|[-> Ho]]; simplify_eq; [right|by left].
  apply exec_try in H as [(x & t3 & t4 & -> & H2 & H)|[(e & H2 & ->)|(s & H2 & ->)]];
    apply exec_call in H2 as (x' & -> & ?); simplify_eq.
  2: { exists v, (Err e), []. eauto. }
  destruct x as [response results]. exists v, (Ok (response, results)), t4. split; [done|].
  unfold XDG_DESKTOP_PORTAL_RESPONSE_SUCCESS, XDG_DESKTOP_PORTAL_RESPONSE_CANCELLED in H.
  destruct (Z.eqb_spec response 0) as [->|H0].
  { left. split; [done|]. apply exec_pure_try in H. destruct (writable results); naive_solver. }
  right. destruct (Z.eqb_spec response 1) as [->|H3];
    apply exec_ret in H as [-> ->]; [left|right]; eauto.
Qed.

(** The answer to a request, given how it went. *)
Definition reply (r : result (option vardict) bytes) : Z * vardict :=
  match r with
  | Ok (Some results) => (XDG_DESKTOP_PORTAL_RESPONSE_SUCCESS, results)
  | Ok None => (XDG_DESKTOP_PORTAL_RESPONSE_CANCELLED, ∅)
  | Err _ => (XDG_DESKTOP_PORTAL_RESPONSE_OTHER, ∅)
  end.

Lemma respond_exec r tr o :
  exec (respond r) tr o ->
  o = Done (reply r) /\
  forall (T : Type) (f : event host -> list T),
    (forall t x, f (Event (Eprint t) x) = []) -> tr ≫= f = [].
Proof.
  intros H. split.
  - destruct r as [[res|]|e]; [by apply exec_ret in H as [_ ->]..|].
    apply exec_bind in H as [(u & t1 & t2 & -> & _ & H)|(s & H1 & ->)];
      [by apply exec_ret in H as [_ ->]|by apply msg_done in H1].
  - intros T f Hf. assert (Hq : quiet f (respond r)); [|by eapply Hq].
    pose proof (fun e => msg_quiet f e Hf). unfold respond. quieten.
Qed.

(** The answers of the host's file chooser. *)
Definition answer_of (ev : event host) : list (Z * vardict) :=
  match ev with
  | Event e x => match e in host X return X -> list (Z * vardict) with
                 | BackendOpenFile _ _ | BackendSaveFile _ _ =>
                     fun r => match r with Ok a => [a] | Err _ => [] end
                 | _ => fun _ => []
                 end x
  end.
Definition answers (tr : list (event host)) : list (Z * vardict) := tr ≫= answer_of.

Lemma answers_app t1 t2 : answers (t1 ++ t2) = answers t1 ++ answers t2.
Proof. apply bind_app. Qed.
Lemma answers_cons ev tr : answers (ev :: tr) = answer_of ev ++ answers tr.
Proof. done. Qed.

Lemma share_file_no_answers p w : quiet answer_of (share_file p w).
Proof. unfold share_file, not_shareable, unwrap_opt. quieten. Qed.
Lemma transform_uri_no_answers root w uri : quiet answer_of (transform_uri root w uri).
Proof. pose proof share_file_no_answers. unfold transform_uri, unwrap_opt. quieten. Qed.
Lemma transform_all_no_answers root w uris : quiet answer_of (transform_all root w uris).
Proof.
  pose proof transform_uri_no_answers.
  induction uris; cbn [transform_all]; quieten.
Qed.
Lemma transform_results_no_answers root results w : quiet answer_of (transform_results root results w).
Proof.
  pose proof transform_all_no_answers. unfold transform_results, transform_uris, unwrap_opt. quieten.
Qed.

(** What a request does, seen from its trace. *)
Lemma method_exec root be writable tr o :
  (forall proxy x, answer_of (Event (be proxy) x) = match x with Ok a => [a] | Err _ => [] end) ->
  (forall proxy x, grant_of (Event (be proxy) x) = []) ->
  (forall proxy x, doc_id_of (Event (be proxy) x) = []) ->
  exec (let* r := forward root be writable in respond r) tr o ->
  (tr = [Event (OnceGet FILE_CHOOSER_PROXY) None] /\ o = Stopped Panic) \/
  (grants tr = [] /\ doc_ids tr = [] /\
   ((exists results, answers tr = [(1, results)]) /\ o = Done (1, ∅) \/
    (forall results, answers tr <> [(1, results)]) /\ o = Done (2, ∅))) \/
  exists results w t o1, answers tr = [(0, results)] /\ writable results = Ok w /\
    exec (transform_results root results w) t o1 /\ t `sublist_of` tr /\
    grants tr = grants t /\ doc_ids tr = doc_ids t /\
    o = match o1 with Done r => Done (reply r) | Stopped s => Stopped s end.
Proof.
  intros Ha Hg Hd H.
  assert (exists t1 t2 o1, tr = t1 ++ t2 /\ exec (forward root be writable) t1 o1 /\
    answers t2 = [] /\ grants t2 = [] /\ doc_ids t2 = [] /\
    o = match o1 with Done r => Done (reply r) | Stopped s => Stopped s end /\
    (forall s, o1 = Stopped s -> t2 = []))
    as (t1 & t2 & o1 & -> & H1 & Qa & Qg & Qd & -> & Hst).
  { apply exec_bind in H as [(r & t1 & t2 & -> & H1 & H)|(s & H1 & ->)].
    - apply respond_exec in H as [-> Hq]. exists t1, t2, (Done r). split_and!; try done; by apply Hq.
    - exists tr, [], (Stopped s). by rewrite app_nil_r. }
  apply forward_exec in H1 as [[-> ->]|(proxy & x & t & -> & Hx)].
  { left. by rewrite (Hst Panic). }
  right. rewrite !answers_app, !grants_app, !doc_ids_app, !answers_cons, !grants_cons, !doc_ids_cons.
  rewrite Qa, Qg, Qd, Ha, Hg, Hd, !app_nil_r. cbn [answer_of grant_of doc_id_of app]. clear H Qa Qg Qd.
  destruct x as [[response results]|e].
  2: { left. destruct Hx as (-> & m & ->). split_and!; [done..|right]. done. }
  destruct Hx as [[-> Hx]|[(-> & -> & ->)|(H0 & H1 & -> & m & ->)]].
  - destruct (writable results) as [w|m'] eqn:Hw; [right|].
    + exists results, w, t, o1. rewrite (transform_results_no_answers _ _ _ _ _ Hx : answers t = []).
      split_and!; try done. by do 2 apply sublist_cons; apply sublist_inserts_r.
    + destruct Hx as (-> & m & ->). left. split_and!; [done..|right]. done.
  - left. split_and!; [done..|left]. split; [by eexists|done].
  - left. split_and!; [done..|right]. split; [|done]. intros res [= -> _]. done.
Qed.

(** The methods of the interface. *)
Definition method (root : bytes) (rq : request) (p : prog host (Z * vardict)) : Prop :=
  p = open_file root rq \/ p = save_file root rq.

(** How a request went. *)
Inductive went (root : bytes) (writable : vardict -> result bool bytes)
    (tr : list (event host)) : outcome (Z * vardict) -> Prop :=
| NoProxy : tr = [Event (OnceGet FILE_CHOOSER_PROXY) None] -> went root writable tr (Stopped Panic)
| Cancelled results :
    grants tr = [] -> answers tr = [(1, results)] -> went root writable tr (Done (1, ∅))
| Failed :
    grants tr = [] -> (forall results, answers tr <> [(1, results)]) ->
    went root writable tr (Done (2, ∅))
| Selected results w t o1 :
    answers tr = [(0, results)] -> writable results = Ok w ->
    exec (transform_results root results w) t o1 -> t `sublist_of` tr ->
    grants tr = grants t -> doc_ids tr = doc_ids t ->
    went root writable tr match o1 with Done r => Done (reply r) | Stopped s => Stopped s end.

Lemma open_file_went root rq tr o :
  exec (open_file root rq) tr o -> went root open_writable tr o.
Proof.
  rewrite open_file_forward. intros H. apply method_exec in H; [|done..].
  destruct H as [[-> ->]|[(Hg & _ & [[[r Ha] ->]|[Ha ->]])|(r & w & t & o1 & H)]];
    [by apply NoProxy|by eapply Cancelled|by apply Failed|].
  destruct H as (H1 & H2 & H3 & H4 & H5 & H6 & ->). by eapply Selected.
Qed.

Lemma method_went root rq p tr o :
  method root rq p -> exec p tr o -> exists writable, went root writable tr o.
Proof.
  intros [-> | ->] H; [eexists; by eapply open_file_went|]. exists (fun _ => Ok true).
  rewrite save_file_forward in H. apply method_exec in H; [|done..].
  destruct H as [[-> ->]|[(Hg & _ & [[[r Ha] ->]|[Ha ->]])|(r & w & t & o1 & H)]];
    [by apply NoProxy|by eapply Cancelled|by apply Failed|].
  destruct H as (H1 & H2 & H3 & H4 & H5 & H6 & ->). by eapply Selected.
Qed.

(** The results [res] a guest gets for the results [results] of the host's file
    chooser, when the documents [ids] were made: the entry [uris], if there is
    one, is translated URI by URI; nothing else changes. *)
Definition translated (root : bytes) (results : vardict) (ids : list bytes) (res : vardict) : Prop :=
  (forall k, k <> URIS -> res !! k = results !! k) /\
  match results !! URIS with
  | None => res = results
  | Some v => exists uris urls v', uris_of v = Some uris /\
      Forall3 (shared_as root) uris ids urls /\
      owned_value (array_of_strings urls) = Some v' /\ res !! URIS = Some v'
  end.

(** What a request may lead to once it has been forwarded: files are looked up,
    opened and shared, and messages are printed. *)
Definition for_sharing (ev : event host) : bool :=
  match ev with
  | Event e _ => match e with
                 | Exists _ | IsFile _ | OpenDirPath _ | OnceGet _ | Eprint _ => true
                 | AddNamedFull _ _ _ _ _ _ => true
                 | _ => false
                 end
  end.
Definition not_for_sharing (ev : event host) : list (event host) := if for_sharing ev then [] else [ev].

Lemma only_sharing tr : tr ≫= not_for_sharing = [] -> Forall (fun ev => for_sharing ev = true) tr.
Proof.
  induction tr as [|ev tr IH]; cbn [mbind list_bind]; [by constructor|]. unfold not_for_sharing at 1.
  intros [H1 H2]%app_eq_nil. constructor; [by destruct (for_sharing ev)|by apply IH].
Qed.

Lemma share_file_only p w : quiet not_for_sharing (share_file p w).
Proof. unfold share_file, not_shareable, unwrap_opt. quieten. Qed.
Lemma transform_uri_only root w uri : quiet not_for_sharing (transform_uri root w uri).
Proof. pose proof share_file_only. unfold transform_uri, unwrap_opt. quieten. Qed.
Lemma transform_all_only root w uris : quiet not_for_sharing (transform_all root w uris).
Proof. pose proof transform_uri_only. induction uris; cbn [transform_all]; quieten. Qed.
Lemma transform_results_only root results w : quiet not_for_sharing (transform_results root results w).
Proof.
  pose proof transform_all_only. unfold transform_results, transform_uris, unwrap_opt. quieten.
Qed.

(** The call [be] of the host's file chooser is made, once and before all else;
    documents are shared only if it answers with success. *)
Definition forwarded (be : Z -> host (result (Z * vardict) ZError))
    (tr : list (event host)) (o : outcome (Z * vardict)) : Prop :=
  (tr = [Event (OnceGet FILE_CHOOSER_PROXY) None] /\ o = Stopped Panic) \/
  exists proxy x t,
    tr = Event (OnceGet FILE_CHOOSER_PROXY) (Some proxy) :: Event (be proxy) x :: t /\
    Forall (fun ev => for_sharing ev = true) t /\
    (grants t <> [] -> exists results, x = Ok (0, results)).

Lemma method_forwarded root be writable tr o :
  exec (let* r := forward root be writable in respond r) tr o -> forwarded be tr o.
Proof.
  intros H.
  assert (exists t1 t2 o1, tr = t1 ++ t2 /\ exec (forward root be writable) t1 o1 /\
    t2 ≫= not_for_sharing = [] /\ grants t2 = [] /\
    (forall s, o1 = Stopped s -> t2 = [] /\ o = Stopped s)) as (t1 & t2 & o1 & -> & H1 & H2 & Hg & Hst).
  { apply exec_bind in H as [(r & t1 & t2 & -> & H1 & H)|(s & H1 & ->)].
    - apply respond_exec in H as [_ Hq]. exists t1, t2, (Done r). split_and!; try done; by apply Hq.
    - exists tr, [], (Stopped s). rewrite app_nil_r. split_and!; try done. by intros s' [= <-]. }
  clear H. apply forward_exec in H1 as [[-> ->]|(proxy & x & t & -> & Hx)].
  { left. by destruct (Hst Panic eq_refl) as [-> ->]. }
  right. exists proxy, x, (t ++ t2). split; [done|]. rewrite grants_app, Hg, app_nil_r.
  assert (Ht : t ≫= not_for_sharing = [] /\ (t = [] \/ exists results, x = Ok (0, results))).
  { destruct x as [[response results]|e]; [|by destruct Hx as [-> _]; auto].
    destruct Hx as [[-> Hx]|[(_ & -> & _)|(_ & _ & -> & _)]]; [|by auto..]. split; [|by right; exists results].
    destruct (writable results); [by eapply transform_results_only|by destruct Hx as [-> _]]. }
  destruct Ht as [Ht Hs]. split.
  - apply only_sharing. by rewrite bind_app, Ht, H2.
  - destruct Hs as [->|Hs]; [done|]. by intros _.
Qed.

(** C10. What a guest gets for a request.  Response 0 comes with the results of
    a successful host dialog in which every selected URI, in order, has been
    shared as a document of its own and replaced by the guest's URI of that
    document, and everything else is as the host sent it.  Response 1 is given
    exactly when the user cancelled, and response 2 otherwise; these carry no
    results.  In particular a dialog is never answered with part of its files. *)
Theorem chooser_replies root rq p tr code res :
  method root rq p -> exec p tr (Done (code, res)) ->
  (code = 0 /\ exists results, answers tr = [(0, results)] /\
     translated root results (doc_ids tr) res) \/
  (code = 1 /\ res = ∅ /\ exists results, answers tr = [(1, results)]) \/
  (code = 2 /\ res = ∅ /\ forall results, answers tr <> [(1, results)]).
Proof.
  intros Hm H. destruct (method_went _ _ _ _ _ Hm H) as [writable Hw]. clear Hm H.
  inversion Hw as [|results Hg Ha|Hg Ha|results w t o1 Ha _ H _ _ Hd Ho]; simplify_eq; eauto 6.
  destruct o1 as [r|s]; [|done]. simpl in Ho. simplify_eq. rewrite Hd, Ha.
  apply transform_results_exec in H as [_ H]. destruct r as [r|m]; simplify_eq/=.
  - destruct (H _ eq_refl) as (res' & -> & Hk & Hu). simplify_eq/=. left. split; [done|].
    exists results. done.
  - right. right. split_and!; [done..|]. intros ? [=].
Qed.

(** C17. A guest's request reaches the host's file chooser as it is, and nothing
    else does.  A call of [open_file] or [save_file] begins with one call of the
    same method of the host's file chooser, with the same handle, application,
    window, title and options, and never calls it, or any other service but the
    document portal, again; and documents are shared only if the dialog was
    answered with success.  The one exception is a panic for want of the proxy,
    in which nothing is called at all. *)
Theorem requests_forwarded root rq tr o :
  (exec (open_file root rq) tr o -> forwarded (fun proxy => BackendOpenFile proxy rq) tr o) /\
  (exec (save_file root rq) tr o -> forwarded (fun proxy => BackendSaveFile proxy rq) tr o).
Proof.
  rewrite open_file_forward, save_file_forward. split; apply method_forwarded.
Qed.

(** C11. A guest gets write access only if the user's dialog said so: when
    [open_file] asks the document portal for a grant that includes [write], the
    host's file chooser had answered the request with [writable] set to true.
    Without a [writable] entry nothing becomes writable. *)
Theorem open_file_write_consent {LAWS : CratesLaws} root rq tr o g :
  exec (open_file root rq) tr o -> g ∈ grants tr -> B "write" ∈ g.2 ->
  exists results v, answers tr = [(0, results)] /\ results !! WRITABLE = Some v /\
    downcast_bool v = Ok true.
Proof.
  intros H Hin Hw. apply open_file_went in H.
  destruct H as [->|results Hg _|Hg _|results w t o1 Ha Hwr H _ Hg _];
    [by apply not_elem_of_nil in Hin|by rewrite Hg in Hin; apply not_elem_of_nil in Hin..|].
  apply transform_results_exec in H as [Hwi _]. rewrite Hg in Hin.
  unfold grants_within in Hwi. rewrite Forall_forall in Hwi. rewrite (Hwi _ Hin) in Hw.
  destruct w; [|exfalso; revert Hw; by_eval].
  exists results. unfold open_writable in Hwr.
  destruct (results !! WRITABLE) as [v|]; simpl in Hwr.
  - exists v. by destruct (downcast_bool v); simplify_eq/=.
  - by rewrite downcast_from_bool in Hwr.
Qed.

(** C30. As [FileChooser::new] documents, a request can only panic if the share
    root is not absolute, apart from missing proxies and URIs of files without a
    name: with an absolute root, which is the only kind that is served, every
    panic is due to one of these. *)
Theorem chooser_panics_only {LAWS : CratesLaws} root rq p tr s :
  method root rq p -> Path.is_absolute root = true -> exec p tr (Stopped s) ->
  s = Panic /\
  (Event (OnceGet FILE_CHOOSER_PROXY) None ∈ tr \/ Event (OnceGet DOCUMENTS_PROXY) None ∈ tr \/
   exists results v uris path, answers tr = [(0, results)] /\ results !! URIS = Some v /\
     uris_of v = Some uris /\ B "file://" ++ path ∈ uris /\
     Path.file_name (percent_decode path) = None).
Proof.
  intros Hm Hr H. destruct (method_went _ _ _ _ _ Hm H) as [writable Hw]. clear Hm H.
  inversion Hw as [Ht| | |results w t o1 Ha _ H Hsub _ _ Ho]; simplify_eq.
  { split; [done|left]. set_solver. }
  destruct o1 as [r|s']; simplify_eq/=.
  apply transform_results_stops in H as (-> & v & uris & Hv & Hu & Hc); [|done].
  split; [done|right]. destruct Hc as [Hin|(q & Hq & Hn)]; [left|right].
  - by eapply elem_of_sublist.
  - by exists results, v, uris, q.
Qed.

(** C24. Confinement.  If the document portal's identifiers are path components,
    the guest's URI of a shared file is that of [ROOT/doc/ID/NAME], with [NAME]
    the file's own name: whatever the host path was, the URI cannot point
    outside the share root's [doc] directory. *)
Theorem guest_uri_confined root w uri tr url :
  exec (transform_uri root w uri) tr (Done (Ok url)) ->
  Path.no_trailing_slash root -> Forall Path.entry_name (doc_ids tr) ->
  exists id name, doc_ids tr = [id] /\ Path.entry_name id /\ Path.entry_name name /\
    url_from_file_path (root ++ SLASH :: B "doc" ++ SLASH :: id ++ SLASH :: name) = Some url.
Proof.
  intros H Hr Hids. apply transform_uri_ok in H as (id & Hid & p & name & _ & Hn & Hu).
  rewrite Hid in Hids. apply Forall_cons in Hids as [He _].
  pose proof (Path.file_name_entry _ _ Hn) as Hne.
  exists id, name. split_and!; try done.
  rewrite doc_path_entries in Hu by done.
  by rewrite Path.join_relative in Hu by (done || by vm_compute).
Qed.

End Chooser.

(** ** Examples *)

(** Crates that work on plain values; URIs are not escaped. *)
#[export] Instance plain_crates : Crates | 100 := {|
  Array := list bytes;
  from_bool := PBool;
  downcast_bool := fun v => match v with PBool b => Ok b | _ => Err (B "incorrect type") end;
  downcast_array := fun v => match v with PStrings l => Ok l | _ => Err (B "incorrect type") end;
  array_strings := Ok;
  array_of_strings := fun l => l;
  owned_value := fun l => Some (PStrings l);
  debug_results := fun _ => B "{}";
  percent_decode := fun p => p;
  url_from_file_path := fun p => if Path.is_absolute p then Some (B "file://" ++ p) else None |}.

#[export] Instance plain_laws : CratesLaws (H := plain_zbus).
Proof.
  split; simpl; [|by eexists|done]. intros p ->. by eexists.
Qed.

#[local] Existing Instance plain_fmt.
#[local] Instance no_args : Args := [].

Definition some_request : request (H := plain_zbus) :=
  {| rq_handle := B "/h"; rq_app_id := []; rq_parent_window := []; rq_title := B "Open";
     rq_options := ∅ |}.

(** The user selects two files, and allows writing if [w]. *)
Definition selects (w : bool) (uris : list bytes) : host_scenario := {|
  hs_conn := []; hs_vsock := []; hs_response := 0;
  hs_results := <[URIS := PStrings uris]> (if w then {[WRITABLE := PBool true]} else ∅) |}.

Definition two_files : list bytes := [B "file:///home/u/a.txt"; B "file:///home/u/b.txt"].

(** The URIs in a successful reply. *)
Definition reply_uris (o : outcome (Z * gmap bytes plain_value)) : option plain_value :=
  match o with Done (0, res) => res !! URIS | _ => None end.

Lemma chooser_replies_witness :
  exists results res,
    host_outcome (selects false two_files) (open_file (B "/share") some_request) = Done (0, res) /\
    res !! URIS = Some (PStrings [B "file:///share/doc/d1/a.txt"; B "file:///share/doc/d1/b.txt"]) /\
    translated (B "/share") results
      (doc_ids (host_trace (selects false two_files) (open_file (B "/share") some_request))) res.
Proof.
  assert (Hu : reply_uris (host_outcome (selects false two_files)
                             (open_file (B "/share") some_request))
               = Some (PStrings [B "file:///share/doc/d1/a.txt"; B "file:///share/doc/d1/b.txt"]))
    by (vm_compute; reflexivity).
  destruct (host_outcome _ _) as [[code res]|s] eqn:Ho; [|discriminate Hu].
  destruct code; try discriminate Hu.
  destruct (chooser_replies (B "/share") some_request _ _ 0 res (or_introl eq_refl)
              (exec_host_outcome _ _ _ Ho)) as [(_ & results & _ & Ht)|[[Hc _]|[Hc _]]];
    [|discriminate Hc|discriminate Hc].
  exists results, res. split; [reflexivity|]. split; [exact Hu|exact Ht].
Defined.

Lemma requests_forwarded_witness :
  let tr := host_trace (selects true two_files) (save_file (B "/share") some_request) in
  exists proxy x t,
    tr = Event (OnceGet FILE_CHOOSER_PROXY) (Some proxy) :: Event (BackendSaveFile proxy some_request) x :: t /\
    Forall (fun ev => for_sharing ev = true) t /\ length (grants t) = 2%nat /\
    exists results, x = Ok (0, results).
Proof.
  intros tr. destruct (proj2 (requests_forwarded (B "/share") some_request tr _)
    (exec_host (selects true two_files) _)) as [[H _]|(proxy & x & t & Htr & Hf & Hg)].
  { apply (f_equal length) in H. vm_compute in H. discriminate H. }
  assert (Hl : length (grants (drop 2 tr)) = 2%nat) by (vm_compute; reflexivity).
  rewrite Htr in Hl. change (length (grants t) = 2%nat) in Hl.
  exists proxy, x, t. split; [exact Htr|]. split; [exact Hf|]. split; [exact Hl|].
  apply Hg. intros H. rewrite H in Hl. discriminate Hl.
Defined.

Lemma open_file_write_consent_witness :
  exists results v, answers (host_trace (selects true two_files) (open_file (B "/share") some_request))
    = [(0, results)] /\ results !! WRITABLE = Some v /\ downcast_bool v = Ok true.
Proof.
  apply (open_file_write_consent (B "/share") some_request _ _
           (13, B "a.txt" ++ [NUL], [], permissions true)
           (exec_host (selects true two_files) _)); by_eval.
Defined.

Lemma chooser_panics_only_witness :
  let tr := host_trace (selects false [B "file://"]) (open_file (B "/share") some_request) in
  Event (OnceGet FILE_CHOOSER_PROXY) None ∈ tr \/ Event (OnceGet DOCUMENTS_PROXY) None ∈ tr \/
  exists results v uris path, answers tr = [(0, results)] /\ results !! URIS = Some v /\
    uris_of v = Some uris /\ B "file://" ++ path ∈ uris /\
    Path.file_name (percent_decode path) = None.
Proof.
  intros tr. apply (chooser_panics_only (B "/share") some_request (open_file (B "/share") some_request)
                      tr Panic); [by left|reflexivity|].
  apply exec_host_outcome. vm_compute. reflexivity.
Defined.

Lemma guest_uri_confined_witness :
  exists id name, Path.entry_name id /\ Path.entry_name name /\
    url_from_file_path (B "/share" ++ SLASH :: B "doc" ++ SLASH :: id ++ SLASH :: name)
    = Some (B "file:///share/doc/d1/a.txt").
Proof.
  destruct (guest_uri_confined (B "/share") false (B "file:///home/u/a.txt")
              (host_trace (selects false two_files)
                 (transform_uri (B "/share") false (B "file:///home/u/a.txt")))
              (B "file:///share/doc/d1/a.txt")) as (id & name & _ & H1 & H2 & H3).
  - apply exec_host_outcome. vm_compute. reflexivity.
  - by_eval.
  - by_eval.
  - exists id, name. split; [exact H1|]. split; [exact H2|exact H3].
Defined.


End FileChooser.
