(* ===== verification/HostMain.v ===== *)
(** * HostMain: the portal host as a process ([main.rs])

    Finding the vsock socket, accepting guests, and the process as a whole: the
    main task, one task per guest and one per D-Bus request, interleaved in any
    order over the shared [OnceLock] statics. *)

From S2P Require Import Prelude Effects RustStd HostSys HostScenario HostProto Documents FileChooser.

Module HostMain.
Import Proto.

Section Process.
Context {FMT : Fmt} {ZB : Zbus} {CR : FileChooser.Crates} {ARGS : Args}.

(** *** [listening_vsock_path] *)

(** The loop over the end of the path: where the [_] is that the trailing
    digits follow, if not at the very start. *)
Fixpoint find_underscore (listening_addr : bytes) (i : nat) : prog host (option nat) :=
  match listening_addr !! i with
  | None => Halt Panic
  | Some c =>
      match i with
      | O => mret None
      | S i' => if is_digit c then find_underscore listening_addr i'
                else if decide (c = UNDERSCORE) then mret (Some i)
                else mret None
      end
  end.

Definition listening_vsock_path (fd : Z) : prog host (result bytes bytes) :=
  let? addr :=
    map_err (fun e => B "getsockname(fd=" ++ dec fd ++ B "): " ++ io_display e)
      (call (LocalAddr fd)) in
  match addr with
  | None => mret (Err (B "fd " ++ dec fd ++ B " is not listening on a path"))
  | Some listening_addr =>
      match length listening_addr with
      | O => Halt Panic
      | S i =>
          let* found := find_underscore listening_addr i in
          match found with
          | None => mret (Err (B "can't infer listening VSOCK path from "
                               ++ debug_path listening_addr))
          | Some i => mret (Ok (take i listening_addr))
          end
      end
  end.

(** *** [run] *)

Definition read_argv : prog host unit :=
  match tail args_os with
  | [] => mret tt
  | _ :: _ => let* _ := msg (B "too many arguments") in Halt (Exit 1)
  end.

(** [if !initialized { ... }] *)
Definition initialize (initialized : bool) : prog host (result unit bytes) :=
  if initialized then mret (Ok tt)
  else
    let? session := map_err (fun e => B "connecting to session bus: " ++ zerror_display e)
                      (call SessionBus) in
    let* _ := Documents.init session in
    let* _ := FileChooser.init session in
    mret (Ok tt).

Fixpoint accept_loop (fuel : nat) (initialized : bool) : prog host (result unit bytes) :=
  match fuel with
  | O => Halt NoFuel
  | S fuel' =>
      let* accepted := call (Accept 0) in
      match accepted with
      | Err e =>
          let* _ := msg (B "accepting connection from guest: " ++ io_display e) in
          accept_loop fuel' initialized
      | Ok conn =>
          let? _ := initialize initialized in
          let* _ := call (SpawnTask conn) in
          accept_loop fuel' true
      end
  end.

Definition run (fuel : nat) : prog host (result unit bytes) :=
  let* _ := read_argv in
  let? _ := map_err (fun e => B "listening on stdin: " ++ io_display e) (call (AsyncNew 0)) in
  let? path := listening_vsock_path 0 in
  let* _ := set_unwrap VSOCK_UNIX_PATH path in
  accept_loop fuel false.

Definition main (fuel : nat) : prog host unit :=
  let* r := run fuel in
  match r with
  | Ok _ => mret tt
  | Err e => let* _ := msg e in Halt (Exit 1)
  end.

(** The task spawned for a guest. *)
Definition guest_task (fuel : nat) (conn : Z) : prog host unit :=
  let* r := run_guest_connection fuel conn in
  match r with
  | Ok _ => mret tt
  | Err e => msg (B "guest connection error: " ++ e)
  end.

(** The tasks that serve a guest's requests. *)
Definition open_task (root : bytes) (rq : request) : prog host unit :=
  let* _ := FileChooser.open_file root rq in mret tt.
Definition save_task (root : bytes) (rq : request) : prog host unit :=
  let* _ := FileChooser.save_file root rq in mret tt.

(** ** Where the vsock socket is *)

(** [j] is the place of a [_] that only digits follow, up to [i]. *)
Definition sep_at (addr : bytes) (i j : nat) : Prop :=
  (0 < j <= i)%nat /\ addr !! j = Some UNDERSCORE /\
  forall k, (j < k <= i)%nat -> exists c, addr !! k = Some c /\ is_digit c = true.

Lemma find_underscore_spec addr i :
  (i < length addr)%nat ->
  exists r, find_underscore addr i = Ret r /\ forall j, r = Some j <-> sep_at addr i j.
Proof.
  induction i as [|i IH]; intros Hi;
    (destruct (lookup_lt_is_Some_2 _ _ Hi) as [c Hc]); cbn [find_underscore]; rewrite Hc.
  { exists None. split; [done|]. intros j. split; [done|]. intros [? _]. lia. }
  destruct (is_digit c) eqn:Hd.
  - destruct (IH ltac:(lia)) as (r & -> & Hr). exists r. split; [done|].
    intros j. rewrite Hr. split; intros (Hj & Hu & Hk).
    + split_and!; [lia|lia|done|]. intros k Hk'.
      destruct (decide (k = S i)) as [->|]; [eauto|]. apply Hk. lia.
    + assert (j <> S i) by (intros ->; rewrite Hc in Hu; by simplify_eq).
      split_and!; [lia|lia|done|]. intros k Hk'. apply Hk. lia.
  - case_decide as Hu.
    + exists (Some (S i)). split; [done|]. intros j. split.
      * intros [= <-]. split_and!; [lia|lia|by subst|]. intros k Hk. lia.
      * intros (Hj & _ & Hk). destruct (decide (j = S i)) as [->|]; [done|].
        destruct (Hk (S i) ltac:(lia)) as (c' & Hc' & Hd'). congruence.
    + exists None. split; [done|]. intros j. split; [done|]. intros (Hj & Hj' & Hk).
      destruct (decide (j = S i)) as [->|]; [by simplify_eq|].
      destruct (Hk (S i) ltac:(lia)) as (c' & Hc' & Hd'). congruence.
Qed.

Lemma sep_at_split addr i j :
  length addr = S i ->
  sep_at addr i j <->
  exists p ds, j = length p /\ p <> [] /\ addr = p ++ UNDERSCORE :: ds /\
    Forall (fun b => is_digit b = true) ds.
Proof.
  intros Hl. split.
  - intros (Hj & Hu & Hk). exists (take j addr), (drop (S j) addr). split_and!.
    + rewrite length_take. lia.
    + intros E. apply (f_equal length) in E. rewrite length_take in E. simpl in E. lia.
    + by rewrite take_drop_middle.
    + apply Forall_lookup. intros k b Hb. rewrite lookup_drop in Hb.
      pose proof (lookup_lt_Some _ _ _ Hb).
      destruct (Hk (S j + k)%nat ltac:(lia)) as (c & Hc & Hd). congruence.
  - intros (p & ds & -> & Hne & -> & Hds). rewrite length_app in Hl. simpl in Hl.
    assert (0 < length p)%nat by (destruct p; simpl; [done|lia]).
    split_and!; [lia|lia|by apply list_lookup_middle|].
    intros k Hk. rewrite lookup_app_r by lia.
    destruct (k - length p)%nat as [|m] eqn:Em; [lia|]. simpl.
    destruct (lookup_lt_is_Some_2 ds m ltac:(lia)) as [c Hc]. exists c. split; [done|].
    rewrite Forall_lookup in Hds. by eapply Hds.
Qed.

(** [addr] is [p] with an underscore and digits appended. *)
Definition numbered (p addr : bytes) : Prop :=
  p <> [] /\ exists ds, addr = p ++ UNDERSCORE :: ds /\ Forall (fun b => is_digit b = true) ds.

(** The part of [listening_vsock_path] that follows [getsockname]. *)
Lemma infer_spec addr i :
  length addr = S i ->
  exists r, find_underscore addr i = Ret r /\
    (forall p, match r with Some j => take j addr = p | None => False end <-> numbered p addr).
Proof.
  intros Hl. destruct (find_underscore_spec addr i ltac:(lia)) as (r & Hf & Hr).
  exists r. split; [done|]. intros p.
  assert (Hn : numbered p addr <-> sep_at addr i (length p) /\ take (length p) addr = p).
  { rewrite sep_at_split by done. split.
    - intros [Hp (ds & -> & Hds)]. rewrite take_app_length. split; [|done]. by exists p, ds.
    - intros [(q & ds & Hlen & Hq & -> & Hds) Hp].
      rewrite Hlen, take_app_length in Hp. subst. split; [done|]. by exists ds. }
  rewrite Hn. destruct r as [j|].
  - pose proof (proj1 (Hr j) eq_refl) as Hs. split.
    + intros <-. destruct Hs as ([Hj1 Hj2] & Hs). rewrite length_take.
      replace (j `min` length addr)%nat with j by lia. split; [|done]. by split.
    + intros [Hp Ht]. apply Hr in Hp. by injection Hp as ->.
  - split; [done|]. intros [Hp _]. by apply Hr in Hp.
Qed.

(** The name of a socket for a port is undone. *)
Lemma listening_infers fd p port :
  p <> [] -> 0 <= port ->
  exec (listening_vsock_path fd)
    [Event (LocalAddr fd) (Ok (Some (p ++ UNDERSCORE :: dec port)))] (Done (Ok p)).
Proof.
  intros Hp Hport. eexists _, []. split; [done|]. hnf.
  set (addr := p ++ UNDERSCORE :: dec port).
  destruct (length addr) as [|i] eqn:Hl; [by destruct p|].
  destruct (infer_spec addr i Hl) as (r & Hf & Hr).
  assert (Hn : numbered p addr) by (split; [done|]; eexists; split; [done|]; by apply dec_all_digits).
  apply Hr in Hn. destruct r as [j|]; [|done].
  unfold prog_mbind. cbn [prog_bind result_map_err]. rewrite Hl, Hf. rewrite <- Hn. by split.
Qed.

(** C27. Cloud Hypervisor names the socket for guest connections to a port by
    appending [_PORT] to the path of its vsock socket.  From the path it listens
    on, [listening_vsock_path] infers [p] exactly when that is a non-empty [p],
    an underscore, and digits: it undoes the naming for every path and port, and
    refuses every other path.  It panics for none. *)
Theorem vsock_path_inferred fd :
  (forall tr o, exec (listening_vsock_path fd) tr o ->
     exists a, tr = [Event (LocalAddr fd) a] /\
       forall addr, a = Ok (Some addr) -> addr <> [] ->
         exists r, o = Done r /\ forall p, r = Ok p <-> numbered p addr) /\
  (forall p port, p <> [] -> 0 <= port ->
     exec (listening_vsock_path fd)
       [Event (LocalAddr fd) (Ok (Some (p ++ UNDERSCORE :: dec port)))] (Done (Ok p))).
Proof.
  split.
  - intros tr o H. unfold listening_vsock_path in H.
    apply exec_try in H as [(a & t1 & t2 & -> & H1 & H)|[(e & H1 & ->)|(s & H1 & ->)]];
      apply exec_call in H1 as (x & -> & ?); simplify_eq; [|by eexists].
    destruct a as [addr|]; [|apply exec_ret in H as [-> ->]; by eexists].
    destruct (length addr) as [|i] eqn:Hl.
    { destruct H as [-> ->]. eexists. split; [done|]. intros ? [= <-] Hne. by destruct addr. }
    destruct (infer_spec addr i Hl) as (r & Hf & Hr). rewrite Hf in H.
    assert (t2 = []) as -> by (destruct r; by destruct H as [-> _]).
    eexists. split; [done|]. intros ? [= <-] Hne.
    destruct r as [j|]; destruct H as [_ ->]; eexists; (split; [done|]); intros p;
      rewrite <- Hr; naive_solver.
  - by apply listening_infers.
Qed.

(** ** Accepting guests *)

Definition accepted_of (ev : event host) : list Z :=
  match ev with
  | Event e x => match e in host X return X -> list Z with
                 | Accept _ => fun r => match r with Ok c => [c] | Err _ => [] end
                 | _ => fun _ => []
                 end x
  end.
Definition spawned_of (ev : event host) : list Z :=
  match ev with Event (SpawnTask c) _ => [c] | _ => [] end.
Definition session_of (ev : event host) : list unit :=
  match ev with Event SessionBus _ => [tt] | _ => [] end.

(** The guests accepted, those given a task, and the connections to the
    session bus. *)
Definition accepted (tr : list (event host)) : list Z := tr ≫= accepted_of.
Definition spawned (tr : list (event host)) : list Z := tr ≫= spawned_of.
Definition sessions (tr : list (event host)) : list unit := tr ≫= session_of.

Lemma observed_app t1 t2 :
  accepted (t1 ++ t2) = accepted t1 ++ accepted t2 /\
  spawned (t1 ++ t2) = spawned t1 ++ spawned t2 /\
  sessions (t1 ++ t2) = sessions t1 ++ sessions t2.
Proof. split_and!; apply bind_app. Qed.

Lemma observed_cons ev t :
  accepted (ev :: t) = accepted_of ev ++ accepted t /\
  spawned (ev :: t) = spawned_of ev ++ spawned t /\
  sessions (ev :: t) = session_of ev ++ sessions t.
Proof. done. Qed.

Lemma msg_observed e tr o :
  exec (msg e) tr o -> o = Done tt /\ accepted tr = [] /\ spawned tr = [] /\ sessions tr = [].
Proof.
  intros H. split; [by apply msg_done in H|].
  split_and!; (eapply msg_quiet; [done|exact H]).
Qed.

Lemma exec_set_unwrap {V} (l : lock V) v tr o :
  exec (set_unwrap l v) tr o ->
  exists b, tr = [Event (OnceSet l v) b] /\ o = if b : bool then Done tt else Stopped Panic.
Proof. intros H. unfold set_unwrap in H. hsteps; by eexists. Qed.

Lemma inits_quiet {T} (f : event host -> list T) session :
  (forall l b x, f (Event (NewProxy l b) x) = []) ->
  (forall (l : lock Z) v x, f (Event (OnceSet l v) x) = []) ->
  quiet f (let* _ := Documents.init session in
           let* _ := FileChooser.init session in mret (Ok tt : result unit bytes)).
Proof. intros H1 H2. unfold Documents.init, FileChooser.init, set_unwrap. quieten. Qed.

(** Initialising makes one connection to the session bus. *)
Lemma initialize_observed b tr o :
  exec (initialize b) tr o ->
  accepted tr = [] /\ spawned tr = [] /\ sessions tr = (if b then [] else [tt]) /\
  (b = true -> o = Done (Ok tt)).
Proof.
  intros H. unfold initialize in H. destruct b; [by apply exec_ret in H as [-> ->]|].
  apply exec_try in H as [(s & t1 & t2 & -> & H1 & H)|[(e & H1 & ->)|(s & H1 & ->)]];
    apply exec_call in H1 as (x & -> & ?); simplify_eq; [|done].
  destruct (observed_app [Event SessionBus (Ok s)] t2) as (-> & -> & ->).
  pose proof (fun T f Q1 Q2 => inits_quiet (T := T) f s Q1 Q2 _ _ H) as Hq.
  unfold accepted at 2, spawned at 2, sessions at 2. by rewrite !Hq.
Qed.

(** Once initialised, the loop gives every guest a task, whatever fails. *)
Lemma accept_loop_initialized fuel tr o :
  exec (accept_loop fuel true) tr o ->
  spawned tr = accepted tr /\ sessions tr = [] /\ o = Stopped NoFuel.
Proof.
  revert tr. induction fuel as [|fuel IH]; intros tr H; cbn [accept_loop] in H.
  { by apply exec_hhalt in H as [-> ->]. }
  apply exec_call_bind in H as (r & t2 & -> & H).
  destruct (observed_cons (Event (Accept 0) r) t2) as (-> & -> & ->). destruct r as [conn|e].
  - apply exec_bind in H as [(r & t3 & t4 & -> & H1 & H)|(s & H1 & ->)];
      apply initialize_observed in H1 as (Ha & Hs & Hb & Ho); specialize (Ho eq_refl); simplify_eq.
    destruct (observed_app t3 t4) as (-> & -> & ->).
    apply exec_call_bind in H as (u & t6 & -> & H).
    destruct (observed_cons (Event (SpawnTask conn) u) t6) as (-> & -> & ->).
    apply IH in H as (Hsp & Hse & ->). by rewrite Ha, Hs, Hb, Hsp, Hse.
  - apply exec_bind in H as [(u & t3 & t4 & -> & H1 & H)|(s & H1 & ->)];
      apply msg_observed in H1 as (Ho & Ha & Hs & Hb); simplify_eq.
    destruct (observed_app t3 t4) as (-> & -> & ->). apply IH in H as (Hsp & Hse & ->).
    by rewrite Ha, Hs, Hb, Hsp, Hse.
Qed.

(** C26. Every guest that is accepted gets a task of its own, in the order of
    acceptance, and an error of [accept] never ends the loop.  The session bus
    is connected to once, for the first guest, and not before there is one.  The
    loop is left only if that fails, and then no task has been spawned. *)
Theorem accepted_guests_served fuel tr o :
  exec (accept_loop fuel false) tr o ->
  (spawned tr = accepted tr /\ o = Stopped NoFuel /\
   sessions tr = (if decide (accepted tr = []) then [] else [tt])) \/
  (spawned tr = [] /\ sessions tr = [tt] /\ exists conn, accepted tr = [conn]).
Proof.
  revert tr. induction fuel as [|fuel IH]; intros tr H; cbn [accept_loop] in H.
  { apply exec_hhalt in H as [-> ->]. by left. }
  apply exec_call_bind in H as (r & t2 & -> & H).
  destruct (observed_cons (Event (Accept 0) r) t2) as (-> & -> & ->). destruct r as [conn|e].
  - apply exec_bind in H as [(r & t3 & t4 & -> & H1 & H)|(s & H1 & ->)];
      apply initialize_observed in H1 as (Ha & Hs & Hb & _); rewrite ?Ha, ?Hs, ?Hb; [|right; eauto].
    destruct (observed_app t3 t4) as (-> & -> & ->). rewrite Ha, Hs, Hb. destruct r as [u|m].
    2: { apply exec_ret in H as [-> ->]. right. eauto. }
    apply exec_call_bind in H as (u' & t6 & -> & H).
    destruct (observed_cons (Event (SpawnTask conn) u') t6) as (-> & -> & ->).
    apply accept_loop_initialized in H as (Hsp & Hse & ->). left. by rewrite Hsp, Hse.
  - apply exec_bind in H as [(u & t3 & t4 & -> & H1 & H)|(s & H1 & ->)];
      apply msg_observed in H1 as (Ho & Ha & Hs & Hb); simplify_eq.
    destruct (observed_app t3 t4) as (-> & -> & ->). rewrite Ha, Hs, Hb. by apply IH in H.
Qed.

End Process.

(** ** Example *)

#[local] Existing Instance plain_fmt.
#[local] Existing Instance FileChooser.plain_crates.
#[local] Instance no_args : Args := [].

Definition two_guests : host_scenario :=
  {| hs_conn := []; hs_vsock := []; hs_response := 0; hs_results := ∅ |}.

Lemma accepted_guests_served_witness :
  spawned (host_trace two_guests (accept_loop 2 false)) = [CONN; CONN] /\
  sessions (host_trace two_guests (accept_loop 2 false)) = [tt].
Proof.
  destruct (accepted_guests_served 2 _ _ (exec_host two_guests (accept_loop 2 false)))
    as [(Hs & _ & Hb)|(_ & _ & conn & Ha)].
  - rewrite Hs, Hb. split; vm_compute; reflexivity.
  - vm_compute in Ha. discriminate Ha.
Defined.


End HostMain.
