(* ===== verification/Deployment.v ===== *)
(** * Deployment: the services of a VM, and how the programs find each other

    The programs of this development never name each other: they meet at paths,
    ports and addresses that each of them, and the service scripts of the host and
    of the guest image, must spell in the same way.  Here are those scripts, word
    by word, with as much of [execlineb] as it takes to read them, and the proof
    that the ends meet. *)

From S2P Require Import Prelude Effects RustStd Sys Scenario Mac Ch NetUtil Fork NetSetup StartVmm HostSys HostScenario HostProto Guest Documents FileChooser HostMain.

Module Deployment.

(** ** Reading scripts

    [execlineb] splits a script into words, wherever the lines end, and replaces
    variables inside words; a replaced word stays one word.  Quoted words are
    left as they stand. *)

Definition SPACE : byte := Byte.x20.
Definition QUOTE : byte := Byte.x22.

Definition script_words (lines : list bytes) : list bytes :=
  lines ≫= fun l => filter (fun w => w <> []) (split_on SPACE l).

Definition var (x : bytes) : bytes := B "${" ++ x ++ B "}".

Fixpoint subst_from (skip : nat) (pat val w : bytes) : bytes :=
  match w with
  | [] => []
  | c :: r =>
      match skip with
      | S k => subst_from k pat val r
      | O => if starts_with pat w then val ++ subst_from (length pat - 1) pat val r
             else c :: subst_from 0 pat val r
      end
  end.

Definition subst (x val w : bytes) : bytes := subst_from 0 (var x) val w.

(** The word after [flag], and the words of the block that follows a word. *)
Fixpoint argument (flag : bytes) (ws : list bytes) : option bytes :=
  match ws with
  | w :: r => if decide (w = flag) then head r else argument flag r
  | [] => None
  end.

Fixpoint block (ws : list bytes) : list bytes :=
  match ws with
  | w :: r => if decide (w = B "}") then [] else w :: block r
  | [] => []
  end.

Fixpoint after_word (x : bytes) (ws : list bytes) : list bytes :=
  match ws with
  | w :: r => if decide (w = x) then r else after_word x r
  | [] => []
  end.

(** The path given to [s6-ipcserver-socketbinder], after its options. *)
Fixpoint skip_options (ws : list bytes) : option bytes :=
  match ws with
  | w :: r =>
      if decide (w = B "-a") then match r with _ :: r' => skip_options r' | [] => None end
      else if decide (w = B "-B") then skip_options r else Some w
  | [] => None
  end.
Definition bound_path (ws : list bytes) : option bytes :=
  skip_options (after_word (B "s6-ipcserver-socketbinder") ws).

(** The arguments of the [mount] commands in [if] blocks. *)
Fixpoint mounts_of (ws : list bytes) : list (list bytes) :=
  match ws with
  | w :: r => if decide (w = B "mount") then block r :: mounts_of r else mounts_of r
  | [] => []
  end.

(** ** The scripts *)

Definition create_vm_dependencies : list bytes :=
  [ B "if { mount -m --rbind -o nofail /run/vm/${1}/config/fs /run/vm/${1}/fs/config }";
    B "if { mkdir -p /run/vm/${1}/doc-run/doc /run/vm/${1}/fs/doc }";
    B "if { mount --rbind /run/vm/${1}/doc-run/doc /run/vm/${1}/fs/doc }";
    B "forx -pE service { dbus vhost-user-fs vhost-user-gpu xdg-desktop-portal-spectrum-host }";
    B "if { s6-instance-create /run/service/${service} $1 }";
    B "s6-svwait -U /run/service/${service}/instance/${1}" ].

Definition vhost_user_fs_run : list bytes :=
  [ B "s6-ipcserver-socketbinder -a 0700 -B env/virtiofsd.sock";
    B "if { fdmove 1 3 echo }";
    B "fdclose 3";
    B "export TMPDIR /run";
    B "unshare -m --propagation slave";
    B "if { mount --rbind -o ro /run/vm/${1}/fs /run/vm/${1}/fs }";
    B "virtiofsd --fd 0 --shared-dir /run/vm/${1}/fs" ].

Definition vhost_user_gpu_run : list bytes :=
  [ B "s6-notifyoncheck -dn 0";
    B "crosvm --no-syslog device gpu";
    B "  --socket env/crosvm.sock";
    B "  --wayland-sock /run/user/0/wayland-1";
    B "  --params " ++ [QUOTE] ++ B "{\" ++ [QUOTE] ++ B "context-types\" ++ [QUOTE] ++ B ":\" ++ [QUOTE]
      ++ B "cross-domain\" ++ [QUOTE] ++ B "}" ++ [QUOTE] ].

Definition portal_host_run : list bytes :=
  [ B "export DBUS_SESSION_BUS_ADDRESS unix:path=/run/vm/${1}/portal-bus";
    B "s6-ipcserver-socketbinder -a 0700 /run/vm/${1}/vsock_219";
    B "if { fdmove 1 3 echo }";
    B "fdclose 3";
    B "xdg-desktop-portal-spectrum-host" ].

Definition dbus_run : list bytes :=
  [ B "export VM /run/vm/${1}";
    B "dbus-daemon";
    B "  --config-file /usr/share/dbus-1/session.conf";
    B "  --print-address 3";
    B "  --address unix:path=/run/vm/${1}/portal-bus" ].

(** The document portal, which the bus starts. *)
Definition documents_exec : list bytes :=
  [ B "/bin/importas -Si VM export XDG_RUNTIME_DIR ${VM}/doc-run xdg-document-portal" ].

(** In the guest image: mounting the share, and a constant of the build of
    [xdg-desktop-portal-spectrum]. *)
Definition guest_virtiofs : list bytes :=
  [ B "background {";
    B "  if { mkdir -p /run/virtiofs/virtiofs0 }";
    B "  if { mount -t virtiofs virtiofs0 /run/virtiofs/virtiofs0 }";
    B "  /etc/mdev/listen virtiofs0";
    B "}" ].

Definition HOST_FS_ROOT_DIR : option bytes :=
  strip_prefix (B "-Dhostfsrootdir=") (B "-Dhostfsrootdir=/run/virtiofs/virtiofs0").

(** ** What they say about one VM *)

Definition services : list bytes := block (after_word (B "{") (after_word (B "service") (script_words create_vm_dependencies))).

(** The directory that a service's instance for a VM runs in. *)
Definition instance_dir (service name : bytes) : option bytes :=
  subst (B "1") name <$> (subst (B "service") service <$> last (script_words create_vm_dependencies)).

Definition in_instance (service name p : bytes) : option bytes :=
  (fun dir => Path.join dir (subst (B "1") name p)) <$> instance_dir service name.

Definition virtiofs_socket (name : bytes) : option bytes :=
  bound_path (script_words vhost_user_fs_run) ≫= in_instance (B "vhost-user-fs") name.

Definition gpu_socket_of (name : bytes) : option bytes :=
  argument (B "--socket") (script_words vhost_user_gpu_run) ≫= in_instance (B "vhost-user-gpu") name.

Definition portal_socket (name : bytes) : option bytes :=
  bound_path (script_words portal_host_run) ≫= in_instance (B "xdg-desktop-portal-spectrum-host") name.

Definition portal_bus (name : bytes) : option bytes :=
  subst (B "1") name <$> argument (B "DBUS_SESSION_BUS_ADDRESS") (script_words portal_host_run).
Definition bus_address (name : bytes) : option bytes :=
  subst (B "1") name <$> argument (B "--address") (script_words dbus_run).

Definition shared_dir (name : bytes) : option bytes :=
  subst (B "1") name <$> argument (B "--shared-dir") (script_words vhost_user_fs_run).

(** Source and target of the bind mounts below the shared directory. *)
Definition binds (name : bytes) : list (bytes * bytes) :=
  omap (fun ws => match rev ws with
                  | dst :: src :: _ => Some (subst (B "1") name src, subst (B "1") name dst)
                  | _ => None
                  end) (mounts_of (script_words create_vm_dependencies)).

(** The runtime directory of the document portal on the VM's bus. *)
Definition runtime_dir (name : bytes) : option bytes :=
  vm ← argument (B "VM") (script_words dbus_run);
  subst (B "VM") (subst (B "1") name vm) <$> argument (B "XDG_RUNTIME_DIR") (script_words documents_exec).

(** Tag and mount point of the share in the guest. *)
Definition guest_mount : option (bytes * bytes) :=
  match mounts_of (script_words guest_virtiofs) with
  | [[_; _; tag; dir]] => Some (tag, dir)
  | _ => None
  end.

(** ** Which file a path in the guest is *)

Definition rebase (from to path : bytes) : option bytes :=
  (fun rest => to ++ SLASH :: rest) <$> strip_prefix (from ++ [SLASH]) path.

(** A path of the host below a bind mount is a path below its source. *)
Fixpoint through_binds (bs : list (bytes * bytes)) (path : bytes) : bytes :=
  match bs with
  | (src, dst) :: bs' => match rebase dst src path with Some p => p | None => through_binds bs' path end
  | [] => path
  end.

(** The guest mounts the device with the tag of the VM's configuration; that is
    served by the [virtiofsd] that listens on the configured socket. *)
Definition guest_sees (cfg : Ch.VmConfig) (name path : bytes) : option bytes :=
  '(tag, dir) ← guest_mount;
  sock ← virtiofs_socket name;
  shared ← shared_dir name;
  if decide (tag = Ch.fs_tag (Ch.fs cfg) /\ sock = Ch.fs_socket (Ch.fs cfg)) then
    through_binds (binds name) <$> rebase dir shared path
  else None.

(** ** The ends meet *)

Section Wiring.
Context {FMT : Fmt} {JSON : Ch.Json} {ZB : Zbus} {CR : FileChooser.Crates} {ARGS : Args}.

Definition vm_dir_of (name : bytes) : bytes := Path.join (B "/run/vm") name.

Lemma vm_dir_of_eq name : Path.entry_name name -> vm_dir_of name = B "/run/vm/" ++ name.
Proof. intros Hn. apply Path.join_relative; [by_eval|by apply Path.entry_name_relative]. Qed.

Lemma vm_config_of name E e tr cfg e' :
  Path.entry_name name ->
  exec (StartVmm.vm_config E (vm_dir_of name) e) tr (Done (Ok cfg, e')) ->
  Ch.fs cfg = StartVmm.fs_config name /\ Ch.gpu cfg = [StartVmm.gpu_config name] /\
  Ch.vsock_socket (Ch.vsock cfg) = B "/run/vm/" ++ name ++ B "/vsock".
Proof.
  intros Hn H. apply StartVmm.vm_config_ok in H as (m & Hm & _ & _ & Hfs & Hgpu & _ & Hv & _).
  unfold vm_dir_of in Hm. rewrite Path.file_name_join in Hm by (by_eval || done). simplify_eq.
  split_and!; [done..|]. rewrite Hv, Path.join_relative.
  - rewrite vm_dir_of_eq by done. by rewrite <- app_assoc.
  - apply Path.join_no_trailing_slash; [by_eval|done].
  - done.
Qed.

(** A path in a service's directory. *)
Lemma in_instance_eq service name p dir :
  instance_dir service name = Some dir -> Path.no_trailing_slash dir ->
  Path.is_absolute (subst (B "1") name p) = false ->
  in_instance service name p = Some (dir ++ SLASH :: subst (B "1") name p).
Proof. intros Hd Hs Hp. unfold in_instance. rewrite Hd. simpl. by rewrite Path.join_relative. Qed.

Lemma instance_no_slash prefix name :
  Path.entry_name name -> Path.no_trailing_slash (prefix ++ SLASH :: name).
Proof.
  intros (Hne & Hs & _). split; [by destruct prefix|]. rewrite last_app, last_cons.
  destruct (last name) as [c|] eqn:Hl; [|by apply last_None in Hl].
  intros [= ->]. by apply last_Some_elem_of in Hl.
Qed.

Lemma in_instance_env service name file :
  instance_dir service name = Some (B "/run/service/" ++ service ++ B "/instance" ++ SLASH :: name) ->
  Path.entry_name name -> subst (B "1") name file = file -> Path.is_absolute file = false ->
  in_instance service name file = Some (B "/run/service/" ++ service ++ B "/instance/" ++ name ++ SLASH :: file).
Proof.
  intros Hd Hn Hf Hr. rewrite app_assoc, app_assoc in Hd. erewrite in_instance_eq; [|exact Hd|..].
  - rewrite Hf, <- !app_assoc. done.
  - by apply instance_no_slash.
  - by rewrite Hf.
Qed.

#[local] Lemma instance_dir_eq name (service : bytes) :
  service = B "vhost-user-fs" \/ service = B "vhost-user-gpu" ->
  instance_dir service name = Some (B "/run/service/" ++ service ++ B "/instance" ++ SLASH :: name).
Proof. intros [-> | ->]; simpl; rewrite <- (app_nil_r name) at 2; done. Qed.

Lemma virtiofs_socket_eq name :
  Path.entry_name name -> virtiofs_socket name = Some (Ch.fs_socket (StartVmm.fs_config name)).
Proof. intros Hn. apply in_instance_env; [apply instance_dir_eq; by left|done..]. Qed.

Lemma gpu_socket_eq name :
  Path.entry_name name -> gpu_socket_of name = Some (Ch.gpu_socket (StartVmm.gpu_config name)).
Proof. intros Hn. apply in_instance_env; [apply instance_dir_eq; by right|done..]. Qed.

(** C18. The programs and services of one VM find each other.  For every VM name
    that [start-vmm] accepts: the virtiofs and GPU sockets it configures are those
    that the VM's instances of [vhost-user-fs] and [vhost-user-gpu] listen on;
    the portal host listens where Cloud Hypervisor delivers the guest's
    connections to the port that the guest's portal dials, and infers from that
    path the vsock socket that [start-vmm] configured; and it uses the bus that
    the VM's [dbus] instance serves.  All four services are made for each VM. *)
Theorem services_meet name E e tr cfg e' :
  Path.entry_name name ->
  exec (StartVmm.vm_config E (vm_dir_of name) e) tr (Done (Ok cfg, e')) ->
  virtiofs_socket name = Some (Ch.fs_socket (Ch.fs cfg)) /\
  gpu_socket_of name = Ch.gpu_socket <$> head (Ch.gpu cfg) /\
  (exists addr, portal_socket name = Some addr /\
     addr = Ch.vsock_socket (Ch.vsock cfg) ++ UNDERSCORE :: dec Guest.HOST_PORT /\
     exec (HostMain.listening_vsock_path 0) [Event (LocalAddr 0) (Ok (Some addr))]
       (Done (Ok (Ch.vsock_socket (Ch.vsock cfg))))) /\
  (is_Some (portal_bus name) /\ portal_bus name = bus_address name) /\
  services = [B "dbus"; B "vhost-user-fs"; B "vhost-user-gpu"; B "xdg-desktop-portal-spectrum-host"].
Proof.
  intros Hn H. apply vm_config_of in H as (Hfs & Hgpu & Hv); [|done]. split_and!.
  - rewrite Hfs. by apply virtiofs_socket_eq.
  - rewrite Hgpu. by apply gpu_socket_eq.
  - exists (Ch.vsock_socket (Ch.vsock cfg) ++ UNDERSCORE :: dec Guest.HOST_PORT). rewrite Hv. split_and!; [|done|].
    + rewrite <- !app_assoc. reflexivity.
    + by apply HostMain.listening_infers.
  - eexists. reflexivity.
  - reflexivity.
  - vm_compute. reflexivity.
Qed.

Lemma strip_prefix_app p q r : strip_prefix (p ++ q) (p ++ r) = strip_prefix q r.
Proof. induction p as [|c p IH]; [done|]. simpl. by rewrite decide_True. Qed.

Lemma rebase_below from to rest : rebase from to (from ++ SLASH :: rest) = Some (to ++ SLASH :: rest).
Proof.
  unfold rebase. change (SLASH :: rest) with ([SLASH] ++ rest). rewrite app_assoc.
  by rewrite (proj2 (strip_prefix_Some _ _ rest)).
Qed.

(** Below [fs/doc] is what the document portal keeps in its runtime directory. *)
Lemma through_binds_doc name rest :
  through_binds (binds name) (B "/run/vm/" ++ name ++ B "/fs/doc" ++ SLASH :: rest) =
  B "/run/vm/" ++ name ++ B "/doc-run/doc" ++ SLASH :: rest.
Proof.
  change (binds name) with
    [(B "/run/vm/" ++ name ++ B "/config/fs", B "/run/vm/" ++ name ++ B "/fs/config");
     (B "/run/vm/" ++ name ++ B "/doc-run/doc", B "/run/vm/" ++ name ++ B "/fs/doc")].
  cbn [through_binds]. unfold rebase at 1. rewrite <- !(app_assoc (B "/run/vm/")), <- !(app_assoc name).
  rewrite !strip_prefix_app. change (strip_prefix (B "/fs/config" ++ [SLASH]) (B "/fs/doc" ++ SLASH :: rest)) with (@None bytes).
  cbn [fmap option_fmap option_map].
  assert (H : forall x : bytes, B "/run/vm/" ++ name ++ x ++ SLASH :: rest = (B "/run/vm/" ++ name ++ x) ++ SLASH :: rest)
    by (intros x; by rewrite <- !app_assoc).
  by rewrite !H, rebase_below.
Qed.

#[local] Lemma option_bind_Some {A C} (x : A) (f : A -> option C) : (Some x ≫= f) = f x.
Proof. done. Qed.

Lemma runtime_dir_eq name : runtime_dir name = Some (B "/run/vm/" ++ name ++ B "/doc-run").
Proof.
  change (runtime_dir name) with (Some ((B "/run/vm/" ++ name ++ []) ++ B "/doc-run")).
  by rewrite app_nil_r, <- app_assoc.
Qed.

(** C19. The guest finds the file.  When the host has shared a file and the
    guest has joined the answer to its share root, the resulting path, in the
    guest, is the document that the portal made: the share root is where the
    guest mounts the virtiofs device of the VM's configuration, whose
    [virtiofsd] exports a directory in which [doc] is the place where the VM's
    document portal keeps the document [ID] with the file's own name. *)
Theorem guest_finds_document name E e tr cfg e' p w tr' r :
  Path.entry_name name ->
  exec (StartVmm.vm_config E (vm_dir_of name) e) tr (Done (Ok cfg, e')) ->
  exec (Documents.share_file p w) tr' (Done (Ok r)) -> Forall Path.entry_name (Documents.doc_ids tr') ->
  exists id file root runtime,
    Documents.doc_ids tr' = [id] /\ Path.file_name p = Some file /\
    HOST_FS_ROOT_DIR = Some root /\ runtime_dir name = Some runtime /\
    guest_sees cfg name (Path.join root r) = Some (runtime ++ B "/doc/" ++ id ++ SLASH :: file).
Proof.
  intros Hn Hcfg Hs Hid. apply vm_config_of in Hcfg as (Hfs & _ & _); [|done].
  apply Documents.share_file_ok in Hs as (id & file & Hd & Hf & ->).
  rewrite Hd in Hid. apply Forall_cons in Hid as [Hid _]. pose proof (Path.file_name_entry _ _ Hf) as Hfile.
  exists id, file, (B "/run/virtiofs/virtiofs0"), (B "/run/vm/" ++ name ++ B "/doc-run").
  split_and!; [done|done|vm_compute; reflexivity|apply runtime_dir_eq|].
  rewrite Documents.doc_path_entries by done.
  assert (Hj : Path.join (B "/run/virtiofs/virtiofs0") (B "doc" ++ SLASH :: id ++ SLASH :: file) =
    B "/run/virtiofs/virtiofs0" ++ SLASH :: B "doc" ++ SLASH :: id ++ SLASH :: file).
  { apply Path.join_relative; [by_eval|done]. }
  rewrite Hj. unfold guest_sees. rewrite (virtiofs_socket_eq name Hn), Hfs.
  change guest_mount with (Some (B "virtiofs0", B "/run/virtiofs/virtiofs0")).
  change (shared_dir name) with (Some (B "/run/vm/" ++ name ++ B "/fs")).
  rewrite !option_bind_Some. rewrite decide_True by done. rewrite rebase_below. cbn [fmap option_fmap option_map]. f_equal.
  etrans; [etrans; [|apply (through_binds_doc name (id ++ SLASH :: file))]|].
  - f_equal. by rewrite <- !app_assoc.
  - by rewrite <- !app_assoc.
Qed.

End Wiring.

(** *** One VM *)

#[local] Existing Instance plain_fmt.
#[local] Existing Instance Ch.no_json.
#[local] Existing Instance FileChooser.plain_crates.
#[local] Instance portal_args : Args := [].

Lemma web_config : exists c, StartVmm.config_in all_well (B "/run/vm/web") = Some c.
Proof. eexists. vm_compute. reflexivity. Qed.

Lemma services_meet_witness :
  exists c, virtiofs_socket (B "web") = Some (Ch.fs_socket (Ch.fs c)) /\
    gpu_socket_of (B "web") = Ch.gpu_socket <$> head (Ch.gpu c).
Proof.
  destruct web_config as [c (tr & e' & H)%StartVmm.exec_config_in].
  destruct (services_meet (B "web") StartVmm.web_env 0 tr c e') as (Hf & Hg & _); [by_eval|exact H|].
  exists c. split; [exact Hf|exact Hg].
Defined.

Lemma guest_finds_document_witness :
  exists c id file runtime, Path.file_name (B "/home/user/a.txt") = Some file /\
    guest_sees c (B "web") (Path.join (B "/run/virtiofs/virtiofs0") (B "doc/d1/a.txt")) =
    Some (runtime ++ B "/doc/" ++ id ++ SLASH :: file).
Proof.
  destruct web_config as [c (tr & e' & H)%StartVmm.exec_config_in].
  destruct (guest_finds_document (B "web") StartVmm.web_env 0 tr c e' (B "/home/user/a.txt") false
    (host_trace Documents.plain_outside (Documents.share_file (B "/home/user/a.txt") false)) (B "doc/d1/a.txt"))
    as (id & file & root & runtime & _ & Hf & Hr & _ & Hg).
  - by_eval.
  - exact H.
  - apply exec_host_outcome. vm_compute. reflexivity.
  - by_eval.
  - injection Hr as <-. exists c, id, file, runtime. split; [exact Hf|exact Hg].
Defined.

End Deployment.
