(* ===== verification/HostSystem.v ===== *)
(** * HostSystem: the tasks of the portal host, interleaved

    The main task, the tasks of the guests and those of their D-Bus requests
    run on one executor and share the [OnceLock] statics.  A step is one call of
    one task; tasks are interleaved in any order.  The invariant is proved with
    a small program logic for the statics, by induction on the steps. *)

From S2P Require Import Prelude Effects Wp RustStd HostSys HostScenario HostProto Documents FileChooser HostMain.

Module HostSystem.
Import Proto HostMain.

(** ** The statics *)

Record statics := Statics {
  vsock_unix_path : option bytes;
  documents_proxy : option Z;
  file_chooser_proxy : option Z;
}.

Definition unset : statics := Statics None None None.

Definition get_static {V} (l : lock V) (st : statics) : option V :=
  match l in lock V return option V with
  | VSOCK_UNIX_PATH => vsock_unix_path st
  | DOCUMENTS_PROXY => documents_proxy st
  | FILE_CHOOSER_PROXY => file_chooser_proxy st
  end.

Definition put_static {V} (l : lock V) (v : V) (st : statics) : statics :=
  match l in lock V return V -> statics with
  | VSOCK_UNIX_PATH => fun v => Statics (Some v) (documents_proxy st) (file_chooser_proxy st)
  | DOCUMENTS_PROXY => fun v => Statics (vsock_unix_path st) (Some v) (file_chooser_proxy st)
  | FILE_CHOOSER_PROXY => fun v => Statics (vsock_unix_path st) (documents_proxy st) (Some v)
  end v.

(** [OnceLock::set]: only the first one takes effect. *)
Definition once_set {V} (l : lock V) (v : V) (st : statics) : bool * statics :=
  match get_static l st with
  | None => (true, put_static l v st)
  | Some _ => (false, st)
  end.

(** Which of the statics are set. *)
Record flags := Flags { has_path : bool; has_documents : bool; has_chooser : bool }.

Definition is_set {V} (l : lock V) (f : flags) : bool :=
  match l with
  | VSOCK_UNIX_PATH => has_path f
  | DOCUMENTS_PROXY => has_documents f
  | FILE_CHOOSER_PROXY => has_chooser f
  end.

Definition mark {V} (l : lock V) (f : flags) : flags :=
  match l with
  | VSOCK_UNIX_PATH => Flags true (has_documents f) (has_chooser f)
  | DOCUMENTS_PROXY => Flags (has_path f) true (has_chooser f)
  | FILE_CHOOSER_PROXY => Flags (has_path f) (has_documents f) true
  end.

Definition none_set : flags := Flags false false false.
Definition all_set : flags := Flags true true true.

Definition flags_of (st : statics) : flags :=
  Flags (bool_decide (is_Some (vsock_unix_path st)))
        (bool_decide (is_Some (documents_proxy st)))
        (bool_decide (is_Some (file_chooser_proxy st))).

Lemma is_set_flags_of {V} (l : lock V) st :
  is_set l (flags_of st) = bool_decide (is_Some (get_static l st)).
Proof. by destruct l. Qed.

Lemma flags_of_put {V} (l : lock V) v st : flags_of (put_static l v st) = mark l (flags_of st).
Proof. by destruct l. Qed.

Lemma is_set_all {V} (l : lock V) : is_set l all_set = true.
Proof. by destruct l. Qed.

Section System.
Context {FMT : Fmt} {ZB : Zbus} {CR : FileChooser.Crates} {ARGS : Args}.

(** ** The system *)

(** The share roots are those of the file choosers being served. *)
Record system := System {
  sys_statics : statics;
  sys_roots : list bytes;
  sys_main : prog host unit;
  sys_tasks : list (prog host unit);
}.

(** The root that a call starts to serve. *)
Definition new_root (ev : event host) : list bytes := (served_of ev).*2.

(** Calls that only involve the outside. *)
Definition external {X} (e : host X) : bool :=
  match e with OnceGet _ | OnceSet _ _ | SpawnTask _ => false | _ => true end.

(** One call of one task: the statics, the task, the new tasks after it, and
    the call with its answer. *)
Inductive task_step (fuel : nat) (st : statics)
  : prog host unit -> statics -> prog host unit -> list (prog host unit) -> event host -> Prop :=
| StepGet V (l : lock V) k :
    task_step fuel st (Vis (OnceGet l) k) st (k (get_static l st)) []
      (Event (OnceGet l) (get_static l st))
| StepSet V (l : lock V) v k :
    task_step fuel st (Vis (OnceSet l v) k) (once_set l v st).2 (k (once_set l v st).1) []
      (Event (OnceSet l v) (once_set l v st).1)
| StepSpawn conn k :
    task_step fuel st (Vis (SpawnTask conn) k) st (k tt) [guest_task fuel conn]
      (Event (SpawnTask conn) tt)
| StepExternal X (e : host X) k x :
    external e = true ->
    task_step fuel st (Vis e k) st (k x) [] (Event e x).

(** A step is a call of the main task or of another one, or the arrival of a
    request from a guest that is being served. *)
Inductive label :=
| Main (ev : event host)
| Task (i : nat) (ev : event host)
| Request (root : bytes).

Inductive step (fuel : nat) : system -> label -> system -> Prop :=
| MainStep st roots m tasks st' m' ts ev :
    task_step fuel st m st' m' ts ev ->
    step fuel (System st roots m tasks) (Main ev)
      (System st' (roots ++ new_root ev) m' (tasks ++ ts))
| TaskStep st roots m ts1 t ts2 st' t' ts ev :
    task_step fuel st t st' t' ts ev ->
    step fuel (System st roots m (ts1 ++ t :: ts2)) (Task (length ts1) ev)
      (System st' (roots ++ new_root ev) m (ts1 ++ t' :: ts2 ++ ts))
| RequestStep st roots m tasks root rq t :
    root ∈ roots -> t = open_task root rq \/ t = save_task root rq ->
    step fuel (System st roots m tasks) (Request root) (System st roots m (tasks ++ [t])).

Definition init_system (fuel : nat) : system := System unset [] (main fuel) [].

(** The runs of the system, with what happened in them. *)
Inductive runs (fuel : nat) : list label -> system -> Prop :=
| runs_init : runs fuel [] (init_system fuel)
| runs_step ls s l s' : runs fuel ls s -> step fuel s l s' -> runs fuel (ls ++ [l]) s'.

Definition reachable (fuel : nat) (s : system) : Prop := exists ls, runs fuel ls s.

(** ** A logic for the statics *)

(** What a call needs of the statics, and what holds after it. *)
Definition event_ok {X} (e : host X) (f : flags) : (X -> flags -> Prop) -> Prop :=
  match e in host X return (X -> flags -> Prop) -> Prop with
  | OnceGet l => fun K => is_set l f = true /\ forall v, K (Some v) f
  | OnceSet l _ => fun K => is_set l f = false /\ K true (mark l f)
  | SpawnTask _ => fun K => f = all_set /\ K tt f
  | BuildConnection _ _ _ root =>
      fun K => f = all_set /\ Path.is_absolute root = true /\ forall x, K x f
  | _ => fun K => forall x, K x f
  end.

#[export] Program Instance statics_spec : EventSpec host flags :=
  {| ev X e f K := event_ok e f K; halted _ _ := True |}.
Next Obligation. intros X e f K K' H. destruct e; simpl; naive_solver. Qed.

(** The calls of [p] find the statics as they expect, and [Q] holds at the end. *)
Abbreviation safe p f Q := (wp (SPEC := statics_spec) p f Q).

(** A program that leaves the statics as they are. *)
Definition keeps {A} (f : flags) (p : prog host A) : Prop := safe p f (fun _ f' => f' = f).

Lemma keeps_safe {A} f (p : prog host A) Q :
  keeps f p -> (forall a, Q a f) -> safe p f Q.
Proof. intros H HQ. eapply wp_mono; [|exact H]. by intros a f' ->. Qed.

Lemma safe_keeps_bind {A C} f (p : prog host A) (k : A -> prog host C) Q :
  keeps f p -> (forall a, safe (k a) f Q) -> safe (p ≫= k) f Q.
Proof. intros H HQ. apply wp_bind. by eapply keeps_safe. Qed.

Lemma keeps_ret {A} f (a : A) : keeps f (Ret a).
Proof. done. Qed.
Lemma keeps_halt {A} f s : keeps f (Halt s : prog host A).
Proof. done. Qed.
Lemma keeps_bind {A C} f (p : prog host A) (k : A -> prog host C) :
  keeps f p -> (forall a, keeps f (k a)) -> keeps f (p ≫= k).
Proof. intros H1 H2. by apply safe_keeps_bind. Qed.
Lemma keeps_call {X} f (e : host X) :
  match e with
  | OnceSet _ _ | SpawnTask _ | BuildConnection _ _ _ _ => False
  | OnceGet l => is_set l f = true
  | _ => True
  end -> keeps f (call e).
Proof. by destruct e. Qed.
Lemma keeps_map_err {A E F} f (g : E -> F) (p : prog host (result A E)) :
  keeps f p -> keeps f (map_err g p).
Proof. intros H. by apply keeps_bind. Qed.
Lemma keeps_get_unwrap {V} f (l : lock V) : is_set l f = true -> keeps f (get_unwrap l).
Proof. intros H. by split. Qed.

End System.

Abbreviation safe p f Q := (wp (SPEC := statics_spec) p f Q).

(** Follow the structure of a program that leaves the statics alone. *)
Create HintDb keeps discriminated.

Ltac keeping :=
  cbv beta;
  lazymatch goal with
  | |- keeps _ (mbind _ _) => apply keeps_bind; [keeping|intros; keeping]
  | |- keeps _ (mret _) => apply keeps_ret
  | |- keeps _ (Ret _) => apply keeps_ret
  | |- keeps _ (Halt _) => apply keeps_halt
  | |- keeps _ (map_err _ _) => apply keeps_map_err; keeping
  | |- keeps _ (call _) => apply keeps_call; solve [exact I | reflexivity]
  | |- keeps _ (get_unwrap _) => apply keeps_get_unwrap; reflexivity
  | |- keeps _ (match ?x with _ => _ end) => destruct x; keeping
  | _ => solve [auto with keeps nocore]
  end.

Section Tasks.
Context {FMT : Fmt} {ZB : Zbus} {CR : FileChooser.Crates} {ARGS : Args}.

(** *** What the tasks do with the statics *)

Lemma keeps_msg f e : keeps f (msg e).
Proof. unfold msg. keeping. Qed.
#[local] Hint Resolve keeps_msg : keeps.

Lemma keeps_receive_u32 f conn : keeps f (receive_u32 conn).
Proof. unfold receive_u32. keeping. Qed.
Lemma keeps_negotiate_version f conn : keeps f (negotiate_version conn).
Proof. unfold negotiate_version. keeping. Qed.
#[local] Hint Resolve keeps_receive_u32 keeps_negotiate_version : keeps.

Lemma keeps_receive_bytestring f conn : keeps f (receive_bytestring conn).
Proof. unfold receive_bytestring. keeping. Qed.
Lemma keeps_write_parts f v parts : keeps f (write_parts v parts).
Proof. induction parts; unfold write_parts; fold write_parts; keeping. Qed.
Lemma keeps_read_response f fuel v r n : keeps f (read_response fuel v r n).
Proof.
  revert r n. induction fuel; intros; unfold read_response; fold read_response; keeping.
Qed.
#[local] Hint Resolve keeps_receive_bytestring keeps_write_parts keeps_read_response : keeps.

Lemma keeps_connect_to_guest port : keeps all_set (connect_to_guest port).
Proof. unfold connect_to_guest. keeping. Qed.
Lemma keeps_message_loop f fuel bus : keeps f (message_loop fuel bus).
Proof. induction fuel; cbn [message_loop]; keeping. Qed.
#[local] Hint Resolve keeps_connect_to_guest keeps_message_loop : keeps.

Lemma keeps_after_report f fuel conn r told : keeps f (after_report fuel conn r told).
Proof. unfold after_report. keeping. Qed.

(** Only absolute roots are served. *)
Lemma keeps_guest_dbus_conn port root : keeps all_set (guest_dbus_conn port root).
Proof.
  unfold guest_dbus_conn. destruct (Path.is_relative root) eqn:Hr; [keeping|].
  apply keeps_bind; [keeping|]. intros [v|m]; [|keeping]. apply keeps_map_err.
  split; [done|]. split; [|done]. unfold Path.is_relative in Hr. by apply negb_false_iff in Hr.
Qed.
#[local] Hint Resolve keeps_after_report keeps_guest_dbus_conn : keeps.

Lemma keeps_guest_task fuel conn : keeps all_set (guest_task fuel conn).
Proof. unfold guest_task, run_guest_connection. keeping. Qed.

Lemma keeps_share_file p w : keeps all_set (Documents.share_file p w).
Proof. unfold Documents.share_file, Documents.not_shareable, unwrap_opt. keeping. Qed.
#[local] Hint Resolve keeps_share_file : keeps.

Lemma keeps_transform_all root w uris : keeps all_set (FileChooser.transform_all root w uris).
Proof.
  induction uris; cbn [FileChooser.transform_all]; [keeping|].
  unfold FileChooser.transform_uri, unwrap_opt. keeping.
Qed.
#[local] Hint Resolve keeps_transform_all : keeps.

Lemma keeps_transform_results root res w : keeps all_set (FileChooser.transform_results root res w).
Proof. unfold FileChooser.transform_results, FileChooser.transform_uris, unwrap_opt. keeping. Qed.
#[local] Hint Resolve keeps_transform_results : keeps.

Lemma keeps_requests root rq :
  keeps all_set (open_task root rq) /\ keeps all_set (save_task root rq).
Proof.
  unfold open_task, save_task, FileChooser.open_file, FileChooser.save_file,
    FileChooser.open_file_impl, FileChooser.save_file_impl, FileChooser.respond.
  split; keeping.
Qed.

(** *** The main task *)

Definition ends_anyhow {A} : A -> flags -> Prop := fun _ _ => True.

Lemma safe_initialize (Q : result unit bytes -> flags -> Prop) :
  Q (Ok tt) all_set -> (forall m, Q (Err m) (Flags true false false)) ->
  safe (initialize false) (Flags true false false) Q.
Proof.
  intros Hok Herr. unfold initialize, Documents.init, FileChooser.init, set_unwrap.
  apply safe_keeps_bind; [keeping|]. intros [session|m]; [|apply Herr].
  apply wp_bind, safe_keeps_bind; [keeping|]. intros [proxy|e]; [|done].
  apply wp_bind, wp_call. split; [done|].
  apply wp_bind, safe_keeps_bind; [keeping|]. intros [proxy'|e]; [|done].
  apply wp_bind, wp_call. by split.
Qed.

Lemma safe_accept_loop fuel :
  safe (accept_loop fuel true) all_set ends_anyhow /\
  safe (accept_loop fuel false) (Flags true false false) ends_anyhow.
Proof.
  induction fuel as [|fuel [IH1 IH2]]; [done|]. cbn [accept_loop]. split.
  - apply safe_keeps_bind; [keeping|]. intros [conn|e].
    + cbn [initialize]. by split.
    + apply safe_keeps_bind; [keeping|]. done.
  - apply safe_keeps_bind; [keeping|]. intros [conn|e].
    + apply wp_bind, safe_initialize; [|done]. by split.
    + apply safe_keeps_bind; [keeping|]. done.
Qed.

Lemma keeps_find_underscore f addr i : keeps f (find_underscore addr i).
Proof. induction i; cbn [find_underscore]; keeping. Qed.
#[local] Hint Resolve keeps_find_underscore : keeps.

Lemma safe_main fuel : safe (main fuel) none_set ends_anyhow.
Proof.
  unfold main, run, read_argv. apply wp_bind.
  apply safe_keeps_bind; [keeping|]. intros _.
  apply safe_keeps_bind; [keeping|]. intros [u|m]; [|apply safe_keeps_bind; [keeping|done]].
  apply safe_keeps_bind; [unfold listening_vsock_path; keeping|].
  intros [path|m]; [|apply safe_keeps_bind; [keeping|done]].
  unfold set_unwrap. apply wp_bind, wp_bind, wp_call. split; [done|].
  cbn [wp]. eapply wp_mono; [|apply (proj2 (safe_accept_loop fuel))]. intros [r|m] f _; [done|].
  apply safe_keeps_bind; [keeping|done].
Qed.

(** ** The invariant *)

Definition inv (s : system) : Prop :=
  safe (sys_main s) (flags_of (sys_statics s)) ends_anyhow /\
  Forall (fun t => safe t all_set ends_anyhow) (sys_tasks s) /\
  (sys_tasks s <> [] \/ sys_roots s <> [] -> flags_of (sys_statics s) = all_set) /\
  Forall (fun root => Path.is_absolute root = true) (sys_roots s).

Lemma task_step_inv fuel st t st' t' ts ev :
  task_step fuel st t st' t' ts ev -> safe t (flags_of st) ends_anyhow ->
  safe t' (flags_of st') ends_anyhow /\
  Forall (fun t => safe t all_set ends_anyhow) ts /\
  Forall (fun root => Path.is_absolute root = true) (new_root ev) /\
  (flags_of st = all_set -> flags_of st' = all_set) /\
  (ts <> [] \/ new_root ev <> [] -> flags_of st' = all_set).
Proof.
  intros [V l k|V l v k|conn k|X e k x He] Hs.
  - destruct Hs as [Hl Hk]. rewrite is_set_flags_of in Hl. apply bool_decide_eq_true in Hl as [v Hv].
    rewrite Hv. split_and!; try done. naive_solver.
  - destruct Hs as [Hl Hk]. rewrite is_set_flags_of in Hl. apply bool_decide_eq_false in Hl.
    unfold once_set. destruct (get_static l st) eqn:Hg; [by destruct Hl|]. simpl.
    rewrite flags_of_put. split_and!; try done; [|naive_solver]. intros Hf.
    pose proof (is_set_flags_of l st) as Hb. by rewrite Hf, is_set_all, Hg in Hb.
  - destruct Hs as [Hf Hk]. split_and!; try done. constructor; [|done].
    by apply keeps_safe; [apply keeps_guest_task|].
  - split_and!; [destruct e; simpl in *; naive_solver|done| |done|].
    + destruct e; try done. destruct Hs as (_ & Hr & _). destruct x; [|done]. by constructor.
    + intros [?|Hn]; [done|]. destruct e; try done. by destruct Hs as (Hf & _).
Qed.

Lemma inv_init fuel : inv (init_system fuel).
Proof.
  split; [apply safe_main|]. split; [done|]. split; [by intros [?|?]|done].
Qed.

Lemma inv_step fuel s l s' : step fuel s l s' -> inv s -> inv s'.
Proof.
  intros [st roots m tasks st' m' ts ev H|st roots m ts1 t ts2 st' t' ts ev H
         |st roots m tasks root rq t Hin Ht] (Hm & Hts & Hf & Hr); simpl in *.
  - apply task_step_inv in H as (Hm' & Hts' & Hr' & Hk & Hn); [|done].
    split_and!; simpl; [done|by apply Forall_app|..|by apply Forall_app].
    intros Hx. destruct ts as [|t ts]; [|by apply Hn; left].
    destruct (new_root ev) as [|r0 r]; [|by apply Hn; right]. rewrite !app_nil_r in Hx. auto.
  - assert (Hall : flags_of st = all_set) by (apply Hf; left; by destruct ts1).
    rewrite Forall_app, Forall_cons in Hts. destruct Hts as (H1 & Ht & H2).
    apply task_step_inv in H as (Ht' & Hts' & Hr' & Hk & _); [|by rewrite Hall].
    rewrite (Hk Hall) in Ht'. split_and!; simpl; [by rewrite (Hk Hall), <- Hall| |auto|by apply Forall_app].
    rewrite Forall_app, Forall_cons, Forall_app. auto.
  - assert (Hall : flags_of st = all_set) by (apply Hf; right; by destruct roots; [apply not_elem_of_nil in Hin|]).
    split_and!; simpl; [done| |done|done]. apply Forall_app. split; [done|]. constructor; [|done].
    destruct (keeps_requests root rq) as [Ho Hs].
    destruct Ht as [->| ->]; by apply keeps_safe.
Qed.

Lemma inv_reachable fuel s : reachable fuel s -> inv s.
Proof.
  intros [ls H]. induction H as [|ls s l s' _ IH Hs]; [apply inv_init|by eapply inv_step].
Qed.

(** A task that is about to use a static finds it as it expects. *)
Definition poised (st : statics) (t : prog host unit) : Prop :=
  match t with
  | Vis e _ => match e with
               | OnceGet l => is_Some (get_static l st)
               | OnceSet l _ => get_static l st = None
               | _ => True
               end
  | _ => True
  end.

Lemma safe_poised st t : safe t (flags_of st) ends_anyhow -> poised st t.
Proof.
  destruct t as [|s|X e k]; [done..|]. destruct e; simpl; try done; intros [Hl _];
    rewrite is_set_flags_of in Hl.
  - by apply bool_decide_eq_true in Hl.
  - apply bool_decide_eq_false in Hl. by apply eq_None_not_Some.
Qed.

(** C5. However the tasks of the host are interleaved, no [OnceLock] is ever
    read before it is set or set twice, so none of the [unwrap]s on them can
    panic: not in the main task, not in a guest's task, and not in a task that
    serves a request.  Every file chooser that is served has an absolute share
    root, as [FileChooser::new] requires. *)
Theorem statics_never_panic fuel s :
  reachable fuel s ->
  Forall (poised (sys_statics s)) (sys_main s :: sys_tasks s) /\
  Forall (fun root => Path.is_absolute root = true) (sys_roots s).
Proof.
  intros (Hm & Hts & Hf & Hr)%inv_reachable. split; [|done].
  constructor; [by apply safe_poised|].
  destruct (decide (sys_tasks s = [])) as [->|Hne]; [done|].
  rewrite <- (Hf (or_introl Hne)) in Hts.
  eapply Forall_impl; [exact Hts|]. intros t. apply safe_poised.
Qed.

End Tasks.

(** ** Running the system *)

Section Drive.
Context {FMT : Fmt} {ARGS : Args} {CR : FileChooser.Crates (H := plain_zbus)}.

(** A schedule says which task makes its next call, or which request arrives. *)
Inductive choice := DoMain | DoTask (i : nat) | DoOpen (root : bytes) (rq : request).

(** One call of a task, answered by the scenario. *)
Definition task_next (fuel : nat) (h : host_scenario) (st : statics) (t : prog host unit)
    (w : bytes * bytes)
  : option (statics * prog host unit * list (prog host unit) * event host * (bytes * bytes)) :=
  match t with
  | Vis e k =>
      match e in host X return (X -> prog host unit) -> _ with
      | OnceGet l => fun k =>
          Some (st, k (get_static l st), [], Event (OnceGet l) (get_static l st), w)
      | OnceSet l v => fun k =>
          Some ((once_set l v st).2, k (once_set l v st).1, [],
                Event (OnceSet l v) (once_set l v st).1, w)
      | SpawnTask conn => fun k =>
          Some (st, k tt, [guest_task fuel conn], Event (SpawnTask conn) tt, w)
      | e => fun k => let '(x, w') := outside h _ e w in Some (st, k x, [], Event e x, w')
      end k
  | _ => None
  end.

Lemma task_next_step fuel h st t w st' t' ts ev w' :
  task_next fuel h st t w = Some (st', t', ts, ev, w') -> task_step fuel st t st' t' ts ev.
Proof.
  destruct t as [u|s|X e k]; [done..|]. intros H.
  destruct e; cbn [task_next] in H;
    try (match type of H with context [outside ?h ?X ?e ?w] => destruct (outside h X e w) end);
    simplify_eq; try (by apply StepExternal); constructor.
Qed.

Definition choose (fuel : nat) (h : host_scenario) (c : choice) (s : system) (w : bytes * bytes)
  : option (label * system * (bytes * bytes)) :=
  match s with
  | System st roots m tasks =>
      match c with
      | DoMain =>
          match task_next fuel h st m w with
          | Some (st', m', ts, ev, w') =>
              Some (Main ev, System st' (roots ++ new_root ev) m' (tasks ++ ts), w')
          | None => None
          end
      | DoTask i =>
          match tasks !! i with
          | Some t =>
              match task_next fuel h st t w with
              | Some (st', t', ts, ev, w') =>
                  Some (Task (length (take i tasks)) ev,
                        System st' (roots ++ new_root ev) m (take i tasks ++ t' :: drop (S i) tasks ++ ts), w')
              | None => None
              end
          | None => None
          end
      | DoOpen root rq =>
          if decide (root ∈ roots)
          then Some (Request root, System st roots m (tasks ++ [open_task root rq]), w) else None
      end
  end.

Lemma choose_step fuel h c s w l s' w' : choose fuel h c s w = Some (l, s', w') -> step fuel s l s'.
Proof.
  destruct s as [st roots m tasks], c as [|i|root rq]; cbn [choose]; intros H.
  - destruct (task_next _ _ _ _ _) as [[[[[st' m'] ts] ev] w1]|] eqn:Ht; simplify_eq.
    apply MainStep. by eapply task_next_step.
  - destruct (tasks !! i) as [t|] eqn:Hi; [|done].
    destruct (task_next _ _ _ _ _) as [[[[[st' t'] ts] ev] w1]|] eqn:Ht; simplify_eq.
    rewrite <- (take_drop_middle tasks i t) at 1 by done. apply TaskStep. by eapply task_next_step.
  - case_decide; simplify_eq. eapply RequestStep; [done|by left].
Qed.

Fixpoint drive (fuel : nat) (h : host_scenario) (cs : list choice) (ls : list label) (s : system)
    (w : bytes * bytes) : option (list label * system) :=
  match cs with
  | [] => Some (ls, s)
  | c :: cs' =>
      match choose fuel h c s w with
      | Some (l, s', w') => drive fuel h cs' (ls ++ [l]) s' w'
      | None => None
      end
  end.

Lemma drive_runs fuel h cs ls s w ls' s' :
  runs fuel ls s -> drive fuel h cs ls s w = Some (ls', s') -> runs fuel ls' s'.
Proof.
  revert ls s w. induction cs as [|c cs IH]; intros ls s w Hr H; cbn [drive] in H; [by simplify_eq|].
  destruct (choose fuel h c s w) as [[[l s1] w1]|] eqn:Hc; [|done].
  eapply IH; [|exact H]. eapply runs_step; [exact Hr|]. by eapply choose_step.
Qed.

(** The run of a schedule, from the start. *)
Definition drive_all (fuel : nat) (h : host_scenario) (cs : list choice) : option (list label * system) :=
  drive fuel h cs [] (init_system fuel) (hs_conn h, hs_vsock h).

Lemma drive_all_runs fuel h cs ls s : drive_all fuel h cs = Some (ls, s) -> runs fuel ls s.
Proof. apply drive_runs, runs_init. Qed.

End Drive.

(** ** Example *)

#[local] Existing Instance plain_fmt.
#[local] Existing Instance FileChooser.plain_crates.
#[local] Instance no_args : Args := [].

(** The main task has found its vsock path, stored it, and accepts. *)
Lemma statics_never_panic_witness :
  exists s, reachable 1 s /\ vsock_unix_path (sys_statics s) = Some (B "/run/vm/web/vsock") /\
    Forall (poised (sys_statics s)) (sys_main s :: sys_tasks s).
Proof.
  assert (exists s, reachable 1 s /\ vsock_unix_path (sys_statics s) = Some (B "/run/vm/web/vsock"))
    as (s & Hr & Hp).
  { eexists. split.
    - eexists. eapply runs_step; [eapply runs_step; [eapply runs_step; [apply runs_init|]|]|].
      + eapply MainStep, (StepExternal _ _ _ _ _ (Ok tt)); reflexivity.
      + eapply MainStep, (StepExternal _ _ _ _ _ (Ok (Some (B "/run/vm/web/vsock_219")))); reflexivity.
      + eapply MainStep, StepSet.
    - vm_compute. reflexivity. }
  exists s. split; [exact Hr|]. split; [exact Hp|].
  destruct (statics_never_panic 1 s Hr) as [H _]. exact H.
Defined.



End HostSystem.
