(* ===== verification/Sharing.v ===== *)
(** * Sharing: the portal host implements a policy of consent

    An abstract specification of what the portal host may share: a vault, in
    which a file can be shared for a request only after the user has selected it
    for that very request, and for writing only if the user agreed to that.  The
    theorem is a refinement: every run of the host's interleaved tasks
    ([HostSystem.runs]) is a run of the vault. *)

From S2P Require Import Prelude Effects Wp RustStd HostSys HostScenario HostProto Documents FileChooser HostMain HostSystem.

Module Sharing.
Import Proto Documents FileChooser HostMain HostSystem.

(** ** The specification *)

(** What was allowed and what was done, each for a request, a file and whether
    for writing. *)
Record vault := Vault {
  consents : list (nat * bytes * bool);
  shared : list (nat * bytes * bool);
}.

Inductive action :=
| Consent (i : nat) (paths : list bytes) (writable : bool)
| Share (i : nat) (path : bytes) (writable : bool).

Inductive vault_step : vault -> action -> vault -> Prop :=
| VaultConsent v i paths w :
    vault_step v (Consent i paths w)
      (Vault (consents v ++ ((fun p => (i, p, w)) <$> paths)) (shared v))
| VaultShare v i p w w0 :
    (i, p, w0) ∈ consents v -> (w = true -> w0 = true) ->
    vault_step v (Share i p w) (Vault (consents v) (shared v ++ [(i, p, w)])).

Inductive vault_runs : list action -> vault -> Prop :=
| vault_init : vault_runs [] (Vault [] [])
| vault_next acts v a v' :
    vault_runs acts v -> vault_step v a v' -> vault_runs (acts ++ [a]) v'.

(** The user's consent to [Share i p w], among [acts]. *)
Definition consented (acts : list action) (i : nat) (p : bytes) (w : bool) : Prop :=
  exists paths w0, Consent i paths w0 ∈ acts /\ p ∈ paths /\ (w = true -> w0 = true).

Lemma vault_consents acts v :
  vault_runs acts v ->
  forall i p w, (i, p, w) ∈ consents v -> exists paths, Consent i paths w ∈ acts /\ p ∈ paths.
Proof.
  induction 1 as [|acts v a v' _ IH Hs]; intros i p w Hin; [by apply not_elem_of_nil in Hin|].
  destruct Hs as [v i' paths w'|v i' p' w' w0 _ _]; simpl in Hin.
  - apply elem_of_app in Hin as [Hin|(p' & [= -> -> ->] & Hp)%list_elem_of_fmap].
    + destruct (IH _ _ _ Hin) as (paths' & ? & ?). exists paths'. set_solver.
    + exists paths. set_solver.
  - destruct (IH _ _ _ Hin) as (paths' & ? & ?). exists paths'. set_solver.
Qed.

(** The policy: nothing is shared without the consent that came before it. *)
Lemma vault_policy acts v :
  vault_runs acts v ->
  forall pre i p w post, acts = pre ++ Share i p w :: post -> consented pre i p w.
Proof.
  induction 1 as [|acts v a v' Hr IH Hs]; intros pre i p w post E; [by destruct pre|].
  destruct post as [|b post _] using rev_ind.
  - apply app_inj_tail in E as [-> ->].
    remember (Share i p w) as a eqn:Ea. destruct Hs as [|v i' p' w' w0 Hc Hw]; simplify_eq.
    apply (vault_consents _ _ Hr) in Hc as (paths & Hin & Hp). by exists paths, w0.
  - rewrite app_comm_cons, app_assoc in E. apply app_inj_tail in E as [-> _]. by eapply IH.
Qed.

Section Refinement.
Context {FMT : Fmt} {ZB : Zbus} {CR : Crates} {ARGS : Args}.

(** ** What a run shows *)

(** The files in the results of a dialog, and whether they may be written. *)
Definition selected (results : vardict) : list bytes :=
  match results !! URIS ≫= uris_of with
  | Some uris => omap (fun uri => percent_decode <$> strip_prefix (B "file://") uri) uris
  | None => []
  end.

Definition allows_write (results : vardict) : bool :=
  match results !! WRITABLE with
  | Some v => match downcast_bool v with Ok b => b | Err _ => false end
  | None => false
  end.

Definition consent_of (ev : event host) : option (list bytes * bool) :=
  match ev with
  | Event e x => match e in host X return X -> option (list bytes * bool) with
                 | BackendOpenFile _ _ => fun r =>
                     match r with
                     | Ok (code, results) =>
                         if code =? XDG_DESKTOP_PORTAL_RESPONSE_SUCCESS
                         then Some (selected results, allows_write results) else None
                     | Err _ => None
                     end
                 | BackendSaveFile _ _ => fun r =>
                     match r with
                     | Ok (code, results) =>
                         if code =? XDG_DESKTOP_PORTAL_RESPONSE_SUCCESS
                         then Some (selected results, true) else None
                     | Err _ => None
                     end
                 | _ => fun _ => None
                 end x
  end.

Definition opened_of (ev : event host) : option (bytes * Z) :=
  match ev with
  | Event e x => match e in host X return X -> option (bytes * Z) with
                 | OpenDirPath p => fun r => match r with Ok fd => Some (p, fd) | Err _ => None end
                 | _ => fun _ => None
                 end x
  end.

(** What is known of a task from its calls: the last dialog that succeeded and
    the last directory that was opened. *)
Record session := Session {
  s_consent : option (list bytes * bool);
  s_dir : option (bytes * Z);
}.

Definition observe (g : session) (ev : event host) : session :=
  Session (match consent_of ev with Some c => Some c | None => s_consent g end)
          (match opened_of ev with Some d => Some d | None => s_dir g end).

Definition events_of (i : nat) (ls : list label) : list (event host) :=
  ls ≫= fun l => match l with Task j ev => if decide (j = i) then [ev] else [] | _ => [] end.

Definition session_of (i : nat) (ls : list label) : session :=
  fold_left observe (events_of i ls) (Session None None).

(** Calls that matter to the vault. *)
Definition sensitive {X} (e : host X) : bool :=
  match e with
  | AddNamedFull _ _ _ _ _ _ | BackendOpenFile _ _ | BackendSaveFile _ _ => true
  | _ => false
  end.
Definition sensitive_of (ev : event host) : list unit :=
  match ev with Event e _ => if sensitive e then [tt] else [] end.

(** [ls] shows the actions [acts].  A grant is for the file of the given name
    in the directory the task has last opened. *)
Inductive shows : list label -> list action -> Prop :=
| shows_nil : shows [] []
| shows_main ls acts ev :
    shows ls acts -> sensitive_of ev = [] -> shows (ls ++ [Main ev]) acts
| shows_request ls acts root : shows ls acts -> shows (ls ++ [Request root]) acts
| shows_other ls acts i ev :
    shows ls acts -> grant_of ev = [] -> consent_of ev = None -> shows (ls ++ [Task i ev]) acts
| shows_consent ls acts i ev paths w :
    shows ls acts -> consent_of ev = Some (paths, w) ->
    shows (ls ++ [Task i ev]) (acts ++ [Consent i paths w])
| shows_share ls acts i proxy fd name r path w dir :
    shows ls acts -> s_dir (session_of i ls) = Some (dir, fd) ->
    Path.parent path = Some dir -> Path.file_name path = Some name ->
    shows (ls ++ [Task i (Event (AddNamedFull proxy fd (name ++ [NUL])
                                   DOCUMENT_ADD_FLAGS_REUSE_EXISTING [] (permissions w)) r)])
      (acts ++ [Share i path w]).

(** ** A logic for sessions *)

(** A grant needs consent. *)
Definition permitted {X} (e : host X) (g : session) : Prop :=
  match e with
  | AddNamedFull _ fd filename flags app perms =>
      exists paths w0 path w dir name,
        s_consent g = Some (paths, w0) /\ path ∈ paths /\ (w = true -> w0 = true) /\
        s_dir g = Some (dir, fd) /\ Path.parent path = Some dir /\
        Path.file_name path = Some name /\ filename = name ++ [NUL] /\
        flags = DOCUMENT_ADD_FLAGS_REUSE_EXISTING /\ app = [] /\ perms = permissions w
  | _ => True
  end.

#[local] Program Instance session_spec : EventSpec host session :=
  {| ev X e g K := permitted e g /\ forall x, K x (observe g (Event e x)); halted _ _ := True |}.
Next Obligation. intros X e g K K' H [Hp Hk]. split; [done|]. auto. Qed.

(** [p] only grants what it may, whatever [c] was consented to. *)
Definition honest {A} (c : option (list bytes * bool)) (p : prog host A) : Prop :=
  forall g, s_consent g = c -> wp p g (fun _ g' => s_consent g' = c).

Lemma honest_ret {A} c (a : A) : honest c (Ret a).
Proof. by intros g. Qed.
Lemma honest_halt {A} c s : honest c (Halt s : prog host A).
Proof. done. Qed.
Lemma honest_bind {A C} c (p : prog host A) (k : A -> prog host C) :
  honest c p -> (forall a, honest c (k a)) -> honest c (p ≫= k).
Proof.
  intros Hp Hk g Hg. apply wp_bind. eapply wp_mono; [|by apply Hp]. intros a g' Hg'. by apply Hk.
Qed.
Lemma honest_map_err {A E F} c (f : E -> F) (p : prog host (result A E)) :
  honest c p -> honest c (map_err f p).
Proof. intros Hp. apply honest_bind; [done|]. intros. apply honest_ret. Qed.

Lemma host_inhabited X : host X -> inhabited X.
Proof.
  intros []; constructor;
    first [exact tt|exact true|exact None|exact (Ok tt)|exact (Ok 0)|exact (Ok [])|exact (Ok None)
          |exact (Ok ([], ∅))|exact (Ok (0, ∅))].
Qed.

Lemma quiet_next {T A X} (f : event host -> list T) (e : host X) (k : X -> prog host A) x :
  quiet f (Vis e k) -> quiet f (k x) /\ f (Event e x) = [].
Proof.
  intros Hq. assert (H : forall t o, exec (k x) t o -> f (Event e x) ++ (t ≫= f) = [])
    by (intros t o Ht; apply (Hq (Event e x :: t) o); by exists x, t).
  destruct (exec_total (k x) host_inhabited) as (t0 & o0 & H0).
  split; [intros t o Ht; apply H in Ht|apply H in H0]; [by apply app_nil in Ht as [_ ?]|].
  by apply app_nil in H0 as [? _].
Qed.

(** Programs that make no sensitive call are honest. *)
Lemma quiet_honest {A} c (p : prog host A) : quiet sensitive_of p -> honest c p.
Proof.
  induction p as [a|st|X e k IH]; intros Hq g Hg; [done..|].
  assert (Hs : sensitive e = false).
  { destruct (host_inhabited X e) as [x]. apply (quiet_next _ _ _ x) in Hq as [_ Hq].
    cbn in Hq. by destruct (sensitive e). }
  split; [by destruct e|]. intros x. apply IH; [by eapply quiet_next|]. by destruct e.
Qed.

Lemma honest_share_file paths w0 p w :
  p ∈ paths -> (w = true -> w0 = true) -> honest (Some (paths, w0)) (share_file p w).
Proof.
  intros Hp Hw. unfold share_file. apply honest_bind.
  { apply quiet_honest. unfold not_shareable. quieten. }
  intros [|]; [apply honest_ret|]. destruct (Path.parent p) as [parent|] eqn:Hpar; [|done].
  intros g Hg. split; [done|]. intros [fd|e]; [|done]. cbn.
  destruct (Path.file_name p) as [name|] eqn:Hn; [|done].
  split; [done|]. intros [proxy|]; [|done]. cbn. split.
  - exists paths, w0, p, w, parent, name. split_and!; done.
  - intros [[doc_id m]|e]; done.
Qed.

Lemma honest_transform_all paths w0 root w uris :
  (w = true -> w0 = true) ->
  omap (fun uri => percent_decode <$> strip_prefix (B "file://") uri) uris ⊆ paths ->
  honest (Some (paths, w0)) (transform_all root w uris).
Proof.
  intros Hw. induction uris as [|uri rest IH]; intros Hsub; [apply honest_ret|].
  cbn [transform_all omap list_omap] in *. apply honest_bind.
  - unfold transform_uri. destruct (strip_prefix _ uri) as [q|]; [|apply honest_ret]. cbn in Hsub.
    apply honest_bind; [apply honest_map_err, honest_share_file; [set_solver|done]|].
    intros [r|m]; [|apply honest_ret]. apply quiet_honest. unfold unwrap_opt. quieten.
  - intros [u|m]; [|apply honest_ret]. apply honest_bind.
    + apply IH. destruct (strip_prefix _ uri); cbn in Hsub; set_solver.
    + intros [us|m]; apply honest_ret.
Qed.

(** [let? a := mret r in ...] *)
Lemma honest_pure {A C E} c (r : result A E) (k : A -> prog host (result C E)) :
  (forall a, r = Ok a -> honest c (k a)) -> honest c (let? a := mret r in k a).
Proof. intros Hk. destruct r as [a|m]; [|apply honest_ret]. intros g Hg. by apply Hk. Qed.

Lemma honest_transform_results w0 root results w :
  (w = true -> w0 = true) ->
  honest (Some (selected results, w0)) (transform_results root results w).
Proof.
  intros Hw. unfold transform_results, transform_uris.
  destruct (results !! URIS) as [v|] eqn:Hv; [|apply honest_ret].
  apply honest_bind; [|intros [v'|m]; apply honest_ret].
  apply honest_pure. intros a Ha. apply honest_pure. intros uris Hu. apply honest_bind.
  - apply honest_transform_all; [done|]. unfold selected. rewrite Hv. cbv [mbind option_bind].
    unfold uris_of. destruct (downcast_array v) as [a'|]; [|done]. injection Ha as ->.
    destruct (array_strings a) as [us|]; [|done]. injection Hu as ->. done.
  - intros [us|m]; [|apply honest_ret]. apply quiet_honest. unfold unwrap_opt. quieten.
Qed.

(** Forwarding a request shares only what its dialog allowed. *)
Lemma forward_permitted root be writable cw g :
  (forall proxy g, permitted (be proxy) g) ->
  (forall proxy response results,
     consent_of (Event (be proxy) (Ok (response, results))) =
     if response =? XDG_DESKTOP_PORTAL_RESPONSE_SUCCESS then Some (selected results, cw results) else None) ->
  (forall results w, writable results = Ok w -> w = true -> cw results = true) ->
  wp (forward root be writable) g (fun _ _ => True).
Proof.
  intros Hp Hc Hw. split; [done|]. intros [proxy|]; [|done].
  apply wp_bind, wp_bind, wp_call. split; [apply Hp|]. intros [[response results]|e]; [|done].
  apply wp_ret. cbn [result_map_err]. specialize (Hc proxy response results).
  destruct (response =? _); [|by destruct (response =? _)].
  eapply wp_mono; [done|]. apply (honest_pure (Some (selected results, cw results)));
    [|unfold observe; by rewrite Hc].
  intros w Hww. apply honest_transform_results. by apply Hw.
Qed.

Lemma respond_permitted r g : wp (respond r) g (fun _ (_ : session) => True).
Proof.
  eapply wp_mono; [|apply (quiet_honest (s_consent g)); [|done]]; [done|]. unfold respond.
  assert (forall e, quiet sensitive_of (msg e)) by (intros; by apply msg_quiet). quieten.
Qed.

Lemma requests_permitted {LAWS : CratesLaws} root rq t g :
  t = open_task root rq \/ t = save_task root rq -> wp t g (fun _ _ => True).
Proof.
  intros [-> | ->]; unfold open_task, save_task;
    [rewrite open_file_forward|rewrite save_file_forward];
    apply wp_bind, wp_bind; (eapply wp_mono; [intros r g' _; apply respond_permitted|]).
  - apply (forward_permitted _ _ _ allows_write); [done..|]. intros results w Hw ->.
    unfold open_writable, allows_write in *. destruct (results !! WRITABLE) as [v|]; cbn in Hw.
    + by destruct (downcast_bool v); simplify_eq/=.
    + by rewrite downcast_from_bool in Hw.
  - by apply (forward_permitted _ _ _ (fun _ => true)).
Qed.

(** ** The simulation *)

Lemma session_snoc i ls l :
  session_of i (ls ++ [l]) =
  match l with
  | Task j ev => if decide (j = i) then observe (session_of i ls) ev else session_of i ls
  | _ => session_of i ls
  end.
Proof.
  unfold session_of, events_of. rewrite bind_app, fold_left_app.
  destruct l as [ev|j ev|root]; cbn; [done| |done]. unfold mbind. cbn. by case_decide.
Qed.

(** The vault follows what is seen of the run, and knows all consents. *)
Definition vault_follows (ls : list label) : Prop :=
  exists acts v, vault_runs acts v /\ shows ls acts /\
    forall i paths w p, s_consent (session_of i ls) = Some (paths, w) -> p ∈ paths ->
      (i, p, w) ∈ consents v.

Lemma vault_follows_task ls i X (e : host X) x :
  vault_follows ls -> permitted e (session_of i ls) ->
  vault_follows (ls ++ [Task i (Event e x)]).
Proof.
  intros (acts & v & Hv & Hs & Hc) Hp.
  destruct (consent_of (Event e x)) as [[paths w]|] eqn:Hco.
  - exists (acts ++ [Consent i paths w]). eexists.
    split; [by eapply vault_next; [exact Hv|apply VaultConsent]|].
    split; [by apply shows_consent|]. intros j paths' w' p. rewrite session_snoc. cbn [consents].
    case_decide as Hj; [subst j|intros; apply elem_of_app; left; by eapply Hc].
    unfold observe. rewrite Hco. intros [= <- <-] Hin. apply elem_of_app. right. set_solver.
  - assert (Hsame : forall j, s_consent (session_of j (ls ++ [Task i (Event e x)])) =
                              s_consent (session_of j ls)).
    { intros j. rewrite session_snoc. case_decide; [|done]. unfold observe. by rewrite Hco. }
    assert (Hg : grant_of (Event e x) = [] \/ exists proxy fd name flags app perms r,
      Event e x = Event (AddNamedFull proxy fd name flags app perms) r /\
      permitted (AddNamedFull proxy fd name flags app perms) (session_of i ls))
      by (destruct e; eauto 12).
    destruct Hg as [Hg|(proxy & fd & fname & flags & app & perms & r & Heq & Hp')].
    + exists acts, v. split; [done|]. split; [by apply shows_other|]. intros j. rewrite Hsame. apply Hc.
    + destruct Hp' as (paths & w0 & path & w & dir & name & Hcon & Hin & Hw & Hd & Hpar & Hn & -> & -> & -> & ->).
      exists (acts ++ [Share i path w]). eexists. split; [|split; [rewrite Heq; by eapply shows_share|]].
      * eapply vault_next; [exact Hv|]. eapply VaultShare; [by eapply Hc|done].
      * intros j. rewrite Hsame. apply Hc.
Qed.

Lemma vault_follows_aside ls l :
  vault_follows ls ->
  match l with Main ev => sensitive_of ev = [] | Task _ _ => False | Request _ => True end ->
  vault_follows (ls ++ [l]).
Proof.
  intros (acts & v & Hv & Hs & Hc) Hl. exists acts, v. split; [done|].
  destruct l as [ev|i ev|root]; [|done|]; (split; [by constructor|]);
    intros i; rewrite session_snoc; apply Hc.
Qed.

(** *** Tasks that make no sensitive calls *)

Lemma quiet_msg e : quiet sensitive_of (msg e).
Proof. by apply msg_quiet. Qed.
#[local] Hint Resolve quiet_msg : quiet.

Lemma quiet_guest_task fuel conn : quiet sensitive_of (guest_task fuel conn).
Proof.
  assert (Hi : forall v, ignores sensitive_of v) by done.
  assert (forall port, quiet sensitive_of (connect_to_guest port))
    by (intros port tr o H; by eapply connect_to_guest_quiet).
  pose proof (fun v => receive_u32_quiet _ v (Hi v)).
  pose proof (fun v => receive_bytestring_quiet _ v (Hi v)).
  pose proof (fun v => negotiate_version_quiet _ v (Hi v)).
  assert (forall r told, quiet sensitive_of (after_report fuel conn r told))
    by (intros; by apply after_report_quiet).
  unfold guest_task, run_guest_connection, guest_dbus_conn. quieten.
Qed.

Lemma quiet_main fuel : quiet sensitive_of (main fuel).
Proof.
  assert (Hf : forall addr i, quiet sensitive_of (find_underscore addr i))
    by (intros addr; induction i; cbn [find_underscore]; quieten).
  assert (Hin : forall b, quiet sensitive_of (initialize b)).
  { intros b. unfold initialize, Documents.init, FileChooser.init, set_unwrap. quieten. }
  assert (Ha : forall b, quiet sensitive_of (accept_loop fuel b))
    by (induction fuel; intros b; cbn [accept_loop]; quieten).
  unfold main, run, read_argv, listening_vsock_path, set_unwrap. quieten.
Qed.

(** *** Steps *)

Definition permitted_task (g : session) (t : prog host unit) : Prop := wp t g (fun _ _ => True).

Lemma permitted_guest_task fuel conn g : permitted_task g (guest_task fuel conn).
Proof.
  eapply wp_mono; [|apply (quiet_honest (s_consent g)); [|done]]; [done|]. apply quiet_guest_task.
Qed.

(** A task's step is a call it is permitted, and new tasks are permitted theirs. *)
Lemma task_step_permitted fuel st t st' t' ts ev g :
  task_step fuel st t st' t' ts ev -> permitted_task g t ->
  (exists X (e : host X) x, ev = Event e x /\ permitted e g) /\
  permitted_task (observe g ev) t' /\ forall g', Forall (permitted_task g') ts.
Proof.
  intros [V l k|V l v k|conn k|X e k x He] [Hp Hk];
    (split; [by eexists _, _, _|]); (split; [by apply Hk|]); intros g'; try done.
  constructor; [apply permitted_guest_task|done].
Qed.

Lemma task_step_quiet fuel st t st' t' ts ev :
  task_step fuel st t st' t' ts ev -> quiet sensitive_of t ->
  sensitive_of ev = [] /\ quiet sensitive_of t' /\ forall g', Forall (permitted_task g') ts.
Proof.
  intros [V l k|V l v k|conn k|X e k x He] Hq;
    (split; [by eapply quiet_next|]); (split; [by eapply quiet_next|]); intros g'; try done.
  constructor; [apply permitted_guest_task|done].
Qed.

(** The simulation relation. *)
Definition simulated (ls : list label) (s : system) : Prop :=
  quiet sensitive_of (sys_main s) /\
  (forall i t, sys_tasks s !! i = Some t -> permitted_task (session_of i ls) t) /\
  vault_follows ls.

Lemma step_simulated {LAWS : CratesLaws} fuel ls s l s' :
  step fuel s l s' -> simulated ls s -> simulated (ls ++ [l]) s'.
Proof.
  intros [st roots m tasks st' m' ts ev H|st roots m ts1 t ts2 st' t' ts ev H
         |st roots m tasks root rq t Hin Ht] (Hm & Hts & Hv); simpl in *.
  - apply task_step_quiet in H as (Hev & Hm' & Hnew); [|done].
    split; [done|]. split; [|by apply vault_follows_aside].
    intros i t Hi. rewrite session_snoc. simpl in Hi. apply lookup_app_Some in Hi as [Hi|[_ Hi]]; [by apply Hts|].
    by eapply Forall_lookup_1 in Hi; [|apply Hnew].
  - assert (Ht : permitted_task (session_of (length ts1) ls) t) by (apply Hts; by apply list_lookup_middle).
    apply (task_step_permitted _ _ _ _ _ _ _ _ H) in Ht as ((X & e & x & -> & Hp) & Ht & Hnew).
    split; [done|]. split; [|by apply vault_follows_task].
    intros i t0 Hi. rewrite session_snoc. simpl in Hi.
    case_decide as Hj; [subst i; rewrite list_lookup_middle in Hi by done; by simplify_eq|].
    rewrite app_comm_cons, app_assoc in Hi. apply lookup_app_Some in Hi as [Hi|[_ Hi]].
    + apply Hts. revert Hi. rewrite !lookup_app. case_match; [done|].
      destruct (i - length ts1)%nat eqn:E; [|done].
      match goal with H : ts1 !! i = None |- _ => apply lookup_ge_None in H end. lia.
    + by eapply Forall_lookup_1 in Hi; [|apply Hnew].
  - split; [done|]. split; [|by apply vault_follows_aside].
    intros i t0 Hi. rewrite session_snoc. simpl in Hi.
    apply lookup_app_Some in Hi as [Hi|[_ Hi]]; [by apply Hts|].
    apply list_lookup_singleton_Some in Hi as [_ <-]. by eapply requests_permitted.
Qed.

(** C3. The portal host implements the policy of consent.  However its tasks
    are interleaved, and whatever the guests, the user and the bus do, every run
    of the host is a run of the vault: each grant that is asked of the document
    portal is for a file that the user selected before, in the dialog of the same
    request, and is for writing only if the user agreed to that.  No guest's
    request can use the consent given to another's. *)
Theorem sharing_refines_vault {LAWS : CratesLaws} fuel ls s :
  runs fuel ls s ->
  exists acts v, vault_runs acts v /\ shows ls acts /\
    forall pre i p w post, acts = pre ++ Share i p w :: post -> consented pre i p w.
Proof.
  intros H. assert (Hs : simulated ls s).
  { induction H as [|ls s l s' _ IH Hs]; [|by eapply step_simulated].
    split; [apply quiet_main|]. split; [done|].
    exists [], (Vault [] []). split; [constructor|]. by split; [constructor|]. }
  destruct Hs as (_ & _ & acts & v & Hv & Hsh & _). exists acts, v.
  split_and!; [done..|]. by eapply vault_policy.
Qed.

End Refinement.

(** ** Example *)

#[local] Existing Instance plain_fmt.
#[local] Existing Instance plain_crates.
#[local] Existing Instance plain_laws.
#[local] Instance no_args : Args := [].

(** A guest connects and asks for a file; the user selects one, for writing. *)
Definition selecting_guest : host_scenario := {|
  hs_conn := handshake [Byte.x01] 1024 (B "/run/share"); hs_vsock := ok_line 5678;
  hs_response := 0;
  hs_results := <[URIS := PStrings [B "file:///home/u/a.txt"]]> {[WRITABLE := PBool true]} |}.

Definition schedule : list choice :=
  replicate 10 DoMain ++ replicate 17 (DoTask 0) ++ [DoOpen (B "/run/share") some_request]
  ++ replicate 7 (DoTask 1) ++ [DoMain].

Definition grants_in (ls : list label) : list (nat * grant) :=
  ls ≫= fun l => match l with Task i ev => pair i <$> grant_of ev | _ => [] end.

(** The run ends with a grant for the request, and is one of the vault. *)
Lemma sharing_refines_vault_witness :
  exists ls s acts v,
    drive_all 2 selecting_guest schedule = Some (ls, s) /\
    grants_in ls = [(1%nat, (13, B "a.txt" ++ [NUL], [], permissions true))] /\
    vault_runs acts v /\ shows ls acts.
Proof.
  assert (Hg : (fun r => grants_in r.1) <$> drive_all 2 selecting_guest schedule
               = Some [(1%nat, (13, B "a.txt" ++ [NUL], [], permissions true))])
    by (vm_compute; reflexivity).
  destruct (drive_all 2 selecting_guest schedule) as [[ls s]|] eqn:Hd; [|discriminate Hg].
  destruct (sharing_refines_vault 2 ls s (drive_all_runs _ _ _ _ _ Hd)) as (acts & v & Hv & Hs & _).
  exists ls, s, acts, v. split; [reflexivity|]. split; [|split; assumption].
  apply (inj Some). exact Hg.
Defined.

End Sharing.
