(* ===== verification/Lseek.v ===== *)
(** * Lseek: moving a file offset for another program ([tools/lseek/lseek.c])

    [lseek [ -C | -E | -S ] fd offset prog...] moves the offset of an inherited
    descriptor and becomes another program. *)

From S2P Require Import Prelude Effects RustStd HostSys HostScenario HostProto Guest.

Module Lseek.
Import Guest.

Definition SEEK_SET : Z := 0.
Definition SEEK_CUR : Z := 1.
Definition SEEK_END : Z := 2.
Definition INT_MAX : Z := 2 ^ 31 - 1.
Definition LONG_MIN : Z := - 2 ^ 63.
Definition MINUS : byte := Byte.x2d.

(** [Execvp] answers [None] when it succeeds; its file is [None] for a null
    pointer. *)
Inductive seek : Type -> Type :=
| BadOption (c : byte) : seek unit
| Complain (text : bytes) : seek unit
| LSeek (fd offset whence : Z) : seek (result Z Z)
| Execvp (file : option bytes) (argv : list bytes) : seek (option Z).

(** ** [getopt(argc, argv, "+CES")]

    The plus sign stops it at the first argument that is not an option. *)

Definition option_whence (c : byte) : option Z :=
  if decide (c = Byte.x43) then Some SEEK_CUR
  else if decide (c = Byte.x45) then Some SEEK_END
  else if decide (c = Byte.x53) then Some SEEK_SET
  else None.

(** The letters of one argument; an unknown one is returned. *)
Fixpoint getopt_letters (cs : bytes) (whence : Z) : result Z byte :=
  match cs with
  | [] => Ok whence
  | c :: cs' => match option_whence c with
                | Some w => getopt_letters cs' w
                | None => Err c
                end
  end.

Fixpoint getopt_loop (args : list bytes) (optind : nat) (whence : Z) : result (Z * nat) byte :=
  match args with
  | [] => Ok (whence, optind)
  | arg :: rest =>
      match arg with
      | c :: ((_ :: _) as letters) =>
          if decide (c = MINUS) then
            if decide (letters = [MINUS]) then Ok (whence, S optind)
            else match getopt_letters letters whence with
                 | Ok w => getopt_loop rest (S optind) w
                 | Err bad => Err bad
                 end
          else Ok (whence, optind)
      | _ => Ok (whence, optind)
      end
  end.

(** ** [strtol(s, NULL, 10)] *)

Definition is_space (c : byte) : bool := (u8_val c =? 32) || ((9 <=? u8_val c) && (u8_val c <=? 13)).

Fixpoint skip_spaces (s : bytes) : bytes :=
  match s with c :: s' => if is_space c then skip_spaces s' else s | [] => [] end.

Section Program.
(** Whether the C library reports a string without digits ([EINVAL]). *)
Variable no_digits_is_error : bool.

(** The value, and whether [errno] was set. *)
Definition strtol (s : bytes) : Z * bool :=
  let s := skip_spaces s in
  let '(negative, s) :=
    match s with
    | c :: s' => if decide (c = MINUS) then (true, s')
                 else if decide (c = Byte.x2b) then (false, s') else (false, s)
    | [] => (false, s)
    end in
  let ds := digits s in
  let v := if negative : bool then - dec_value ds else dec_value ds in
  match ds with
  | [] => (0, no_digits_is_error)
  | _ => if LONG_MAX <? v then (LONG_MAX, true)
         else if v <? LONG_MIN then (LONG_MIN, true)
         else (v, false)
  end.

(** The conversion of a [long] to [off_t]. *)
Definition to_off_t (n : Z) : Z := (n + 2 ^ 63) mod 2 ^ 64 - 2 ^ 63.

Definition errx {A} (text : bytes) : prog seek A :=
  let* _ := call (Complain text) in Halt (Exit 1).

Definition ex_usage {A} : prog seek A :=
  errx (B "Usage: lseek [ -C | -E | -S ] fd offset prog...").

(** The end of [main]. *)
Definition seek_and_run (fd offset whence : Z) (file : option bytes) (argv : list bytes) : prog seek Z :=
  let* r := call (LSeek fd offset whence) in
  match r with
  | Err _ => errx []
  | Ok _ =>
      let* x := call (Execvp file argv) in
      match x with None => Halt Replaced | Some _ => errx (B "exec") end
  end.

Definition main (argv : list bytes) : prog seek Z :=
  match getopt_loop (tail argv) 1 SEEK_CUR with
  | Err c => let* _ := call (BadOption c) in ex_usage
  | Ok (whence, optind) =>
      if Z.of_nat (length argv) - 2 <? Z.of_nat optind then ex_usage
      else
        match argv !! optind, argv !! S optind with
        | Some fd_arg, Some offset_arg =>
            let '(fd, _) := strtol fd_arg in
            if (fd <? 0) || (INT_MAX <? fd) then errx (B "Bad file descriptor")
            else
              let '(offset, errno) := strtol offset_arg in
              if errno : bool then errx (B "bad offset: " ++ offset_arg)
              else if negb (offset =? to_off_t offset) then errx (B "Invalid argument")
              else seek_and_run fd offset whence (argv !! (S (S optind))) (drop (S (S optind)) argv)
        | _, _ => Halt Panic
        end
  end.

(** ** Properties *)

(** A number as it is written on a command line. *)
Definition sdec (z : Z) : bytes := if z <? 0 then MINUS :: dec (- z) else dec z.

Lemma digit_starts n : 0 <= n -> exists c s, dec n = c :: s /\ is_digit c = true.
Proof.
  intros Hn. pose proof (dec_nonempty n Hn). pose proof (dec_all_digits n Hn) as Hd.
  destruct (dec n) as [|c s]; [done|]. apply Forall_cons in Hd as [Hc _]. eauto.
Qed.

Lemma digit_plain c : is_digit c = true -> is_space c = false /\ c <> MINUS /\ c <> Byte.x2b.
Proof. by destruct c. Qed.

Lemma strtol_sdec z : LONG_MIN <= z <= LONG_MAX -> strtol (sdec z) = (z, false).
Proof.
  intros Hz. unfold sdec, strtol. destruct (Z.ltb_spec z 0) as [Hneg|Hpos].
  - cbn [skip_spaces]. change (is_space MINUS) with false. cbv iota.
    destruct (decide (MINUS = MINUS)); [|done].
    destruct (digit_starts (- z) ltac:(lia)) as (c & s & Hd & Hc).
    rewrite digits_all by (apply dec_all_digits; lia). rewrite dec_value_dec by lia.
    rewrite Hd. rewrite Z.opp_involutive.
    destruct (Z.ltb_spec LONG_MAX z); [lia|]. destruct (Z.ltb_spec z LONG_MIN); [lia|]. done.
  - destruct (digit_starts z Hpos) as (c & s & Hd & Hc). destruct (digit_plain c Hc) as (Hs & Hm & Hp).
    assert (Hskip : skip_spaces (dec z) = dec z) by (rewrite Hd; simpl; by rewrite Hs).
    rewrite Hskip. rewrite Hd at 1. destruct (decide (c = MINUS)); [done|].
    destruct (decide (c = Byte.x2b)); [done|].
    rewrite digits_all by (by apply dec_all_digits). rewrite dec_value_dec by lia. rewrite Hd.
    destruct (Z.ltb_spec LONG_MAX z); [lia|]. destruct (Z.ltb_spec z LONG_MIN); [lia|]. done.
Qed.

(** Options given one by one, each an argument of its own. *)
Definition is_option (c : byte) : Prop := is_Some (option_whence c).
Definition option_args (letters : bytes) : list bytes := (fun c => [MINUS; c]) <$> letters.

(** The options that there are, as the usage names them. *)
Inductive seek_option := OptC | OptE | OptS.
Definition letter (o : seek_option) : byte :=
  match o with OptC => Byte.x43 | OptE => Byte.x45 | OptS => Byte.x53 end.

(** From where the offset is counted: the last option decides, and without one it
    is the current offset. *)
Definition counted_from (opts : list seek_option) : Z :=
  match last opts with Some OptS => 0 | Some OptE => 2 | Some OptC | None => 1 end.

Lemma letters_are_options opts : Forall is_option (letter <$> opts).
Proof. apply Forall_fmap, Forall_forall. intros [] _; by eexists. Qed.

Lemma last_option_counts opts :
  fold_left (fun w c => default w (option_whence c)) (letter <$> opts) SEEK_CUR = counted_from opts.
Proof.
  induction opts as [|o opts _] using rev_ind; [done|].
  rewrite fmap_app, fold_left_app. unfold counted_from. rewrite last_snoc. by destruct o.
Qed.

Lemma getopt_options letters arg rest n w :
  Forall is_option letters -> (exists c s, arg = c :: s /\ c <> MINUS) ->
  getopt_loop (option_args letters ++ arg :: rest) n w =
  Ok (fold_left (fun w c => default w (option_whence c)) letters w, (n + length letters)%nat).
Proof.
  intros Hl (c & s & -> & Hc). revert n w.
  induction Hl as [|l letters [v Hv] _ IH]; intros n w.
  - rewrite Nat.add_0_r. cbn. destruct s as [|b s]; [done|]. by destruct (decide (c = MINUS)).
  - change (option_args (l :: letters)) with ([MINUS; l] :: option_args letters).
    cbn [app getopt_loop]. destruct (decide (MINUS = MINUS)); [|done].
    destruct (decide ([l] = [MINUS])) as [E|_].
    { injection E as ->. by vm_compute in Hv. }
    cbn [getopt_letters fold_left]. rewrite Hv. cbn [default length]. rewrite IH.
    by rewrite Nat.add_succ_r.
Qed.

Lemma getopt_optind args n w w' n' :
  getopt_loop args n w = Ok (w', n') -> (n <= n' <= n + length args)%nat.
Proof.
  revert n w. induction args as [|arg args IH]; intros n w H; cbn in H; [simplify_eq; simpl; lia|].
  simpl. repeat case_match; simplify_eq; try lia. apply IH in H. lia.
Qed.

(** Only options come before the descriptor. *)
Lemma getopt_before args n w w' n' :
  getopt_loop args n w = Ok (w', n') -> Forall (fun arg => head arg = Some MINUS) (take (n' - n) args).
Proof.
  revert n w. induction args as [|arg args IH]; intros n w H; pose proof (getopt_optind _ _ _ _ _ H) as Hi;
    cbn in H; [by rewrite take_nil|].
  destruct arg as [|c [|c' letters]]; simplify_eq; [by rewrite Nat.sub_diag..|].
  destruct (decide (c = MINUS)) as [->|_]; simplify_eq; [|by rewrite Nat.sub_diag].
  destruct (decide _); simplify_eq.
  { rewrite Nat.sub_succ_l, Nat.sub_diag by done. simpl. by repeat constructor. }
  destruct (getopt_letters _ w) as [w1|]; [|done]. pose proof (getopt_optind _ _ _ _ _ H).
  replace (n' - n)%nat with (S (n' - S n)) by lia. simpl. constructor; [done|]. by eapply IH.
Qed.

(** The arguments are found where they are. *)
Lemma main_parses name opts fd offset rest :
  0 <= fd <= INT_MAX -> LONG_MIN <= offset <= LONG_MAX ->
  main (name :: option_args (letter <$> opts) ++ dec fd :: sdec offset :: rest) =
  seek_and_run fd offset (counted_from opts) (head rest) rest.
Proof.
  intros Hfd Hoff. pose proof (letters_are_options opts) as Hl. rewrite <- last_option_counts.
  set (letters := letter <$> opts) in *. unfold main. cbn [tail]. destruct (digit_starts fd ltac:(lia)) as (c & s & Hd & Hc).
  rewrite getopt_options; [|done|exists c, s; split; [done|by apply digit_plain]].
  assert (Hlen : length (option_args letters) = length letters) by apply length_fmap.
  set (argv := name :: _).
  assert (Hargv : argv = (name :: option_args letters) ++ dec fd :: sdec offset :: rest) by done.
  assert (Hlook : forall i, argv !! (1 + length letters + i)%nat = (dec fd :: sdec offset :: rest) !! i).
  { intros i. rewrite Hargv, lookup_app_r by (cbn [length]; lia). f_equal. cbn [length]. lia. }
  assert (Hdrop : drop (1 + length letters + 2) argv = rest).
  { rewrite Hargv, (drop_app_add' _ _ _ 2) by (cbn [length]; lia). done. }
  assert (Z.of_nat (length argv) - 2 <? Z.of_nat (1 + length letters) = false) as ->
    by (apply Z.ltb_ge; rewrite Hargv, length_app; cbn [length]; rewrite Hlen; lia).
  pose proof (Hlook 0%nat) as H0. pose proof (Hlook 1%nat) as H1. pose proof (Hlook 2%nat) as H2.
  rewrite Nat.add_0_r in H0. rewrite Nat.add_1_r in H1. rewrite H0, H1. cbn [lookup list_lookup].
  assert (Hsd : strtol (dec fd) = (fd, false)).
  { rewrite <- (strtol_sdec fd) by (unfold LONG_MIN, LONG_MAX, INT_MAX in *; lia). unfold sdec.
    by rewrite (proj2 (Z.ltb_ge fd 0)) by lia. }
  rewrite Hsd, strtol_sdec by done.
  rewrite (proj2 (Z.ltb_ge fd 0)), (proj2 (Z.ltb_ge INT_MAX fd)) by lia. cbn [orb].
  assert (offset =? to_off_t offset = true) as ->.
  { apply Z.eqb_eq. unfold to_off_t, LONG_MIN, LONG_MAX in *. rewrite Z.mod_small by lia. lia. }
  cbn [negb]. replace (S (S (1 + length letters))) with (1 + length letters + 2)%nat by lia.
  rewrite H2, Hdrop. by destruct rest.
Qed.

(** The programs that have been run. *)
Definition ran (ev : event seek) : list (option bytes * list bytes) :=
  match ev with
  | Event e x => match e in seek X return X -> list (option bytes * list bytes) with
                 | Execvp file argv => fun r => match r with None => [(file, argv)] | Some _ => [] end
                 | _ => fun _ => []
                 end x
  end.

Lemma errx_exec {A} text tr (o : outcome A) :
  exec (errx text) tr o <-> exists x, tr = [Event (Complain text) x] /\ o = Stopped (Exit 1).
Proof. split; [by intros (x & t & -> & -> & ->); exists x|intros (x & -> & ->); by exists x, []]. Qed.

Lemma errx_ends {A} text tr (o : outcome A) : exec (errx text) tr o -> o = Stopped (Exit 1) /\ tr ≫= ran = [].
Proof. by intros (x & -> & ->)%errx_exec. Qed.

(** One call of [lseek] and, if it succeeds, the program; a failure of either is
    reported. *)
Inductive seeks (fd offset whence : Z) (file : option bytes) (argv : list bytes) :
    list (event seek) -> outcome Z -> Prop :=
| SoughtAndRan pos :
    seeks fd offset whence file argv
      [Event (LSeek fd offset whence) (Ok pos); Event (Execvp file argv) None] (Stopped Replaced)
| SeekRefused en :
    seeks fd offset whence file argv
      [Event (LSeek fd offset whence) (Err en); Event (Complain []) tt] (Stopped (Exit 1))
| ExecRefused pos en :
    seeks fd offset whence file argv
      [Event (LSeek fd offset whence) (Ok pos); Event (Execvp file argv) (Some en);
       Event (Complain (B "exec")) tt] (Stopped (Exit 1)).

Lemma seek_and_run_exec fd offset whence file argv tr o :
  exec (seek_and_run fd offset whence file argv) tr o <-> seeks fd offset whence file argv tr o.
Proof.
  split.
  - intros (r & t & -> & H). destruct r as [pos|en]; [|apply errx_exec in H as ([] & -> & ->); constructor].
    destruct H as (x & t' & -> & H). destruct x as [en|]; [apply errx_exec in H as ([] & -> & ->); constructor|].
    destruct H as [-> ->]. constructor.
  - intros [pos|en|pos en]; eexists _, _; (split; [reflexivity|]).
    + eexists _, _. by split.
    + apply errx_exec. by exists tt.
    + eexists _, _. split; [reflexivity|]. apply errx_exec. by exists tt.
Qed.

(** Whatever the arguments are: a program is run only after a successful seek,
    with the descriptor and the offset that come before it, which follow the
    options. *)
Lemma main_exec argv tr o :
  exec (main argv) tr o ->
  (o = Stopped (Exit 1) /\ tr ≫= ran = []) \/
  exists n fd_arg offset_arg fd e offset whence pos,
    Forall (fun arg => head arg = Some MINUS) (take n (tail argv)) /\
    tail argv !! n = Some fd_arg /\ tail argv !! (n + 1)%nat = Some offset_arg /\
    strtol fd_arg = (fd, e) /\ 0 <= fd <= INT_MAX /\ strtol offset_arg = (offset, false) /\
    o = Stopped Replaced /\
    tr = [Event (LSeek fd offset whence) (Ok pos);
          Event (Execvp (tail argv !! (n + 2)%nat) (drop (n + 2) (tail argv))) None].
Proof.
  unfold main. intros H. destruct (getopt_loop (tail argv) 1 SEEK_CUR) as [[whence optind]|c] eqn:Hg.
  2: { destruct H as (x & t & -> & H). left. by apply errx_ends in H. }
  pose proof (getopt_optind _ _ _ _ _ Hg) as Hi. pose proof (getopt_before _ _ _ _ _ Hg) as Hb.
  destruct (Z.ltb_spec (Z.of_nat (length argv) - 2) (Z.of_nat optind)) as [Hlt|Hlt];
    [left; by eapply errx_ends|].
  destruct argv as [|name args]; [simpl in Hlt; lia|]. destruct optind as [|n]; [lia|].
  cbn [tail length] in *. rewrite Nat.sub_succ, Nat.sub_0_r in Hb.
  destruct (lookup_lt_is_Some_2 args n ltac:(lia)) as [fd_arg Hf].
  destruct (lookup_lt_is_Some_2 args (n + 1) ltac:(lia)) as [offset_arg Ho].
  rewrite Nat.add_1_r in Ho.
  assert (Hat : forall i, (name :: args) !! S i = args !! i) by done.
  rewrite !Hat, Hf, Ho in H.
  destruct (strtol fd_arg) as [fd e1] eqn:Hfd.
  destruct (Z.ltb_spec fd 0); cbn [orb] in H; [left; by eapply errx_ends|].
  destruct (Z.ltb_spec INT_MAX fd); [left; by eapply errx_ends|].
  destruct (strtol offset_arg) as [offset e2] eqn:Hoff.
  destruct e2; [left; by eapply errx_ends|]. destruct (negb _); [left; by eapply errx_ends|].
  apply seek_and_run_exec in H. destruct H as [pos|en|pos en]; [right|by left..].
  exists n, fd_arg, offset_arg, fd, e1, offset, whence, pos. rewrite Nat.add_1_r, (Nat.add_comm n 2).
  by split_and!.
Qed.

(** C33. [lseek] does what its usage says: for every descriptor, every offset
    that fits a [long], negative ones included, and any sequence of options, of
    which the last counts, it calls [lseek] with that descriptor, that offset and
    that origin, then, if the call succeeds, executes the program with the
    arguments that follow, and does nothing else but to report that one of the
    two failed.  Whatever its arguments are, it ends with status 1 without
    running anything, or it has sought as the two arguments after the options
    say, and has become the program that follows them.  But the check of the
    number of arguments is off by one: without a program it still moves the
    offset, and then executes a null pointer instead of printing its usage. *)
Theorem lseek_then_exec name opts fd offset :
  0 <= fd <= INT_MAX -> LONG_MIN <= offset <= LONG_MAX ->
  (forall file args tr o,
     exec (main (name :: option_args (letter <$> opts) ++ dec fd :: sdec offset :: file :: args)) tr o <->
     seeks fd offset (counted_from opts) (Some file) (file :: args) tr o) /\
  (forall tr o,
     exec (main (name :: option_args (letter <$> opts) ++ [dec fd; sdec offset])) tr o <->
     seeks fd offset (counted_from opts) None [] tr o) /\
  (forall argv tr o, exec (main argv) tr o ->
     (o = Stopped (Exit 1) /\ tr ≫= ran = []) \/
     exists n fd_arg offset_arg fd e offset whence pos,
       Forall (fun arg => head arg = Some MINUS) (take n (tail argv)) /\
       tail argv !! n = Some fd_arg /\ tail argv !! (n + 1)%nat = Some offset_arg /\
       strtol fd_arg = (fd, e) /\ 0 <= fd <= INT_MAX /\ strtol offset_arg = (offset, false) /\
       o = Stopped Replaced /\
       tr = [Event (LSeek fd offset whence) (Ok pos);
             Event (Execvp (tail argv !! (n + 2)%nat) (drop (n + 2) (tail argv))) None]).
Proof.
  intros Hfd Hoff. split_and!.
  - intros file args tr o. rewrite (main_parses name opts fd offset (file :: args)) by done. apply seek_and_run_exec.
  - intros tr o. rewrite (main_parses name opts fd offset []) by done. apply seek_and_run_exec.
  - apply main_exec.
Qed.

End Program.

(** ** Example *)

Lemma lseek_then_exec_witness :
  exec (main true [B "lseek"; B "-S"; B "-E"; B "4"; B "-512"; B "cat"; B "-n"])
    [Event (LSeek 4 (-512) 2) (Ok 1024); Event (Execvp (Some (B "cat")) [B "cat"; B "-n"]) None]
    (Stopped Replaced) /\
  exec (main true [B "lseek"; B "-S"; B "-E"; B "4"; B "-512"])
    [Event (LSeek 4 (-512) 2) (Ok 1024); Event (Execvp None []) None] (Stopped Replaced).
Proof.
  destruct (lseek_then_exec true (B "lseek") [OptS; OptE] 4 (-512)) as (H1 & H2 & _).
  - unfold INT_MAX. lia.
  - unfold LONG_MIN, LONG_MAX. lia.
  - split.
    + apply (H1 (B "cat") [B "-n"]). apply SoughtAndRan.
    + apply H2. apply SoughtAndRan.
Defined.

End Lseek.
