(* ===== verification/Tests.v ===== *)
(** * Tests: the repository's own tests of [start-vmm], for every directory

    The unit tests of [lib.rs] and [net.rs] and the two integration tests of
    [host/start-vmm/tests], as programs that panic when an assertion fails.  The
    integration tests prepare a fresh temporary directory; here they are shown
    to pass in every directory. *)

From S2P Require Import Prelude Effects RustStd Sys Scenario Mac Ch NetUtil Fork NetSetup StartVmm.

Module Tests.
Import Ch StartVmm.

(** [str::contains]. *)
Fixpoint contains (sub s : bytes) : bool :=
  starts_with sub s || match s with [] => false | _ :: s' => contains sub s' end.

(** [assert!]: a failed assertion is a panic. *)
Definition assert (b : bool) : M unit := if b then mret tt else halt Panic.

Section Tests.
Context {FMT : Fmt} {JSON : Json}.

(** ** Unit tests *)

Definition test_vm_name_colon (E : env) (ready_fd : Z) : M unit :=
  let* r := create_vm E (B "/:vm") ready_fd in
  match r with
  | Ok _ => halt Panic
  | Err e => assert (contains (B "colon") e)
  end.

Definition mac_to_string_all_zero : bool :=
  bool_decide (Mac.to_string (Mac.Octets NUL NUL NUL NUL NUL NUL) = B "00:00:00:00:00:00").

Definition mac_to_string_hex : bool :=
  bool_decide (Mac.to_string (Mac.Octets Byte.xfe Byte.xdc Byte.xba Byte.x98 Byte.x76 Byte.x54)
               = B "FE:DC:BA:98:76:54").

(** ** Integration tests

    They call the outside themselves, and so does the code under test. *)

Inductive test : Type -> Type :=
| VarOs (name : bytes) : test (option bytes)
| Mkdtemp (template : bytes) : test (result bytes io_error)
| CreateDirAll (path : bytes) : test (result unit io_error)
| CreateDir (path : bytes) : test (result unit io_error)
| CreateFile (path : bytes) : test (result unit io_error)
| Symlink (original link : bytes) : test (result unit io_error)
| RemoveDirAll (path : bytes) : test (result unit io_error)
| Tested {X} (c : sys X) : test X.

(** The code under test, started with [errno] 0. *)
Fixpoint under_test {A} (p : prog sys A) : prog test A :=
  match p with
  | Ret a => Ret a
  | Halt s => Halt s
  | Vis c k => Vis (Tested c) (fun x => under_test (k x))
  end.

(** [unwrap] of a result, and [assert!]. *)
Definition unwrap_ok {A E} (r : result A E) : prog test A :=
  match r with Ok a => Ret a | Err _ => Halt Panic end.

Definition check (b : bool) : prog test unit := if b then Ret tt else Halt Panic.

(** [TempDir] of [helper.rs]. *)
Definition TempDir_new (E : env) : prog test (result bytes io_error) :=
  let* TMPDIR := call (VarOs (B "TMPDIR")) in
  call (Mkdtemp (default (B "/tmp") TMPDIR ++ B "/spectrum-start-vmm-test-" ++ prog_name E
                 ++ B ".XXXXXX")).

Definition TempDir_drop (path : bytes) : prog test unit :=
  let* _ := call (RemoveDirAll path) in mret tt.

(** A test body in a temporary directory, which is dropped when it returns. *)
Definition in_temp_dir (E : env) (body : bytes -> prog test (result unit io_error))
  : prog test (result unit io_error) :=
  let* tmp_dir := TempDir_new E in
  match tmp_dir with
  | Err e => mret (Err e)
  | Ok path =>
      let* r := body path in
      let* _ := TempDir_drop path in
      mret r
  end.

(** The assertions of [vm_command-basic.rs]. *)
Definition basic_asserts (E : env) (vm_dir : bytes) (config : VmConfig) : bool :=
  let kernel_path := Path.join vm_dir (B "config/vmlinux") in
  let image_path := Path.join vm_dir (B "config/blk/root.img") in
  bool_decide (console_mode (console config) = B "Pty") &&
  match disks config with
  | [disk1] => bool_decide (disk_path disk1 = image_path) && disk_readonly disk1
  | _ => false
  end &&
  bool_decide (fs_tag (fs config) = B "virtiofs0") &&
  bool_decide (fs_socket (fs config) =
               B "/run/service/vhost-user-fs/instance/testvm/env/virtiofsd.sock") &&
  bool_decide (payload_kernel (payload config) = kernel_path) &&
  bool_decide (payload_cmdline (payload config) =
               if x86_64 E then B "console=ttyS0 root=PARTLABEL=root" else B "root=PARTLABEL=root") &&
  (memory_size (memory config) =? 1073741824) && memory_shared (memory config) &&
  bool_decide (console_mode (serial config) = B "File") &&
  bool_decide (console_file (serial config) = Some (B "/run/testvm.log")) &&
  (vsock_cid (vsock config) =? 3) &&
  bool_decide (vsock_socket (vsock config) = Path.join vm_dir (B "vsock")).

Definition vm_command_basic (E : env) (tmp_dir : bytes) : prog test (result unit io_error) :=
  let vm_dir := Path.join tmp_dir (B "testvm") in
  let kernel_path := Path.join vm_dir (B "config/vmlinux") in
  let image_path := Path.join vm_dir (B "config/blk/root.img") in
  let* kernel_dir := unwrap_opt (Path.parent kernel_path) in
  let? _ := call (CreateDirAll kernel_dir) in
  let* image_dir := unwrap_opt (Path.parent image_path) in
  let? _ := call (CreateDirAll image_dir) in
  let? _ := call (CreateFile kernel_path) in
  let? _ := call (CreateFile image_path) in
  let* r := under_test (vm_config E vm_dir 0) in
  let* config := unwrap_ok r.1 in
  let* _ := check (basic_asserts E vm_dir config) in
  mret (Ok tt).

Definition vm_command_basic_main (E : env) : prog test (result unit io_error) :=
  in_temp_dir E (vm_command_basic E).

(** The assertions of [vm_command-multiple-disks.rs]; the sets are compared as
    sets. *)
Definition disks_asserts (vm_config_dir : bytes) (config : VmConfig) : bool :=
  let image_paths : gset bytes :=
    {[Path.join vm_config_dir (B "blk/disk1.img");
      Path.join vm_config_dir (B "blk/disk2.img")]} in
  bool_decide (length (disks config) = 2%nat) &&
  forallb disk_readonly (disks config) &&
  bool_decide (list_to_set (disk_path <$> disks config) = image_paths).

Definition vm_command_multiple_disks (E : env) (tmp_dir : bytes)
  : prog test (result unit io_error) :=
  let vm_config_dir := Path.join tmp_dir (B "testvm/config") in
  let image n := Path.join vm_config_dir (B "blk/disk" ++ dec n ++ B ".img") in
  let? _ := call (CreateDirAll vm_config_dir) in
  let? _ := call (CreateFile (Path.join vm_config_dir (B "vmlinux"))) in
  let? _ := call (CreateDir (Path.join vm_config_dir (B "blk"))) in
  let? _ := call (Symlink (B "/dev/null") (image 1)) in
  let? _ := call (Symlink (B "/dev/null") (image 2)) in
  let* vm_dir := unwrap_opt (Path.parent vm_config_dir) in
  let* r := under_test (vm_config E vm_dir 0) in
  let* config := unwrap_ok r.1 in
  let* _ := check (disks_asserts vm_config_dir config) in
  mret (Ok tt).

Definition vm_command_multiple_disks_main (E : env) : prog test (result unit io_error) :=
  in_temp_dir E (vm_command_multiple_disks E).

(** ** The configuration of a VM without a network *)

Definition blk_of (vm_dir : bytes) : bytes := Path.join (Path.join vm_dir (B "config")) (B "blk").
Definition providers_of (vm_dir : bytes) : bytes :=
  Path.join (Path.join vm_dir (B "config")) (B "providers/net").

Definition expected_config (E : env) (vm_dir name : bytes) (names : list bytes) : VmConfig := {|
  console := {| console_mode := B "Pty"; console_file := None |};
  disks := image_disks (blk_of vm_dir) names;
  fs := fs_config name; gpu := [gpu_config name];
  memory := {| memory_size := 2 ^ 30; memory_shared := true |}; net := [];
  payload := {| payload_kernel := Path.join (Path.join vm_dir (B "config")) (B "vmlinux");
                payload_cmdline := cmdline E |};
  serial := {| console_mode := B "File"; console_file := Some (B "/run/" ++ name ++ B ".log") |};
  vsock := {| vsock_cid := 3; vsock_socket := Path.join vm_dir (B "vsock") |} |}.

(** The kernel's answers: a listing of the images, and no providers. *)
Definition answers (vm_dir : bytes) (names : list bytes) : list (event sys) :=
  [Event (ReadDir (blk_of vm_dir)) (Ok (entries_ok names));
   Event (ReadDir (providers_of vm_dir)) (Err (OsError ENOENT))].

Lemma utf8_join p n :
  Path.no_trailing_slash p -> Path.is_absolute n = false -> Utf8.valid p = true ->
  Utf8.valid (Path.join p n) = Utf8.valid n.
Proof.
  intros Hp Hn Hv. rewrite Path.join_relative by done. rewrite Utf8.valid_app by done.
  change (SLASH :: n) with ([SLASH] ++ n). by rewrite Utf8.valid_app.
Qed.

Lemma vm_config_runs E vm_dir name names e :
  Path.no_trailing_slash vm_dir -> Path.file_name vm_dir = Some name ->
  Utf8.valid vm_dir = true -> Utf8.valid name = true -> COLON ∉ name ->
  Forall (fun n => usable (Path.join (blk_of vm_dir) n)) (image_names (blk_of vm_dir) names) ->
  exec (vm_config E vm_dir e) (answers vm_dir names)
    (Done (Ok (expected_config E vm_dir name names), e)).
Proof.
  intros Hs Hn Hv Hvn Hc Hu.
  assert (Hs' : Path.no_trailing_slash (Path.join vm_dir (B "config")))
    by (apply Path.join_no_trailing_slash; [done|by_eval]).
  unfold vm_config. rewrite Hn. unfold mbind, M_bind. simpl.
  unfold to_str at 1. rewrite Hvn. simpl. unfold has_byte. rewrite bool_decide_false by done.
  unfold read_disks, read_nets, mbind, M_bind. simpl.
  exists (Ok (entries_ok names)), [Event (ReadDir (providers_of vm_dir)) (Err (OsError ENOENT))].
  split; [done|]. rewrite collect_disks_accepts by done. simpl.
  exists (Err (OsError ENOENT)), []. split; [done|]. simpl.
  unfold to_str. rewrite !utf8_join by (done || by rewrite ?utf8_join). done.
Qed.

(** ** The tests pass *)

Lemma contains_iff sub s :
  contains sub s = true <-> exists l r, s = l ++ sub ++ r.
Proof.
  assert (Hs : forall u, starts_with sub u = true <-> exists r, u = sub ++ r).
  { intros u. unfold starts_with. split.
    - destruct (strip_prefix sub u) as [r|] eqn:Hr; [|done].
      apply strip_prefix_Some in Hr. eauto.
    - intros [r Hr%strip_prefix_Some]. by rewrite Hr. }
  induction s as [|c s IH]; cbn [contains]; rewrite orb_true_iff, Hs; [|rewrite IH]; split.
  - intros [[r Hr]|]; [|done]. by exists [], r.
  - intros ([|? l] & r & Hr); [|done]. left. by exists r.
  - intros [[r Hr]|(l & r & ->)]; [by exists [], r|by exists (c :: l), r].
  - intros ([|? l] & r & Hr); simplify_eq/=; eauto.
Qed.

Lemma colon_passes E ready_fd e : test_vm_name_colon E ready_fd e = Ret (tt, e).
Proof.
  unfold test_vm_name_colon, mbind, M_bind.
  rewrite (proj2 (create_vm_colon E (B "/:vm") (B ":vm") ready_fd e
                    ltac:(by_eval) ltac:(by_eval) ltac:(by_eval))).
  assert (contains (B "colon") (colon_error (B ":vm")) = true) as Hc; [|simpl; by rewrite Hc].
  apply contains_iff. exists (B "VM name may not contain a "). by eexists.
Qed.

(** What the code under test exchanges with the outside. *)
Definition tested (tr : list (event sys)) : list (event test) :=
  (fun '(Event c x) => Event (Tested c) x) <$> tr.

Lemma exec_under_test {A} (p : prog sys A) tr o :
  exec p tr o -> exec (under_test p) (tested tr) o.
Proof.
  revert tr. induction p as [a|s|X c k IH]; intros tr; simpl; [by intros [-> ->]..|].
  intros (x & tr' & -> & H). exists x, (tested tr'). split; [done|]. by apply IH.
Qed.

(** A run in the temporary directory [dir], with the test's own calls [tr]. *)
Definition temp_dir (E : env) (TMPDIR : option bytes) (dir : bytes) (tr : list (event test))
    (removed : result unit io_error) : list (event test) :=
  [Event (VarOs (B "TMPDIR")) TMPDIR;
   Event (Mkdtemp (default (B "/tmp") TMPDIR ++ B "/spectrum-start-vmm-test-" ++ prog_name E
                   ++ B ".XXXXXX")) (Ok dir)]
  ++ tr ++ [Event (RemoveDirAll dir) removed].

Lemma in_temp_dir_runs E body TMPDIR dir tr removed r :
  exec (body dir) tr (Done r) ->
  exec (in_temp_dir E body) (temp_dir E TMPDIR dir tr removed) (Done r).
Proof.
  intros H. do 2 (eexists _, _; split; [done|]; cbn [app]).
  apply exec_bind. left. eexists r, tr, _. split; [done|]. split; [done|].
  by exists removed, [].
Qed.

Section Directory.
Context (tmp_dir : bytes).
Hypothesis Htmp : Path.normal_end tmp_dir.
Hypothesis Hutf8 : Utf8.valid tmp_dir = true.
Hypothesis Hcomma : COMMA ∉ tmp_dir.

Definition testvm : bytes := Path.join tmp_dir (B "testvm").

#[local] Lemma testvm_normal : Path.normal_end testvm.
Proof using Htmp. apply Path.normal_end_join; [done|by_eval]. Qed.

#[local] Lemma no_slash :
  Path.no_trailing_slash tmp_dir /\ Path.no_trailing_slash testvm /\
  Path.no_trailing_slash (Path.join testvm (B "config")) /\
  Path.no_trailing_slash (blk_of testvm).
Proof using Htmp.
  pose proof (Path.normal_end_no_trailing_slash _ testvm_normal).
  assert (Path.no_trailing_slash (Path.join testvm (B "config")))
    by (apply Path.join_no_trailing_slash; [done|by_eval]).
  split_and!; [by apply Path.normal_end_no_trailing_slash|done..|].
  apply Path.join_no_trailing_slash; [done|by_eval].
Qed.

#[local] Lemma below_testvm p :
  Path.is_absolute p = false -> Path.join testvm p = tmp_dir ++ B "/testvm/" ++ p.
Proof using Htmp.
  intros Hp. destruct no_slash as (? & ? & _). rewrite Path.join_relative by done.
  unfold testvm. rewrite Path.join_relative by done. by rewrite <- app_assoc.
Qed.

#[local] Lemma below_blk n :
  Path.is_absolute n = false ->
  Path.join (blk_of testvm) n = tmp_dir ++ B "/testvm/config/blk/" ++ n.
Proof using Htmp.
  intros Hn. destruct no_slash as (_ & ? & ? & ?). rewrite Path.join_relative by done.
  unfold blk_of. rewrite Path.join_relative by done. rewrite below_testvm by done.
  by rewrite <- !app_assoc.
Qed.

(** Names of images that the configuration can carry. *)
Definition plain_image (n : bytes) : Prop :=
  Path.entry_name n /\ Utf8.valid n = true /\ COMMA ∉ n /\
  exists stem, stem <> [] /\ n = stem ++ B ".img".

#[local] Lemma all_images names :
  Forall plain_image names -> image_names (blk_of testvm) names = names.
Proof using Htmp.
  intros Hns. destruct no_slash as (_ & _ & _ & Hblk).
  unfold image_names. induction Hns as [|n ns (Hn & _ & _ & Hstem) Hns IH]; [done|].
  rewrite filter_cons_True; [by rewrite IH|].
  by apply (Path.extension_iff _ n (B "img")); [done|done|by_eval|].
Qed.

(** In [testvm], any listing of such names is accepted. *)
#[local] Lemma testvm_config E names e :
  Forall plain_image names ->
  exec (vm_config E testvm e) (answers testvm names)
    (Done (Ok (expected_config E testvm (B "testvm") names), e)).
Proof using Htmp Hutf8 Hcomma.
  intros Hns. destruct no_slash as (Ht & Hvm & Hcfg & Hblk).
  apply vm_config_runs; [done| | | |by_eval|].
  - apply Path.file_name_join; [done|by_eval].
  - unfold testvm. rewrite utf8_join; done.
  - by_eval.
  - rewrite all_images by done. eapply Forall_impl; [exact Hns|]. intros n (Hn & Hv & Hc & _).
    rewrite below_blk by by apply Path.entry_name_relative. split.
    + rewrite Utf8.valid_app by done. by rewrite Utf8.valid_app.
    + rewrite !not_elem_of_app. split_and!; [done|by_eval|done].
Qed.

Definition disk_names : list bytes := [B "disk1.img"; B "disk2.img"].

#[local] Lemma test_images :
  Forall plain_image [B "root.img"] /\ Forall plain_image disk_names.
Proof using Type.
  assert (forall stem, Path.entry_name (stem ++ B ".img") /\ Utf8.valid (stem ++ B ".img") = true /\
    COMMA ∉ stem ++ B ".img" /\ stem <> [] -> plain_image (stem ++ B ".img")) as Hi.
  { intros stem (? & ? & ? & ?). split_and!; eauto. }
  unfold disk_names. rewrite !Forall_cons, !Forall_nil.
  split_and!; [apply (Hi (B "root"))|done|apply (Hi (B "disk1"))|apply (Hi (B "disk2"))|done];
    by_eval.
Qed.

#[local] Lemma basic_asserts_hold E :
  basic_asserts E testvm (expected_config E testvm (B "testvm") [B "root.img"]) = true.
Proof using Htmp.
  destruct no_slash as (_ & ? & ? & ?).
  unfold basic_asserts, expected_config, image_disks.
  rewrite all_images by apply test_images. cbn -[Z.pow].
  unfold cmdline. rewrite below_blk, (Path.join_relative _ (B "vmlinux")), !below_testvm by done.
  rewrite <- !app_assoc. cbn -[bool_decide].
  rewrite !bool_decide_true; done.
Qed.

#[local] Lemma config_paths :
  (forall p, Path.is_absolute p = false ->
     Path.join testvm (B "config/" ++ p) = Path.join (Path.join testvm (B "config")) p) /\
  Path.join testvm (B "config/blk/root.img") = Path.join (blk_of testvm) (B "root.img") /\
  Path.normal_end (Path.join testvm (B "config")) /\ Path.normal_end (blk_of testvm).
Proof using Htmp.
  destruct no_slash as (_ & ? & ? & ?).
  assert (Path.normal_end (Path.join testvm (B "config")))
    by (apply Path.normal_end_join; [apply testvm_normal|by_eval]).
  split_and!; [| |done|apply Path.normal_end_join; [done|by_eval]].
  - intros p Hp. rewrite (Path.join_relative _ p), !below_testvm by done. by rewrite <- !app_assoc.
  - by rewrite below_blk, below_testvm.
Qed.

Lemma basic_passes E :
  exec (vm_command_basic E tmp_dir)
    ([Event (CreateDirAll (Path.join testvm (B "config"))) (Ok tt);
      Event (CreateDirAll (blk_of testvm)) (Ok tt);
      Event (CreateFile (Path.join testvm (B "config/vmlinux"))) (Ok tt);
      Event (CreateFile (Path.join testvm (B "config/blk/root.img"))) (Ok tt)]
     ++ tested (answers testvm [B "root.img"])) (Done (Ok tt)).
Proof using Htmp Hutf8 Hcomma.
  pose proof (testvm_config E [B "root.img"] 0 (proj1 test_images)) as Hcfg.
  unfold vm_command_basic. fold testvm.
  destruct config_paths as (Hc & -> & ? & ?).
  change (B "config/vmlinux") with (B "config/" ++ B "vmlinux"). rewrite Hc by done.
  rewrite !Path.parent_join by (done || by_eval).
  do 4 (eexists _, _; split; [done|]; cbn [app]).
  apply exec_bind. left. eexists _, _, []. rewrite app_nil_r. split; [done|].
  split; [exact (exec_under_test _ _ _ Hcfg)|]. cbn. unfold check. by rewrite basic_asserts_hold.
Qed.

#[local] Lemma disks_asserts_hold E names :
  names ≡ₚ disk_names ->
  disks_asserts (Path.join testvm (B "config")) (expected_config E testvm (B "testvm") names) = true.
Proof using Htmp.
  clear Hutf8 Hcomma. intros Hns. unfold disks_asserts, expected_config, image_disks. cbn [disks].
  rewrite all_images by (rewrite Hns; apply test_images). destruct no_slash as (_ & ? & ? & ?).
  rewrite !andb_true_iff, !bool_decide_eq_true, length_fmap, forallb_forall. split_and!.
  - by rewrite Hns.
  - intros d (n & -> & _)%list_elem_of_In%list_elem_of_fmap. done.
  - rewrite <- list_fmap_compose, Hns. cbn. rewrite !below_blk by done.
    rewrite !(Path.join_relative _ (B "blk/disk1.img")) by done.
    rewrite !(Path.join_relative _ (B "blk/disk2.img")) by done.
    rewrite !below_testvm by done. rewrite <- !app_assoc. cbn. set_solver.
Qed.

Lemma disks_pass E names :
  names ≡ₚ disk_names ->
  exec (vm_command_multiple_disks E tmp_dir)
    ([Event (CreateDirAll (Path.join testvm (B "config"))) (Ok tt);
      Event (CreateFile (Path.join testvm (B "config/vmlinux"))) (Ok tt);
      Event (CreateDir (blk_of testvm)) (Ok tt);
      Event (Symlink (B "/dev/null") (Path.join testvm (B "config/blk/disk1.img"))) (Ok tt);
      Event (Symlink (B "/dev/null") (Path.join testvm (B "config/blk/disk2.img"))) (Ok tt)]
     ++ tested (answers testvm names)) (Done (Ok tt)).
Proof using Htmp Hutf8 Hcomma.
  intros Hns. assert (Forall plain_image names) as Hi by (rewrite Hns; apply test_images).
  pose proof (testvm_config E names 0 Hi) as Hcfg.
  unfold vm_command_multiple_disks.
  assert (Path.join tmp_dir (B "testvm/config") = Path.join testvm (B "config")) as ->.
  { destruct no_slash as (? & _). rewrite Path.join_relative by done. by rewrite below_testvm. }
  rewrite Path.parent_join by (apply testvm_normal || by_eval).
  destruct config_paths as (Hc & _).
  change (B "config/vmlinux") with (B "config/" ++ B "vmlinux").
  change (B "config/blk/disk1.img") with (B "config/" ++ B "blk/disk" ++ dec 1 ++ B ".img").
  change (B "config/blk/disk2.img") with (B "config/" ++ B "blk/disk" ++ dec 2 ++ B ".img").
  rewrite !Hc by done.
  do 5 (eexists _, _; split; [done|]; cbn [app]).
  apply exec_bind. left. eexists testvm, [], _. split_and!; [done..|].
  apply exec_bind. left. eexists _, _, []. rewrite app_nil_r. split; [done|].
  split; [exact (exec_under_test _ _ _ Hcfg)|]. cbn. unfold check. by rewrite disks_asserts_hold.
Qed.

End Directory.

(** C32. The repository's tests of [start-vmm] pass in every temporary directory
    whose path is UTF-8, has no comma and ends in a name, once the directories
    and files of the test could be created: the basic test when the kernel lists
    the one image created, the test with two disks whatever the order in which
    it lists them, and the unit tests.  Both clean up after themselves. *)
Theorem tests_pass E TMPDIR dir removed ready_fd e :
  Path.normal_end dir -> Utf8.valid dir = true -> COMMA ∉ dir ->
  exec (vm_command_basic_main E)
    (temp_dir E TMPDIR dir
       ([Event (CreateDirAll (Path.join (testvm dir) (B "config"))) (Ok tt);
         Event (CreateDirAll (blk_of (testvm dir))) (Ok tt);
         Event (CreateFile (Path.join (testvm dir) (B "config/vmlinux"))) (Ok tt);
         Event (CreateFile (Path.join (testvm dir) (B "config/blk/root.img"))) (Ok tt)]
        ++ tested (answers (testvm dir) [B "root.img"])) removed) (Done (Ok tt)) /\
  (forall names, names ≡ₚ disk_names ->
     exec (vm_command_multiple_disks_main E)
       (temp_dir E TMPDIR dir
          ([Event (CreateDirAll (Path.join (testvm dir) (B "config"))) (Ok tt);
            Event (CreateFile (Path.join (testvm dir) (B "config/vmlinux"))) (Ok tt);
            Event (CreateDir (blk_of (testvm dir))) (Ok tt);
            Event (Symlink (B "/dev/null") (Path.join (testvm dir) (B "config/blk/disk1.img"))) (Ok tt);
            Event (Symlink (B "/dev/null") (Path.join (testvm dir) (B "config/blk/disk2.img"))) (Ok tt)]
           ++ tested (answers (testvm dir) names)) removed) (Done (Ok tt))) /\
  test_vm_name_colon E ready_fd e = Ret (tt, e) /\
  mac_to_string_all_zero = true /\ mac_to_string_hex = true.
Proof.
  intros Htmp Hv Hc. split_and!; [| | |by vm_compute..].
  - by apply in_temp_dir_runs, basic_passes.
  - intros names Hn. by apply in_temp_dir_runs, disks_pass.
  - apply colon_passes.
Qed.

End Tests.

#[local] Existing Instance plain_fmt.
#[local] Existing Instance no_json.

Definition sample_dir : bytes := B "/tmp/spectrum-start-vmm-test-basic.k3Qv9Z".

Lemma tests_pass_witness :
  exec (vm_command_multiple_disks_main web_env)
    (temp_dir web_env None sample_dir
       ([Event (CreateDirAll (Path.join (testvm sample_dir) (B "config"))) (Ok tt);
         Event (CreateFile (Path.join (testvm sample_dir) (B "config/vmlinux"))) (Ok tt);
         Event (CreateDir (blk_of (testvm sample_dir))) (Ok tt);
         Event (Symlink (B "/dev/null") (Path.join (testvm sample_dir) (B "config/blk/disk1.img"))) (Ok tt);
         Event (Symlink (B "/dev/null") (Path.join (testvm sample_dir) (B "config/blk/disk2.img"))) (Ok tt)]
        ++ tested (answers (testvm sample_dir) disk_names)) (Ok tt)) (Done (Ok tt)).
Proof.
  apply (tests_pass web_env None sample_dir (Ok tt) 3 0); [by_eval..|reflexivity].
Defined.

End Tests.
